(* ===== verification/_CoqProject ===== *)
-Q . S2P
Prelude.v
Text.v
Backoff.v
Wifi.v
Bluetooth.v
Foundation.v
Networking.v
Mqtt.v
MqttClient.v
Storage.v
Port.v
FirmwareConfig.v
Firmware.v
Advertisement.v
Scanner.v
Beacon.v
HostStd.v
XtaskRegistry.v
XtaskCommands.v
Peripheral.v
Boot.v
BeaconFirmware.v
Traffic.v
Sighting.v
SerialLog.v
PowerLoss.v
HostRunner.v
RamFlash.v
HostTests.v
