(* ===== verification/Prelude.v ===== *)
(** * The Embedded SDK, modelled and verified

    This library models the Rust code of the Embedded SDK for the Seeed XIAO
    ESP32C6 as executable Rocq functions, and proves what makes it correct.
    This file is its root: the map below, then the shared vocabulary.

    ** The program

    The SDK is a set of portable crates ([crates/]), the adapters that bind
    them to third-party engines, a port to the ESP32-C6 ([ports/]), a board
    ([boards/]), three firmwares ([firmware/]) and a build tool
    ([tools/xtask]).  The portable crates hold
    validated values (SSIDs, passphrases, topics, hostnames, names, UUIDs) as
    fixed arrays with a length, snapshots of what a service does, and the
    reconnect back-offs.  The adapters drive a third-party engine and keep the
    snapshot truthful.  The firmwares are tasks that loop over adapters: the
    station supervisor, the network monitor, the MQTT task and its telemetry
    producer, the Bluetooth peripheral, the beacon, the scanner.  The build tool
    discovers boards and firmwares in the workspace's metadata and runs Cargo,
    rustfmt, Clippy and espflash on them.

    ** Files, and the code each models

    - [Prelude] (this file): outcomes of Rust calls, machine integers, slices,
      searches, fixed arrays with a length, tactics and hints.
    - [Text]: UTF-8, the string searches, integer parsing and formats of
      Rust's standard library that the SDK uses.
    - [Backoff]: the interface of a reconnect back-off calculator (class
      [Backoff], laws [BackoffLaws]) and retry loops over it; [Wifi] and
      [Mqtt] instantiate it, [Firmware] uses it.
    - [Wifi]: [crates/wifi]: SSIDs, passphrases, station configurations, scan
      reports, [ReconnectPolicy] and [ReconnectBackoff].
    - [Bluetooth]: [crates/bluetooth]: device names, beacon UUIDs, iBeacon
      frames, advertising intervals, static random addresses.
    - [Foundation]: [crates/core], [crates/config], [crates/runtime],
      [crates/telemetry], [boards/seeed/xiao-esp32c6] and the constants of
      [ports/espressif/esp32c6].
    - [Networking]: [crates/networking] and [crates/networking-embassy-net];
      the Embassy stack is a sequence of observations.
    - [Mqtt]: [crates/mqtt]: hostnames, client identifiers, topics, filters,
      session configuration, snapshots, the MQTT back-off.
    - [MqttClient]: [crates/mqtt-minimq] over the engine class [Minimq];
      a [Client] is the engine's session and the snapshot.
    - [Storage]: [crates/storage]: keys, the record codec, and
      [SequentialStore] over the engine class [MapEngine]; its abstract
      machine is [kv_spec_step].
    - [PowerLoss]: the same store across restarts, each of which ends with
      [into_flash] or in the middle of a call; a life is its calls and its end.
    - [Port]: [ports/espressif/esp32c6/src/wifi.rs] and [bluetooth.rs] over
      the driver class [WifiDriver].
    - [FirmwareConfig]: the build-time configuration of
      [firmware/seeed/xiao-esp32c6/src/main.rs].
    - [Firmware]: the tasks of the same file; [FwState] is the MQTT client,
      its back-off, the outbound channel and the atomic drop counter.
    - [Advertisement], [Scanner]:
      [firmware/seeed/xiao-esp32c6-beacon-scanner/src/main.rs]; [DeviceRegistry]
      is its 128 slots, the remembered devices and the window counters.
    - [Beacon]: [firmware/seeed/xiao-esp32c6-beacon/src/main.rs], its settings
      and packets.
    - [HostStd]: the parts of [std] a host program uses: string order, sorted
      maps and sets, stable sorting, lossy UTF-8, [Debug] of strings.
    - [XtaskRegistry]: [tools/xtask/src/main.rs], the registry of boards and
      firmwares: declarations, discovery, selectors, legacy arguments, errors.
    - [XtaskCommands]: the same file's commands, [execute] and [main]; a
      command is a computation of [Io] over the log of [Event]s.
    - [Peripheral]: the GATT session, the advertiser and the Bluetooth task of
      [firmware/seeed/xiao-esp32c6/src/main.rs].
    - [Boot]: that file's [main], [start_networking] and [run_network_probe].
    - [BeaconFirmware]: the [main]s and loops of the beacon and the scanner, as
      lists of [BeaconOutput].
    - [SerialLog]: the lines the reference firmware's [main] and station
      supervisor print, and the [Debug] texts of the bounded strings.
    - [Traffic], [Sighting]: no code of their own; theorems about several parts
      together, the MQTT task with its engine and network, the beacon with the
      scanner.
    - [HostRunner]: the [bluetooth_runner]s of the three firmwares and what
      joining them to a task's loop does.
    - [RamFlash]: the NOR flash in memory of [crates/storage]'s tests, whose
      writes and erases can be interrupted.
    - [HostTests]: [tests/host] and the unit tests of the crates, the board and
      the build tool, as computations that panic when an assertion fails.

    ** How the code is modelled

    A Rust call is a function into [res E A]: [Ok], [Err] or [Panic].  Slice
    ranges, array indices and the checked [+] and [-] that can fail panic
    explicitly, so "never panics" is a theorem and not an assumption.  An
    integer of [w] bits is a [Z] whose wrap-around, saturation or check is
    written out.  A [&mut self] method takes and returns the state.  An
    [async] call is one step from the state it starts in to the one it
    resolves in; where a future can be cancelled ([select], [with_timeout]),
    the engine's session afterwards is whatever the environment says.  A publish
    can outlast turns of the telemetry producer, which runs meanwhile.

    Third-party code is a class of calls that thread an abstract state
    ([Minimq], [MapEngine], [WifiDriver], [TroubleHost], [AdEncoder]); what the
    SDK relies on is a separate class of laws ([MapEngineLaws],
    [PowerFailSafe], [WifiDriverLaws], [MinimqTotal], [AdEncoderLaws]), each with a concrete
    instance ([ram_engine], [toggling], [loopback], [fixture_encoder]) on which
    the theorems are evaluated.  The TOML and JSON of the build tool are the
    class [Serde] and its processes and terminal the class [Host], with the
    instances [fixture_serde] and [XtaskCommands.fixture_host]; neither has
    laws: the theorems hold for every answer, a refused line included.  [sort_unstable_by] is the class
    [SortUnstable], since the order of ties is open.

    ** What the theorems show

    - Refinement: [SequentialStore] implements the abstract key-value machine
      for every sequence of operations ([Storage]), restarts and power losses
      included, so an acknowledged write is never lost ([PowerLoss]); the scanner's slots
      implement a bounded map with least-recently-seen eviction ([Scanner]).
    - Conservation and truthfulness: every telemetry message is published,
      queued, counted as dropped or lost in an unfinished publish, and the
      MQTT snapshot tells what the task does ([Firmware]); the client's
      counters are those of its history ([MqttClient], [Mqtt]); the station
      controller's state follows its calls ([Port]); each scan window's
      statistics and report are exactly those of its reports ([Scanner]).
    - Schedules: closed forms and bounds of both back-offs, of whole retry
      sequences, and of the supervisor's loop ([Wifi], [Mqtt], [Backoff],
      [Firmware]).  The base delay of the MQTT back-off collapses to zero once
      its shift loses every bit, see [mqtt_backoff_collapses].
    - Grammars and round trips: UUIDs, hostnames, topics, SSIDs, passphrases,
      record encodings, keys, iBeacon payloads, displayed names.
    - Configuration: fixture settings are enabled exactly for complete valid
      variables, a partial set is refused with its own error, and credentials are never downgraded ([FirmwareConfig],
      [Beacon]).
    - The build tool: discovery accepts exactly the well-declared workspaces,
      whatever the order of the packages, every rejection names a package that
      deserves it, and the registry addresses every firmware once
      ([XtaskRegistry]); each command starts exactly the processes it should, in
      order, stops at the first failure, and panics only when its own output
      cannot be written ([XtaskCommands]).
    - Whole firmwares: the credentials that reach the driver are those of the
      build, the tasks started are those of the configuration ([Boot]); a GATT
      session ends and the device can be found again ([Peripheral]); a flashed
      beacon broadcasts what it was built for, and the scanner reports it
      ([BeaconFirmware]).
    - Across components: a beacon whose packets reach the scanner is a line of
      its report, from the build-time variables of the one to the printed text of
      the other ([Sighting]); the MQTT task speaks to its broker, on its topics,
      and to nobody else ([Traffic]); two builds that differ in the Wi-Fi password
      print the same serial log ([SerialLog]).

    - Conformance: the repository's own tests pass on the model ([HostTests]);
      an interrupted write of the test flash leaves exactly its first bytes
      ([RamFlash]).

    ** Fuel and bounds

    [Bluetooth.uuid_loop] runs on one more step than the text's length (37
    for a UUID), [Networking.wait_ip_ready_loop] on one more than the
    observations; running out is [Panic], which [uuid_parse_exact] and
    [wait_ip_ready_first] exclude.  [fixture_host]'s decoder runs on the number
    of its bytes, and so do [HostStd]'s two UTF-8 loops; each step consumes at
    least one byte.  Loops that never return in the firmware run over the list
    of their turns.  Everything else is structural.  The exact counters of a
    scan window need fewer than 2^24 reports and those of the MQTT task fewer
    than 2^32 messages, beyond which the code saturates or wraps.

    ** Not modelled

    Clock, heap, interrupt and scheduler set-up ([start_embassy]), the radio's
    own calls, the polling inside the runners of the Bluetooth host and of
    Embassy's network stack, and the engines behind the classes above: they are
    hardware or third-party code.  [crates/embedded-sdk] only re-exports, and
    derived [Debug] implementations, accessors that return a field and [TryFrom]
    implementations that call [new] are left out.  In [HostTests], the bytes that
    the third-party engines write are not checked.
*)
From stdpp Require Import prelude list numbers option.

Declare Scope sdk_scope.
Delimit Scope sdk_scope with sdk.

(** * Outcomes of Rust functions *)

(** A Rust call returns [Ok], returns [Err], or panics (slice index out of
    range, arithmetic overflow in a build with overflow checks, [expect] on
    [None]).  A function whose Rust type is not a [Result] is polymorphic in
    the error type [E]. *)
Inductive res (E A : Type) : Type :=
  | Ok (a : A)
  | Err (e : E)
  | Panic.

Arguments Ok {E A} a.
Arguments Err {E A} e.
Arguments Panic {E A}.

#[export] Instance res_ret {E} : MRet (res E) := λ A a, Ok a.

#[export] Instance res_bind {E} : MBind (res E) := λ A B f r,
  match r with
  | Ok a => f a
  | Err e => Err e
  | Panic => Panic
  end.

#[export] Instance res_fmap {E} : FMap (res E) := λ A B f r,
  match r with
  | Ok a => Ok (f a)
  | Err e => Err e
  | Panic => Panic
  end.

#[export] Instance res_eq_dec {E A} `{EqDecision E} `{EqDecision A} :
  EqDecision (res E A).
Proof. solve_decision. Defined.

(** [Result::map_err]. *)
Definition map_err {E F A} (f : E → F) (r : res E A) : res F A :=
  match r with
  | Ok a => Ok a
  | Err e => Err (f e)
  | Panic => Panic
  end.

(** [Option::ok_or]. *)
Definition ok_or {E A} (e : E) (o : option A) : res E A :=
  match o with
  | Some a => Ok a
  | None => Err e
  end.

(** [Result::ok]. *)
Definition ok_opt {E A} (r : res E A) : option A :=
  match r with
  | Ok a => Some a
  | _ => None
  end.

Definition is_ok {E A} (r : res E A) : Prop := ∃ a, r = Ok a.

Section ResLemmas.
Context {E : Type}.

Lemma bind_Ok_iff {A B} (r : res E A) (f : A → res E B) b :
  (r ≫= f) = Ok b ↔ ∃ a, r = Ok a ∧ f a = Ok b.
Proof. destruct r; simpl; naive_solver. Qed.

Lemma bind_Err_iff {A B} (r : res E A) (f : A → res E B) e :
  (r ≫= f) = Err e ↔ r = Err e ∨ ∃ a, r = Ok a ∧ f a = Err e.
Proof. destruct r; simpl; naive_solver. Qed.

Lemma bind_not_Panic {A B} (r : res E A) (f : A → res E B) :
  r ≠ Panic → (∀ a, r = Ok a → f a ≠ Panic) → (r ≫= f) ≠ Panic.
Proof. destruct r; simpl; naive_solver. Qed.

Lemma map_err_Ok_iff {F A} (f : E → F) (r : res E A) a :
  map_err f r = Ok a ↔ r = Ok a.
Proof. destruct r; simpl; naive_solver. Qed.

Lemma map_err_Err_iff {F A} (f : E → F) (r : res E A) e :
  map_err f r = Err e ↔ ∃ e', r = Err e' ∧ f e' = e.
Proof. destruct r; simpl; naive_solver. Qed.

Lemma map_err_not_Panic {F A} (f : E → F) (r : res E A) :
  r ≠ Panic → map_err f r ≠ Panic.
Proof. by destruct r. Qed.

Lemma ok_or_Ok_iff {A} (e : E) (o : option A) a :
  ok_or e o = Ok a ↔ o = Some a.
Proof. destruct o; simpl; naive_solver. Qed.
End ResLemmas.

(** Two runs of fallible code: they succeed with related values, fail alike, or
    both panic. *)
Definition res_rel {E A B} (R : A → B → Prop) (r1 : res E A) (r2 : res E B) : Prop :=
  match r1, r2 with
  | Ok a, Ok b => R a b
  | Err e1, Err e2 => e1 = e2
  | Panic, Panic => True
  | _, _ => False
  end.

Lemma res_rel_bind {E A B C D} (R : A → B → Prop) (S : C → D → Prop) (r1 : res E A) (r2 : res E B)
    (f1 : A → res E C) (f2 : B → res E D) :
  res_rel R r1 r2 → (∀ a b, R a b → res_rel S (f1 a) (f2 b)) →
  res_rel S (r1 ≫= f1) (r2 ≫= f2).
Proof. destruct r1, r2; cbn; intros Hr Hf; naive_solver. Qed.

Lemma res_rel_eq {E A} (r1 r2 : res E A) : res_rel eq r1 r2 ↔ r1 = r2.
Proof. destruct r1, r2; cbn; naive_solver. Qed.

(** * Machine integers *)

(** An integer of [w] bits is a [Z] in range; every operation that can leave
    the range writes its wrap-around, saturation or overflow check out. *)
Section MachineIntegers.
Local Open Scope Z_scope.

Definition is_u (w x : Z) : Prop := 0 ≤ x < 2 ^ w.
Definition is_s (w x : Z) : Prop := - 2 ^ (w - 1) ≤ x < 2 ^ (w - 1).

#[global] Instance is_u_dec w x : Decision (is_u w x).
Proof. unfold is_u. apply _. Defined.
#[global] Instance is_s_dec w x : Decision (is_s w x).
Proof. unfold is_s. apply _. Defined.

(** Greatest unsigned value of [w] bits ([u32::MAX], ...). *)
Definition u_max (w : Z) : Z := 2 ^ w - 1.

(** [x as uW] and [x as iW]. *)
Definition wrap_u (w x : Z) : Z := x mod 2 ^ w.
Definition wrap_s (w x : Z) : Z := (x + 2 ^ (w - 1)) mod 2 ^ w - 2 ^ (w - 1).

Definition wrapping_add_u (w a b : Z) : Z := wrap_u w (a + b).
Definition saturating_add_u (w a b : Z) : Z := Z.min (a + b) (u_max w).
Definition saturating_sub_u (a b : Z) : Z := Z.max (a - b) 0.
Definition saturating_mul_u (w a b : Z) : Z := Z.min (a * b) (u_max w).
Definition saturating_add_s (w a b : Z) : Z :=
  Z.max (- 2 ^ (w - 1)) (Z.min (a + b) (2 ^ (w - 1) - 1)).
Definition s_min (w : Z) : Z := - 2 ^ (w - 1).

(** [uW::checked_shl]: [None] only when the shift amount is at least the
    width; high bits that leave the word are lost silently. *)
Definition checked_shl (w x n : Z) : option Z :=
  if n <? w then Some (wrap_u w (Z.shiftl x n)) else None.

(** The operators [+] and [-], with Rust's overflow check. *)
Definition add_u {E} (w a b : Z) : res E Z :=
  if a + b <? 2 ^ w then Ok (a + b) else Panic.
Definition sub_s {E} (w a b : Z) : res E Z :=
  if decide (is_s w (a - b)) then Ok (a - b) else Panic.

Lemma wrap_u_small w x : is_u w x → wrap_u w x = x.
Proof. apply Z.mod_small. Qed.

Lemma wrap_u_range w x : 0 ≤ w → is_u w (wrap_u w x).
Proof. intros. apply Z.mod_pos_bound. by apply Z.pow_pos_nonneg. Qed.

Lemma wrap_s_small w x : 0 < w → is_s w x → wrap_s w x = x.
Proof.
  unfold wrap_s, is_s. intros Hw Hx.
  assert (2 ^ w = 2 * 2 ^ (w - 1)) as Hp.
  { rewrite <-Z.pow_succ_r by lia. f_equal. lia. }
  rewrite Z.mod_small by lia. lia.
Qed.

Lemma saturating_add_u_range w a b :
  is_u w a → is_u w b → is_u w (saturating_add_u w a b).
Proof. unfold saturating_add_u, is_u, u_max. lia. Qed.

Lemma saturating_sub_u_range w a b :
  is_u w a → 0 ≤ b → is_u w (saturating_sub_u a b).
Proof. unfold saturating_sub_u, is_u. lia. Qed.

Lemma add_u_Ok {E} w a b : a + b < 2 ^ w → add_u (E := E) w a b = Ok (a + b).
Proof. unfold add_u. intros ?%Z.ltb_lt. by case_match. Qed.

Lemma sub_s_Ok {E} w a b : is_s w (a - b) → sub_s (E := E) w a b = Ok (a - b).
Proof. unfold sub_s. intros. by case_decide. Qed.

Lemma mod_upto m x : 0 ≤ m → 0 ≤ x mod (m + 1) ≤ m.
Proof. intros. pose proof (Z.mod_pos_bound x (m + 1)). lia. Qed.

(** Packing two fields into one word. *)
Lemma lor_shiftl w n r :
  0 ≤ w → 0 ≤ n → is_u w r → Z.lor (Z.shiftl n w) r = n * 2 ^ w + r.
Proof.
  unfold is_u. intros Hw Hn Hr. rewrite <-Z.shiftl_mul_pow2 by done.
  symmetry. apply Z.add_nocarry_lor, Z.bits_inj'. intros i Hi.
  rewrite Z.land_spec, Z.bits_0, Z.shiftl_spec by done.
  destruct (Z.lt_ge_cases i w) as [Hlt|Hge]; [by rewrite Z.testbit_neg_r by lia|].
  assert (Z.testbit r i = false) as ->; [|by rewrite andb_false_r].
  rewrite <-(Z.mod_small r (2 ^ w)) by done. by apply Z.mod_pow2_bits_high.
Qed.
(** Bits of two words. *)
Lemma lor_u w a b : 0 ≤ w → is_u w a → is_u w b → is_u w (Z.lor a b).
Proof.
  unfold is_u. intros Hw Ha Hb. split; [apply Z.lor_nonneg; lia|].
  destruct (Z.eq_dec (Z.lor a b) 0) as [->|Hne]; [by apply Z.pow_pos_nonneg|].
  assert (0 ≤ Z.lor a b) by (apply Z.lor_nonneg; lia).
  apply Z.log2_lt_pow2; [lia|]. rewrite Z.log2_lor by lia.
  destruct (Z.eq_dec a 0) as [->|Ha0]; destruct (Z.eq_dec b 0) as [->|Hb0];
    rewrite ?Z.max_lub_lt_iff; try done;
    repeat match goal with
    | |- _ ∧ _ => split
    | |- Z.log2 0 < _ => simpl
    | |- Z.log2 ?x < w => apply Z.log2_lt_pow2; lia
    end; try lia.
  all: destruct (Z.eq_dec w 0) as [->|]; simpl in *; lia.
Qed.
End MachineIntegers.

Notation "'u8'" := (is_u 8) (only parsing) : sdk_scope.
Notation "'u16'" := (is_u 16) (only parsing) : sdk_scope.
Notation "'u32'" := (is_u 32) (only parsing) : sdk_scope.
Notation "'u64'" := (is_u 64) (only parsing) : sdk_scope.
Notation "'i8'" := (is_s 8) (only parsing) : sdk_scope.
Notation "'i16'" := (is_s 16) (only parsing) : sdk_scope.
Notation "'i32'" := (is_s 32) (only parsing) : sdk_scope.

(** A byte is a [Z] in [0, 256); a byte string is a list of bytes. *)
Definition is_bytes (l : list Z) : Prop := Forall (is_u 8) l.

(** A decidable fact about bytes is checked on all 256 of them. *)
Definition all_bytes : list Z := Z.of_nat <$> seq 0 256.

Lemma byte_check (P : Z → bool) :
  forallb P all_bytes = true → ∀ b, is_u 8 b → P b = true.
Proof.
  intros H b Hb. rewrite forallb_forall in H. apply H, list_elem_of_In.
  apply list_elem_of_fmap. exists (Z.to_nat b). unfold is_u in Hb.
  rewrite elem_of_seq. split; lia.
Qed.

(** * Slices *)

(** Slice operations of Rust, which panic out of range. *)
Section Slices.
Context {A : Type}.

(** [&l[..n]] *)
Definition slice_to {E} (l : list A) (n : nat) : res E (list A) :=
  if decide (n ≤ length l) then Ok (take n l) else Panic.

(** [l[i]] *)
Definition index {E} (l : list A) (i : nat) : res E A :=
  match l !! i with
  | Some x => Ok x
  | None => Panic
  end.

(** [l[i] = x] *)
Definition store_at {E} (l : list A) (i : nat) (x : A) : res E (list A) :=
  if decide (i < length l) then Ok (<[i := x]> l) else Panic.

(** [dst[a..b].copy_from_slice(src)] *)
Definition copy_range {E} (dst : list A) (a b : nat) (src : list A) :
  res E (list A) :=
  if decide (a ≤ b ∧ b ≤ length dst ∧ length src = b - a)
  then Ok (take a dst ++ src ++ drop b dst)
  else Panic.

(** [dst[..src.len()].copy_from_slice(src)] *)
Definition copy_prefix {E} (dst src : list A) : res E (list A) :=
  copy_range dst 0 (length src) src.

Lemma slice_to_Ok {E} (l : list A) n :
  n ≤ length l → slice_to (E := E) l n = Ok (take n l).
Proof. intros. unfold slice_to. by case_decide. Qed.

Lemma index_Ok {E} (l : list A) i x :
  l !! i = Some x → index (E := E) l i = Ok x.
Proof. unfold index. by intros ->. Qed.

Lemma copy_range_Ok {E} (dst : list A) a b src :
  a ≤ b → b ≤ length dst → length src = b - a →
  copy_range (E := E) dst a b src = Ok (take a dst ++ src ++ drop b dst).
Proof. intros. unfold copy_range. by rewrite decide_True. Qed.

Lemma copy_prefix_Ok {E} (dst src : list A) :
  length src ≤ length dst →
  copy_prefix (E := E) dst src = Ok (src ++ drop (length src) dst).
Proof. intros. unfold copy_prefix. rewrite copy_range_Ok by lia. done. Qed.

(** Filling a buffer piece by piece. *)
Lemma copy_range_append {E} (pre src st : list A) :
  length pre + length src ≤ length st →
  copy_range (E := E) (pre ++ drop (length pre) st) (length pre)
    (length pre + length src) src =
  Ok ((pre ++ src) ++ drop (length (pre ++ src)) st).
Proof.
  intros. rewrite copy_range_Ok by (rewrite ?length_app, ?length_drop; lia).
  rewrite take_app_length, drop_app_ge, drop_drop, length_app by lia.
  rewrite <-app_assoc. do 4 f_equal. lia.
Qed.
End Slices.

(** * Searching *)

Section Searching.
Context {A : Type}.

(** [iter().position(p)] *)
Fixpoint position (p : A → bool) (l : list A) : option nat :=
  match l with
  | [] => None
  | x :: l => if p x then Some 0 else S <$> position p l
  end.

(** [iter().enumerate().min_by_key(key)]: the first index of a least key,
    with the key. *)
Fixpoint min_index (key : A → Z) (l : list A) : option (nat * Z) :=
  match l with
  | [] => None
  | x :: l =>
    match min_index key l with
    | Some (i, k) => if (k <? key x)%Z then Some (S i, k) else Some (0, key x)
    | None => Some (0, key x)
    end
  end.

Lemma position_Some p l i :
  position p l = Some i ↔
  ∃ x, l !! i = Some x ∧ p x = true ∧ ∀ j y, j < i → l !! j = Some y → p y = false.
Proof.
  revert i. induction l as [|x l IH]; intros i; simpl; [naive_solver|].
  destruct (p x) eqn:Hx.
  - split.
    + intros [= <-]. exists x. repeat split; [done|]. intros. lia.
    + intros (y & Hy & Hp & Hmin). destruct i as [|i]; [done|].
      specialize (Hmin 0 x ltac:(lia) eq_refl). congruence.
  - rewrite fmap_Some. split.
    + intros (k & Hk & ->). apply IH in Hk as (y & Hy & Hp & Hmin).
      exists y. repeat split; try done. intros [|j] z Hj Hz; simplify_eq/=; [done|].
      apply (Hmin j); [lia|done].
    + intros (y & Hy & Hp & Hmin). destruct i as [|i]; [simpl in Hy; congruence|].
      exists i. split; [|done]. apply IH. exists y. repeat split; try done.
      intros j z Hj Hz. apply (Hmin (S j)); [lia|done].
Qed.

Lemma position_None p l : position p l = None ↔ ∀ x, x ∈ l → p x = false.
Proof.
  induction l as [|x l IH]; simpl; [by split; [intros _ x ?%elem_of_nil|]|].
  destruct (p x) eqn:Hx.
  - split; [done|]. intros Hall. specialize (Hall x ltac:(by left)). congruence.
  - rewrite fmap_None, IH. split; intros Hall y; [|intros; apply Hall; by right].
    intros [->|]%elem_of_cons; auto.
Qed.

Lemma min_index_Some key l i k :
  min_index key l = Some (i, k) →
  ∃ x, l !! i = Some x ∧ key x = k ∧ ∀ y, y ∈ l → (k ≤ key y)%Z.
Proof.
  revert i k. induction l as [|x l IH]; intros i k; simpl; [done|].
  destruct (min_index key l) as [[j m]|] eqn:Hm; cycle 1.
  - intros [= <- <-]. exists x. repeat split. destruct l as [|z l]; simpl in Hm.
    + intros y ->%list_elem_of_singleton. lia.
    + repeat case_match; done.
  - destruct (IH j m eq_refl) as (z & Hz & Hk & Hmin).
    destruct (Z.ltb_spec m (key x)); intros [= <- <-]; [exists z|exists x];
      (repeat split; [done..|]; intros y [->|Hy]%elem_of_cons; [lia|]);
      specialize (Hmin y Hy); lia.
Qed.

Lemma min_index_None key l : min_index key l = None ↔ l = [].
Proof. destruct l; simpl; [done|]. by repeat case_match. Qed.
End Searching.

(** * Fixed arrays with a length field *)

(** The pattern [struct { bytes: [T; CAP], len: uW }] that the SDK uses for
    every bounded value: a zero-padded array filled from a slice, and the
    length stored in a narrow integer. *)
Section InlineArrays.
Context {A : Type} (pad : A).

(** [let mut a = [pad; cap]; a[..v.len()].copy_from_slice(v)] *)
Definition inline_fill {E} (cap : nat) (v : list A) : res E (list A) :=
  copy_prefix (replicate cap pad) v.

(** [&a[..usize::from(len)]] *)
Definition inline_view {E} (cells : list A) (len : Z) : res E (list A) :=
  slice_to cells (Z.to_nat len).

(** [cells] with length field [len] is what the constructors build from [v]. *)
Definition inline_holds (cap : nat) (cells : list A) (len : Z) (v : list A) : Prop :=
  length v ≤ cap ∧ len = Z.of_nat (length v) ∧
  cells = v ++ replicate (cap - length v) pad.

Lemma inline_fill_Ok {E} cap v :
  length v ≤ cap →
  inline_fill (E := E) cap v = Ok (v ++ replicate (cap - length v) pad).
Proof.
  intros. unfold inline_fill.
  rewrite copy_prefix_Ok by (rewrite length_replicate; lia).
  by rewrite drop_replicate.
Qed.

Lemma inline_fill_holds {E} w cap v cells :
  (Z.of_nat cap < 2 ^ w)%Z →
  length v ≤ cap → inline_fill (E := E) cap v = Ok cells →
  inline_holds cap cells (wrap_u w (Z.of_nat (length v))) v.
Proof.
  intros Hw Hv. rewrite inline_fill_Ok by done. intros [= <-].
  rewrite wrap_u_small by (unfold is_u; lia). by repeat split.
Qed.

Lemma inline_fill_build {E} w cap v :
  (Z.of_nat cap < 2 ^ w)%Z → length v ≤ cap →
  ∃ cells, inline_fill (E := E) cap v = Ok cells ∧
    inline_holds cap cells (wrap_u w (Z.of_nat (length v))) v.
Proof.
  intros. eexists. split; [by apply inline_fill_Ok|].
  by eapply (inline_fill_holds (E := E)), inline_fill_Ok.
Qed.

Lemma inline_holds_length cap cells len v :
  inline_holds cap cells len v → length cells = cap.
Proof. intros (? & _ & ->). rewrite length_app, length_replicate. lia. Qed.

Lemma inline_view_holds {E} cap cells len v :
  inline_holds cap cells len v → inline_view (E := E) cells len = Ok v.
Proof.
  intros (? & -> & ->). unfold inline_view. rewrite Nat2Z.id.
  rewrite slice_to_Ok by (rewrite length_app; lia).
  by rewrite take_app_length.
Qed.

Lemma inline_holds_inj cap cells len v v' :
  inline_holds cap cells len v → inline_holds cap cells len v' → v = v'.
Proof.
  intros H H'. apply (inline_view_holds (E := unit)) in H, H'. congruence.
Qed.
End InlineArrays.

Create HintDb sdk.
#[export] Hint Resolve saturating_add_u_range saturating_sub_u_range
  wrap_u_range : sdk.
#[export] Hint Extern 2 (_ ≤ _)%Z => lia : sdk.

(** * Tactics of the development *)

(** Reduces binds and map_errs of known outcomes in hypotheses. *)
Ltac res_inv :=
  repeat match goal with
  | H : (_ ≫= _) = Ok _ |- _ => apply bind_Ok_iff in H as (? & ? & ?)
  | H : map_err _ _ = Ok _ |- _ => apply map_err_Ok_iff in H
  | H : ok_or _ _ = Ok _ |- _ => apply ok_or_Ok_iff in H
  | H : Ok _ = Ok _ |- _ => injection H as H
  | H : Err _ = Err _ |- _ => injection H as H
  | H : Ok _ = Err _ |- _ => discriminate H
  | H : Err _ = Ok _ |- _ => discriminate H
  | H : Panic = Ok _ |- _ => discriminate H
  | H : Panic = Err _ |- _ => discriminate H
  end.

(** Splits every [match] or [if] of the goal or a hypothesis. *)
Ltac cases := repeat (case_match; simplify_eq/=; try done).

(** Turns boolean comparisons into propositions, then calls [lia]. *)
Ltac blia :=
  repeat match goal with
  | H : _ && _ = true |- _ => apply andb_true_iff in H as [? ?]
  | H : _ && _ = false |- _ => apply andb_false_iff in H as [?|?]
  | H : _ || _ = false |- _ => apply orb_false_iff in H as [? ?]
  | H : _ || _ = true |- _ => apply orb_true_iff in H as [?|?]
  end; lia.
