(* ===== verification/Text.v ===== *)
(** Strings of the Rust standard library as the SDK uses them.

    A [&str] is the list of its bytes together with the fact that it is valid
    UTF-8.  This file holds the UTF-8 decoder behind [str::from_utf8] and
    [str::chars], the byte-level searches behind [contains], [split],
    [starts_with] and [ends_with] (the SDK only searches for ASCII
    characters, for which the byte search and the character search agree,
    see [utf8_ascii_elem]), [FromStr] of the integer types, and the integer
    formats the SDK prints. *)
From stdpp Require Import prelude list numbers option strings pretty.
From Stdlib Require Import Ascii ZArith.
From S2P Require Import Prelude.
Local Open Scope Z_scope.
#[local] Ltac Zify.zify_post_hook ::= Z.to_euclidean_division_equations.

(** Bytes of a string literal. *)
Fixpoint lit (s : string) : list Z :=
  match s with
  | EmptyString => []
  | String a s => Z.of_nat (Ascii.nat_of_ascii a) :: lit s
  end.

(** * UTF-8 *)

Definition scalar (c : Z) : Prop := 0 ≤ c < 0xD800 ∨ 0xE000 ≤ c ≤ 0x10FFFF.

Definition utf8_encode (c : Z) : list Z :=
  if c <? 0x80 then [c]
  else if c <? 0x800 then [0xC0 + c / 64; 0x80 + c mod 64]
  else if c <? 0x10000 then
    [0xE0 + c / 4096; 0x80 + c / 64 mod 64; 0x80 + c mod 64]
  else
    [0xF0 + c / 262144; 0x80 + c / 4096 mod 64; 0x80 + c / 64 mod 64;
     0x80 + c mod 64].

Definition between (a x b : Z) : bool := (a <=? x) && (x <=? b).

(** The well-formed byte sequences of Unicode's table 3-7, which
    [core::str::from_utf8] accepts. *)
Definition ok3 (b0 b1 b2 : Z) : bool :=
  between 0x80 b2 0xBF &&
  ((b0 =? 0xE0) && between 0xA0 b1 0xBF
   || between 0xE1 b0 0xEC && between 0x80 b1 0xBF
   || (b0 =? 0xED) && between 0x80 b1 0x9F
   || between 0xEE b0 0xEF && between 0x80 b1 0xBF).

Definition ok4 (b0 b1 b2 b3 : Z) : bool :=
  between 0x80 b2 0xBF && between 0x80 b3 0xBF &&
  ((b0 =? 0xF0) && between 0x90 b1 0xBF
   || between 0xF1 b0 0xF3 && between 0x80 b1 0xBF
   || (b0 =? 0xF4) && between 0x80 b1 0x8F).

Fixpoint utf8_decode (l : list Z) : option (list Z) :=
  match l with
  | [] => Some []
  | b0 :: l1 =>
    if between 0 b0 0x7F then cons b0 <$> utf8_decode l1 else
    match l1 with
    | [] => None
    | b1 :: l2 =>
      if between 0xC2 b0 0xDF && between 0x80 b1 0xBF then
        cons ((b0 - 0xC0) * 64 + (b1 - 0x80)) <$> utf8_decode l2 else
      match l2 with
      | [] => None
      | b2 :: l3 =>
        if ok3 b0 b1 b2 then
          cons ((b0 - 0xE0) * 4096 + (b1 - 0x80) * 64 + (b2 - 0x80))
            <$> utf8_decode l3 else
        match l3 with
        | [] => None
        | b3 :: l4 =>
          if ok4 b0 b1 b2 b3 then
            cons ((b0 - 0xF0) * 262144 + (b1 - 0x80) * 4096
                  + (b2 - 0x80) * 64 + (b3 - 0x80)) <$> utf8_decode l4
          else None
        end
      end
    end
  end.

(** [str::from_utf8(l).is_ok()]: the bytes are a [&str]. *)
Definition is_str (l : list Z) : Prop := is_Some (utf8_decode l).

#[global] Instance is_str_dec l : Decision (is_str l).
Proof. unfold is_str. apply _. Defined.

(** [str::from_utf8(l).unwrap_or("")] and [str::from_utf8(l).ok()]. *)
Definition from_utf8_or_empty (l : list Z) : list Z :=
  if decide (is_str l) then l else [].
Definition from_utf8_ok (l : list Z) : option (list Z) :=
  if decide (is_str l) then Some l else None.

(** Declarative UTF-8: the concatenated encodings of scalar values. *)
Inductive utf8 : list Z → list Z → Prop :=
  | utf8_nil : utf8 [] []
  | utf8_cons c l cs : scalar c → utf8 l cs → utf8 (utf8_encode c ++ l) (c :: cs).

Ltac bounds :=
  unfold ok3, ok4 in *; unfold between in *;
  repeat match goal with
  | H : _ && _ = true |- _ => apply andb_true_iff in H as [? ?]
  | H : _ || _ = true |- _ => apply orb_true_iff in H as [?|?]
  end;
  repeat match goal with
  | H : (_ <=? _) = true |- _ => apply Z.leb_le in H
  | H : (_ =? _) = true |- _ => apply Z.eqb_eq in H
  end.

Lemma utf8_encode_cases c :
  scalar c →
  (0 ≤ c < 0x80 ∧ utf8_encode c = [c]) ∨
  (0x80 ≤ c < 0x800 ∧ utf8_encode c = [0xC0 + c / 64; 0x80 + c mod 64]) ∨
  (0x800 ≤ c < 0x10000 ∧ (c < 0xD800 ∨ 0xE000 ≤ c) ∧
   utf8_encode c = [0xE0 + c / 4096; 0x80 + c / 64 mod 64; 0x80 + c mod 64]) ∨
  (0x10000 ≤ c ≤ 0x10FFFF ∧
   utf8_encode c = [0xF0 + c / 262144; 0x80 + c / 4096 mod 64;
                    0x80 + c / 64 mod 64; 0x80 + c mod 64]).
Proof.
  unfold scalar, utf8_encode. intros Hc.
  repeat match goal with
  | |- context [if ?a <? ?b then _ else _] => destruct (Z.ltb_spec a b)
  end; naive_solver lia.
Qed.

Lemma between_true a x b : a ≤ x ≤ b → between a x b = true.
Proof. unfold between. lia. Qed.
Lemma between_false a x b : x < a ∨ b < x → between a x b = false.
Proof. unfold between. lia. Qed.

Lemma utf8_decode_encode c l :
  scalar c → utf8_decode (utf8_encode c ++ l) = cons c <$> utf8_decode l.
Proof.
  intros [(? & ->)|[(? & ->)|[(? & ? & ->)|(? & ->)]]]%utf8_encode_cases; simpl.
  - by rewrite between_true by lia.
  - rewrite between_false by lia.
    rewrite !between_true by lia. simpl. do 2 f_equal. lia.
  - rewrite between_false by lia.
    rewrite (between_false 0xC2 _ 0xDF) by lia. simpl.
    replace (ok3 _ _ _) with true; [do 2 f_equal; lia|].
    unfold ok3, between. lia.
  - rewrite between_false by lia.
    rewrite (between_false 0xC2 _ 0xDF) by lia. simpl.
    replace (ok3 _ _ _) with false by (unfold ok3, between; lia).
    replace (ok4 _ _ _ _) with true; [do 2 f_equal; lia|].
    unfold ok4, between. lia.
Qed.

Lemma utf8_decode_complete l cs : utf8 l cs → utf8_decode l = Some cs.
Proof.
  induction 1 as [|c l cs Hc _ IH]; [done|].
  by rewrite utf8_decode_encode, IH.
Qed.

Lemma utf8_cons_eq c e l cs :
  scalar c → utf8_encode c = e → utf8 l cs → utf8 (e ++ l) (c :: cs).
Proof. intros ? <-. by constructor. Qed.

Ltac encode_branch :=
  unfold utf8_encode; intros;
  repeat match goal with
  | |- context [if ?a <? ?b then _ else _] =>
    destruct (Z.ltb_spec a b); try (exfalso; lia)
  end; repeat (f_equal; try lia).

Lemma utf8_encode1 b0 : b0 < 0x80 → utf8_encode b0 = [b0].
Proof. encode_branch. Qed.

Lemma utf8_encode2 c b0 b1 :
  0x80 ≤ c < 0x800 → 0x80 ≤ b1 ≤ 0xBF → c = (b0 - 0xC0) * 64 + (b1 - 0x80) →
  utf8_encode c = [b0; b1].
Proof. encode_branch. Qed.

Lemma utf8_encode3 c b0 b1 b2 :
  0x800 ≤ c < 0x10000 → 0x80 ≤ b1 ≤ 0xBF → 0x80 ≤ b2 ≤ 0xBF →
  c = (b0 - 0xE0) * 4096 + (b1 - 0x80) * 64 + (b2 - 0x80) →
  utf8_encode c = [b0; b1; b2].
Proof. encode_branch. Qed.

Lemma utf8_encode4 c b0 b1 b2 b3 :
  0x10000 ≤ c → 0x80 ≤ b1 ≤ 0xBF → 0x80 ≤ b2 ≤ 0xBF → 0x80 ≤ b3 ≤ 0xBF →
  c = (b0 - 0xF0) * 262144 + (b1 - 0x80) * 4096 + (b2 - 0x80) * 64 + (b3 - 0x80) →
  utf8_encode c = [b0; b1; b2; b3].
Proof. encode_branch. Qed.

Lemma utf8_decode_sound l cs : utf8_decode l = Some cs → utf8 l cs.
Proof.
  revert cs. induction l as [l IH] using (induction_ltof1 _ length); unfold ltof in IH.
  intros cs H. destruct l as [|b0 l1]; simpl in H; [by simplify_eq; constructor|].
  destruct (between 0 b0 0x7F) eqn:E1.
  { bounds. apply fmap_Some in H as (? & H & ->). apply IH in H; [|simpl; lia].
    apply (utf8_cons_eq b0 [b0]); [unfold scalar; lia| |done].
    apply utf8_encode1. lia. }
  destruct l1 as [|b1 l2]; [done|].
  destruct (between 0xC2 b0 0xDF && _) eqn:E2.
  { bounds. apply fmap_Some in H as (? & H & ->). apply IH in H; [|simpl; lia].
    apply (utf8_cons_eq _ [b0; b1]); [unfold scalar; lia| |done].
    apply utf8_encode2; lia. }
  clear E2. destruct l2 as [|b2 l3]; [done|].
  destruct (ok3 b0 b1 b2) eqn:E3.
  { apply fmap_Some in H as (? & H & ->). apply IH in H; [|simpl; lia].
    apply (utf8_cons_eq _ [b0; b1; b2]); [| |done]; bounds;
      (apply utf8_encode3 || unfold scalar); lia. }
  clear E3. destruct l3 as [|b3 l4]; [done|].
  destruct (ok4 b0 b1 b2 b3) eqn:E4; [|done].
  apply fmap_Some in H as (? & H & ->). apply IH in H; [|simpl; lia].
  apply (utf8_cons_eq _ [b0; b1; b2; b3]); [| |done]; bounds;
    (apply utf8_encode4 || unfold scalar); lia.
Qed.

Lemma utf8_decode_iff l cs : utf8_decode l = Some cs ↔ utf8 l cs.
Proof. split; [apply utf8_decode_sound|apply utf8_decode_complete]. Qed.

Lemma is_str_utf8 l : is_str l ↔ ∃ cs, utf8 l cs.
Proof. unfold is_str, is_Some. by setoid_rewrite utf8_decode_iff. Qed.

Lemma utf8_app l1 l2 cs1 cs2 :
  utf8 l1 cs1 → utf8 l2 cs2 → utf8 (l1 ++ l2) (cs1 ++ cs2).
Proof.
  induction 1; [done|]. intros. rewrite <-app_assoc. simpl. constructor; auto.
Qed.

Lemma is_str_app l1 l2 : is_str l1 → is_str l2 → is_str (l1 ++ l2).
Proof. rewrite !is_str_utf8. intros [cs1 ?] [cs2 ?]. eauto using utf8_app. Qed.

Lemma utf8_ascii l : Forall (λ b, 0 ≤ b < 0x80) l → utf8 l l.
Proof.
  induction 1 as [|b l Hb _ IH]; [constructor|].
  apply (utf8_cons_eq b [b]); [unfold scalar; lia| |done].
  apply utf8_encode1. lia.
Qed.

Lemma is_str_ascii l : Forall (λ b, 0 ≤ b < 0x80) l → is_str l.
Proof. rewrite is_str_utf8. eauto using utf8_ascii. Qed.

(** Searching a valid string for an ASCII character, by bytes or by
    characters, is the same search: the byte searches below are faithful. *)
Lemma utf8_ascii_elem l cs c :
  utf8 l cs → 0 ≤ c < 0x80 → c ∈ l ↔ c ∈ cs.
Proof.
  induction 1 as [|d l cs Hd _ IH]; intros Hc; [done|].
  rewrite elem_of_app, elem_of_cons, IH by done.
  enough (c ∈ utf8_encode d ↔ c = d) as -> by done.
  destruct (utf8_encode_cases d Hd) as [(? & ->)|[(? & ->)|[(? & ? & ->)|(? & ->)]]];
    rewrite ?elem_of_cons, elem_of_nil; lia.
Qed.

Lemma from_utf8_or_empty_str l : is_str l → from_utf8_or_empty l = l.
Proof. intros. unfold from_utf8_or_empty. by rewrite decide_True. Qed.

Lemma from_utf8_ok_str l : is_str l → from_utf8_ok l = Some l.
Proof. intros. unfold from_utf8_ok. by rewrite decide_True. Qed.

Lemma utf8_bytes l cs : utf8 l cs → is_bytes l.
Proof.
  induction 1 as [|c l cs Hc _ IH]; [constructor|].
  apply Forall_app; split; [|done].
  destruct (utf8_encode_cases c Hc) as [(? & ->)|[(? & ->)|[(? & ? & ->)|(? & ->)]]];
    repeat constructor; lia.
Qed.

Lemma is_str_bytes l : is_str l → is_bytes l.
Proof. rewrite is_str_utf8. intros [cs ?]. eauto using utf8_bytes. Qed.

(** * Searches *)

(** [s.contains(c)] for an ASCII character, and for an array of them. *)
Definition contains (c : Z) (l : list Z) : bool := existsb (Z.eqb c) l.
Definition contains_any (cs l : list Z) : bool := existsb (λ c, contains c l) cs.

Definition starts_with_char (c : Z) (l : list Z) : bool :=
  match l with x :: _ => x =? c | [] => false end.
Definition ends_with_char (c : Z) (l : list Z) : bool :=
  match last l with Some x => x =? c | None => false end.

(** [slice.starts_with(p)] and [str::strip_prefix(p)]. *)
Fixpoint strip_prefix (p l : list Z) : option (list Z) :=
  match p, l with
  | [], _ => Some l
  | a :: p, b :: l => if a =? b then strip_prefix p l else None
  | _ :: _, [] => None
  end.
Definition starts_with (p l : list Z) : bool :=
  match strip_prefix p l with Some _ => true | None => false end.

(** [s.split(c)]: the pieces between separators, at least one. *)
Fixpoint split_on (c : Z) (l : list Z) : list (list Z) :=
  match l with
  | [] => [[]]
  | x :: l =>
    if x =? c then [] :: split_on c l else
    match split_on c l with
    | p :: ps => (x :: p) :: ps
    | [] => [[x]]
    end
  end.

(** The string with pieces [ps] and separator [c]. *)
Fixpoint join_with (c : Z) (ps : list (list Z)) : list Z :=
  match ps with
  | [] => []
  | [p] => p
  | p :: ps => p ++ c :: join_with c ps
  end.

Lemma contains_true c l : contains c l = true ↔ c ∈ l.
Proof.
  unfold contains. rewrite existsb_exists. setoid_rewrite <-list_elem_of_In.
  split; [intros (x & ? & ->%Z.eqb_eq); done|]. eauto using Z.eqb_refl.
Qed.

Lemma contains_false c l : contains c l = false ↔ c ∉ l.
Proof. rewrite <-contains_true. by destruct (contains c l). Qed.

Lemma contains_any_false cs l :
  contains_any cs l = false ↔ ∀ c, c ∈ cs → c ∉ l.
Proof.
  unfold contains_any. induction cs as [|c cs IH]; simpl.
  - split; [intros _ c Hc; by apply elem_of_nil in Hc|done].
  - rewrite orb_false_iff, contains_false, IH. set_solver.
Qed.

Lemma strip_prefix_Some p l r : strip_prefix p l = Some r ↔ l = p ++ r.
Proof.
  revert l. induction p as [|a p IH]; intros [|b l]; simpl; try (split; congruence).
  destruct (Z.eqb_spec a b) as [->|]; [rewrite IH; split; congruence|].
  split; congruence.
Qed.

Lemma split_on_not_nil c l : split_on c l ≠ [].
Proof. destruct l; simpl; repeat case_match; done. Qed.

Lemma join_split_on c l : join_with c (split_on c l) = l.
Proof.
  induction l as [|x l IH]; [done|]. simpl. pose proof (split_on_not_nil c l).
  destruct (Z.eqb_spec x c) as [->|]; destruct (split_on c l) as [|p ps]; try done.
  - simpl in *. by rewrite IH.
  - simpl in *. destruct ps; simpl in *; by rewrite <-IH.
Qed.

Lemma split_on_pieces c l : Forall (λ p, c ∉ p) (split_on c l).
Proof.
  induction l as [|x l IH]; simpl.
  - constructor; [apply not_elem_of_nil|constructor].
  - destruct (Z.eqb_spec x c) as [->|].
    + constructor; [apply not_elem_of_nil|done].
    + destruct (split_on c l) as [|p ps]; inversion IH; subst;
        (constructor; [set_solver|done || constructor]).
Qed.

Lemma split_on_no_sep c l : c ∉ l → split_on c l = [l].
Proof.
  induction l as [|x l IH]; simpl; [done|].
  rewrite elem_of_cons. intros. destruct (Z.eqb_spec x c); [naive_solver|].
  rewrite IH by naive_solver. done.
Qed.

Lemma split_on_app c p l :
  c ∉ p → split_on c (p ++ c :: l) = p :: split_on c l.
Proof.
  induction p as [|x p IH]; simpl; intros Hp.
  - by rewrite Z.eqb_refl.
  - rewrite elem_of_cons in Hp. destruct (Z.eqb_spec x c); [naive_solver|].
    by rewrite IH by naive_solver.
Qed.

Lemma split_on_join c ps :
  ps ≠ [] → Forall (λ p, c ∉ p) ps → split_on c (join_with c ps) = ps.
Proof.
  intros Hne Hps. induction Hps as [|p ps Hp Hps IH]; [done|].
  destruct ps as [|q ps]; simpl; [by apply split_on_no_sep|].
  rewrite split_on_app by done. f_equal. by apply IH.
Qed.

Lemma split_on_elem c l p x : p ∈ split_on c l → x ∈ p → x ∈ l.
Proof.
  revert p. induction l as [|y l IH]; simpl; intros p Hp Hx.
  { apply list_elem_of_singleton in Hp as ->. done. }
  rewrite elem_of_cons. destruct (y =? c).
  { apply elem_of_cons in Hp as [->|Hp]; [by apply elem_of_nil in Hx|eauto]. }
  pose proof (split_on_not_nil c l). destruct (split_on c l) as [|q qs]; [done|].
  apply elem_of_cons in Hp as [->|Hp]; [apply elem_of_cons in Hx as [->|Hx]|];
    eauto using list_elem_of_here, list_elem_of_further.
Qed.

Lemma last_join c ps p :
  last ps = Some p → p ≠ [] → last (join_with c ps) = last p.
Proof.
  intros Hl Hp. induction ps as [|q ps IH]; [done|].
  destruct ps as [|r ps]; [simpl in *; congruence|].
  change (join_with c (q :: r :: ps)) with (q ++ c :: join_with c (r :: ps)).
  change (last (q :: r :: ps)) with (last (r :: ps)) in Hl.
  rewrite last_app_cons. specialize (IH Hl).
  destruct (join_with c (r :: ps)) eqn:Hj; [|done].
  symmetry in IH. by apply last_None in IH.
Qed.

Lemma ends_with_char_last c l : ends_with_char c l = true ↔ last l = Some c.
Proof.
  unfold ends_with_char. destruct (last l) as [x|]; [|done].
  rewrite Z.eqb_eq. split; congruence.
Qed.

Lemma starts_with_char_head c l : starts_with_char c l = true ↔ head l = Some c.
Proof. destruct l as [|x l]; [done|]. simpl. rewrite Z.eqb_eq. split; congruence. Qed.

(** * Character classes *)

Definition is_ascii_digit (b : Z) : bool := between 0x30 b 0x39.
Definition is_ascii_alphanumeric (b : Z) : bool :=
  between 0x30 b 0x39 || between 0x41 b 0x5A || between 0x61 b 0x7A.
Definition is_ascii_hexdigit (b : Z) : bool :=
  between 0x30 b 0x39 || between 0x41 b 0x46 || between 0x61 b 0x66.
Definition to_ascii_uppercase (b : Z) : Z :=
  if between 0x61 b 0x7A then b - 32 else b.
Definition to_ascii_lowercase (b : Z) : Z :=
  if between 0x41 b 0x5A then b + 32 else b.

(** [char::is_control]: Unicode category Cc. *)
Definition is_control (c : Z) : bool := between 0 c 0x1F || between 0x7F c 0x9F.

(** [char::is_whitespace]: Unicode White_Space. *)
Definition is_whitespace (c : Z) : bool :=
  between 9 c 13 || (c =? 0x20) || (c =? 0x85) || (c =? 0xA0) || (c =? 0x1680)
  || between 0x2000 c 0x200A || (c =? 0x2028) || (c =? 0x2029) || (c =? 0x202F)
  || (c =? 0x205F) || (c =? 0x3000).

(** * Integers in text *)

(** [FromStr] of [uW] and [iW]: an optional sign ([-] only when signed), at
    least one digit, only digits, and a value in range. *)
Fixpoint parse_digits (acc : Z) (l : list Z) : option Z :=
  match l with
  | [] => Some acc
  | b :: l =>
    if is_ascii_digit b then parse_digits (acc * 10 + (b - 0x30)) l else None
  end.

Definition parse_magnitude (l : list Z) : option Z :=
  match l with [] => None | _ => parse_digits 0 l end.

Definition parse_u (w : Z) (s : list Z) : option Z :=
  let digits := match s with 0x2B :: s' => s' | _ => s end in
  n ← parse_magnitude digits;
  if n <? 2 ^ w then Some n else None.

Definition parse_s (w : Z) (s : list Z) : option Z :=
  n ← match s with
      | 0x2D :: s' => Z.opp <$> parse_magnitude s'
      | 0x2B :: s' => parse_magnitude s'
      | _ => parse_magnitude s
      end;
  if between (- 2 ^ (w - 1)) n (2 ^ (w - 1) - 1) then Some n else None.

Lemma parse_digits_nonneg acc l n : 0 ≤ acc → parse_digits acc l = Some n → acc ≤ n.
Proof.
  revert acc. induction l as [|b l IH]; simpl; intros acc Hacc H; [by simplify_eq|].
  destruct (is_ascii_digit b) eqn:E; [|done]. unfold is_ascii_digit in E. bounds.
  apply IH in H; lia.
Qed.

Lemma parse_u_range w s n : parse_u w s = Some n → is_u w n.
Proof.
  unfold parse_u. intros (m & Hm & H)%bind_Some.
  destruct (Z.ltb_spec m (2 ^ w)); simplify_eq. split; [|done].
  unfold parse_magnitude in Hm. repeat case_match; try done;
    eapply parse_digits_nonneg in Hm; lia.
Qed.

Lemma parse_s_range w s n : parse_s w s = Some n → is_s w n.
Proof.
  unfold parse_s. intros (m & _ & H)%bind_Some. case_match; simplify_eq.
  bounds. unfold is_s. lia.
Qed.

(** [{}] of an integer, [{:02x}] and [{:02X}] of a byte, [{:04x}] of a [u16]. *)
Definition dec (n : Z) : list Z := lit (pretty n).

Definition hex_digit (upper : bool) (n : Z) : Z :=
  if n <? 10 then 0x30 + n else (if upper then 0x41 else 0x61) + (n - 10).
Definition hex2 (upper : bool) (b : Z) : list Z :=
  [hex_digit upper (b / 16); hex_digit upper (b mod 16)].
Definition hex4 (n : Z) : list Z := hex2 false (n / 256) ++ hex2 false (n mod 256).
