(* ===== verification/Backoff.v ===== *)
(** The contract a reconnect back-off calculator offers to the firmware's
    retry loops, and what a loop can conclude from it.

    [crates/wifi] and [crates/mqtt] each have a [ReconnectBackoff]; the
    supervisors in [firmware/] only ever call [next_delay_ms], [attempts] and
    [reset].  A calculator is an instance of [Backoff]; [BackoffLaws] is what
    its component promises.  A retry loop is a sequence of [retry_op]s; the
    theorems about whole sequences are proved here once, against the
    interface. *)
From stdpp Require Import prelude list numbers.
From S2P Require Import Prelude.
Local Open Scope Z_scope.

Class Backoff (B : Type) := {
  bo_next : ∀ {E : Type}, B → Z → res E (Z * B);
  bo_reset : B → B;
  bo_attempts : B → Z;
  bo_maximum : B → Z;
  bo_wf : B → Prop
}.

Class BackoffLaws (B : Type) `{Backoff B} := {
  (** A delay is always produced, never exceeds the policy's maximum, and the
      calculator stays well formed. *)
  bo_next_spec : ∀ {E} (b : B) (entropy : Z),
    bo_wf b → is_u 32 entropy →
    ∃ d b', bo_next (E := E) b entropy = Ok (d, b') ∧
      0 ≤ d ≤ bo_maximum b ∧ bo_wf b' ∧
      bo_maximum b' = bo_maximum b ∧ bo_attempts b ≤ bo_attempts b';
  bo_reset_spec : ∀ b : B,
    bo_wf b →
    bo_wf (bo_reset b) ∧ bo_maximum (bo_reset b) = bo_maximum b ∧
    bo_attempts (bo_reset b) = 0
}.

(** What a supervisor does with its calculator between two sleeps. *)
Inductive retry_op : Type :=
  | RetryAfter (entropy : Z)   (** a failure: sleep for the next delay *)
  | RetrySucceeded.            (** a success: reset the sequence *)

Definition retry_op_ok (op : retry_op) : Prop :=
  match op with
  | RetryAfter entropy => is_u 32 entropy
  | RetrySucceeded => True
  end.

(** The delays a supervisor sleeps for, and the calculator it ends with. *)
Fixpoint run_retries {B E} `{Backoff B} (ops : list retry_op) (b : B) :
  res E (list Z * B) :=
  match ops with
  | [] => Ok ([], b)
  | RetrySucceeded :: ops => run_retries ops (bo_reset b)
  | RetryAfter entropy :: ops =>
    '(d, b) ← bo_next b entropy;
    '(ds, b) ← run_retries ops b;
    Ok (d :: ds, b)
  end.

Section Retries.
Context {B : Type} `{BackoffLaws B}.

Lemma run_retries_spec {E} ops (b : B) :
  bo_wf b → Forall retry_op_ok ops →
  ∃ ds b', run_retries (E := E) ops b = Ok (ds, b') ∧
    Forall (λ d, 0 ≤ d ≤ bo_maximum b) ds ∧ bo_wf b' ∧
    bo_maximum b' = bo_maximum b.
Proof.
  intros Hwf Hops. revert b Hwf.
  induction Hops as [|[entropy|] ops Hop _ IH]; intros b Hwf; simpl.
  - eauto 10.
  - destruct (bo_next_spec (E := E) b entropy) as (d & b1 & -> & Hd & Hwf1 & Hmax & _);
      [done..|]. simpl.
    destruct (IH b1 Hwf1) as (ds & b2 & -> & Hds & Hwf2 & Hmax2). simpl.
    rewrite Hmax in *. eauto 10.
  - destruct (bo_reset_spec b Hwf) as (Hwf1 & Hmax & _).
    destruct (IH _ Hwf1) as (ds & b2 & -> & Hds & Hwf2 & Hmax2).
    rewrite Hmax in *. eauto 10.
Qed.
End Retries.
