(* ===== verification/Wifi.v ===== *)
(** [crates/wifi]: station configuration, scan summaries and the station
    reconnect back-off. *)
From stdpp Require Import prelude list numbers option strings.
From S2P Require Import Prelude Text Backoff.
Local Open Scope Z_scope.

Definition MAX_SSID_LEN : nat := 32.
Definition MAX_PASSPHRASE_LEN : nat := 64.

Inductive ConfigError : Type :=
  | EmptySsid
  | SsidTooLong
  | InvalidPassphrase
  | InvalidReconnectPolicy.

#[global] Instance ConfigError_eq_dec : EqDecision ConfigError.
Proof. solve_decision. Defined.

Definition wifi_error_text (e : ConfigError) : list Z :=
  match e with
  | EmptySsid => lit "station SSID must not be empty"
  | SsidTooLong => lit "SSID exceeds 32 bytes"
  | InvalidPassphrase =>
    lit "WPA passphrase must be 8-63 bytes, or a 64-digit hexadecimal PSK"
  | InvalidReconnectPolicy =>
    lit "reconnect policy requires 0 < initial <= maximum and jitter < maximum"
  end.

(** * Service-set identifiers *)

Record Ssid : Type := { ssid_bytes : list Z; ssid_len : Z }.

#[global] Instance Ssid_eq_dec : EqDecision Ssid.
Proof. solve_decision. Defined.

Definition ssid_new (value : list Z) : res ConfigError Ssid :=
  if decide (MAX_SSID_LEN < length value)%nat then Err SsidTooLong else
  bytes ← inline_fill 0 MAX_SSID_LEN value;
  Ok {| ssid_bytes := bytes; ssid_len := wrap_u 8 (Z.of_nat (length value)) |}.

Definition ssid_as_bytes {E} (s : Ssid) : res E (list Z) :=
  inline_view (ssid_bytes s) (ssid_len s).

Definition ssid_as_str {E} (s : Ssid) : res E (option (list Z)) :=
  b ← ssid_as_bytes s; Ok (from_utf8_ok b).

Definition ssid_size (s : Ssid) : Z := ssid_len s.
Definition ssid_is_empty (s : Ssid) : bool := ssid_len s =? 0.

(** [TryFrom<&str>] *)
Definition ssid_try_from (value : list Z) : res ConfigError Ssid := ssid_new value.

(** [s] holds exactly the bytes [v]. *)
Definition ssid_holds (s : Ssid) (v : list Z) : Prop :=
  inline_holds 0 MAX_SSID_LEN (ssid_bytes s) (ssid_len s) v.

(** * Passphrases *)

Record Passphrase : Type := { pass_bytes : list Z; pass_len : Z }.

Definition passphrase_valid (bytes : list Z) : bool :=
  bool_decide (8 ≤ length bytes < MAX_PASSPHRASE_LEN)%nat
  || (bool_decide (length bytes = MAX_PASSPHRASE_LEN)
      && forallb is_ascii_hexdigit bytes).

Definition passphrase_new (value : list Z) : res ConfigError Passphrase :=
  if negb (passphrase_valid value) then Err InvalidPassphrase else
  stored ← inline_fill 0 MAX_PASSPHRASE_LEN value;
  Ok {| pass_bytes := stored; pass_len := wrap_u 8 (Z.of_nat (length value)) |}.

Definition passphrase_as_str {E} (p : Passphrase) : res E (list Z) :=
  b ← inline_view (pass_bytes p) (pass_len p); Ok (from_utf8_or_empty b).

Definition passphrase_size (p : Passphrase) : Z := pass_len p.
Definition passphrase_is_empty (p : Passphrase) : bool := pass_len p =? 0.

(** [fmt::Debug]: the rendering does not look at the value. *)
Definition passphrase_debug (_ : Passphrase) : list Z :=
  lit "Passphrase(**REDACTED**)".

Definition passphrase_holds (p : Passphrase) (v : list Z) : Prop :=
  inline_holds 0 MAX_PASSPHRASE_LEN (pass_bytes p) (pass_len p) v.

(** [impl Drop]: the [zeroize] crate overwrites both fields. *)
Definition passphrase_drop (zeroize_bytes : list Z → list Z) (zeroize_u8 : Z → Z)
    (p : Passphrase) : Passphrase :=
  {| pass_bytes := zeroize_bytes (pass_bytes p); pass_len := zeroize_u8 (pass_len p) |}.

(** * Station configuration *)

Inductive Authentication : Type :=
  | AuthOpen
  | AuthWpa2Personal
  | AuthWpa3Personal
  | AuthWpa2Wpa3Personal.

#[global] Instance Authentication_eq_dec : EqDecision Authentication.
Proof. solve_decision. Defined.

Record StationConfig : Type := {
  station_ssid : Ssid;
  station_authentication : Authentication;
  station_passphrase : option Passphrase
}.

Definition validate_ssid (ssid : Ssid) : res ConfigError unit :=
  if ssid_is_empty ssid then Err EmptySsid else Ok tt.

Definition station_open (ssid : Ssid) : res ConfigError StationConfig :=
  _ ← validate_ssid ssid;
  Ok {| station_ssid := ssid; station_authentication := AuthOpen;
        station_passphrase := None |}.

Definition station_personal (ssid : Ssid) (passphrase : Passphrase)
    (authentication : Authentication) : res ConfigError StationConfig :=
  _ ← validate_ssid ssid;
  if decide (authentication = AuthOpen) then Err InvalidPassphrase else
  Ok {| station_ssid := ssid; station_authentication := authentication;
        station_passphrase := Some passphrase |}.

(** * Scan results *)

Inductive Security : Type :=
  | SecOpen
  | SecWep
  | SecWpa
  | SecWpa2Personal
  | SecWpa3Personal
  | SecEnterprise
  | SecUnknown.

#[global] Instance Security_eq_dec : EqDecision Security.
Proof. solve_decision. Defined.

Record AccessPoint : Type := {
  ap_ssid : Ssid;
  ap_bssid : list Z;
  ap_channel : Z;
  ap_signal_strength_dbm : Z;
  ap_security : Security
}.

Record ConnectedStation : Type := {
  cs_ssid : Ssid;
  cs_bssid : list Z;
  cs_channel : Z;
  cs_security : Security
}.

Record ScanSummary : Type := {
  access_points : Z;
  strongest_signal_dbm : option Z
}.

(** [Iterator::max] over integers. *)
Definition iter_max (l : list Z) : option Z :=
  foldl (λ m x, Some (match m with None => x | Some m => Z.max m x end)) None l.

Definition scan_summary (aps : list AccessPoint) : ScanSummary :=
  {| access_points :=
       let n := Z.of_nat (length aps) in
       if bool_decide (is_u 16 n) then n else u_max 16;
     strongest_signal_dbm := iter_max (ap_signal_strength_dbm <$> aps) |}.

Inductive WifiState : Type :=
  | WifiDisabled
  | WifiStarting
  | WifiReady
  | WifiScanning
  | WifiConnecting
  | WifiConnected
  | WifiDisconnected
  | WifiFailed.

#[global] Instance WifiState_eq_dec : EqDecision WifiState.
Proof. solve_decision. Defined.

(** * Reconnect back-off *)

Record ReconnectPolicy : Type := {
  initial_delay_ms : Z;
  maximum_delay_ms : Z;
  maximum_jitter_ms : Z
}.

Definition wifi_policy_new (initial maximum jitter : Z) :
    res ConfigError ReconnectPolicy :=
  if (initial =? 0) || (maximum <? initial) || (maximum <=? jitter)
  then Err InvalidReconnectPolicy
  else Ok {| initial_delay_ms := initial; maximum_delay_ms := maximum;
             maximum_jitter_ms := jitter |}.

Definition wifi_policy_default : ReconnectPolicy :=
  {| initial_delay_ms := 1000; maximum_delay_ms := 60000;
     maximum_jitter_ms := 500 |}.

Record ReconnectBackoff : Type := {
  wb_policy : ReconnectPolicy;
  next_base_delay_ms : Z;
  wb_attempts : Z
}.

Definition wifi_backoff_new (policy : ReconnectPolicy) : ReconnectBackoff :=
  {| wb_policy := policy; next_base_delay_ms := initial_delay_ms policy;
     wb_attempts := 0 |}.

Definition wifi_backoff_default : ReconnectBackoff :=
  wifi_backoff_new wifi_policy_default.

Definition wifi_next_delay_ms {E} (b : ReconnectBackoff) (entropy : Z) :
    res E (Z * ReconnectBackoff) :=
  let p := wb_policy b in
  let maximum_base :=
    saturating_sub_u (maximum_delay_ms p) (maximum_jitter_ms p) in
  let base := Z.min (next_base_delay_ms b) maximum_base in
  jitter ← (if maximum_jitter_ms p =? 0 then Ok 0 else
            m ← add_u 32 (maximum_jitter_ms p) 1; Ok (entropy mod m));
  Ok (Z.min (saturating_add_u 32 base jitter) (maximum_delay_ms p),
      {| wb_policy := p;
         next_base_delay_ms := Z.min (saturating_mul_u 32 base 2) maximum_base;
         wb_attempts := saturating_add_u 32 (wb_attempts b) 1 |}).

Definition wifi_backoff_reset (b : ReconnectBackoff) : ReconnectBackoff :=
  {| wb_policy := wb_policy b;
     next_base_delay_ms := initial_delay_ms (wb_policy b);
     wb_attempts := 0 |}.

(** * Invariants *)

(** Well-formed policies: what [wifi_policy_new] accepts from [u32] inputs. *)
Definition wifi_policy_wf (p : ReconnectPolicy) : Prop :=
  0 < initial_delay_ms p ≤ maximum_delay_ms p ∧
  0 ≤ maximum_jitter_ms p < maximum_delay_ms p ∧
  is_u 32 (maximum_delay_ms p).

(** The base delay after [k] retries of a sequence. *)
Definition wifi_base (p : ReconnectPolicy) (k : nat) : Z :=
  Z.min (initial_delay_ms p * 2 ^ Z.of_nat k)
        (maximum_delay_ms p - maximum_jitter_ms p).

(** The calculator has issued [k] delays since construction or reset. *)
Definition wifi_backoff_at (p : ReconnectPolicy) (k : nat) (b : ReconnectBackoff) : Prop :=
  wb_policy b = p ∧
  Z.min (next_base_delay_ms b) (maximum_delay_ms p - maximum_jitter_ms p) = wifi_base p k ∧
  wb_attempts b = Z.min (Z.of_nat k) (u_max 32).

(** Some number of delays has been issued under a well-formed policy. *)
Definition wifi_backoff_wf (b : ReconnectBackoff) : Prop :=
  wifi_policy_wf (wb_policy b) ∧ ∃ k, wifi_backoff_at (wb_policy b) k b.

(** * Lemmas *)

Lemma ssid_new_spec value :
  ((length value ≤ MAX_SSID_LEN)%nat →
     ∃ s, ssid_new value = Ok s ∧ ssid_holds s value) ∧
  ((MAX_SSID_LEN < length value)%nat → ssid_new value = Err SsidTooLong).
Proof.
  unfold ssid_new. split; intros Hlen; case_decide; try lia; [|done].
  destruct (inline_fill_build 0 (E := ConfigError) 8 MAX_SSID_LEN value)
    as (cells & -> & ?); [done..|]. simpl. eauto.
Qed.

Lemma ssid_holds_bytes {E} s v : ssid_holds s v → ssid_as_bytes (E := E) s = Ok v.
Proof. apply inline_view_holds. Qed.

Lemma ssid_holds_empty s v : ssid_holds s v → ssid_is_empty s = bool_decide (v = []).
Proof.
  intros (_ & Hl & _). unfold ssid_is_empty. rewrite Hl.
  by destruct v; case_bool_decide.
Qed.

Lemma ssid_holds_new s v : ssid_new v = Ok s → ssid_holds s v.
Proof.
  destruct (ssid_new_spec v) as [Hok Herr]. intros H.
  destruct (decide (length v ≤ MAX_SSID_LEN)%nat) as [Hle|Hgt].
  - destruct (Hok Hle) as (s' & Hs' & ?). congruence.
  - rewrite Herr in H by lia. done.
Qed.

Lemma passphrase_valid_spec v :
  passphrase_valid v = true ↔
  (8 ≤ length v ≤ 63)%nat ∨ length v = 64%nat ∧ Forall (λ b, is_ascii_hexdigit b) v.
Proof.
  unfold passphrase_valid, MAX_PASSPHRASE_LEN.
  rewrite orb_true_iff, andb_true_iff, !bool_decide_eq_true, forallb_forall.
  rewrite Forall_forall. setoid_rewrite list_elem_of_In.
  setoid_rewrite Is_true_true. split; intros [?|[? ?]]; (left; lia) || (right; done).
Qed.

Lemma passphrase_new_Ok v :
  passphrase_valid v = true → ∃ p, passphrase_new v = Ok p ∧ passphrase_holds p v.
Proof.
  intros Hv. unfold passphrase_new. rewrite Hv. simpl.
  assert (length v ≤ MAX_PASSPHRASE_LEN)%nat as Hlen.
  { apply passphrase_valid_spec in Hv. unfold MAX_PASSPHRASE_LEN. lia. }
  destruct (inline_fill_build 0 (E := ConfigError) 8 MAX_PASSPHRASE_LEN v)
    as (cells & -> & ?); [done..|]. simpl. eauto.
Qed.

Lemma wifi_policy_new_wf i m j p :
  is_u 32 i → is_u 32 m → is_u 32 j → wifi_policy_new i m j = Ok p → wifi_policy_wf p.
Proof.
  unfold wifi_policy_new, wifi_policy_wf, is_u. intros Hi Hm Hj H.
  case_match eqn:E; [done|]. simplify_eq/=.
  apply orb_false_iff in E as [[? ?]%orb_false_iff ?]. lia.
Qed.

Lemma wifi_policy_default_wf : wifi_policy_wf wifi_policy_default.
Proof. unfold wifi_policy_wf, is_u. simpl. lia. Qed.

Lemma wifi_backoff_at_new p : wifi_policy_wf p → wifi_backoff_at p 0 (wifi_backoff_new p).
Proof.
  intros _. unfold wifi_backoff_at, wifi_base. simpl. rewrite Z.mul_1_r. done.
Qed.

Lemma wifi_backoff_at_reset p k b :
  wifi_policy_wf p → wifi_backoff_at p k b → wifi_backoff_at p 0 (wifi_backoff_reset b).
Proof. intros ? (<- & _ & _). by apply wifi_backoff_at_new. Qed.

Lemma wifi_base_range p k :
  wifi_policy_wf p → 0 < wifi_base p k ≤ maximum_delay_ms p - maximum_jitter_ms p.
Proof.
  intros (? & ? & ?). unfold wifi_base.
  assert (0 < 2 ^ Z.of_nat k) by (apply Z.pow_pos_nonneg; lia). nia.
Qed.

Lemma wifi_base_succ p k :
  wifi_policy_wf p →
  wifi_base p (S k) =
  Z.min (saturating_mul_u 32 (wifi_base p k) 2) (maximum_delay_ms p - maximum_jitter_ms p).
Proof.
  intros (? & ? & ?). unfold wifi_base, saturating_mul_u, u_max, is_u in *.
  rewrite Nat2Z.inj_succ, Z.pow_succ_r by lia.
  generalize (2 ^ Z.of_nat k) as q. intros q. lia.
Qed.

Lemma wifi_next_delay_at {E} p k b entropy :
  wifi_policy_wf p → wifi_backoff_at p k b →
  ∃ b', wifi_next_delay_ms (E := E) b entropy =
      Ok (wifi_base p k + entropy mod (maximum_jitter_ms p + 1), b') ∧
    wifi_backoff_at p (S k) b'.
Proof.
  intros Hp (Hpol & Hbase & Hatt). pose proof (wifi_base_range p k Hp) as Hr.
  pose proof Hp as (Hi & Hj & Hu). unfold is_u in Hu.
  unfold wifi_next_delay_ms. rewrite Hpol, Hatt.
  replace (saturating_sub_u _ _) with (maximum_delay_ms p - maximum_jitter_ms p)
    by (unfold saturating_sub_u; lia).
  rewrite Hbase.
  assert ((if maximum_jitter_ms p =? 0 then Ok 0 else
            m ← add_u 32 (maximum_jitter_ms p) 1; Ok (entropy mod m))
          = Ok (E := E) (entropy mod (maximum_jitter_ms p + 1))) as ->.
  { destruct (Z.eqb_spec (maximum_jitter_ms p) 0) as [->|];
      [by rewrite Z.mod_1_r|]. by rewrite add_u_Ok by lia. }
  simpl. pose proof (mod_upto (maximum_jitter_ms p) entropy) as Hm.
  eexists. split.
  - do 2 f_equal. unfold saturating_add_u, u_max. lia.
  - split_and!; simpl; [done| |].
    + rewrite (wifi_base_succ p k) by done. lia.
    + unfold saturating_add_u, u_max. lia.
Qed.

(** [ReconnectBackoff] is a back-off calculator in the sense of [Backoff]. *)
#[export] Instance wifi_backoff : Backoff ReconnectBackoff := {|
  bo_next := @wifi_next_delay_ms;
  bo_reset := wifi_backoff_reset;
  bo_attempts := wb_attempts;
  bo_maximum b := maximum_delay_ms (wb_policy b);
  bo_wf := wifi_backoff_wf
|}.

#[export] Instance wifi_backoff_laws : BackoffLaws ReconnectBackoff.
Proof.
  split; simpl.
  - intros E b entropy (Hp & k & Hk) _.
    destruct (wifi_next_delay_at (E := E) _ k b entropy Hp Hk) as (b' & -> & Hk').
    pose proof Hk' as (Hpol & _ & Hatt). pose proof Hk as (_ & _ & Hatt0).
    pose proof (wifi_base_range _ k Hp). pose proof Hp as (? & ? & ?).
    pose proof (mod_upto (maximum_jitter_ms (wb_policy b)) entropy).
    eexists _, b'. split; [done|]. unfold wifi_backoff_wf. rewrite Hpol.
    split_and!; [lia|lia|done|eauto|done|lia].
  - intros b (Hp & k & Hk). split_and!; [|done..].
    split; [done|]. exists 0%nat. by eapply wifi_backoff_at_reset.
Qed.

Lemma wifi_backoff_wf_new p : wifi_policy_wf p → wifi_backoff_wf (wifi_backoff_new p).
Proof. split; [done|]. exists 0%nat. by apply wifi_backoff_at_new. Qed.

Lemma wifi_run_schedule {E} p es k b :
  wifi_policy_wf p → wifi_backoff_at p k b →
  ∃ b', run_retries (E := E) (RetryAfter <$> es) b =
      Ok (imap (λ n e, wifi_base p (k + n) + e mod (maximum_jitter_ms p + 1)) es, b') ∧
    wifi_backoff_at p (k + length es) b'.
Proof.
  intros Hp. revert k b. induction es as [|e es IH]; intros k b Hk; csimpl.
  - rewrite Nat.add_0_r. eauto.
  - destruct (wifi_next_delay_at (E := E) p k b e) as (b1 & -> & Hk1); [done..|]. simpl.
    destruct (IH (S k) b1 Hk1) as (b2 & -> & Hk2). simpl. eexists. split.
    + do 3 f_equal; [by rewrite Nat.add_0_r|].
      apply imap_ext. intros n x _. simpl. do 2 f_equal. lia.
    + by rewrite Nat.add_succ_r.
Qed.

(** Every delay of an interleaving is at least the smaller of the initial
    delay and the jitter-free maximum. *)
Lemma wifi_base_lower p k :
  wifi_policy_wf p →
  Z.min (initial_delay_ms p) (maximum_delay_ms p - maximum_jitter_ms p) ≤ wifi_base p k.
Proof.
  intros (? & ? & ?). unfold wifi_base.
  assert (0 < 2 ^ Z.of_nat k) by (apply Z.pow_pos_nonneg; lia). nia.
Qed.

Lemma wifi_run_lower {E} p ops k b ds b' :
  wifi_policy_wf p → wifi_backoff_at p k b →
  run_retries (E := E) ops b = Ok (ds, b') →
  Forall (λ d, Z.min (initial_delay_ms p)
                     (maximum_delay_ms p - maximum_jitter_ms p) ≤ d) ds.
Proof.
  intros Hp. revert k b ds. induction ops as [|[e|] ops IH]; simpl; intros k b ds Hk H.
  - by simplify_eq.
  - destruct (wifi_next_delay_at (E := E) p k b e) as (b1 & Hn & Hk1); [done..|].
    rewrite Hn in H. simpl in H. apply bind_Ok_iff in H as ([ds1 b2] & H1 & H2).
    simplify_eq. constructor; [|by eapply IH].
    pose proof (wifi_base_lower p k Hp). destruct Hp as (_ & ? & _).
    pose proof (mod_upto (maximum_jitter_ms p) e). lia.
  - eapply IH; [|done]. by eapply wifi_backoff_at_reset.
Qed.

Lemma foldl_max_spec l m :
  ∃ x, foldl (λ m x, Some (match m with None => x | Some m => Z.max m x end)) (Some m) l
         = Some x ∧ (x = m ∨ x ∈ l) ∧ m ≤ x ∧ Forall (λ y, y ≤ x) l.
Proof.
  revert m. induction l as [|y l IH]; intros m; simpl.
  { exists m. split_and!; [done|auto|lia|constructor]. }
  destruct (IH (Z.max m y)) as (x & -> & Hx & Hm & Hall).
  exists x. split_and!; [done| |lia|constructor; [lia|done]].
  rewrite elem_of_cons. destruct Hx as [->|]; [|auto].
  destruct (Z.max_spec m y) as [[_ ->]|[_ ->]]; auto.
Qed.

Lemma iter_max_spec l :
  match iter_max l with
  | None => l = []
  | Some x => x ∈ l ∧ Forall (λ y, y ≤ x) l
  end.
Proof.
  unfold iter_max. destruct l as [|y l]; [done|]. simpl.
  destruct (foldl_max_spec l y) as (x & -> & Hx & Hm & Hall).
  rewrite elem_of_cons. auto.
Qed.

(** * Properties *)

(** C22: the station reconnect schedule. Built from any policy that
    [ReconnectPolicy::new] accepts, the calculator's n-th delay (counting from
    zero) is the initial delay doubled n times, capped at maximum minus
    jitter, plus the entropy reduced modulo jitter + 1; no call panics or
    fails, and the attempt counter counts the calls, saturating. *)
Theorem wifi_backoff_schedule (E : Type) (i m j : Z) (p : ReconnectPolicy) (es : list Z) :
  is_u 32 i → is_u 32 m → is_u 32 j → wifi_policy_new i m j = Ok p →
  ∃ b, run_retries (E := E) (RetryAfter <$> es) (wifi_backoff_new p) =
         Ok (imap (λ n e, Z.min (i * 2 ^ Z.of_nat n) (m - j) + e mod (j + 1)) es, b) ∧
       wb_attempts b = Z.min (Z.of_nat (length es)) (u_max 32).
Proof.
  intros Hi Hm Hj Hp. pose proof (wifi_policy_new_wf i m j p Hi Hm Hj Hp) as Hwf.
  destruct (wifi_run_schedule (E := E) p es 0 (wifi_backoff_new p)) as (b & Hb & _ & _ & Ha);
    [done|by apply wifi_backoff_at_new|].
  exists b. split; [|done]. rewrite Hb.
  unfold wifi_policy_new in Hp. case_match; [done|]. by simplify_eq.
Qed.

Lemma wifi_backoff_schedule_witness :
  ∃ b, run_retries (E := unit) (RetryAfter <$> [250; 0; 500; 500])
         (wifi_backoff_new {| initial_delay_ms := 1000; maximum_delay_ms := 5000;
                              maximum_jitter_ms := 500 |}) =
         Ok ([1250; 2000; 4500; 5000], b) ∧ wb_attempts b = 4.
Proof.
  apply (wifi_backoff_schedule unit 1000 5000 500 _ [250; 0; 500; 500]);
    [unfold is_u; lia..|reflexivity].
Defined.

(** Safety of the station supervisor's sleeps. Whatever the interleaving
    of failed associations (with any entropy) and successful ones, every
    delay stays between min(initial, maximum - jitter), which is positive,
    and the policy's maximum: no busy retry loop and no unbounded silence. *)
Theorem wifi_delays_bounded (E : Type) (i m j : Z) (p : ReconnectPolicy)
    (ops : list retry_op) :
  is_u 32 i → is_u 32 m → is_u 32 j → wifi_policy_new i m j = Ok p →
  Forall retry_op_ok ops →
  ∃ ds b, run_retries (E := E) ops (wifi_backoff_new p) = Ok (ds, b) ∧
    Forall (λ d, 0 < Z.min i (m - j) ≤ d ∧ d ≤ m) ds.
Proof.
  intros Hi Hm Hj Hp Hops. pose proof (wifi_policy_new_wf i m j p Hi Hm Hj Hp) as Hwf.
  destruct (run_retries_spec (E := E) ops (wifi_backoff_new p)) as (ds & b & Hrun & Hds & _);
    [by apply wifi_backoff_wf_new|done|].
  pose proof (wifi_run_lower p ops 0 _ ds b Hwf (wifi_backoff_at_new p Hwf) Hrun) as Hlo.
  exists ds, b. split; [done|]. apply Forall_forall. intros d Hd.
  rewrite Forall_forall in Hds, Hlo. specialize (Hds d Hd). specialize (Hlo d Hd).
  unfold wifi_policy_new in Hp. case_match; [done|]. simplify_eq/=.
  destruct Hwf as (? & ? & _). simpl in *. lia.
Qed.

Lemma wifi_delays_bounded_witness :
  ∃ ds b, run_retries (E := unit) [RetryAfter 7; RetrySucceeded; RetryAfter 3]
            (wifi_backoff_new wifi_policy_default) = Ok (ds, b) ∧
    Forall (λ d, 0 < Z.min 1000 (60000 - 500) ≤ d ∧ d ≤ 60000) ds.
Proof.
  apply (wifi_delays_bounded unit 1000 60000 500); [unfold is_u; lia..|reflexivity|].
  repeat constructor; simpl; lia.
Defined.

(** SSIDs round trip. [Ssid::new] accepts exactly the byte strings of at
    most 32 bytes; the value gives the same bytes back (the [u8] length never
    truncates and no slice is out of range), is empty only for the empty
    string, and two SSIDs are equal (derived [Eq] on padded storage) exactly
    when their bytes are. *)
Theorem ssid_roundtrip (E : Type) (v w : list Z) :
  (∀ s, ssid_new v = Ok s →
     (length v ≤ 32)%nat ∧ ssid_as_bytes (E := E) s = Ok v ∧
     ssid_size s = Z.of_nat (length v) ∧ (ssid_is_empty s = true ↔ v = []) ∧
     (is_str v → ssid_as_str (E := E) s = Ok (Some v)) ∧
     (¬ is_str v → ssid_as_str (E := E) s = Ok None) ∧
     (ssid_new w = Ok s ↔ w = v)) ∧
  ((∃ s, ssid_new v = Ok s) ∨ ssid_new v = Err SsidTooLong ∧ (32 < length v)%nat).
Proof.
  split.
  - intros s Hs. pose proof (ssid_holds_new s v Hs) as Hh.
    pose proof Hh as (Hl & Hlen & _). pose proof (ssid_holds_bytes (E := E) s v Hh) as Hb.
    unfold ssid_as_str, from_utf8_ok. rewrite Hb. simpl.
    split_and!; [done|done|done| | | |].
    + rewrite (ssid_holds_empty s v Hh). by rewrite bool_decide_eq_true.
    + intros. by rewrite decide_True.
    + intros. by rewrite decide_False.
    + split; [|by intros ->]. intros Hw%ssid_holds_new.
      eapply inline_holds_inj; [apply Hw|apply Hh].
  - destruct (ssid_new_spec v) as [Hok Herr].
    destruct (decide (length v ≤ MAX_SSID_LEN)%nat) as [Hle|Hgt].
    + left. destruct (Hok Hle) as (s & ? & _). eauto.
    + right. unfold MAX_SSID_LEN in *. split; [apply Herr|]; lia.
Qed.

(** Passphrases. [Passphrase::new] on a Rust string accepts exactly 8 to
    63 bytes or 64 hexadecimal digits; the stored secret reads back unchanged,
    its [Debug] text is the same for every secret, and dropping it with an
    overwriting [zeroize] leaves no byte of it behind. *)
Theorem passphrase_contract (E : Type) (v : list Z)
    (zeroize_bytes : list Z → list Z) (zeroize_u8 : Z → Z) :
  is_str v →
  (∀ l, zeroize_bytes l = replicate (length l) 0) → (∀ x, zeroize_u8 x = 0) →
  (((8 ≤ length v ≤ 63)%nat ∨
    length v = 64%nat ∧ Forall (λ b, is_ascii_hexdigit b) v) →
   ∃ p, passphrase_new v = Ok p ∧ passphrase_as_str (E := E) p = Ok v ∧
     passphrase_size p = Z.of_nat (length v) ∧
     (∀ q, passphrase_debug q = passphrase_debug p) ∧
     passphrase_drop zeroize_bytes zeroize_u8 p =
       {| pass_bytes := replicate 64 0; pass_len := 0 |}) ∧
  (¬ ((8 ≤ length v ≤ 63)%nat ∨
      length v = 64%nat ∧ Forall (λ b, is_ascii_hexdigit b) v) →
   passphrase_new v = Err InvalidPassphrase).
Proof.
  intros Hstr Hz1 Hz2. rewrite <-passphrase_valid_spec. split.
  - intros Hv. destruct (passphrase_new_Ok v Hv) as (p & Hp & Hh).
    exists p. unfold passphrase_as_str.
    rewrite (inline_view_holds _ _ _ _ _ Hh). simpl.
    pose proof (inline_holds_length _ _ _ _ _ Hh) as Hl. destruct Hh as (_ & Hlen & _).
    split_and!; [done|by rewrite from_utf8_or_empty_str|done|done|].
    unfold passphrase_drop. by rewrite Hz1, Hz2, Hl.
  - intros Hv. unfold passphrase_new. by destruct (passphrase_valid v).
Qed.

Lemma passphrase_contract_witness :
  ∃ p, passphrase_new (lit "commission-me") = Ok p ∧
    passphrase_as_str (E := unit) p = Ok (lit "commission-me") ∧
    passphrase_size p = 13 ∧ (∀ q, passphrase_debug q = passphrase_debug p) ∧
    passphrase_drop (λ l, replicate (length l) 0) (λ _, 0) p =
      {| pass_bytes := replicate 64 0; pass_len := 0 |}.
Proof.
  apply (passphrase_contract unit (lit "commission-me")
           (λ l, replicate (length l) 0) (λ _, 0));
    [by vm_compute; eexists|done|done|left; vm_compute; lia].
Defined.

(** Station configurations. A configuration that either constructor
    returns has a non-empty SSID and carries a passphrase exactly when it asks
    for authentication; the empty SSID is always refused first, and
    [personal] refuses [Open]. *)
Theorem station_config_invariant (ssid : Ssid) (pass : Passphrase) (auth : Authentication)
    (c : StationConfig) :
  station_open ssid = Ok c ∨ station_personal ssid pass auth = Ok c →
  ssid_is_empty (station_ssid c) = false ∧ station_ssid c = ssid ∧
  (station_passphrase c = None ↔ station_authentication c = AuthOpen) ∧
  (∀ q, station_passphrase c = Some q → q = pass ∧ station_authentication c = auth).
Proof.
  unfold station_open, station_personal, validate_ssid.
  destruct (ssid_is_empty ssid) eqn:He; simpl; [naive_solver|].
  intros [H|H]; [|case_decide; [done|]]; simplify_eq/=; split_and!; naive_solver.
Qed.

Lemma station_config_invariant_witness :
  let ssid := {| ssid_bytes := 65 :: replicate 31 0; ssid_len := 1 |} in
  ssid_is_empty (station_ssid {| station_ssid := ssid; station_authentication := AuthOpen;
                                 station_passphrase := None |}) = false.
Proof.
  intros ssid.
  destruct (station_config_invariant ssid {| pass_bytes := []; pass_len := 0 |} AuthOpen
    {| station_ssid := ssid; station_authentication := AuthOpen;
       station_passphrase := None |}) as [H _]; [left; reflexivity|exact H].
Defined.

(** Scan summaries. The summary's signal is absent exactly for an empty
    scan and otherwise is a signal of the scan that no other exceeds; the
    count is exact below 65536 and saturates at 65535. *)
Theorem scan_summary_correct (aps : list AccessPoint) :
  access_points (scan_summary aps) = Z.min (Z.of_nat (length aps)) 65535 ∧
  match strongest_signal_dbm (scan_summary aps) with
  | None => aps = []
  | Some x => x ∈ (ap_signal_strength_dbm <$> aps) ∧
              Forall (λ ap, ap_signal_strength_dbm ap ≤ x) aps
  end.
Proof.
  unfold scan_summary. simpl. split.
  - case_bool_decide as H; unfold is_u, u_max in *; lia.
  - pose proof (iter_max_spec (ap_signal_strength_dbm <$> aps)) as H.
    case_match; [|by destruct aps]. rewrite Forall_fmap in H. done.
Qed.
