(* ===== verification/Bluetooth.v ===== *)
(** [crates/bluetooth]: device names, beacon UUIDs and frames, advertising
    intervals and static random addresses. *)
From stdpp Require Import prelude list numbers option strings.
From Stdlib Require Import ZArith.
From S2P Require Import Prelude Text.
Local Open Scope Z_scope.
#[local] Ltac Zify.zify_post_hook ::= Z.to_euclidean_division_equations.

Definition MAX_DEVICE_NAME_LEN : nat := 22.
Definition IBEACON_COMPANY_IDENTIFIER : Z := 0x004c.
Definition IBEACON_PAYLOAD_LEN : nat := 23.

Inductive ConfigError : Type :=
  | EmptyDeviceName
  | DeviceNameTooLong
  | InvalidBeaconUuid
  | AdvertisingIntervalOutOfRange.

#[global] Instance ConfigError_eq_dec : EqDecision ConfigError.
Proof. solve_decision. Defined.

Definition bluetooth_error_text (e : ConfigError) : list Z :=
  match e with
  | EmptyDeviceName => lit "Bluetooth device name must not be empty"
  | DeviceNameTooLong => lit "Bluetooth device name exceeds 22 bytes"
  | InvalidBeaconUuid =>
    lit "beacon UUID must use canonical 8-4-4-4-12 hexadecimal form"
  | AdvertisingIntervalOutOfRange =>
    lit "advertising interval must be between 20 and 10240 milliseconds"
  end.

(** * Device names *)

Record DeviceName : Type := { name_bytes : list Z; name_len : Z }.

Definition device_name_new (value : list Z) : res ConfigError DeviceName :=
  if decide (value = []) then Err EmptyDeviceName else
  if decide (MAX_DEVICE_NAME_LEN < length value)%nat then Err DeviceNameTooLong else
  bytes ← inline_fill 0 MAX_DEVICE_NAME_LEN value;
  Ok {| name_bytes := bytes; name_len := wrap_u 8 (Z.of_nat (length value)) |}.

Definition device_name_as_str {E} (n : DeviceName) : res E (list Z) :=
  b ← inline_view (name_bytes n) (name_len n); Ok (from_utf8_or_empty b).

Definition device_name_size (n : DeviceName) : Z := name_len n.
Definition device_name_is_empty (n : DeviceName) : bool := name_len n =? 0.

(** * Beacon UUIDs *)

(** A UUID is its 16 bytes in network order. *)
Definition BeaconUuid : Type := list Z.

Definition decode_hex (value : Z) : res ConfigError Z :=
  if between 0x30 value 0x39 then Ok (value - 0x30)
  else if between 0x61 value 0x66 then Ok (value - 0x61 + 10)
  else if between 0x41 value 0x46 then Ok (value - 0x41 + 10)
  else Err InvalidBeaconUuid.

Definition is_dash_index (i : nat) : bool :=
  match i with 8 | 13 | 18 | 23 => true | _ => false end%nat.

(** The [while] loop of [BeaconUuid::parse].  Each round advances
    [source_index], so [length source + 1] rounds are enough; running out of
    fuel is the [Panic] that [uuid_parse_exact] excludes. *)
Fixpoint uuid_loop (fuel : nat) (source : list Z) (source_index byte_index : nat)
    (bytes : list Z) : res ConfigError (list Z) :=
  match fuel with
  | O => Panic
  | S fuel =>
    if decide (source_index < length source)%nat then
      if is_dash_index source_index then
        uuid_loop fuel source (S source_index) byte_index bytes
      else
        c ← index source source_index;
        high ← decode_hex c;
        d ← index source (S source_index);
        low ← decode_hex d;
        bytes ← store_at bytes byte_index (Z.lor (wrap_u 8 (Z.shiftl high 4)) low);
        uuid_loop fuel source (S (S source_index)) (S byte_index) bytes
    else Ok bytes
  end.

(** [source.len() != 36 || source[8] != b'-' || ...]: the indexing only
    happens when the length test passed. *)
Definition uuid_parse (value : list Z) : res ConfigError BeaconUuid :=
  if negb (length value =? 36)%nat then Err InvalidBeaconUuid else
  c8 ← index value 8;
  c13 ← index value 13;
  c18 ← index value 18;
  c23 ← index value 23;
  if (c8 =? 0x2D) && (c13 =? 0x2D) && (c18 =? 0x2D) && (c23 =? 0x2D)
  then uuid_loop (S (length value)) value 0 0 (replicate 16 0)
  else Err InvalidBeaconUuid.

Definition uuid_from_bytes (bytes : list Z) : BeaconUuid := bytes.
Definition uuid_as_bytes (u : BeaconUuid) : list Z := u.

Definition is_dash_byte (i : nat) : bool :=
  match i with 4 | 6 | 8 | 10 => true | _ => false end%nat.

(** [fmt::Display] *)
Definition uuid_display (u : BeaconUuid) : list Z :=
  concat (imap (λ i b,
    (if is_dash_byte i then [0x2D] else []) ++ hex2 false b) u).

(** One round of the parsing loop, and the rounds of a whole string: what
    [uuid_loop] computes once its indexing is resolved. *)
Definition hex_pair (c d : Z) : res ConfigError Z :=
  high ← decode_hex c; low ← decode_hex d;
  Ok (Z.lor (wrap_u 8 (Z.shiftl high 4)) low).

#[global] Arguments hex_pair : simpl never.

Fixpoint uuid_pairs (cs : list (Z * Z)) : res ConfigError (list Z) :=
  match cs with
  | [] => Ok []
  | (c, d) :: cs => b ← hex_pair c d; bs ← uuid_pairs cs; Ok (b :: bs)
  end.

Definition uuid_wf (u : BeaconUuid) : Prop := length u = 16%nat ∧ is_bytes u.

(** * Advertising intervals *)

Record AdvertisingInterval : Type := { interval_millis : Z }.

Definition MIN_MILLIS : Z := 20.
Definition MAX_MILLIS : Z := 10240.

Definition interval_from_millis (milliseconds : Z) : res ConfigError AdvertisingInterval :=
  if (milliseconds <? MIN_MILLIS) || (MAX_MILLIS <? milliseconds)
  then Err AdvertisingIntervalOutOfRange
  else Ok {| interval_millis := milliseconds |}.

Definition interval_default : AdvertisingInterval := {| interval_millis := 250 |}.

(** * iBeacon frames *)

Record IBeacon : Type := {
  beacon_uuid : BeaconUuid;
  beacon_major : Z;
  beacon_minor : Z;
  beacon_measured_power : Z
}.

Definition ibeacon_new (uuid : BeaconUuid) (major minor measured_power : Z) : IBeacon :=
  {| beacon_uuid := uuid; beacon_major := major; beacon_minor := minor;
     beacon_measured_power := measured_power |}.

(** [u16::to_be_bytes] *)
Definition be16 (n : Z) : list Z := [n / 256; n mod 256].

Definition manufacturer_payload (b : IBeacon) : list Z :=
  let uuid := beacon_uuid b in
  [0x02; 0x15] ++ take 16 uuid
  ++ be16 (beacon_major b) ++ be16 (beacon_minor b)
  ++ [wrap_u 8 (beacon_measured_power b)].

Definition ibeacon_wf (b : IBeacon) : Prop :=
  uuid_wf (beacon_uuid b) ∧ is_u 16 (beacon_major b) ∧ is_u 16 (beacon_minor b) ∧
  is_s 8 (beacon_measured_power b).

(** * Static random addresses *)

(** An address is its six bytes, most significant first. *)
Definition StaticRandomAddress : Type := list Z.

Definition address_wf (a : list Z) : Prop := length a = 6%nat ∧ is_bytes a.

Definition address_from_seed (seed : list Z) : StaticRandomAddress :=
  match seed with
  | [s0; s1; s2; s3; s4; s5] =>
    let s0 := Z.lor s0 0xC0 in
    let all_zeroes := (s0 =? 0xC0) && (s1 =? 0) && (s2 =? 0) && (s3 =? 0)
                      && (s4 =? 0) && (s5 =? 0) in
    let all_ones := (s0 =? 0xFF) && (s1 =? 0xFF) && (s2 =? 0xFF) && (s3 =? 0xFF)
                    && (s4 =? 0xFF) && (s5 =? 0xFF) in
    let s5 := if all_zeroes || all_ones then Z.lxor s5 1 else s5 in
    [s0; s1; s2; s3; s4; s5]
  | _ => seed
  end.

Definition address_to_hci_bytes (a : StaticRandomAddress) : list Z :=
  match a with
  | [a0; a1; a2; a3; a4; a5] => [a5; a4; a3; a2; a1; a0]
  | _ => a
  end.

(** [fmt::Display]: [{:02X}:...] *)
Definition address_display (a : StaticRandomAddress) : list Z :=
  join_with 0x3A (hex2 true <$> a).

(** The 46 bits that identify the device, as the address' bytes with the two
    type bits masked off. *)
Definition address_random_part (a : StaticRandomAddress) : list Z :=
  match a with
  | a0 :: rest => Z.land a0 0x3F :: rest
  | [] => []
  end.

(** The random parts the Bluetooth core specification forbids. *)
Definition degenerate (r : list Z) : Prop :=
  r = [0; 0; 0; 0; 0; 0] ∨ r = [0x3F; 0xFF; 0xFF; 0xFF; 0xFF; 0xFF].

#[global] Instance degenerate_dec r : Decision (degenerate r).
Proof. unfold degenerate. apply _. Defined.

Record PeripheralConfig : Type := {
  peripheral_name : DeviceName;
  peripheral_address : StaticRandomAddress
}.

Definition peripheral_new (name : DeviceName) (address : StaticRandomAddress) :
    PeripheralConfig :=
  {| peripheral_name := name; peripheral_address := address |}.

Inductive BluetoothState : Type :=
  | BtDisabled
  | BtReady
  | BtAdvertising
  | BtConnected
  | BtFailed.

(** * Lemmas *)

Lemma decode_hex_Ok c h :
  decode_hex c = Ok h ↔ 0 ≤ h < 16 ∧ to_ascii_lowercase c = hex_digit false h.
Proof.
  unfold decode_hex, to_ascii_lowercase, hex_digit, between.
  split.
  - repeat case_match; intros; simplify_eq; lia.
  - intros [? H]. repeat case_match; try (f_equal; lia); exfalso; lia.
Qed.

Lemma decode_hex_Err c e : decode_hex c = Err e → e = InvalidBeaconUuid.
Proof. unfold decode_hex. repeat case_match; congruence. Qed.

Lemma decode_hex_not_Panic c : decode_hex c ≠ Panic.
Proof. unfold decode_hex. by repeat case_match. Qed.

Lemma hex_pair_byte h l :
  0 ≤ h < 16 → 0 ≤ l < 16 →
  Z.lor (wrap_u 8 (Z.shiftl h 4)) l = h * 16 + l.
Proof.
  intros Hh Hl. unfold wrap_u. rewrite Z.shiftl_mul_pow2 by lia.
  rewrite Z.mod_small by lia.
  assert (∀ i, 0 ≤ i < 16 → ∀ j, 0 ≤ j < 16 → Z.lor (i * 2 ^ 4) j = i * 16 + j) as Hall.
  { intros i Hi j Hj.
    pose proof (byte_check (λ b, Z.lor (b / 16 * 2 ^ 4) (b mod 16) =? b)
                  ltac:(by vm_compute) (i * 16 + j) ltac:(unfold is_u; lia)) as H.
    apply Z.eqb_eq in H.
    replace ((i * 16 + j) / 16) with i in H by lia.
    by replace ((i * 16 + j) mod 16) with j in H by lia. }
  by apply Hall.
Qed.

Lemma hex_pair_Ok c d b :
  hex_pair c d = Ok b ↔
  is_u 8 b ∧ [to_ascii_lowercase c; to_ascii_lowercase d] = hex2 false b.
Proof.
  unfold hex_pair. rewrite bind_Ok_iff. setoid_rewrite bind_Ok_iff. unfold hex2, is_u. split.
  - intros (h & [Hh Hc]%decode_hex_Ok & l & [Hl Hd]%decode_hex_Ok & [= <-]).
    rewrite hex_pair_byte, Hc, Hd by done. split; [lia|].
    repeat f_equal; lia.
  - intros [Hb [= Hc Hd]]. exists (b / 16). split; [apply decode_hex_Ok; lia|].
    exists (b mod 16). split; [apply decode_hex_Ok; lia|].
    rewrite hex_pair_byte by lia. f_equal. lia.
Qed.

Lemma uuid_pairs_Ok cs bs :
  uuid_pairs cs = Ok bs ↔
  is_bytes bs ∧
  ((λ '(c, d), [to_ascii_lowercase c; to_ascii_lowercase d]) <$> cs) =
  (hex2 false <$> bs).
Proof.
  revert bs. induction cs as [|[c d] cs IH]; intros bs; csimpl.
  - split; [intros [= <-]; by repeat constructor|]. by destruct bs; intros [_ ?].
  - split.
    + intros (b & [Hb He]%hex_pair_Ok & H)%bind_Ok_iff.
      apply bind_Ok_iff in H as (bs' & [Hbs Hes]%IH & [= <-]). csimpl.
      split; [by constructor|]. by rewrite He, Hes.
    + destruct bs as [|b bs]; [naive_solver|]. csimpl.
      intros [Hbs [= Hc Hd He]]. inversion Hbs; subst.
      rewrite (proj2 (hex_pair_Ok c d b)) by (by rewrite Hc, Hd). simpl.
      by rewrite (proj2 (IH bs)).
Qed.

(** Where the two digits of each byte stand in the canonical form. *)
Lemma uuid_loop_pairs (s : list Z) :
  length s = 36%nat →
  uuid_loop 37 s 0 0 (replicate 16 0) =
  uuid_pairs ((λ k : nat, (s !!! k, s !!! S k)) <$>
    [0; 2; 4; 6; 9; 11; 14; 16; 19; 21; 24; 26; 28; 30; 32; 34]%nat).
Proof.
  intros Hs. do 36 (destruct s as [|? s]; [discriminate Hs|]).
  destruct s; [|discriminate Hs]. cbv -[decode_hex Z.lor wrap_u Z.shiftl].
  do 32 (destruct (decode_hex _); [|reflexivity..]). reflexivity.
Qed.

Lemma lowercase_dash c : to_ascii_lowercase c = 0x2D ↔ c = 0x2D.
Proof. unfold to_ascii_lowercase, between. case_match; lia. Qed.

Lemma uuid_display_length u : length u = 16%nat → length (uuid_display u) = 36%nat.
Proof.
  intros Hu. do 16 (destruct u as [|? u]; [discriminate Hu|]).
  destruct u; [done|discriminate Hu].
Qed.

Lemma uuid_parse_36 s :
  length s = 36%nat →
  uuid_parse s =
  if (s !!! 8%nat =? 0x2D) && (s !!! 13%nat =? 0x2D) && (s !!! 18%nat =? 0x2D)
     && (s !!! 23%nat =? 0x2D)
  then uuid_pairs ((λ k : nat, (s !!! k, s !!! S k)) <$>
         [0; 2; 4; 6; 9; 11; 14; 16; 19; 21; 24; 26; 28; 30; 32; 34]%nat)
  else Err InvalidBeaconUuid.
Proof.
  intros Hs. unfold uuid_parse. rewrite Hs, <-uuid_loop_pairs by done. simpl.
  do 24 (destruct s as [|? s]; [discriminate Hs|]). done.
Qed.

Lemma hex_pair_Err c d e : hex_pair c d = Err e → e = InvalidBeaconUuid.
Proof.
  intros [H|(h & _ & [H|(l & _ & H)]%bind_Err_iff)]%bind_Err_iff;
    eauto using decode_hex_Err; done.
Qed.

Lemma hex_pair_not_Panic c d : hex_pair c d ≠ Panic.
Proof.
  apply bind_not_Panic; [apply decode_hex_not_Panic|intros h _].
  by apply bind_not_Panic; [apply decode_hex_not_Panic|].
Qed.

Lemma uuid_pairs_Err cs e : uuid_pairs cs = Err e → e = InvalidBeaconUuid.
Proof.
  induction cs as [|[c d] cs IH]; simpl; [done|].
  intros [H|(b & _ & [H|(bs & _ & H)]%bind_Err_iff)]%bind_Err_iff;
    eauto using hex_pair_Err; done.
Qed.

Lemma uuid_pairs_not_Panic cs : uuid_pairs cs ≠ Panic.
Proof.
  induction cs as [|[c d] cs IH]; simpl; [done|].
  apply bind_not_Panic; [apply hex_pair_not_Panic|intros b _].
  by apply bind_not_Panic.
Qed.

Lemma uuid_parse_iff s u :
  uuid_parse s = Ok u ↔ uuid_wf u ∧ (to_ascii_lowercase <$> s) = uuid_display u.
Proof.
  destruct (decide (length s = 36%nat)) as [Hs|Hs]; cycle 1.
  { unfold uuid_parse. destruct (Nat.eqb_spec (length s) 36); [done|]. simpl.
    split; [done|]. intros [[Hu _] He]. apply (f_equal length) in He.
    rewrite length_fmap, uuid_display_length in He by done. lia. }
  rewrite uuid_parse_36 by done.
  do 36 (destruct s as [|? s]; [discriminate Hs|]). destruct s; [|discriminate Hs].
  cbn [lookup_total list_lookup_total]. unfold uuid_wf. split.
  - intros H. case_match eqn:Hd; [|done].
    apply andb_true_iff in Hd as [[[H8 H13]%andb_true_iff H18]%andb_true_iff H23].
    apply Z.eqb_eq in H8, H13, H18, H23. subst.
    apply uuid_pairs_Ok in H as [Hb He].
    pose proof (f_equal length He) as Hl. rewrite length_fmap in Hl.
    do 16 (destruct u as [|? u]; [discriminate Hl|]). destruct u; [|discriminate Hl].
    split; [done|]. unfold uuid_display, hex2 in *. cbn in He |- *. congruence.
  - intros [[Hl Hb] He].
    do 16 (destruct u as [|? u]; [discriminate Hl|]). destruct u; [|discriminate Hl].
    unfold uuid_display in He. cbn in He. injection He as ? ? ? ? ? ? ? ? H8 ? ? ? ? H13
      ? ? ? ? H18 ? ? ? ? H23 ? ? ? ? ? ? ? ? ? ? ? ?.
    apply (proj1 (lowercase_dash _)) in H8, H13, H18, H23. subst.
    apply (uuid_pairs_Ok [_; _; _; _; _; _; _; _; _; _; _; _; _; _; _; _]).
    split; [done|]. unfold hex2. csimpl. congruence.
Qed.

Lemma lowercase_hex2 b :
  is_u 8 b → (to_ascii_lowercase <$> hex2 false b) = hex2 false b.
Proof.
  unfold hex2, hex_digit, to_ascii_lowercase, between, is_u. intros Hb. csimpl.
  repeat f_equal; repeat case_match; lia.
Qed.

Lemma lowercase_display_from (f : nat → bool) u :
  is_bytes u →
  let text := concat (imap (λ i b, (if f i then [0x2D] else []) ++ hex2 false b) u) in
  (to_ascii_lowercase <$> text) = text.
Proof.
  intros Hu. revert f. induction Hu as [|b u Hb _ IH]; intros f; [done|].
  simpl. rewrite !fmap_app, lowercase_hex2 by done.
  f_equal; [by destruct (f 0%nat)|]. apply (IH (f ∘ S)).
Qed.

Lemma lowercase_display u :
  is_bytes u → (to_ascii_lowercase <$> uuid_display u) = uuid_display u.
Proof. apply lowercase_display_from. Qed.

Lemma be16_inj m n : is_u 16 m → is_u 16 n → be16 m = be16 n → m = n.
Proof. unfold be16, is_u. intros ? ? [= ? ?]. lia. Qed.

Lemma wrap_u_of_s_inj m n : is_s 8 m → is_s 8 n → wrap_u 8 m = wrap_u 8 n → m = n.
Proof. unfold wrap_u, is_s. lia. Qed.

Lemma device_name_new_Ok v :
  v ≠ [] → (length v ≤ MAX_DEVICE_NAME_LEN)%nat →
  ∃ n, device_name_new v = Ok n ∧
    inline_holds 0 MAX_DEVICE_NAME_LEN (name_bytes n) (name_len n) v.
Proof.
  intros Hne Hl. unfold device_name_new. rewrite decide_False by done.
  rewrite decide_False by lia.
  destruct (inline_fill_build 0 (E := ConfigError) 8 MAX_DEVICE_NAME_LEN v)
    as (cells & -> & ?); [done..|]. simpl. eauto.
Qed.

(** The low six bits of a byte, when the two upper ones are set by [| 0xC0]. *)
Lemma seed_type_bits b :
  is_u 8 b →
  is_u 8 (Z.lor b 0xC0) ∧ Z.land (Z.lor b 0xC0) 0xC0 = 0xC0 ∧
  Z.land (Z.lor b 0xC0) 0x3F = Z.land b 0x3F ∧ Z.lor (Z.lor b 0xC0) 0xC0 = Z.lor b 0xC0 ∧
  Z.lor b 0xC0 = 0xC0 + Z.land b 0x3F ∧ 0 ≤ Z.land b 0x3F < 64.
Proof.
  intros Hb.
  pose proof (byte_check (λ b,
    bool_decide (is_u 8 (Z.lor b 0xC0) ∧ Z.land (Z.lor b 0xC0) 0xC0 = 0xC0 ∧
      Z.land (Z.lor b 0xC0) 0x3F = Z.land b 0x3F ∧
      Z.lor (Z.lor b 0xC0) 0xC0 = Z.lor b 0xC0 ∧
      Z.lor b 0xC0 = 0xC0 + Z.land b 0x3F ∧ 0 ≤ Z.land b 0x3F < 64))
    ltac:(by vm_compute) b Hb) as H.
  by apply bool_decide_eq_true in H.
Qed.

Lemma address_from_seed_cases s0 s1 s2 s3 s4 s5 :
  is_u 8 s0 →
  address_from_seed [s0; s1; s2; s3; s4; s5] =
  Z.lor s0 0xC0 ::
  [s1; s2; s3; s4;
   if decide (degenerate [Z.land s0 0x3F; s1; s2; s3; s4; s5]) then Z.lxor s5 1 else s5].
Proof.
  intros (Hr & _ & _ & _ & He & Hl)%seed_type_bits. unfold address_from_seed.
  rewrite He. do 5 f_equal. f_equal.
  case_decide as Hd; unfold degenerate in Hd.
  - destruct Hd as [[= -> -> -> -> -> ->]|[= -> -> -> -> -> ->]]; done.
  - case_match eqn:E; [|done]. destruct Hd.
    apply orb_true_iff in E as [E|E];
      repeat apply andb_true_iff in E as [E ?];
      repeat match goal with H : (_ =? _) = true |- _ => apply Z.eqb_eq in H end;
      [left|right]; repeat f_equal; lia.
Qed.

Lemma uuid_parse_cases s :
  uuid_parse s = Err InvalidBeaconUuid ∨ ∃ cs, uuid_parse s = uuid_pairs cs.
Proof.
  destruct (decide (length s = 36%nat)) as [Hs|Hs].
  - rewrite uuid_parse_36 by done. case_match; eauto.
  - left. unfold uuid_parse. by destruct (Nat.eqb_spec (length s) 36).
Qed.

Lemma uuid_parse_Err s e : uuid_parse s = Err e → e = InvalidBeaconUuid.
Proof.
  destruct (uuid_parse_cases s) as [->|[cs ->]]; [congruence|apply uuid_pairs_Err].
Qed.

Lemma uuid_parse_not_Panic s : uuid_parse s ≠ Panic.
Proof.
  destruct (uuid_parse_cases s) as [->|[cs ->]]; [done|apply uuid_pairs_not_Panic].
Qed.

Lemma address_wf_cases a :
  address_wf a →
  ∃ a0 a1 a2 a3 a4 a5, a = [a0; a1; a2; a3; a4; a5] ∧ is_u 8 a0 ∧ is_u 8 a1 ∧
    is_u 8 a2 ∧ is_u 8 a3 ∧ is_u 8 a4 ∧ is_u 8 a5.
Proof.
  intros [Hl Hb]. unfold is_bytes in Hb.
  do 6 (destruct a as [|? a]; [discriminate Hl|]). destruct a; [|discriminate Hl].
  repeat rewrite Forall_cons in Hb. naive_solver.
Qed.

Lemma flip_low_bit b :
  is_u 8 b → is_u 8 (Z.lxor b 1) ∧ Z.lxor b 1 ≠ b ∧ (b = 0 → Z.lxor b 1 ≠ 0xFF) ∧
    (b = 0xFF → Z.lxor b 1 ≠ 0).
Proof.
  intros Hb.
  pose proof (byte_check (λ b,
    bool_decide (is_u 8 (Z.lxor b 1) ∧ Z.lxor b 1 ≠ b)) ltac:(by vm_compute) b Hb) as H.
  apply bool_decide_eq_true in H as [? ?]. split_and!; [done..| |]; by intros ->.
Qed.

(** * Properties *)

(** C28: beacon UUIDs. [BeaconUuid::parse] accepts a text exactly when it is a
    case variant of the canonical form that [Display] prints for the result,
    so parsing a printed UUID gives it back; every other text is refused with
    [InvalidBeaconUuid], and no input makes an index run out of range or the
    loop run on. *)
Theorem uuid_parse_exact (s u : list Z) :
  (uuid_parse s = Ok u ↔ uuid_wf u ∧ (to_ascii_lowercase <$> s) = uuid_display u) ∧
  (uuid_wf u → uuid_parse (uuid_display u) = Ok u) ∧
  (is_ok (uuid_parse s) ∨ uuid_parse s = Err InvalidBeaconUuid).
Proof.
  split_and!.
  - apply uuid_parse_iff.
  - intros Hu. apply uuid_parse_iff. split; [done|]. apply lowercase_display, Hu.
  - destruct (uuid_parse s) as [v|e|] eqn:H; [left; by eexists|right|exfalso].
    + by rewrite (uuid_parse_Err s e H).
    + by eapply uuid_parse_not_Panic.
Qed.

(** IBeacon frames. A frame's manufacturer payload is 23 bytes, starts with
    the proximity type and length, ends with the two's complement of the
    measured power, and determines the frame: no two beacons share one. *)
Theorem ibeacon_payload_exact (b b' : IBeacon) :
  ibeacon_wf b → ibeacon_wf b' →
  length (manufacturer_payload b) = IBEACON_PAYLOAD_LEN ∧
  is_bytes (manufacturer_payload b) ∧
  take 18 (manufacturer_payload b) = [0x02; 0x15] ++ uuid_as_bytes (beacon_uuid b) ∧
  (manufacturer_payload b = manufacturer_payload b' ↔ b = b').
Proof.
  intros ([Hl Hb] & Hma & Hmi & Hp) ([Hl' _] & Hma' & Hmi' & Hp').
  unfold manufacturer_payload, uuid_as_bytes. rewrite (take_ge (beacon_uuid b)), (take_ge (beacon_uuid b')) by lia. split_and!.
  - rewrite !length_app. simpl. rewrite Hl. done.
  - rewrite app_assoc. repeat (apply Forall_app; split); try done;
      repeat constructor; unfold wrap_u, is_u in *; lia.
  - destruct (beacon_uuid b) as [|? u]; [done|]. rewrite app_assoc.
    rewrite take_app_length' by (rewrite length_app, Hl; done). done.
  - split; [|by intros ->]. intros H%app_inv_head.
    apply app_inj_1 in H as [Hu [= H1 H2 H3 H4 H5]]; [|congruence].
    assert (beacon_major b = beacon_major b')
      by (apply be16_inj; [done..|unfold be16; congruence]).
    assert (beacon_minor b = beacon_minor b')
      by (apply be16_inj; [done..|unfold be16; congruence]).
    apply wrap_u_of_s_inj in H5; [|done..].
    destruct b, b'; simpl in *; congruence.
Qed.

Lemma ibeacon_payload_exact_witness :
  let b := ibeacon_new (replicate 16 0x7A) 1 0xA1B2 (-59) in
  length (manufacturer_payload b) = IBEACON_PAYLOAD_LEN ∧
  is_bytes (manufacturer_payload b) ∧
  take 18 (manufacturer_payload b) = [0x02; 0x15] ++ uuid_as_bytes (beacon_uuid b) ∧
  (manufacturer_payload b = manufacturer_payload b ↔ b = b).
Proof.
  intros b. apply (ibeacon_payload_exact b b);
    (split; [split; [reflexivity|repeat constructor; vm_compute; done]|];
     split_and!; vm_compute; done).
Defined.

(** C34: static random addresses. Whatever the six seed bytes, [from_seed]
    gives an address that Bluetooth accepts: the two type bits are set and the
    46 random bits are neither all zero nor all one. A seed whose random bits
    are not degenerate keeps them, deriving again changes nothing (a stable
    identity), and the HCI form is the byte reversal. *)
Theorem static_address_valid (seed : list Z) :
  address_wf seed →
  let a := address_from_seed seed in
  address_wf a ∧
  (∃ a0 rest, a = a0 :: rest ∧ Z.land a0 0xC0 = 0xC0) ∧
  ¬ degenerate (address_random_part a) ∧
  (¬ degenerate (address_random_part seed) →
     address_random_part a = address_random_part seed) ∧
  address_from_seed a = a ∧
  address_to_hci_bytes a = reverse a.
Proof.
  intros (s0 & s1 & s2 & s3 & s4 & s5 & -> & H0 & H1 & H2 & H3 & H4 & H5)%address_wf_cases.
  pose proof (seed_type_bits s0 H0) as (Hr & Ht & Hlow & Hor & _ & _).
  pose proof (flip_low_bit s5 H5) as (Hf & Hne & Hz & Ho).
  cbn zeta. rewrite address_from_seed_cases by done. simpl address_random_part.
  rewrite Hlow. set (d := if decide _ then _ else _).
  assert (is_u 8 d) as Hd by (subst d; by case_decide).
  assert (¬ degenerate [Z.land s0 0x3F; s1; s2; s3; s4; d]) as Hnd.
  { subst d. case_decide as Hdeg; [|done].
    destruct Hdeg as [[= -> -> -> -> -> ->]|[= -> -> -> -> -> ->]];
      intros [[=]|[=]]. }
  split_and!.
  - split; [done|]. unfold is_bytes. rewrite !Forall_cons. split_and!; done || constructor.
  - eauto.
  - done.
  - intros Hseed. subst d. by rewrite decide_False.
  - rewrite address_from_seed_cases, Hor, Hlow by done. by rewrite decide_False.
  - done.
Qed.

Lemma static_address_valid_witness :
  ¬ degenerate (address_random_part (address_from_seed [0; 0; 0; 0; 0; 0])) ∧
  address_from_seed [0; 0; 0; 0; 0; 0] = [0xC0; 0; 0; 0; 0; 1].
Proof.
  split; [|reflexivity].
  destruct (static_address_valid [0; 0; 0; 0; 0; 0]) as (_ & _ & H & _); [|exact H].
  split; [reflexivity|repeat constructor; vm_compute; done].
Defined.

(** Device names. [DeviceName::new] accepts exactly the non-empty strings
    of at most 22 bytes and reads them back unchanged, with their length; the
    empty name and the long name get their own error. *)
Theorem device_name_contract (E : Type) (v : list Z) :
  is_str v →
  (v = [] → device_name_new v = Err EmptyDeviceName) ∧
  ((22 < length v)%nat → device_name_new v = Err DeviceNameTooLong) ∧
  (v ≠ [] → (length v ≤ 22)%nat →
   ∃ n, device_name_new v = Ok n ∧ device_name_as_str (E := E) n = Ok v ∧
     device_name_size n = Z.of_nat (length v) ∧ device_name_is_empty n = false ∧
     ∀ w, device_name_new w = Ok n → w = v).
Proof.
  intros Hv. split_and!.
  - by intros ->.
  - intros Hl. unfold device_name_new.
    rewrite decide_False by (intros ->; simpl in Hl; lia).
    by rewrite decide_True by (unfold MAX_DEVICE_NAME_LEN; lia).
  - intros Hne Hl. destruct (device_name_new_Ok v Hne Hl) as (n & Hn & Hh).
    exists n. unfold device_name_as_str. rewrite (inline_view_holds _ _ _ _ _ Hh). simpl.
    pose proof Hh as (_ & Hlen & _).
    unfold device_name_size, device_name_is_empty. rewrite Hlen.
    split_and!; [done|by rewrite from_utf8_or_empty_str|done| |].
    + destruct v; [done|]. simpl. lia.
    + intros w Hw. pose proof Hw as Hw'. unfold device_name_new in Hw'.
      do 2 (case_decide; [done|]).
      destruct (device_name_new_Ok w) as (n' & Hn' & Hh'); [done|lia|].
      rewrite Hw in Hn'. simplify_eq. eapply inline_holds_inj; [apply Hh'|apply Hh].
Qed.

Lemma device_name_contract_witness :
  ∃ n, device_name_new (lit "XIAO") = Ok n ∧
    device_name_as_str (E := unit) n = Ok (lit "XIAO") ∧
    device_name_size n = 4 ∧ device_name_is_empty n = false ∧
    ∀ w, device_name_new w = Ok n → w = lit "XIAO".
Proof.
  apply (device_name_contract unit (lit "XIAO"));
    [by vm_compute; eexists|discriminate|vm_compute; lia].
Defined.
