(* ===== verification/Foundation.v ===== *)
(** The platform-neutral vocabulary: [crates/core] (capability sets, hardware
    descriptors, the [BoardSupport] trait), [crates/config] (schema versions,
    the [Validate] trait), [crates/runtime] (service health),
    [crates/telemetry] (events and sinks), and the two crates that instantiate
    it for the supported board, [ports/espressif/esp32c6] and
    [boards/seeed/xiao-esp32c6]. *)
From stdpp Require Import prelude list numbers option strings.
From Stdlib Require Import ZArith.
From S2P Require Import Prelude Text Bluetooth.
Local Open Scope Z_scope.

(** * [crates/core] *)

Inductive Architecture : Type :=
  | RiscV32
  | CortexM
  | Xtensa
  | ArchHost
  | ArchOther.

(** The [u64] of flags. *)
Record Capabilities : Type := { cap_bits : Z }.

#[global] Instance Capabilities_eq_dec : EqDecision Capabilities.
Proof. solve_decision. Defined.

Definition cap_flag (n : Z) : Capabilities := {| cap_bits := Z.shiftl 1 n |}.

Definition CAP_NONE : Capabilities := {| cap_bits := 0 |}.
Definition CAP_WIFI := cap_flag 0.
Definition CAP_BLE := cap_flag 1.
Definition CAP_IEEE_802_15_4 := cap_flag 2.
Definition CAP_THREAD := cap_flag 3.
Definition CAP_HARDWARE_RNG := cap_flag 4.
Definition CAP_CRYPTO_ACCELERATION := cap_flag 5.
Definition CAP_USB := cap_flag 6.
Definition CAP_OTA := cap_flag 7.
Definition CAP_PERSISTENT_STORAGE := cap_flag 8.

Definition cap_from_bits (bits : Z) : Capabilities := {| cap_bits := bits |}.

Definition cap_union (a b : Capabilities) : Capabilities :=
  {| cap_bits := Z.lor (cap_bits a) (cap_bits b) |}.

Definition cap_contains (a required : Capabilities) : bool :=
  Z.land (cap_bits a) (cap_bits required) =? cap_bits required.

Record HardwareDescriptor : Type := {
  hw_board : list Z;
  hw_chip : list Z;
  hw_manufacturer : list Z;
  hw_architecture : Architecture;
  hw_capabilities : Capabilities
}.

(** The trait of board support packages. *)
Class BoardSupport (B : Type) := { HARDWARE : HardwareDescriptor }.

(** Abstract view of a capability set: flag [n] is in it. *)
Definition cap_has (a : Capabilities) (n : Z) : Prop := Z.testbit (cap_bits a) n = true.

(** * [crates/config] *)

Record SchemaVersion : Type := { schema_major : Z; schema_minor : Z }.

Definition schema_new (major minor : Z) : SchemaVersion :=
  {| schema_major := major; schema_minor := minor |}.

Definition is_compatible_with (reader encoded : SchemaVersion) : bool :=
  (schema_major reader =? schema_major encoded)
  && (schema_minor encoded <=? schema_minor reader).

(** The derived [Ord]: fields in order. *)
Definition schema_le (a b : SchemaVersion) : bool :=
  (schema_major a <? schema_major b)
  || ((schema_major a =? schema_major b) && (schema_minor a <=? schema_minor b)).

(** * [crates/runtime] *)

Inductive ServiceState : Type :=
  | Stopped
  | Starting
  | Healthy
  | Degraded
  | ServiceFailed.

Record HealthSnapshot : Type := {
  service_id : Z;
  service_state : ServiceState;
  last_progress_tick : Z;
  restart_count : Z
}.

Definition health_stopped (id : Z) : HealthSnapshot :=
  {| service_id := id; service_state := Stopped; last_progress_tick := 0;
     restart_count := 0 |}.

Definition health_report (h : HealthSnapshot) (state : ServiceState) (tick : Z) :
    HealthSnapshot :=
  {| service_id := service_id h; service_state := state; last_progress_tick := tick;
     restart_count := restart_count h |}.

Definition is_stale (h : HealthSnapshot) (now maximum_silence : Z) : bool :=
  maximum_silence <? saturating_sub_u now (last_progress_tick h).

(** A service's reports, oldest first. *)
Definition health_run (id : Z) (reports : list (ServiceState * Z)) : HealthSnapshot :=
  foldl (λ h r, health_report h r.1 r.2) (health_stopped id) reports.

(** * [crates/telemetry] *)

Inductive Severity : Type :=
  | SevDebug
  | SevInfo
  | SevWarning
  | SevError
  | SevCritical.

(** The derived [Ord] compares discriminants. *)
Definition severity_rank (s : Severity) : Z :=
  match s with
  | SevDebug => 0 | SevInfo => 1 | SevWarning => 2 | SevError => 3 | SevCritical => 4
  end.

Definition severity_le (a b : Severity) : bool := severity_rank a <=? severity_rank b.

Record Event : Type := { event_code : Z; event_severity : Severity; event_value : Z }.

(** The [EventSink] trait: a stateful receiver. *)
Class EventSink (S E : Type) := { emit : S → Event → res E S }.

(** * The ESP32-C6 port's and the XIAO board's constants *)

Definition ESP32C6_CHIP : list Z := lit "esp32c6".
Definition ESP32C6_ARCHITECTURE : Architecture := RiscV32.
Definition ESP32C6_CAPABILITIES : Capabilities :=
  cap_union (cap_union (cap_union (cap_union CAP_WIFI CAP_BLE) CAP_IEEE_802_15_4)
    CAP_HARDWARE_RNG) CAP_CRYPTO_ACCELERATION.

Inductive XiaoEsp32c6 : Type := xiao_esp32c6.

#[export] Instance xiao_board : BoardSupport XiaoEsp32c6 := {|
  HARDWARE := {|
    hw_board := lit "xiao-esp32c6";
    hw_chip := ESP32C6_CHIP;
    hw_manufacturer := lit "Seeed Studio";
    hw_architecture := ESP32C6_ARCHITECTURE;
    hw_capabilities := ESP32C6_CAPABILITIES
  |}
|}.

Definition BLUETOOTH_DEVICE_NAME : list Z := lit "XIAO ESP32C6 SDK".
Definition USER_LED_GPIO : Z := 15.
Definition BOOT_BUTTON_GPIO : Z := 9.
Definition D0_GPIO : Z := 0.
Definition D1_GPIO : Z := 1.
Definition D2_GPIO : Z := 2.
Definition D3_GPIO : Z := 21.
Definition I2C_SDA_GPIO : Z := 22.
Definition I2C_SCL_GPIO : Z := 23.
Definition UART_TX_GPIO : Z := 16.
Definition UART_RX_GPIO : Z := 17.
Definition SPI_SCK_GPIO : Z := 19.
Definition SPI_MISO_GPIO : Z := 20.
Definition SPI_MOSI_GPIO : Z := 18.
Definition RF_SWITCH_ENABLE_GPIO : Z := 3.
Definition RF_SWITCH_SELECT_GPIO : Z := 14.

Definition board_pins : list Z :=
  [USER_LED_GPIO; BOOT_BUTTON_GPIO; D0_GPIO; D1_GPIO; D2_GPIO; D3_GPIO; I2C_SDA_GPIO;
   I2C_SCL_GPIO; UART_TX_GPIO; UART_RX_GPIO; SPI_SCK_GPIO; SPI_MISO_GPIO;
   SPI_MOSI_GPIO; RF_SWITCH_ENABLE_GPIO; RF_SWITCH_SELECT_GPIO].

(** * Lemmas *)

Lemma cap_contains_has a b :
  cap_contains a b = true ↔ ∀ n, cap_has b n → cap_has a n.
Proof.
  unfold cap_contains, cap_has. rewrite Z.eqb_eq. split.
  - intros H n Hb. rewrite <-H, Z.land_spec in Hb. by apply andb_true_iff in Hb as [? _].
  - intros H. apply Z.bits_inj. intros n. rewrite Z.land_spec.
    specialize (H n). destruct (Z.testbit (cap_bits b) n); [|by rewrite andb_false_r].
    by rewrite H.
Qed.

Lemma cap_union_has a b n : cap_has (cap_union a b) n ↔ cap_has a n ∨ cap_has b n.
Proof. unfold cap_has, cap_union. simpl. by rewrite Z.lor_spec, orb_true_iff. Qed.

Lemma cap_flag_has k n : 0 ≤ k → cap_has (cap_flag k) n ↔ n = k.
Proof.
  intros Hk. unfold cap_has, cap_flag. simpl. rewrite Z.shiftl_1_l.
  rewrite Z.pow2_bits_eqb by done. rewrite Z.eqb_eq. split; congruence.
Qed.

Lemma cap_none_has n : ¬ cap_has CAP_NONE n.
Proof. unfold cap_has, CAP_NONE. simpl. by rewrite Z.bits_0. Qed.

Lemma health_run_snoc id rs r :
  health_run id (rs ++ [r]) = health_report (health_run id rs) r.1 r.2.
Proof. unfold health_run. by rewrite foldl_app. Qed.

Lemma health_run_id id rs :
  service_id (health_run id rs) = id ∧ restart_count (health_run id rs) = 0.
Proof.
  induction rs as [|r rs IH] using rev_ind; [done|]. by rewrite health_run_snoc.
Qed.

Lemma cap_ext a b : (∀ n, cap_has a n ↔ cap_has b n) → a = b.
Proof.
  destruct a as [x], b as [y]. unfold cap_has. simpl. intros H. f_equal.
  apply Z.bits_inj. intros n. specialize (H n).
  destruct (Z.testbit x n), (Z.testbit y n); naive_solver.
Qed.

(** * Properties *)

(** Capability sets are sets of flags. On the flags a [u64] word holds,
    [union] is set union and stays within 64 bits, [contains] is inclusion,
    and the word is determined by its flags; so [contains] is a partial order
    and [union] its least upper bound. *)
Theorem capabilities_are_sets (a b c : Capabilities) :
  (∀ n, cap_has (cap_union a b) n ↔ cap_has a n ∨ cap_has b n) ∧
  (cap_contains a b = true ↔ ∀ n, cap_has b n → cap_has a n) ∧
  (cap_contains a b = true → cap_contains b a = true → a = b) ∧
  (cap_contains c (cap_union a b) = cap_contains c a && cap_contains c b) ∧
  (is_u 64 (cap_bits a) → is_u 64 (cap_bits b) → is_u 64 (cap_bits (cap_union a b))) ∧
  cap_contains a CAP_NONE = true.
Proof.
  split_and!.
  - apply cap_union_has.
  - apply cap_contains_has.
  - rewrite !cap_contains_has. intros Hab Hba. apply cap_ext. naive_solver.
  - apply eq_true_iff_eq. rewrite andb_true_iff, !cap_contains_has.
    setoid_rewrite cap_union_has. naive_solver.
  - intros. by apply lor_u.
  - apply cap_contains_has. intros n Hn. by apply cap_none_has in Hn.
Qed.

(** The XIAO ESP32C6 board contract. The descriptor's capability set has
    exactly the Wi-Fi, BLE, 802.15.4, RNG and crypto flags, no two board
    functions share a GPIO, every GPIO exists on the chip (0-30), and the
    default Bluetooth name is a valid GAP device name that reads back. *)
Theorem xiao_board_contract :
  (∀ n, cap_has (hw_capabilities (HARDWARE (B := XiaoEsp32c6))) n ↔
        n ∈ [0; 1; 2; 4; 5]) ∧
  cap_contains (hw_capabilities (HARDWARE (B := XiaoEsp32c6))) CAP_THREAD = false ∧
  NoDup board_pins ∧ Forall (λ pin, 0 ≤ pin ≤ 30) board_pins ∧
  (∃ name, device_name_new BLUETOOTH_DEVICE_NAME = Ok name ∧
           device_name_as_str (E := unit) name = Ok BLUETOOTH_DEVICE_NAME).
Proof.
  split_and!.
  - intros n. simpl. unfold ESP32C6_CAPABILITIES. rewrite !cap_union_has.
    unfold CAP_WIFI, CAP_BLE, CAP_IEEE_802_15_4, CAP_HARDWARE_RNG,
      CAP_CRYPTO_ACCELERATION. rewrite !cap_flag_has by done. set_solver.
  - reflexivity.
  - apply (bool_decide_unpack _). vm_compute. exact I.
  - repeat constructor; vm_compute; discriminate.
  - eexists. split; vm_compute; reflexivity.
Qed.

(** Schema compatibility. "This reader may consume that encoding" is a
    partial order on versions: reflexive, transitive, antisymmetric. It
    implies the derived order and never crosses a major version; within one
    major version the newer of two readers consumes all the older one does. *)
Theorem schema_compatibility_order (a b c : SchemaVersion) :
  is_compatible_with a a = true ∧
  (is_compatible_with a b = true → is_compatible_with b c = true →
   is_compatible_with a c = true) ∧
  (is_compatible_with a b = true → is_compatible_with b a = true → a = b) ∧
  (is_compatible_with a b = true ↔
   schema_le b a = true ∧ schema_major a = schema_major b) ∧
  (schema_major a = schema_major b →
   is_compatible_with a b = true ∨ is_compatible_with b a = true).
Proof.
  unfold is_compatible_with, schema_le. destruct a as [ma na], b as [mb nb], c; simpl.
  split_and!; try lia. intros. assert (ma = mb ∧ na = nb) as [-> ->] by lia. done.
Qed.

(** Health snapshots. After any sequence of reports the snapshot still
    names its service and carries the last report; it is stale exactly when
    more than the allowed silence has passed since that report, never when
    the clock reads earlier than the report, and stays stale as time goes on. *)
Theorem health_snapshot_tracks_reports (id : Z) (rs : list (ServiceState * Z))
    (s : ServiceState) (tick now later silence : Z) :
  0 ≤ silence → now ≤ later →
  let h := health_run id (rs ++ [(s, tick)]) in
  service_id h = id ∧ service_state h = s ∧ last_progress_tick h = tick ∧
  restart_count h = 0 ∧
  (is_stale h now silence = true ↔ tick + silence < now) ∧
  (now ≤ tick → is_stale h now silence = false) ∧
  (is_stale h now silence = true → is_stale h later silence = true).
Proof.
  intros Hs Hl. cbn zeta. rewrite health_run_snoc.
  destruct (health_run_id id rs) as [Hid Hr].
  unfold is_stale, saturating_sub_u. simpl. rewrite Hid, Hr. split_and!; done || lia.
Qed.

Lemma health_snapshot_tracks_reports_witness :
  let h := health_run 7 ([(Starting, 1)] ++ [(Healthy, 10)]) in
  service_id h = 7 ∧ is_stale h 15 5 = false ∧ is_stale h 16 5 = true.
Proof.
  destruct (health_snapshot_tracks_reports 7 [(Starting, 1)] Healthy 10 15 16 5)
    as (H & _); [lia|lia|]. split; [exact H|]. split; reflexivity.
Defined.
