(* ===== verification/Networking.v ===== *)
(** [crates/networking] (portable link and IPv4 state) and
    [crates/networking-embassy-net] (its adapter to an Embassy network stack).

    The Embassy stack is third-party code: it is a Section variable, seen
    through the calls the adapter makes.  An [async] wait is modelled over the
    sequence of observations the executor's polls make of the stack: a wait
    skips observations until its condition holds and resumes there, without
    consuming the instant it resumes at; [None] is "still pending". *)
From stdpp Require Import prelude list numbers option strings.
From S2P Require Import Prelude Text.
Local Open Scope Z_scope.

Definition MAX_DNS_SERVERS : nat := 3.

Inductive ConfigError : Type :=
  | InvalidIpv4PrefixLength
  | TooManyDnsServers.

#[global] Instance ConfigError_eq_dec : EqDecision ConfigError.
Proof. solve_decision. Defined.

Definition networking_error_text (e : ConfigError) : list Z :=
  match e with
  | InvalidIpv4PrefixLength => lit "IPv4 prefix length exceeds 32 bits"
  | TooManyDnsServers => lit "too many IPv4 DNS servers"
  end.

Inductive LinkState : Type := LinkDown | LinkUp.

#[global] Instance LinkState_eq_dec : EqDecision LinkState.
Proof. solve_decision. Defined.

(** [core::net::Ipv4Addr]: its four octets. *)
Definition Ipv4Addr : Type := list Z.
Definition IPV4_UNSPECIFIED : Ipv4Addr := [0; 0; 0; 0].
Definition ipv4_display (a : Ipv4Addr) : list Z := join_with 0x2E (dec <$> a).

(** * DNS server lists *)

Record DnsServers : Type := { dns_addresses : list Ipv4Addr; dns_len : Z }.

Definition dns_servers_new (addresses : list Ipv4Addr) : res ConfigError DnsServers :=
  if decide (MAX_DNS_SERVERS < length addresses)%nat then Err TooManyDnsServers else
  stored ← inline_fill IPV4_UNSPECIFIED MAX_DNS_SERVERS addresses;
  Ok {| dns_addresses := stored; dns_len := wrap_u 8 (Z.of_nat (length addresses)) |}.

Definition dns_as_slice {E} (d : DnsServers) : res E (list Ipv4Addr) :=
  inline_view (dns_addresses d) (dns_len d).

Definition dns_is_empty (d : DnsServers) : bool := dns_len d =? 0.

Definition dns_default : DnsServers :=
  {| dns_addresses := replicate MAX_DNS_SERVERS IPV4_UNSPECIFIED; dns_len := 0 |}.

Definition dns_holds (d : DnsServers) (v : list Ipv4Addr) : Prop :=
  inline_holds IPV4_UNSPECIFIED MAX_DNS_SERVERS (dns_addresses d) (dns_len d) v.

(** * IPv4 configuration and snapshots *)

Record Ipv4Configuration : Type := {
  ipv4_address : Ipv4Addr;
  ipv4_prefix_len : Z;
  ipv4_gateway : option Ipv4Addr;
  ipv4_dns_servers : DnsServers
}.

Definition ipv4_configuration_new (address : Ipv4Addr) (prefix_len : Z)
    (gateway : option Ipv4Addr) (dns : DnsServers) : res ConfigError Ipv4Configuration :=
  if 32 <? prefix_len then Err InvalidIpv4PrefixLength else
  Ok {| ipv4_address := address; ipv4_prefix_len := prefix_len;
        ipv4_gateway := gateway; ipv4_dns_servers := dns |}.

Record NetworkSnapshot : Type := {
  snapshot_link : LinkState;
  snapshot_ipv4 : option Ipv4Configuration
}.

Definition network_snapshot_new (link : LinkState) (ipv4 : option Ipv4Configuration) :
    NetworkSnapshot := {| snapshot_link := link; snapshot_ipv4 := ipv4 |}.

Definition is_ip_ready (s : NetworkSnapshot) : bool :=
  match snapshot_link s with LinkUp => true | LinkDown => false end
  && match snapshot_ipv4 s with Some _ => true | None => false end.

Definition is_dns_ready (s : NetworkSnapshot) : bool :=
  match snapshot_ipv4 s with
  | Some configuration =>
    is_ip_ready s && negb (dns_is_empty (ipv4_dns_servers configuration))
  | None => false
  end.

(** * The Embassy adapter *)

(** What the adapter reads of an [embassy_net::StaticConfigV4]. *)
Record StaticConfigV4 : Type := {
  static_address : Ipv4Addr;
  static_prefix_len : Z;
  static_gateway : option Ipv4Addr;
  static_dns_servers : list Ipv4Addr
}.

(** [embassy_net::IpAddress] has one constructor in the build the repository
    configures: [copy_ipv4_addresses] destructures it irrefutably. *)
Inductive IpAddress : Type := IpV4 (a : Ipv4Addr).

Inductive DnsError : Type := DnsInvalidName | DnsNameTooLong | DnsFailed.

Inductive ResolveError : Type :=
  | ResolveInvalidName
  | ResolveNameTooLong
  | ResolveFailed
  | OutputTooSmall (required : nat).

Definition resolve_error_text (e : ResolveError) : list Z :=
  match e with
  | ResolveInvalidName => lit "invalid DNS name"
  | ResolveNameTooLong => lit "DNS name is too long"
  | ResolveFailed => lit "DNS lookup failed"
  | OutputTooSmall required =>
    lit "DNS output buffer requires " ++ dec (Z.of_nat required) ++ lit " entries"
  end.

Definition resolve_error_from (e : DnsError) : ResolveError :=
  match e with
  | DnsInvalidName => ResolveInvalidName
  | DnsNameTooLong => ResolveNameTooLong
  | DnsFailed => ResolveFailed
  end.

Definition convert_ipv4_configuration (c : StaticConfigV4) :
    res ConfigError Ipv4Configuration :=
  dns ← dns_servers_new (static_dns_servers c);
  ipv4_configuration_new (static_address c) (static_prefix_len c) (static_gateway c) dns.

Definition snapshot_from_parts (link_up : bool) (configuration : option StaticConfigV4) :
    res ConfigError NetworkSnapshot :=
  let link := if link_up then LinkUp else LinkDown in
  ipv4 ← match configuration with
         | None => Ok None
         | Some c => Some <$> convert_ipv4_configuration c
         end;
  Ok (network_snapshot_new link ipv4).

(** The [for] loop of [copy_ipv4_addresses]. *)
Fixpoint copy_loop (addresses : list IpAddress) (output : list Ipv4Addr) (len : nat) :
    res ResolveError (nat * list Ipv4Addr) :=
  match addresses with
  | [] => Ok (len, output)
  | IpV4 address :: addresses =>
    output ← store_at output len address;
    copy_loop addresses output (S len)
  end.

Definition is_ipv4 (a : IpAddress) : bool := match a with IpV4 _ => true end.

(** The result, and the caller's buffer afterwards. *)
Definition copy_ipv4_addresses (addresses : list IpAddress) (output : list Ipv4Addr) :
    res ResolveError nat * list Ipv4Addr :=
  let required := length (List.filter is_ipv4 addresses) in
  if (required =? 0)%nat then (Err ResolveFailed, output) else
  if (length output <? required)%nat then (Err (OutputTooSmall required), output) else
  match copy_loop addresses output 0 with
  | Ok (len, output) => (Ok len, output)
  | Err e => (Err e, output)
  | Panic => (Panic, output)
  end.

Section EmbassyNetwork.
(** The stack at one instant, and its [is_link_up], [is_config_up],
    [config_v4] and [dns_query]. *)
Context {Stack : Type}
  (is_link_up is_config_up : Stack → bool)
  (config_v4 : Stack → option StaticConfigV4)
  (dns_query : list Z → res DnsError (list IpAddress)).

Definition snapshot (s : Stack) : res ConfigError NetworkSnapshot :=
  snapshot_from_parts (is_link_up s) (config_v4 s).

(** [self.stack.wait_..().await]: resume at the first poll that sees [P]. *)
Fixpoint poll_until (P : Stack → bool) (polls : list Stack) : option (Stack * list Stack) :=
  match polls with
  | [] => None
  | s :: rest => if P s then Some (s, s :: rest) else poll_until P rest
  end.

(** The [loop] of [wait_ip_ready]; every round but the last leaves at least
    one poll behind, so [length polls + 1] rounds are enough. *)
Fixpoint wait_ip_ready_loop (fuel : nat) (polls : list Stack) :
    option (res ConfigError NetworkSnapshot * list Stack) :=
  match fuel with
  | O => Some (Panic, polls)
  | S fuel =>
    '(_, polls) ← poll_until is_link_up polls;
    '(now, polls) ← poll_until is_config_up polls;
    match snapshot now with
    | Ok s => if is_ip_ready s then Some (Ok s, polls) else wait_ip_ready_loop fuel polls
    | Err e => Some (Err e, polls)
    | Panic => Some (Panic, polls)
    end
  end.

Definition wait_ip_ready (polls : list Stack) :
    option (res ConfigError NetworkSnapshot * list Stack) :=
  wait_ip_ready_loop (S (length polls)) polls.

Definition wait_ip_down (polls : list Stack) :
    option (res ConfigError NetworkSnapshot * list Stack) :=
  '(now, polls) ← poll_until (λ s, negb (is_config_up s)) polls;
  Some (snapshot now, polls).

Definition resolve_ipv4 (name : list Z) (output : list Ipv4Addr) :
    res ResolveError nat * list Ipv4Addr :=
  match map_err resolve_error_from (dns_query name) with
  | Ok addresses => copy_ipv4_addresses addresses output
  | Err e => (Err e, output)
  | Panic => (Panic, output)
  end.

(** The configurations Embassy hands out: a CIDR prefix of at most 32 bits
    and a DNS vector of capacity three. *)
Definition static_config_ok (c : StaticConfigV4) : Prop :=
  0 ≤ static_prefix_len c ≤ 32 ∧ (length (static_dns_servers c) ≤ 3)%nat.

Definition stack_ready (s : Stack) : bool :=
  is_link_up s && match config_v4 s with Some _ => true | None => false end.
End EmbassyNetwork.

(** * Lemmas *)

Lemma dns_servers_new_Ok v :
  (length v ≤ MAX_DNS_SERVERS)%nat → ∃ d, dns_servers_new v = Ok d ∧ dns_holds d v.
Proof.
  intros Hl. unfold dns_servers_new. rewrite decide_False by lia.
  destruct (inline_fill_build IPV4_UNSPECIFIED (E := ConfigError) 8 MAX_DNS_SERVERS v)
    as (cells & -> & ?); [done..|]. simpl. eauto.
Qed.

Lemma dns_holds_empty d v : dns_holds d v → dns_is_empty d = bool_decide (v = []).
Proof.
  intros (_ & Hl & _). unfold dns_is_empty. rewrite Hl. by destruct v; case_bool_decide.
Qed.

Lemma convert_Ok c :
  static_config_ok c →
  ∃ d, convert_ipv4_configuration c =
      Ok {| ipv4_address := static_address c; ipv4_prefix_len := static_prefix_len c;
            ipv4_gateway := static_gateway c; ipv4_dns_servers := d |} ∧
    dns_holds d (static_dns_servers c).
Proof.
  intros [Hp Hd]. unfold convert_ipv4_configuration, ipv4_configuration_new.
  destruct (dns_servers_new_Ok _ Hd) as (d & -> & ?). simpl.
  destruct (Z.ltb_spec 32 (static_prefix_len c)); [lia|]. eauto.
Qed.

Lemma copy_loop_Ok addresses output pre :
  (length pre + length addresses ≤ length output)%nat →
  copy_loop addresses (pre ++ drop (length pre) output) (length pre) =
  Ok ((length pre + length addresses)%nat,
      pre ++ ((λ '(IpV4 a), a) <$> addresses) ++
      drop (length pre + length addresses) output).
Proof.
  revert pre. induction addresses as [|[a] addresses IH]; intros pre Hl; csimpl.
  - by rewrite Nat.add_0_r.
  - unfold store_at. rewrite decide_True
      by (rewrite length_app, length_drop; simpl in Hl; lia). simpl.
    destruct (drop (length pre) output) as [|x rest] eqn:Hd.
    { apply (f_equal length) in Hd. rewrite length_drop in Hd. simpl in *. lia. }
    rewrite insert_app_r_alt, Nat.sub_diag by lia. simpl.
    specialize (IH (pre ++ [a])). rewrite length_app in IH. simpl in IH, Hl.
    rewrite <-drop_drop, Hd in IH. simpl in IH.
    rewrite <-app_assoc, Nat.add_1_r in IH. simpl in IH. rewrite skipn_O in IH.
    rewrite IH by lia. rewrite <-app_assoc. simpl. rewrite Nat.add_succ_r. do 4 f_equal.
Qed.

Lemma filter_is_ipv4 addresses : List.filter is_ipv4 addresses = addresses.
Proof. induction addresses as [|[a] l IH]; simpl; congruence. Qed.

Lemma copy_ipv4_addresses_eq answer output :
  copy_ipv4_addresses answer output =
  if decide (answer = []) then (Err ResolveFailed, output) else
  if decide (length answer ≤ length output)%nat
  then (Ok (length answer), ((λ '(IpV4 a), a) <$> answer) ++ drop (length answer) output)
  else (Err (OutputTooSmall (length answer)), output).
Proof.
  unfold copy_ipv4_addresses. rewrite filter_is_ipv4.
  destruct answer as [|a answer]; [done|].
  destruct (Nat.eqb_spec (length (a :: answer)) 0); [done|].
  rewrite (decide_False (P := a :: answer = [])) by done.
  destruct (Nat.ltb_spec (length output) (length (a :: answer)));
    case_decide; try lia; [done|].
  pose proof (copy_loop_Ok (a :: answer) output []) as Hc. simpl length in *.
  rewrite skipn_O in Hc. simpl app in Hc. by rewrite Hc.
Qed.

Lemma resolve_ipv4_length query name output :
  query name ≠ Panic →
  let '(r, output') := resolve_ipv4 query name output in
  r ≠ Panic ∧ length output' = length output.
Proof.
  intros Hq. unfold resolve_ipv4. destruct (query name) as [answer|e|]; simpl; [|done..].
  rewrite copy_ipv4_addresses_eq. repeat case_decide; split; try done.
  rewrite length_app, length_fmap, length_drop. lia.
Qed.

Section PollLemmas.
Context {Stack : Type}.

Lemma poll_until_Some (P : Stack → bool) polls s rest :
  poll_until P polls = Some (s, rest) ↔
  ∃ pre tl, polls = pre ++ rest ∧ rest = s :: tl ∧ P s = true ∧
    Forall (λ x, P x = false) pre.
Proof.
  revert s rest. induction polls as [|x polls IH]; intros s rest; simpl.
  { split; [done|]. by intros ([|] & ? & ? & -> & _). }
  destruct (P x) eqn:HP.
  - split; [intros [= <- <-]; by exists [], polls|].
    intros (pre & tl & Heq & -> & HPs & Hpre). destruct pre as [|y pre].
    + by simplify_eq/=.
    + inversion Hpre; simplify_eq/=. congruence.
  - rewrite IH. split.
    + intros (pre & tl & -> & -> & ? & ?). exists (x :: pre), tl. by repeat constructor.
    + intros (pre & tl & Heq & -> & HPs & Hpre). destruct pre as [|y pre].
      { simplify_eq/=. congruence. }
      inversion Hpre; simplify_eq/=. by exists pre, tl.
Qed.

Lemma poll_until_None (P : Stack → bool) polls :
  poll_until P polls = None ↔ Forall (λ x, P x = false) polls.
Proof.
  induction polls as [|x polls IH]; simpl; [done|]. rewrite Forall_cons.
  destruct (P x); naive_solver.
Qed.

(** A search for [Q] may first skip to a weaker condition. *)
Lemma poll_until_weaken (P Q : Stack → bool) polls :
  (∀ s, Q s = true → P s = true) →
  poll_until Q polls = ('(_, polls) ← poll_until P polls; poll_until Q polls).
Proof.
  intros HQ. induction polls as [|s polls IH]; simpl; [done|].
  destruct (P s) eqn:HP; simpl; [done|].
  destruct (Q s) eqn:HQs; [|done]. apply HQ in HQs. congruence.
Qed.

End PollLemmas.

Section WaitLemmas.
Context {Stack : Type}
  (is_link_up is_config_up : Stack → bool)
  (config_v4 : Stack → option StaticConfigV4).
Hypothesis config_up_iff : ∀ s, is_config_up s = true ↔ is_Some (config_v4 s).
Hypothesis config_ok : ∀ s c, config_v4 s = Some c → static_config_ok c.

Lemma snapshot_ready s :
  ∃ sn, snapshot is_link_up config_v4 s = Ok sn ∧
    is_ip_ready sn = stack_ready is_link_up config_v4 s.
Proof.
  unfold snapshot, snapshot_from_parts, stack_ready.
  destruct (config_v4 s) as [c|] eqn:Hc; simpl.
  - destruct (convert_Ok c) as (d & -> & _); [by eapply config_ok|]. simpl.
    eexists. split; [done|]. unfold is_ip_ready. by destruct (is_link_up s).
  - eexists. split; [done|]. unfold is_ip_ready. by destruct (is_link_up s).
Qed.

Lemma stack_ready_iff s :
  stack_ready is_link_up config_v4 s = is_link_up s && is_config_up s.
Proof.
  unfold stack_ready. f_equal. apply eq_true_iff_eq. rewrite config_up_iff.
  destruct (config_v4 s); split; try done; by intros [? ?].
Qed.

Lemma wait_ip_ready_loop_first fuel polls :
  (length polls < fuel)%nat →
  wait_ip_ready_loop is_link_up is_config_up config_v4 fuel polls =
  ('(s, rest) ← poll_until (stack_ready is_link_up config_v4) polls;
   Some (snapshot is_link_up config_v4 s, rest)).
Proof.
  revert polls. induction fuel as [|fuel IH]; intros polls Hf; [lia|]. simpl.
  rewrite (poll_until_weaken is_link_up (stack_ready _ _) polls)
    by (intros s; rewrite stack_ready_iff; by intros [? _]%andb_true_iff).
  destruct (poll_until is_link_up polls) as [[s1 p1]|] eqn:H1; [|done]. simpl.
  rewrite (poll_until_weaken is_config_up (stack_ready _ _) p1)
    by (intros s; rewrite stack_ready_iff; by intros [_ ?]%andb_true_iff).
  destruct (poll_until is_config_up p1) as [[s2 p2]|] eqn:H2; [|done]. simpl.
  apply poll_until_Some in H1 as (pre1 & tl1 & -> & -> & Hl1 & _).
  apply poll_until_Some in H2 as (pre2 & tl2 & Hp & -> & Hc2 & _).
  destruct (snapshot_ready s2) as (sn & Hsn & Hr). rewrite Hsn, Hr.
  simpl. destruct (stack_ready is_link_up config_v4 s2) eqn:Hready; simpl; [by rewrite Hsn|].
  assert (length (s2 :: tl2) < fuel)%nat as Hlt.
  { destruct pre2 as [|y pre2].
    - rewrite stack_ready_iff, Hc2, andb_true_r in Hready. simplify_eq/=. congruence.
    - apply (f_equal length) in Hp. rewrite !length_app in Hf. simpl in *.
      rewrite length_app in Hp. simpl in Hp. lia. }
  rewrite IH by done. simpl. by rewrite Hready.
Qed.
End WaitLemmas.

(** * Properties *)

(** The network snapshot says what the stack says. From any configuration
    within Embassy's bounds, the snapshot is built, keeps address, prefix,
    gateway and DNS servers, is IP-ready exactly when link and configuration
    are both present, and DNS-ready exactly when moreover a server is listed;
    outside the bounds the matching error is returned, the DNS list first. *)
Theorem snapshot_exact (E : Type) (link : bool) (cfg : option StaticConfigV4) :
  (∀ c, cfg = Some c → static_config_ok c →
   ∃ s c', snapshot_from_parts link cfg = Ok s ∧ snapshot_ipv4 s = Some c' ∧
     ipv4_address c' = static_address c ∧ ipv4_prefix_len c' = static_prefix_len c ∧
     ipv4_gateway c' = static_gateway c ∧
     dns_as_slice (E := E) (ipv4_dns_servers c') = Ok (static_dns_servers c) ∧
     is_ip_ready s = link ∧
     is_dns_ready s = link && bool_decide (static_dns_servers c ≠ [])) ∧
  (cfg = None → ∃ s, snapshot_from_parts link cfg = Ok s ∧
     is_ip_ready s = false ∧ is_dns_ready s = false) ∧
  (∀ c, cfg = Some c → (3 < length (static_dns_servers c))%nat →
     snapshot_from_parts link cfg = Err TooManyDnsServers) ∧
  (∀ c, cfg = Some c → (length (static_dns_servers c) ≤ 3)%nat →
     32 < static_prefix_len c →
     snapshot_from_parts link cfg = Err InvalidIpv4PrefixLength).
Proof.
  unfold snapshot_from_parts. split_and!.
  - intros c -> Hc. destruct (convert_Ok c Hc) as (d & -> & Hd). simpl.
    eexists _, _. split_and!; [done..|by apply inline_view_holds with (1 := Hd)| |].
    + unfold is_ip_ready. by destruct link.
    + unfold is_dns_ready, is_ip_ready. simpl. rewrite (dns_holds_empty _ _ Hd).
      rewrite andb_true_r, bool_decide_not. by destruct link.
  - intros ->. eexists. split; [done|]. unfold is_ip_ready, is_dns_ready. simpl.
    by rewrite andb_false_r.
  - intros c -> Hc. unfold convert_ipv4_configuration, dns_servers_new.
    by rewrite decide_True by (unfold MAX_DNS_SERVERS; lia).
  - intros c -> Hd Hc. unfold convert_ipv4_configuration, ipv4_configuration_new.
    destruct (dns_servers_new_Ok _ Hd) as (d & -> & ?). simpl.
    by destruct (Z.ltb_spec 32 (static_prefix_len c)); [|lia].
Qed.

(** C6: [wait_ip_ready] returns at the first instant it could. Over any
    sequence of polls of a stack that reports "configured" exactly when it has
    an IPv4 configuration within its bounds, the two-stage loop with its
    re-check behaves like a single wait for "link up and configured": it is
    pending while no poll shows that, and otherwise resumes at the first poll
    that does, with that instant's snapshot, which is IP-ready. *)
Theorem wait_ip_ready_first {Stack : Type} (is_link_up is_config_up : Stack → bool)
    (config_v4 : Stack → option StaticConfigV4) (polls : list Stack) :
  (∀ s, is_config_up s = true ↔ is_Some (config_v4 s)) →
  (∀ s c, config_v4 s = Some c → static_config_ok c) →
  (wait_ip_ready is_link_up is_config_up config_v4 polls = None ↔
   Forall (λ s, stack_ready is_link_up config_v4 s = false) polls) ∧
  (∀ pre s rest,
     polls = pre ++ s :: rest → stack_ready is_link_up config_v4 s = true →
     Forall (λ s, stack_ready is_link_up config_v4 s = false) pre →
     ∃ sn, snapshot is_link_up config_v4 s = Ok sn ∧ is_ip_ready sn = true ∧
       wait_ip_ready is_link_up is_config_up config_v4 polls = Some (Ok sn, s :: rest)).
Proof.
  intros Hup Hok. unfold wait_ip_ready.
  rewrite wait_ip_ready_loop_first by (done || lia). split.
  - rewrite <-poll_until_None. destruct (poll_until _ polls) as [[]|]; simpl; by split.
  - intros pre s rest Hp Hs Hpre.
    destruct (snapshot_ready is_link_up config_v4 Hok s) as (sn & Hsn & Hr).
    exists sn. split_and!; [done|congruence|].
    assert (poll_until (stack_ready is_link_up config_v4) polls = Some (s, s :: rest)) as ->.
    { apply poll_until_Some. by exists pre, rest. }
    simpl. by rewrite Hsn.
Qed.

Lemma wait_ip_ready_first_witness :
  let c := {| static_address := [192; 0; 2; 10]; static_prefix_len := 24;
              static_gateway := None; static_dns_servers := [[192; 0; 2; 53]] |} in
  let config (s : bool * bool) := if s.2 then Some c else None in
  let flapping := [(true, false); (false, true); (false, false); (true, true); (true, true)] in
  ∃ sn, snapshot fst config (true, true) = Ok sn ∧ is_ip_ready sn = true ∧
    wait_ip_ready fst snd config flapping = Some (Ok sn, drop 3 flapping).
Proof.
  intros c config flapping.
  apply (wait_ip_ready_first fst snd config flapping) with (pre := take 3 flapping).
  - intros [l []]; unfold is_Some; naive_solver.
  - intros [l []] c' [= <-]. split; simpl; lia.
  - reflexivity.
  - reflexivity.
  - repeat constructor.
Defined.

(** DNS resolution is complete or an error. The caller's buffer receives
    every address of the answer in order and keeps the rest of its contents,
    and the count is returned; an empty answer, a failed query and a short
    buffer (whose error names the room required) leave the buffer untouched. *)
Theorem resolve_ipv4_complete (dns_query : list Z → res DnsError (list IpAddress))
    (name : list Z) (output : list Ipv4Addr) :
  resolve_ipv4 dns_query name output =
  match dns_query name with
  | Ok [] => (Err ResolveFailed, output)
  | Ok answer =>
    if decide (length answer ≤ length output)%nat
    then (Ok (length answer),
          ((λ '(IpV4 a), a) <$> answer) ++ drop (length answer) output)
    else (Err (OutputTooSmall (length answer)), output)
  | Err e => (Err (resolve_error_from e), output)
  | Panic => (Panic, output)
  end.
Proof.
  unfold resolve_ipv4. destruct (dns_query name) as [answer|e|]; simpl; [|done..].
  rewrite copy_ipv4_addresses_eq. by destruct answer.
Qed.
