(* ===== verification/Mqtt.v ===== *)
(** [crates/mqtt]: validated MQTT values, session configuration, lifecycle
    snapshots with saturating counters, and the MQTT reconnect back-off. *)
From stdpp Require Import prelude list numbers option strings.
From Stdlib Require Import ZArith.
From S2P Require Import Prelude Text Backoff.
Local Open Scope Z_scope.
#[local] Ltac Zify.zify_post_hook ::= Z.to_euclidean_division_equations.

Definition MAX_HOSTNAME_LEN : nat := 253.
Definition MAX_CLIENT_ID_LEN : nat := 64.
Definition MAX_TOPIC_LEN : nat := 256.
Definition MAX_PACKET_SIZE : Z := 65535.

Inductive ConfigError : Type :=
  | TextEmpty
  | TextTooLong
  | InvalidHostname
  | InvalidClientId
  | InvalidTopicName
  | InvalidTopicFilter
  | InvalidPort
  | InvalidMaximumPacketSize
  | InvalidReconnectPolicy.

#[global] Instance ConfigError_eq_dec : EqDecision ConfigError.
Proof. solve_decision. Defined.

Definition mqtt_error_text (e : ConfigError) : list Z :=
  match e with
  | TextEmpty => lit "MQTT value must not be empty"
  | TextTooLong => lit "MQTT value exceeds its bounded capacity"
  | InvalidHostname => lit "invalid MQTT broker hostname"
  | InvalidClientId => lit "invalid MQTT client identifier"
  | InvalidTopicName => lit "invalid MQTT topic name"
  | InvalidTopicFilter => lit "invalid MQTT topic filter"
  | InvalidPort => lit "MQTT broker port must not be zero"
  | InvalidMaximumPacketSize => lit "invalid MQTT maximum packet size"
  | InvalidReconnectPolicy => lit "invalid MQTT reconnect policy"
  end.

(** * Bounded text *)

(** The arguments of the [bounded_text!] macro; a generated type is
    [BoundedText] at its arguments. *)
Record TextSpec : Type := {
  text_capacity : nat;
  text_validator : list Z → res ConfigError unit
}.

Record BoundedText (S : TextSpec) : Type := { text_bytes : list Z; text_len : Z }.
Arguments text_bytes {S} _.
Arguments text_len {S} _.

#[global] Instance BoundedText_eq_dec S : EqDecision (BoundedText S).
Proof. solve_decision. Defined.

Definition text_new (S : TextSpec) (value : list Z) : res ConfigError (BoundedText S) :=
  if decide (value = []) then Err TextEmpty else
  if decide (text_capacity S < length value)%nat then Err TextTooLong else
  _ ← text_validator S value;
  bytes ← inline_fill 0 (text_capacity S) value;
  Ok {| text_bytes := bytes; text_len := wrap_u 16 (Z.of_nat (length value)) |}.

Definition text_as_str {E S} (t : BoundedText S) : res E (list Z) :=
  b ← inline_view (text_bytes t) (text_len t); Ok (from_utf8_or_empty b).

Definition text_size {S} (t : BoundedText S) : Z := text_len t.
Definition text_is_empty {S} (t : BoundedText S) : bool := text_len t =? 0.

Definition text_holds {S} (t : BoundedText S) (v : list Z) : Prop :=
  inline_holds 0 (text_capacity S) (text_bytes t) (text_len t) v.

(** * Validators *)

Definition bad_label (label : list Z) : bool :=
  bool_decide (label = [])
  || bool_decide (63 < length label)%nat
  || starts_with_char 0x2D label
  || ends_with_char 0x2D label
  || negb (forallb (λ byte, is_ascii_alphanumeric byte || (byte =? 0x2D)) label).

Definition validate_hostname (value : list Z) : res ConfigError unit :=
  if ends_with_char 0x2E value || existsb bad_label (split_on 0x2E value)
  then Err InvalidHostname else Ok tt.

Definition validate_client_id (value : list Z) : res ConfigError unit :=
  if contains 0 value then Err InvalidClientId else Ok tt.

Definition validate_topic_name (value : list Z) : res ConfigError unit :=
  if contains_any [0; 0x2B; 0x23] value then Err InvalidTopicName else Ok tt.

Fixpoint topic_filter_levels (index level_count : nat) (levels : list (list Z)) :
    res ConfigError unit :=
  match levels with
  | [] => Ok tt
  | level :: levels =>
    if contains 0 level
       || (contains 0x2B level && negb (bool_decide (level = [0x2B])))
       || (contains 0x23 level && (negb (bool_decide (level = [0x23]))
                                   || negb (S index =? level_count)%nat))
    then Err InvalidTopicFilter
    else topic_filter_levels (S index) level_count levels
  end.

Definition validate_topic_filter (value : list Z) : res ConfigError unit :=
  let levels := split_on 0x2F value in
  topic_filter_levels 0 (length levels) levels.

Definition BrokerHostname_spec : TextSpec :=
  {| text_capacity := MAX_HOSTNAME_LEN; text_validator := validate_hostname |}.
Definition ClientId_spec : TextSpec :=
  {| text_capacity := MAX_CLIENT_ID_LEN; text_validator := validate_client_id |}.
Definition TopicName_spec : TextSpec :=
  {| text_capacity := MAX_TOPIC_LEN; text_validator := validate_topic_name |}.
Definition TopicFilter_spec : TextSpec :=
  {| text_capacity := MAX_TOPIC_LEN; text_validator := validate_topic_filter |}.

Definition BrokerHostname : Type := BoundedText BrokerHostname_spec.
Definition ClientId : Type := BoundedText ClientId_spec.
Definition TopicName : Type := BoundedText TopicName_spec.
Definition TopicFilter : Type := BoundedText TopicFilter_spec.

(** * Session configuration *)

Record BrokerPort : Type := { port_get : Z }.

Definition broker_port_new (value : Z) : res ConfigError BrokerPort :=
  if value =? 0 then Err InvalidPort else Ok {| port_get := value |}.

Inductive QoS : Type := AtMostOnce | AtLeastOnce.

Record Config : Type := {
  config_hostname : BrokerHostname;
  config_port : BrokerPort;
  config_client_id : ClientId;
  keep_alive_seconds : Z;
  session_expiry_seconds : Z;
  maximum_packet_size : Z
}.

Definition mqtt_config_new (hostname : BrokerHostname) (port : BrokerPort)
    (client_id : ClientId) (keep_alive session_expiry packet : Z) :
    res ConfigError Config :=
  if (packet =? 0) || (MAX_PACKET_SIZE <? packet)
  then Err InvalidMaximumPacketSize
  else Ok {| config_hostname := hostname; config_port := port;
             config_client_id := client_id; keep_alive_seconds := keep_alive;
             session_expiry_seconds := session_expiry; maximum_packet_size := packet |}.

(** * Lifecycle *)

Inductive ConnectionState : Type :=
  | MqttDisabled
  | WaitingForNetwork
  | ResolvingBroker
  | ConnectingTransport
  | AuthenticatingTransport
  | ConnectingSession
  | MqttConnected
  | MqttResumed
  | BackingOff.

#[global] Instance ConnectionState_eq_dec : EqDecision ConnectionState.
Proof. solve_decision. Defined.

Inductive ErrorKind : Type :=
  | KindConfiguration
  | KindCapacity
  | KindTransport
  | KindProtocol
  | KindDisconnected
  | KindNotReady.

#[global] Instance ErrorKind_eq_dec : EqDecision ErrorKind.
Proof. solve_decision. Defined.

Record Snapshot : Type := {
  mq_state : ConnectionState;
  connections : Z;
  resumptions : Z;
  failures : Z;
  publishes : Z;
  received : Z;
  queue_drops : Z;
  last_error : option ErrorKind
}.

Definition mqtt_snapshot_default : Snapshot :=
  {| mq_state := MqttDisabled; connections := 0; resumptions := 0; failures := 0;
     publishes := 0; received := 0; queue_drops := 0; last_error := None |}.

Definition transition (state : ConnectionState) (s : Snapshot) : Snapshot :=
  {| mq_state := state; connections := connections s; resumptions := resumptions s;
     failures := failures s; publishes := publishes s; received := received s;
     queue_drops := queue_drops s; last_error := last_error s |}.

Definition record_connected (s : Snapshot) : Snapshot :=
  {| mq_state := MqttConnected; connections := saturating_add_u 32 (connections s) 1;
     resumptions := resumptions s; failures := failures s; publishes := publishes s;
     received := received s; queue_drops := queue_drops s; last_error := None |}.

Definition record_resumed (s : Snapshot) : Snapshot :=
  {| mq_state := MqttResumed; connections := connections s;
     resumptions := saturating_add_u 32 (resumptions s) 1; failures := failures s;
     publishes := publishes s; received := received s; queue_drops := queue_drops s;
     last_error := None |}.

Definition record_failure (error : ErrorKind) (s : Snapshot) : Snapshot :=
  {| mq_state := BackingOff; connections := connections s;
     resumptions := resumptions s; failures := saturating_add_u 32 (failures s) 1;
     publishes := publishes s; received := received s; queue_drops := queue_drops s;
     last_error := Some error |}.

Definition record_publish (s : Snapshot) : Snapshot :=
  {| mq_state := mq_state s; connections := connections s; resumptions := resumptions s;
     failures := failures s; publishes := saturating_add_u 32 (publishes s) 1;
     received := received s; queue_drops := queue_drops s; last_error := last_error s |}.

Definition record_receive (s : Snapshot) : Snapshot :=
  {| mq_state := mq_state s; connections := connections s; resumptions := resumptions s;
     failures := failures s; publishes := publishes s;
     received := saturating_add_u 32 (received s) 1; queue_drops := queue_drops s;
     last_error := last_error s |}.

Definition record_queue_drops (count : Z) (s : Snapshot) : Snapshot :=
  {| mq_state := mq_state s; connections := connections s; resumptions := resumptions s;
     failures := failures s; publishes := publishes s; received := received s;
     queue_drops := saturating_add_u 32 (queue_drops s) count; last_error := last_error s |}.

Definition record_queue_drop (s : Snapshot) : Snapshot := record_queue_drops 1 s.

(** * Reconnect back-off *)

Record ReconnectPolicy : Type := {
  initial_delay_ms : Z;
  maximum_delay_ms : Z;
  jitter_ms : Z
}.

Definition mqtt_policy_new (initial maximum jitter : Z) : res ConfigError ReconnectPolicy :=
  if (initial =? 0) || (maximum <? initial)
  then Err InvalidReconnectPolicy
  else Ok {| initial_delay_ms := initial; maximum_delay_ms := maximum;
             jitter_ms := jitter |}.

Definition mqtt_policy_default : ReconnectPolicy :=
  {| initial_delay_ms := 1000; maximum_delay_ms := 60000; jitter_ms := 250 |}.

Record ReconnectBackoff : Type := { mb_policy : ReconnectPolicy; mb_attempts : Z }.

Definition policy_backoff (p : ReconnectPolicy) : ReconnectBackoff :=
  {| mb_policy := p; mb_attempts := 0 |}.

Definition mqtt_backoff_reset (b : ReconnectBackoff) : ReconnectBackoff :=
  {| mb_policy := mb_policy b; mb_attempts := 0 |}.

(** [checked_shl(..).unwrap_or(u32::MAX).min(maximum)] *)
Definition mqtt_base (p : ReconnectPolicy) (attempts : Z) : Z :=
  let shift := Z.min attempts 31 in
  Z.min (default (u_max 32) (checked_shl 32 (initial_delay_ms p) shift))
        (maximum_delay_ms p).

Definition mqtt_next_delay_ms (b : ReconnectBackoff) (jitter : Z) : Z * ReconnectBackoff :=
  let p := mb_policy b in
  let base := mqtt_base p (mb_attempts b) in
  let jitter :=
    if jitter_ms p =? 0 then 0 else jitter mod saturating_add_u 32 (jitter_ms p) 1 in
  (Z.min (saturating_add_u 32 base jitter) (maximum_delay_ms p),
   {| mb_policy := p; mb_attempts := saturating_add_u 8 (mb_attempts b) 1 |}).

(** * Specifications *)

(** A DNS label: 1 to 63 letters, digits and inner hyphens. *)
Definition label_ok (label : list Z) : Prop :=
  (1 ≤ length label ≤ 63)%nat ∧
  Forall (λ b, is_ascii_alphanumeric b ∨ b = 0x2D) label ∧
  head label ≠ Some 0x2D ∧ last label ≠ Some 0x2D.

(** A level of a topic filter; only the last one may be the multi-level wildcard. *)
Definition level_ok (is_last : bool) (level : list Z) : Prop :=
  level = [0x2B] ∨ (level = [0x23] ∧ is_last = true) ∨
  ((0 ∉ level) ∧ (0x2B ∉ level) ∧ (0x23 ∉ level)).

Inductive levels_ok : list (list Z) → Prop :=
  | levels_last level : level_ok true level → levels_ok [level]
  | levels_more level levels :
    level_ok false level → levels_ok levels → levels_ok (level :: levels).

(** What a session's bookkeeping does to the snapshot. *)
Inductive snapshot_op : Type :=
  | OpTransition (state : ConnectionState)
  | OpConnected
  | OpResumed
  | OpFailure (error : ErrorKind)
  | OpPublish
  | OpReceive
  | OpDrops (count : Z).

Definition apply_op (s : Snapshot) (op : snapshot_op) : Snapshot :=
  match op with
  | OpTransition state => transition state s
  | OpConnected => record_connected s
  | OpResumed => record_resumed s
  | OpFailure error => record_failure error s
  | OpPublish => record_publish s
  | OpReceive => record_receive s
  | OpDrops count => record_queue_drops count s
  end.

Definition run_ops (ops : list snapshot_op) : Snapshot :=
  foldl apply_op mqtt_snapshot_default ops.

(** Number of operations that [f] weighs. *)
Definition total (f : snapshot_op → Z) (ops : list snapshot_op) : Z :=
  foldr (λ op n, (f op + n)%Z) 0 ops.

Definition op_state (op : snapshot_op) : option ConnectionState :=
  match op with
  | OpTransition s => Some s
  | OpConnected => Some MqttConnected
  | OpResumed => Some MqttResumed
  | OpFailure _ => Some BackingOff
  | _ => None
  end.

Definition op_error (op : snapshot_op) : option (option ErrorKind) :=
  match op with
  | OpConnected | OpResumed => Some None
  | OpFailure e => Some (Some e)
  | _ => None
  end.

(** The last [Some] of a projection, or a start value. *)
Definition latest {A} (f : snapshot_op → option A) (start : A) (ops : list snapshot_op) : A :=
  foldl (λ a op, default a (f op)) start ops.

(** Well-formed policies: what [mqtt_policy_new] accepts from [u32] inputs. *)
Definition mqtt_policy_wf (p : ReconnectPolicy) : Prop :=
  0 < initial_delay_ms p ≤ maximum_delay_ms p ∧
  is_u 32 (maximum_delay_ms p) ∧ is_u 32 (jitter_ms p).

Definition mqtt_backoff_wf (b : ReconnectBackoff) : Prop :=
  mqtt_policy_wf (mb_policy b) ∧ is_u 8 (mb_attempts b).

(** The jitter added to a base delay. *)
Definition mqtt_jitter (p : ReconnectPolicy) (entropy : Z) : Z :=
  entropy mod Z.min (jitter_ms p + 1) (u_max 32).

Definition is_connected_op (op : snapshot_op) : Z :=
  match op with OpConnected => 1 | _ => 0 end.
Definition is_resumed_op (op : snapshot_op) : Z :=
  match op with OpResumed => 1 | _ => 0 end.
Definition is_failure_op (op : snapshot_op) : Z :=
  match op with OpFailure _ => 1 | _ => 0 end.
Definition is_publish_op (op : snapshot_op) : Z :=
  match op with OpPublish => 1 | _ => 0 end.
Definition is_receive_op (op : snapshot_op) : Z :=
  match op with OpReceive => 1 | _ => 0 end.
Definition drops_op (op : snapshot_op) : Z :=
  match op with OpDrops count => count | _ => 0 end.

Definition op_ok (op : snapshot_op) : Prop :=
  match op with OpDrops count => 0 ≤ count | _ => True end.

(** * Lemmas *)

(** The capacity fits the [u16] length field. *)
Class TextSpecOk (S : TextSpec) : Prop :=
  text_capacity_fits : Z.of_nat (text_capacity S) < 2 ^ 16.

#[export] Instance BrokerHostname_ok : TextSpecOk BrokerHostname_spec.
Proof. done. Qed.
#[export] Instance ClientId_ok : TextSpecOk ClientId_spec.
Proof. done. Qed.
#[export] Instance TopicName_ok : TextSpecOk TopicName_spec.
Proof. done. Qed.
#[export] Instance TopicFilter_ok : TextSpecOk TopicFilter_spec.
Proof. done. Qed.

Section TextLemmas.
Context {S : TextSpec} `{!TextSpecOk S}.

Lemma text_new_Ok v :
  v ≠ [] → (length v ≤ text_capacity S)%nat → text_validator S v = Ok tt →
  ∃ t, text_new S v = Ok t ∧ text_holds t v.
Proof.
  intros Hne Hl Hv. unfold text_new.
  rewrite decide_False by done. rewrite decide_False by lia. rewrite Hv. simpl.
  destruct (inline_fill_build 0 (E := ConfigError) 16 (text_capacity S) v)
    as (cells & -> & ?); [done..|]. simpl. eauto.
Qed.

Lemma text_new_Ok_iff v :
  is_ok (text_new S v) ↔
  v ≠ [] ∧ (length v ≤ text_capacity S)%nat ∧ text_validator S v = Ok tt.
Proof.
  split.
  - intros [t Ht]. unfold text_new in Ht. do 2 (case_decide; [done|]).
    apply bind_Ok_iff in Ht as ([] & ? & _). repeat split; [done|lia|done].
  - intros (? & ? & ?). destruct (text_new_Ok v) as (t & ? & _); [done..|]. by exists t.
Qed.

Lemma text_new_holds v t : text_new S v = Ok t → text_holds t v.
Proof.
  intros Ht. destruct (proj1 (text_new_Ok_iff v)) as (? & ? & ?); [by exists t|].
  destruct (text_new_Ok v) as (t' & Ht' & ?); [done..|]. congruence.
Qed.

Lemma text_holds_str {E} (t : BoundedText S) v :
  is_str v → text_holds t v → text_as_str (E := E) t = Ok v.
Proof.
  intros Hv Ht. unfold text_as_str. rewrite (inline_view_holds _ _ _ _ _ Ht). simpl.
  by rewrite from_utf8_or_empty_str.
Qed.
End TextLemmas.

Lemma is_alphanumeric_not_dot b : is_ascii_alphanumeric b ∨ b = 0x2D → b ≠ 0x2E.
Proof. unfold is_ascii_alphanumeric, between. intros [H|H] Hd; subst; done. Qed.

Lemma bad_label_spec label : bad_label label = false ↔ label_ok label.
Proof.
  unfold bad_label, label_ok.
  rewrite !orb_false_iff, !bool_decide_eq_false, negb_false_iff, forallb_forall.
  rewrite <-!not_true_iff_false, starts_with_char_head, ends_with_char_last.
  rewrite Forall_forall. setoid_rewrite list_elem_of_In. setoid_rewrite orb_true_iff.
  setoid_rewrite Z.eqb_eq. setoid_rewrite Is_true_true.
  assert (label ≠ [] ↔ (1 ≤ length label)%nat) as Hne
    by (destruct label; simpl; split; (done || lia)).
  assert (¬ (63 < length label)%nat ↔ (length label ≤ 63)%nat) as Hle by lia.
  rewrite Hne, Hle. tauto.
Qed.

Lemma label_ok_no_dot label : label_ok label → 0x2E ∉ label.
Proof.
  intros (_ & Hall & _) Hin. rewrite Forall_forall in Hall.
  by eapply is_alphanumeric_not_dot; [by apply Hall|].
Qed.

Lemma existsb_bad_labels labels :
  existsb bad_label labels = false ↔ Forall label_ok labels.
Proof.
  induction labels as [|l labels IH]; simpl; [done|].
  by rewrite orb_false_iff, Forall_cons, bad_label_spec, IH.
Qed.

Lemma validate_hostname_spec v :
  validate_hostname v = Ok tt ↔
  ∃ labels, labels ≠ [] ∧ v = join_with 0x2E labels ∧ Forall label_ok labels.
Proof.
  unfold validate_hostname. split.
  - intros H. case_match eqn:Hb; [done|]. apply orb_false_iff in Hb as [_ Hb].
    apply existsb_bad_labels in Hb. exists (split_on 0x2E v).
    by rewrite join_split_on; eauto using split_on_not_nil.
  - intros (labels & Hne & -> & Hall).
    rewrite split_on_join by (eauto using Forall_impl, label_ok_no_dot).
    rewrite (proj2 (existsb_bad_labels labels) Hall), orb_false_r.
    replace (ends_with_char _ _) with false; [done|]. symmetry.
    apply not_true_iff_false. rewrite ends_with_char_last.
    destruct (last labels) as [p|] eqn:Hp; [|by apply last_None in Hp].
    assert (label_ok p) as Hok.
    { rewrite Forall_forall in Hall. apply Hall.
      apply last_Some in Hp as [? ->]. set_solver. }
    rewrite (last_join _ _ p) by (done || (destruct Hok as [? _]; destruct p; simpl in *; [lia|done])).
    intros Hd. apply (label_ok_no_dot p Hok). apply last_Some in Hd as [? ->]. set_solver.
Qed.

Lemma level_check_spec is_last level :
  contains 0 level
  || (contains 0x2B level && negb (bool_decide (level = [0x2B])))
  || (contains 0x23 level && (negb (bool_decide (level = [0x23])) || negb is_last)) = false
  ↔ level_ok is_last level.
Proof.
  unfold level_ok.
  rewrite !orb_false_iff, !andb_false_iff, !orb_false_iff, !negb_false_iff.
  rewrite !contains_false, !bool_decide_eq_true. split.
  - destruct (decide (level = [0x2B])); [auto|].
    destruct (decide (level = [0x23])); tauto.
  - intros [->|[[-> ->]|(? & ? & ?)]]; [| |tauto].
    + split_and!; [|by right|left]; rewrite list_elem_of_singleton; lia.
    + split_and!; [|left|by right]; rewrite list_elem_of_singleton; lia.
Qed.

Lemma levels_ok_cons level levels :
  levels_ok (level :: levels) ↔
  level_ok (bool_decide (levels = [])) level ∧ (levels = [] ∨ levels_ok levels).
Proof.
  split.
  - inversion 1 as [|? [|next ls] ? Hls]; subst; [by auto|by inversion Hls|by auto].
  - intros [Hl [->|Hls]]; [by constructor|]. constructor; [|done].
    destruct levels; [by inversion Hls|done].
Qed.

Lemma topic_filter_levels_spec index levels :
  levels ≠ [] →
  topic_filter_levels index (index + length levels) levels = Ok tt ↔ levels_ok levels.
Proof.
  revert index. induction levels as [|level levels IH]; intros index Hne; [done|].
  cbn [topic_filter_levels length].
  assert ((S index =? index + S (length levels))%nat = bool_decide (levels = [])) as ->.
  { destruct levels as [|l0 ls].
    - rewrite bool_decide_true by done. apply Nat.eqb_eq. simpl. lia.
    - rewrite bool_decide_false by done. apply Nat.eqb_neq. simpl. lia. }
  rewrite levels_ok_cons, <-level_check_spec. case_match eqn:Hbad.
  - split; [done|]. by intros [? _].
  - replace (index + S (length levels))%nat with (S index + length levels)%nat by lia.
    destruct levels as [|next levels].
    + split; [by auto|done].
    + rewrite IH by done. split; [by auto|]. by intros [_ [?|?]].
Qed.

Lemma validate_topic_filter_spec v :
  validate_topic_filter v = Ok tt ↔ levels_ok (split_on 0x2F v).
Proof.
  apply (topic_filter_levels_spec 0). apply split_on_not_nil.
Qed.

Lemma validate_topic_name_spec v :
  validate_topic_name v = Ok tt ↔ (0 ∉ v) ∧ (0x2B ∉ v) ∧ (0x23 ∉ v).
Proof.
  unfold validate_topic_name. pose proof (contains_any_false [0; 0x2B; 0x23] v) as H.
  destruct (contains_any _ v); split; try done.
  - intros (H0 & H1 & H2). exfalso. enough (true = false) by done. apply H.
    intros c Hc. repeat (apply elem_of_cons in Hc as [->|Hc]; [done|]).
    by apply elem_of_nil in Hc.
  - intros _. destruct H as [H _]. split_and!; apply H; try done; set_solver.
Qed.

Lemma plain_levels_ok levels :
  levels ≠ [] → Forall (λ l, (0 ∉ l) ∧ (0x2B ∉ l) ∧ (0x23 ∉ l)) levels → levels_ok levels.
Proof.
  intros Hne Hall. induction Hall as [|l levels Hl Hall IH]; [done|].
  destruct levels; constructor; unfold level_ok; auto.
Qed.

Lemma topic_name_is_filter v :
  validate_topic_name v = Ok tt → validate_topic_filter v = Ok tt.
Proof.
  rewrite validate_topic_name_spec, validate_topic_filter_spec. intros (H0 & H1 & H2).
  apply plain_levels_ok; [apply split_on_not_nil|].
  apply Forall_forall. intros l Hl. split_and!; eauto using split_on_elem.
Qed.
Lemma mqtt_policy_new_wf i m j p :
  is_u 32 i → is_u 32 m → is_u 32 j → mqtt_policy_new i m j = Ok p →
  mqtt_policy_wf p ∧ p = {| initial_delay_ms := i; maximum_delay_ms := m; jitter_ms := j |}.
Proof.
  unfold mqtt_policy_new, mqtt_policy_wf, is_u. intros Hi Hm Hj H.
  case_match eqn:E; [done|]. simplify_eq/=. split; [lia|done].
Qed.

Lemma mqtt_base_eq p n :
  0 ≤ n →
  mqtt_base p n =
  Z.min ((initial_delay_ms p * 2 ^ Z.min n 31) mod 2 ^ 32) (maximum_delay_ms p).
Proof.
  intros Hn. unfold mqtt_base, checked_shl.
  destruct (Z.ltb_spec (Z.min n 31) 32); [|lia]. simpl.
  unfold wrap_u. by rewrite Z.shiftl_mul_pow2 by lia.
Qed.

Lemma mqtt_base_range p n : mqtt_policy_wf p → 0 ≤ n → 0 ≤ mqtt_base p n ≤ maximum_delay_ms p.
Proof.
  intros (? & ? & ?) Hn. rewrite mqtt_base_eq by done. unfold is_u in *.
  pose proof (Z.mod_pos_bound (initial_delay_ms p * 2 ^ Z.min n 31) (2 ^ 32)). lia.
Qed.

Lemma mqtt_jitter_range p e :
  mqtt_policy_wf p → 0 ≤ mqtt_jitter p e ≤ jitter_ms p.
Proof.
  intros (_ & _ & ?). unfold mqtt_jitter, u_max, is_u in *.
  pose proof (Z.mod_pos_bound e (Z.min (jitter_ms p + 1) (2 ^ 32 - 1))). lia.
Qed.

Lemma mqtt_next_delay_eq b e :
  mqtt_backoff_wf b →
  mqtt_next_delay_ms b e =
  (Z.min (mqtt_base (mb_policy b) (mb_attempts b) + mqtt_jitter (mb_policy b) e)
         (maximum_delay_ms (mb_policy b)),
   {| mb_policy := mb_policy b; mb_attempts := Z.min (mb_attempts b + 1) 255 |}).
Proof.
  intros [Hp Ha]. pose proof (mqtt_jitter_range (mb_policy b) e Hp) as Hj.
  destruct Hp as (? & Hm & ?). unfold is_u in Hm. unfold mqtt_next_delay_ms.
  f_equal. unfold saturating_add_u, u_max.
  assert ((if jitter_ms (mb_policy b) =? 0 then 0
           else e mod Z.min (jitter_ms (mb_policy b) + 1) (2 ^ 32 - 1))
          = mqtt_jitter (mb_policy b) e) as ->.
  { unfold mqtt_jitter, u_max. destruct (Z.eqb_spec (jitter_ms (mb_policy b)) 0) as [->|];
      [|done]. by rewrite Z.mod_1_r. }
  lia.
Qed.

#[global] Arguments mqtt_next_delay_ms : simpl never.

Lemma mqtt_backoff_wf_next b e :
  mqtt_backoff_wf b → mqtt_backoff_wf (mqtt_next_delay_ms b e).2.
Proof.
  intros Hb. rewrite mqtt_next_delay_eq by done. destruct Hb as [Hp Ha].
  split; [done|]. unfold is_u in *. simpl. lia.
Qed.

(** [ReconnectBackoff] is a back-off calculator in the sense of [Backoff]:
    total, bounded by the policy's maximum, resettable. *)
#[export] Instance mqtt_backoff : Backoff ReconnectBackoff := {|
  bo_next _ b e := Ok (mqtt_next_delay_ms b e);
  bo_reset := mqtt_backoff_reset;
  bo_attempts := mb_attempts;
  bo_maximum b := maximum_delay_ms (mb_policy b);
  bo_wf := mqtt_backoff_wf
|}.

#[export] Instance mqtt_backoff_laws : BackoffLaws ReconnectBackoff.
Proof.
  split; simpl.
  - intros E b e Hb _. rewrite mqtt_next_delay_eq by done.
    eexists _, _. split; [done|]. pose proof Hb as [Hp Ha].
    pose proof (mqtt_base_range (mb_policy b) (mb_attempts b) Hp (proj1 Ha)).
    pose proof (mqtt_jitter_range (mb_policy b) e Hp). unfold is_u in Ha.
    split_and!; simpl; [lia|lia|split; [done|unfold is_u; simpl; lia]|done|lia].
  - intros b [Hp Ha]. split_and!; [|done..]. by split.
Qed.

Lemma mqtt_run_schedule {E} p es k :
  mqtt_policy_wf p → 0 ≤ k →
  run_retries (E := E) (RetryAfter <$> es)
    {| mb_policy := p; mb_attempts := Z.min k 255 |} =
  Ok (imap (λ n e, Z.min (mqtt_base p (k + Z.of_nat n) + mqtt_jitter p e)
                         (maximum_delay_ms p)) es,
      {| mb_policy := p; mb_attempts := Z.min (k + Z.of_nat (length es)) 255 |}).
Proof.
  intros Hp. revert k. induction es as [|e es IH]; intros k Hk.
  { simpl. by rewrite Z.add_0_r. }
  rewrite fmap_cons. cbn [run_retries bo_next mqtt_backoff mbind res_bind].
  rewrite mqtt_next_delay_eq by (split; [done|unfold is_u; simpl; lia]).
  cbn [mb_policy mb_attempts mbind res_bind].
  replace (Z.min (Z.min k 255 + 1) 255) with (Z.min (k + 1) 255) by lia.
  rewrite IH by lia. simpl. do 3 f_equal.
  - rewrite Z.add_0_r. f_equal. f_equal.
    unfold mqtt_base. by replace (Z.min (Z.min k 255) 31) with (Z.min k 31) by lia.
  - apply imap_ext. intros n x _. simpl. do 3 f_equal. lia.
  - f_equal. lia.
Qed.

(** Counters under operations. *)
Lemma total_app f ops ops' : total f (ops ++ ops') = total f ops + total f ops'.
Proof. unfold total. induction ops; simpl; lia. Qed.

Lemma saturate_step t d w :
  0 ≤ d → Z.min (Z.min t (u_max w) + d) (u_max w) = Z.min (t + d) (u_max w).
Proof. lia. Qed.

Lemma run_ops_snoc ops op : run_ops (ops ++ [op]) = apply_op (run_ops ops) op.
Proof. unfold run_ops. by rewrite foldl_app. Qed.

Lemma latest_snoc {A} (f : snapshot_op → option A) a ops op :
  latest f a (ops ++ [op]) = default (latest f a ops) (f op).
Proof. unfold latest. by rewrite foldl_app. Qed.

Lemma run_ops_counters ops :
  Forall op_ok ops →
  let s := run_ops ops in
  connections s = Z.min (total is_connected_op ops) (u_max 32) ∧
  resumptions s = Z.min (total is_resumed_op ops) (u_max 32) ∧
  failures s = Z.min (total is_failure_op ops) (u_max 32) ∧
  publishes s = Z.min (total is_publish_op ops) (u_max 32) ∧
  received s = Z.min (total is_receive_op ops) (u_max 32) ∧
  queue_drops s = Z.min (total drops_op ops) (u_max 32).
Proof.
  induction ops as [|op ops IH] using rev_ind; [by intros; vm_compute|].
  intros [Hops Hop]%Forall_app. inversion Hop as [|? ? Hok _]; subst.
  cbn zeta. rewrite run_ops_snoc, !total_app.
  destruct (IH Hops) as (H1 & H2 & H3 & H4 & H5 & H6).
  destruct op; simpl in *;
    unfold saturating_add_u; rewrite ?H1, ?H2, ?H3, ?H4, ?H5, ?H6;
    rewrite ?saturate_step by lia; unfold u_max; split_and!; lia.
Qed.

Lemma run_ops_state ops :
  mq_state (run_ops ops) = latest op_state MqttDisabled ops ∧
  last_error (run_ops ops) = latest op_error None ops.
Proof.
  induction ops as [|op ops IH] using rev_ind; [done|].
  rewrite run_ops_snoc, !latest_snoc. destruct IH as [<- <-]. by destruct op.
Qed.

Lemma text_new_not_Panic S v : text_validator S v ≠ Panic → text_new S v ≠ Panic.
Proof.
  intros Hv. unfold text_new. do 2 (case_decide; [done|]).
  apply bind_not_Panic; [done|]. intros _ _. by rewrite inline_fill_Ok by lia.
Qed.

Lemma mqtt_texts_not_Panic v :
  text_new BrokerHostname_spec v ≠ Panic ∧ text_new ClientId_spec v ≠ Panic ∧
  text_new TopicName_spec v ≠ Panic ∧ text_new TopicFilter_spec v ≠ Panic.
Proof.
  split_and!; apply text_new_not_Panic; cbn;
    unfold validate_hostname, validate_client_id, validate_topic_name, validate_topic_filter;
    try by case_match.
  generalize (length (split_on 0x2F v)), 0%nat.
  induction (split_on 0x2F v) as [|level levels IH]; intros n i; [done|].
  cbn [topic_filter_levels]. case_match; [done|]. apply IH.
Qed.

(** * Properties *)

(** Bounded MQTT text. For each of the four generated types,
    [new] on a Rust string succeeds exactly when the string is non-empty, fits
    the capacity and passes the type's validator, in this order of errors; the
    value then reads back unchanged (the [u16] length never truncates) and
    determines the string. *)
Theorem mqtt_text_contract (E : Type) (S : TextSpec) `{!TextSpecOk S} (v : list Z) :
  is_str v →
  (v = [] → text_new S v = Err TextEmpty) ∧
  ((text_capacity S < length v)%nat → text_new S v = Err TextTooLong) ∧
  (v ≠ [] → (length v ≤ text_capacity S)%nat →
     match text_validator S v with
     | Ok tt => ∃ t, text_new S v = Ok t ∧ text_as_str (E := E) t = Ok v ∧
         text_size t = Z.of_nat (length v) ∧ text_is_empty t = false ∧
         ∀ w, text_new S w = Ok t → w = v
     | Err e => text_new S v = Err e
     | Panic => text_new S v = Panic
     end).
Proof.
  intros Hv. split_and!.
  - by intros ->.
  - intros Hl. unfold text_new. rewrite decide_False by (intros ->; simpl in Hl; lia).
    by rewrite decide_True.
  - intros Hne Hl. destruct (text_validator S v) as [[]|e|] eqn:Hval.
    + destruct (text_new_Ok v) as (t & Ht & Hh); [done..|]. exists t.
      pose proof Hh as (_ & Hlen & _). unfold text_size, text_is_empty. rewrite Hlen.
      split_and!; [done|by apply text_holds_str|done| |].
      * destruct v; [done|]. simpl. lia.
      * intros w Hw%text_new_holds. eapply inline_holds_inj; [apply Hw|apply Hh].
    + unfold text_new. rewrite decide_False by done. rewrite decide_False by lia.
      by rewrite Hval.
    + unfold text_new. rewrite decide_False by done. rewrite decide_False by lia.
      by rewrite Hval.
Qed.

Lemma mqtt_text_contract_witness :
  text_new ClientId_spec [] = Err TextEmpty ∧
  (∃ t, text_new TopicName_spec (lit "a/b") = Ok t ∧
     text_as_str (E := unit) t = Ok (lit "a/b")).
Proof.
  split.
  - apply (mqtt_text_contract unit ClientId_spec []); [by vm_compute; eexists|done].
  - destruct (mqtt_text_contract unit TopicName_spec (lit "a/b")) as (_ & _ & H);
      [by vm_compute; eexists|].
    destruct H as (t & Ht & Hr & _); [done|vm_compute; lia|]. by exists t.
Defined.

(** Broker hostnames. [BrokerHostname::new] accepts exactly the strings of
    at most 253 bytes that are one or more DNS labels joined by dots, each of
    1 to 63 letters, digits and hyphens, not starting or ending with one. *)
Theorem hostname_grammar (v : list Z) :
  is_ok (text_new BrokerHostname_spec v) ↔
  (length v ≤ 253)%nat ∧
  ∃ labels, labels ≠ [] ∧ v = join_with 0x2E labels ∧ Forall label_ok labels.
Proof.
  rewrite text_new_Ok_iff. simpl. rewrite validate_hostname_spec.
  unfold MAX_HOSTNAME_LEN. split; [by intros (_ & ? & ?)|].
  intros [Hl (labels & Hne & -> & Hall)]. split_and!; [|done|by exists labels].
  destruct Hall as [|l ls [Hlen _] Hls]; [done|]. intros H.
  apply (f_equal length) in H. destruct ls; simpl in H; [lia|].
  rewrite length_app in H. simpl in H. lia.
Qed.

(** C31: topics and filters follow the MQTT grammar. A topic filter is accepted
    exactly when every slash-separated level is a lone [+], a lone final [#],
    or free of wildcards and NUL; a topic name exactly when it has none of
    these characters; so every topic name can also be subscribed to. *)
Theorem topic_grammar (v : list Z) :
  (is_ok (text_new TopicFilter_spec v) ↔
     v ≠ [] ∧ (length v ≤ 256)%nat ∧ levels_ok (split_on 0x2F v)) ∧
  (is_ok (text_new TopicName_spec v) ↔
     v ≠ [] ∧ (length v ≤ 256)%nat ∧ (0 ∉ v) ∧ (0x2B ∉ v) ∧ (0x23 ∉ v)) ∧
  (is_ok (text_new TopicName_spec v) → is_ok (text_new TopicFilter_spec v)).
Proof.
  rewrite !text_new_Ok_iff. simpl. unfold MAX_TOPIC_LEN. split_and!.
  - by rewrite validate_topic_filter_spec.
  - by rewrite validate_topic_name_spec.
  - intros (Hne & Hl & Hv). split_and!; [done..|]. by apply topic_name_is_filter.
Qed.

(** C39: the MQTT reconnect schedule as the code computes it. From any policy
    that [ReconnectPolicy::new] accepts, no call panics, the n-th delay is the
    initial delay shifted left by min(n, 31) in 32 bits (bits shifted out are
    lost), capped at the maximum, plus bounded jitter, capped again; it is
    between 0 and the maximum, and it is the exponential schedule as long as
    the shifted value fits the word. *)
Theorem mqtt_backoff_schedule (E : Type) (i m j : Z) (p : ReconnectPolicy) (es : list Z) :
  is_u 32 i → is_u 32 m → is_u 32 j → mqtt_policy_new i m j = Ok p →
  ∃ ds b, run_retries (E := E) (RetryAfter <$> es) (policy_backoff p) = Ok (ds, b) ∧
    mb_attempts b = Z.min (Z.of_nat (length es)) 255 ∧
    length ds = length es ∧
    ∀ n e d, es !! n = Some e → ds !! n = Some d →
      let shifted := i * 2 ^ Z.min (Z.of_nat n) 31 in
      d = Z.min (Z.min (shifted mod 2 ^ 32) m + e mod Z.min (j + 1) (u_max 32)) m ∧
      0 ≤ d ≤ m ∧
      ((n ≤ 31)%nat → i * 2 ^ Z.of_nat n < 2 ^ 32 →
       d = Z.min (Z.min (i * 2 ^ Z.of_nat n) m + e mod Z.min (j + 1) (u_max 32)) m).
Proof.
  intros Hi Hm Hj [Hwf ->]%mqtt_policy_new_wf; [|done..]. set (p0 := {| jitter_ms := j |}) in *.
  pose proof (mqtt_run_schedule (E := E) p0 es 0 Hwf ltac:(done)) as Hrun.
  eexists _, _. split; [exact Hrun|]. split; [done|]. split; [by rewrite length_imap|].
  intros n e d Hn. rewrite list_lookup_imap, Hn. intros [= <-]. cbn zeta.
  rewrite Z.add_0_l. pose proof (mqtt_base_range p0 (Z.of_nat n) Hwf ltac:(lia)) as Hb.
  pose proof (mqtt_jitter_range p0 e Hwf) as Hjr. rewrite mqtt_base_eq in * by lia.
  unfold mqtt_jitter in *. simpl in *. split_and!; [done|lia..|].
  intros Hn31 Hfit. replace (Z.min (Z.of_nat n) 31) with (Z.of_nat n) by lia.
  rewrite Z.mod_small; [done|]. unfold is_u in Hi.
  assert (0 < 2 ^ Z.of_nat n) by (apply Z.pow_pos_nonneg; lia). nia.
Qed.

Lemma mqtt_backoff_schedule_witness :
  ∃ ds b, run_retries (E := unit) (RetryAfter <$> [7; 100; 0; 25])
      (policy_backoff {| initial_delay_ms := 100; maximum_delay_ms := 450;
                         jitter_ms := 25 |}) = Ok (ds, b) ∧ mb_attempts b = 4.
Proof.
  destruct (mqtt_backoff_schedule unit 100 450 25
    {| initial_delay_ms := 100; maximum_delay_ms := 450; jitter_ms := 25 |}
    [7; 100; 0; 25]) as (ds & b & H & Ha & _);
    [unfold is_u; lia..|reflexivity|]. by exists ds, b.
Defined.

(** C38: the MQTT back-off collapses under a long outage. For every accepted
    policy with an even initial delay, the base delay after 31 consecutive
    failures is zero, because [checked_shl] checks only the shift amount and
    drops the bits shifted out; every later delay is jitter alone, up to 255
    saturated attempts and beyond. With the default policy (1 s to 60 s) this
    happens from the 30th consecutive failure on, when each delay is the
    entropy modulo 251 ms: the client then retries several times a second
    instead of once a minute. *)
Theorem mqtt_backoff_collapses (E : Type) (i m j : Z) (p : ReconnectPolicy) (es : list Z) :
  is_u 32 i → is_u 32 m → is_u 32 j → mqtt_policy_new i m j = Ok p → Z.even i = true →
  ∃ ds b, run_retries (E := E) (RetryAfter <$> es) (policy_backoff p) = Ok (ds, b) ∧
    length ds = length es ∧
    ∀ n e d, es !! n = Some e → ds !! n = Some d →
      ((31 ≤ n)%nat → d = Z.min (e mod Z.min (j + 1) (u_max 32)) m) ∧
      (p = mqtt_policy_default → (29 ≤ n)%nat → d = e mod 251).
Proof.
  intros Hi Hm Hj [Hwf ->]%mqtt_policy_new_wf Heven; [|done..].
  set (p0 := {| jitter_ms := j |}) in *.
  pose proof (mqtt_run_schedule (E := E) p0 es 0 Hwf ltac:(done)) as Hrun.
  eexists _, _. split; [exact Hrun|]. split; [by rewrite length_imap|].
  intros n e d Hn. rewrite list_lookup_imap, Hn. intros [= <-].
  rewrite Z.add_0_l, mqtt_base_eq by lia. unfold mqtt_jitter. split.
  - intros Hn31. replace (Z.min (Z.of_nat n) 31) with 31 by lia.
    subst p0. cbn [initial_delay_ms maximum_delay_ms jitter_ms].
    apply Z.even_spec in Heven as [a ->].
    assert ((2 * a * 2 ^ 31) mod 2 ^ 32 = 0) as ->.
    { replace (2 * a * 2 ^ 31) with (a * 2 ^ 32) by lia. by apply Z.mod_mul. }
    f_equal. unfold is_u in Hm. lia.
  - intros Hp Hn29. subst p0. injection Hp as -> -> ->.
    cbn [initial_delay_ms maximum_delay_ms jitter_ms].
    assert (Z.min (Z.of_nat n) 31 = 29 ∨ Z.min (Z.of_nat n) 31 = 30 ∨
            Z.min (Z.of_nat n) 31 = 31) as [-> | [-> | ->]] by lia;
      change (Z.min (250 + 1) (u_max 32)) with 251;
      [change (1000 * 2 ^ 29 mod 2 ^ 32) with 0|change (1000 * 2 ^ 30 mod 2 ^ 32) with 0
      |change (1000 * 2 ^ 31 mod 2 ^ 32) with 0];
      pose proof (Z.mod_pos_bound e 251 ltac:(done)); lia.
Qed.

Lemma mqtt_backoff_collapses_witness :
  ∃ ds b, run_retries (E := unit) (RetryAfter <$> replicate 40 250)
      (policy_backoff mqtt_policy_default) = Ok (ds, b) ∧
    length ds = 40%nat ∧
    ∀ n e d, replicate 40 250 !! n = Some e → ds !! n = Some d →
      ((31 ≤ n)%nat → d = Z.min (e mod Z.min (250 + 1) (u_max 32)) 60000) ∧
      (mqtt_policy_default = mqtt_policy_default → (29 ≤ n)%nat → d = e mod 251).
Proof.
  apply (mqtt_backoff_collapses unit 1000 60000 250 _ (replicate 40 250));
    [unfold is_u; lia..|reflexivity|reflexivity].
Defined.

(** Lifecycle snapshots count what happened. After any sequence of
    recorded events each counter is the number of its events (drops: the sum
    of the reported counts) saturated at [u32::MAX], the state is the one the
    last state-changing event set, and the last error is the last failure's
    unless a session was established after it. *)
Theorem mqtt_snapshot_counts (ops : list snapshot_op) :
  Forall op_ok ops →
  let s := run_ops ops in
  connections s = Z.min (total is_connected_op ops) (u_max 32) ∧
  resumptions s = Z.min (total is_resumed_op ops) (u_max 32) ∧
  failures s = Z.min (total is_failure_op ops) (u_max 32) ∧
  publishes s = Z.min (total is_publish_op ops) (u_max 32) ∧
  received s = Z.min (total is_receive_op ops) (u_max 32) ∧
  queue_drops s = Z.min (total drops_op ops) (u_max 32) ∧
  mq_state s = latest op_state MqttDisabled ops ∧
  last_error s = latest op_error None ops.
Proof.
  intros Hops. destruct (run_ops_counters ops Hops) as (? & ? & ? & ? & ? & ?).
  destruct (run_ops_state ops). by split_and!.
Qed.

Lemma mqtt_snapshot_counts_witness :
  let s := run_ops [OpFailure KindTransport; OpConnected; OpPublish; OpReceive] in
  connections s = 1 ∧ failures s = 1 ∧ publishes s = 1 ∧ received s = 1 ∧
  mq_state s = MqttConnected ∧ last_error s = None.
Proof.
  destruct (mqtt_snapshot_counts [OpFailure KindTransport; OpConnected; OpPublish; OpReceive])
    as (H1 & _ & H2 & H3 & H4 & _ & H5 & H6); [by repeat constructor|].
  split_and!; [exact H1|exact H2|exact H3|exact H4|exact H5|exact H6].
Defined.
