(* ===== verification/MqttClient.v ===== *)
(** [crates/mqtt-minimq]: the MQTT 5 client over the third-party [minimq]
    engine.

    [minimq] is a parameter: class [Minimq] lists the types and the calls the
    adapter uses, each call threading the engine's session state (an [async]
    call is one step from the state it starts in to the state it resolves in).
    A [Connection] of the crate is a mutable borrow of its [Client]'s session
    and snapshot, so its operations act on the client. *)
From stdpp Require Import prelude list numbers option strings.
From S2P Require Import Prelude Text Mqtt.
Local Open Scope Z_scope.

(** * The engine *)

(** [minimq::Error], whose variants the adapter names, and the wildcard of
    its [match]. *)
Inductive MqError (IoError PeerError ResourceError : Type) : Type :=
  | MqNotReady
  | MqDisconnected
  | MqInvalidRequest
  | MqPeer (e : PeerError)
  | MqResource (e : ResourceError)
  | MqTransport (e : IoError)
  | MqWriteZero
  | MqOther.
Arguments MqNotReady {_ _ _}.
Arguments MqDisconnected {_ _ _}.
Arguments MqInvalidRequest {_ _ _}.
Arguments MqPeer {_ _ _} e.
Arguments MqResource {_ _ _} e.
Arguments MqTransport {_ _ _} e.
Arguments MqWriteZero {_ _ _}.
Arguments MqOther {_ _ _}.

Inductive PubError (E : Type) : Type := PubSession (e : E) | PubPayload.
Arguments PubSession {E} e.
Arguments PubPayload {E}.

Inductive MqQoS : Type := MqAtMostOnce | MqAtLeastOnce | MqExactlyOnce.
Inductive ConnectEvent : Type := EventConnected | EventReconnected.

Record MqPublish : Type := {
  mp_topic : list Z; mp_payload : list Z; mp_qos : MqQoS; mp_retained : bool
}.

Class Minimq : Type := {
  mq_Builder : Type;
  mq_Session : Type;
  mq_ConfigError : Type;
  mq_IoError : Type;
  mq_PeerError : Type;
  mq_ResourceError : Type;
  (** [PeerError::InvalidPacket] *)
  mq_InvalidPacket : mq_PeerError;
  (** [ConfigBuilder::new(Buffers::new(rx, tx))] and its setters *)
  mq_builder : list Z → list Z → mq_Builder;
  mq_client_id : mq_Builder → list Z → res mq_ConfigError mq_Builder;
  mq_keepalive : mq_Builder → Z → mq_Builder;
  mq_session_expiry : mq_Builder → Z → mq_Builder;
  mq_auth : mq_Builder → list Z → list Z → res mq_ConfigError mq_Builder;
  mq_session : mq_Builder → mq_Session;
  mq_max_rx : mq_Session → Z;
  mq_max_tx : mq_Session → Z;
  mq_is_connected : mq_Session → bool;
  (** the session and connection calls *)
  mq_connect : mq_Session →
    res (MqError mq_IoError mq_PeerError mq_ResourceError) ConnectEvent * mq_Session;
  mq_publish : mq_Session → list Z → list Z → MqQoS →
    res (PubError (MqError mq_IoError mq_PeerError mq_ResourceError)) unit * mq_Session;
  mq_subscribe : mq_Session → list Z → MqQoS →
    res (MqError mq_IoError mq_PeerError mq_ResourceError) unit * mq_Session;
  mq_unsubscribe : mq_Session → list Z →
    res (MqError mq_IoError mq_PeerError mq_ResourceError) unit * mq_Session;
  mq_drive : mq_Session →
    res (MqError mq_IoError mq_PeerError mq_ResourceError) (option MqPublish) * mq_Session;
  mq_recv : mq_Session →
    res (MqError mq_IoError mq_PeerError mq_ResourceError) MqPublish * mq_Session;
  mq_disconnect : mq_Session →
    res (MqError mq_IoError mq_PeerError mq_ResourceError) unit * mq_Session
}.

(** A loopback engine, for evaluating the adapter: what is published comes
    back as an inbound publication, in order; receiving from an empty queue
    reports a lost session. *)
Definition loopback : Minimq := {|
  mq_Builder := list MqPublish;
  mq_Session := list MqPublish;
  mq_ConfigError := unit;
  mq_IoError := unit;
  mq_PeerError := unit;
  mq_ResourceError := unit;
  mq_InvalidPacket := tt;
  mq_builder _ _ := [];
  mq_client_id b _ := Ok b;
  mq_keepalive b _ := b;
  mq_session_expiry b _ := b;
  mq_auth b _ _ := Ok b;
  mq_session b := b;
  mq_max_rx _ := 1024;
  mq_max_tx _ := 1024;
  mq_is_connected _ := true;
  mq_connect q := (Ok EventConnected, q);
  mq_publish q topic payload qos :=
    (Ok tt, q ++ [{| mp_topic := topic; mp_payload := payload; mp_qos := qos;
                     mp_retained := false |}]);
  mq_subscribe q _ _ := (Ok tt, q);
  mq_unsubscribe q _ := (Ok tt, q);
  mq_drive q := match q with [] => (Ok None, []) | m :: q => (Ok (Some m), q) end;
  mq_recv q := match q with [] => (Err MqDisconnected, []) | m :: q => (Ok m, q) end;
  mq_disconnect q := (Ok tt, q)
|}.

(** * Configuration *)

Inductive TransportSecurity : Type := Encrypted | PlaintextFixture.

#[global] Instance TransportSecurity_eq_dec : EqDecision TransportSecurity.
Proof. solve_decision. Defined.

Record Credentials : Type := { cred_username : list Z; cred_password : list Z }.

Inductive AdapterConfigError (B : Type) : Type :=
  | EmptyBuffer
  | RxBufferTooSmall (required available : Z)
  | CredentialsRequireEncryption
  | InvalidCredentials
  | ConfigBackend (e : B).
Arguments EmptyBuffer {B}.
Arguments RxBufferTooSmall {B} required available.
Arguments CredentialsRequireEncryption {B}.
Arguments InvalidCredentials {B}.
Arguments ConfigBackend {B} e.

Definition credentials_new {B} (username password : list Z) :
    res (AdapterConfigError B) Credentials :=
  if bool_decide (username = []) || contains 0 username then Err InvalidCredentials else
  Ok {| cred_username := username; cred_password := password |}.

(** [fmt::Debug]: the rendering does not look at the value. *)
Definition credentials_debug (_ : Credentials) : list Z :=
  lit "Credentials(**REDACTED**)".

Definition adapter_config_error_text {B} (backend_text : B → list Z)
    (e : AdapterConfigError B) : list Z :=
  match e with
  | EmptyBuffer => lit "MQTT RX and TX buffers must not be empty"
  | RxBufferTooSmall required available =>
    lit "MQTT RX buffer requires " ++ dec required ++ lit " bytes but only "
    ++ dec available ++ lit " were supplied"
  | CredentialsRequireEncryption =>
    lit "MQTT credentials require an authenticated encrypted transport"
  | InvalidCredentials => lit "invalid MQTT credentials"
  | ConfigBackend e => lit "minimq configuration failed: " ++ backend_text e
  end.

(** * Errors *)

Inductive Error (IoError PeerError ResourceError : Type) : Type :=
  | NotReady
  | Disconnected
  | InvalidRequest
  | Peer (e : PeerError)
  | Resource (e : ResourceError)
  | Transport (e : IoError)
  | WriteZero
  | PayloadTooLarge
  | Backend.
Arguments NotReady {_ _ _}.
Arguments Disconnected {_ _ _}.
Arguments InvalidRequest {_ _ _}.
Arguments Peer {_ _ _} e.
Arguments Resource {_ _ _} e.
Arguments Transport {_ _ _} e.
Arguments WriteZero {_ _ _}.
Arguments PayloadTooLarge {_ _ _}.
Arguments Backend {_ _ _}.

Definition mqtt_error_kind {I P R} (e : Error I P R) : ErrorKind :=
  match e with
  | NotReady => KindNotReady
  | Disconnected => KindDisconnected
  | InvalidRequest => KindConfiguration
  | Peer _ => KindProtocol
  | Resource _ | PayloadTooLarge => KindCapacity
  | Transport _ | WriteZero => KindTransport
  | Backend => KindProtocol
  end.

Definition mqtt_adapter_error_text {I P R} (io_debug : I → list Z) (peer_text : P → list Z)
    (resource_text : R → list Z) (e : Error I P R) : list Z :=
  match e with
  | NotReady => lit "MQTT session is not ready"
  | Disconnected => lit "MQTT session is disconnected"
  | InvalidRequest => lit "invalid MQTT operation"
  | Peer error => lit "MQTT peer error: " ++ peer_text error
  | Resource error => lit "MQTT capacity error: " ++ resource_text error
  | Transport error => lit "MQTT transport error: " ++ io_debug error
  | WriteZero => lit "MQTT transport wrote zero bytes"
  | PayloadTooLarge => lit "MQTT payload exceeds packet capacity"
  | Backend => lit "unrecognized minimq backend error"
  end.

(** [From<minimq::Error>] *)
Definition mqtt_error_from {I P R} (e : MqError I P R) : Error I P R :=
  match e with
  | MqNotReady => NotReady
  | MqDisconnected => Disconnected
  | MqInvalidRequest => InvalidRequest
  | MqPeer e => Peer e
  | MqResource e => Resource e
  | MqTransport e => Transport e
  | MqWriteZero => WriteZero
  | MqOther => Backend
  end.

Definition to_minimq_qos (q : QoS) : MqQoS :=
  match q with AtMostOnce => MqAtMostOnce | AtLeastOnce => MqAtLeastOnce end.

Definition from_minimq_qos (q : MqQoS) : option QoS :=
  match q with
  | MqAtMostOnce => Some AtMostOnce
  | MqAtLeastOnce => Some AtLeastOnce
  | MqExactlyOnce => None
  end.

Record InboundPublish : Type := {
  inbound_topic : list Z; inbound_payload : list Z; inbound_qos : QoS;
  inbound_retained : bool
}.

Definition from_minimq_publish (m : MqPublish) : option InboundPublish :=
  q ← from_minimq_qos (mp_qos m);
  Some {| inbound_topic := mp_topic m; inbound_payload := mp_payload m;
          inbound_qos := q; inbound_retained := mp_retained m |}.

(** The kinds that [observe] counts as session failures. *)
Definition observed_kind (k : ErrorKind) : bool :=
  match k with
  | KindTransport | KindProtocol | KindDisconnected => true
  | _ => false
  end.

Definition observe_error {I P R} (s : Snapshot) (e : Error I P R) : Snapshot :=
  if observed_kind (mqtt_error_kind e) then record_failure (mqtt_error_kind e) s else s.

(** * The client *)

Section Client.
Context `{M : Minimq}.

Abbreviation client_error := (Error mq_IoError mq_PeerError mq_ResourceError).

Record Client : Type := { client_session : mq_Session; client_snapshot : Snapshot }.

Definition client_new (config : Config) (rx tx : list Z) (security : TransportSecurity)
    (credentials : option Credentials) : res (AdapterConfigError mq_ConfigError) Client :=
  if bool_decide (rx = []) || bool_decide (tx = []) then Err EmptyBuffer else
  let required := maximum_packet_size config in
  if Z.of_nat (length rx) <? required
  then Err (RxBufferTooSmall required (Z.of_nat (length rx))) else
  if bool_decide (security = PlaintextFixture)
     && match credentials with Some _ => true | None => false end
  then Err CredentialsRequireEncryption else
  client_id ← text_as_str (config_client_id config);
  builder ← map_err ConfigBackend (mq_client_id (mq_builder rx tx) client_id);
  let builder := mq_keepalive builder (keep_alive_seconds config) in
  let builder := mq_session_expiry builder (session_expiry_seconds config) in
  builder ← match credentials with
            | Some c => map_err ConfigBackend
                          (mq_auth builder (cred_username c) (cred_password c))
            | None => Ok builder
            end;
  Ok {| client_session := mq_session builder; client_snapshot := mqtt_snapshot_default |}.

Definition client_update (f : Snapshot → Snapshot) (c : Client) : Client :=
  {| client_session := client_session c; client_snapshot := f (client_snapshot c) |}.

Definition client_transition (state : ConnectionState) (c : Client) : Client :=
  client_update (transition state) c.
Definition record_external_failure (e : ErrorKind) (c : Client) : Client :=
  client_update (record_failure e) c.
Definition connection_record_queue_drops (count : Z) (c : Client) : Client :=
  client_update (record_queue_drops count) c.

Definition rx_capacity (c : Client) : Z := mq_max_rx (client_session c).
Definition tx_capacity (c : Client) : Z := mq_max_tx (client_session c).

(** [Ok resumed]: a live connection, with [Connection::resumed]. *)
Definition client_connect (c : Client) : res client_error bool * Client :=
  let s := transition ConnectingSession (client_snapshot c) in
  match mq_connect (client_session c) with
  | (Ok EventConnected, session) =>
    (Ok false, {| client_session := session; client_snapshot := record_connected s |})
  | (Ok EventReconnected, session) =>
    (Ok true, {| client_session := session; client_snapshot := record_resumed s |})
  | (Err error, session) =>
    let error := mqtt_error_from error in
    (Err error, {| client_session := session;
                   client_snapshot := record_failure (mqtt_error_kind error) s |})
  | (Panic, session) => (Panic, {| client_session := session; client_snapshot := s |})
  end.

(** The tail every connection call shares: [on_ok] on success, [observe] on
    an engine error. *)
Definition settle {A} (s : Snapshot) (on_ok : Snapshot → Snapshot)
    (r : res client_error A) (session : mq_Session) : res client_error A * Client :=
  (r, {| client_session := session;
         client_snapshot := match r with
                            | Ok _ => on_ok s
                            | Err e => observe_error s e
                            | Panic => s
                            end |}).

Definition connection_publish (topic : TopicName) (payload : list Z) (qos : QoS)
    (c : Client) : res client_error unit * Client :=
  match text_as_str (E := unit) topic with
  | Ok topic =>
    match mq_publish (client_session c) topic payload (to_minimq_qos qos) with
    | (Ok _, session) => settle (client_snapshot c) record_publish (Ok tt) session
    | (Err (PubSession error), session) =>
      settle (client_snapshot c) record_publish (Err (mqtt_error_from error)) session
    | (Err PubPayload, session) =>
      (Err PayloadTooLarge,
       {| client_session := session; client_snapshot := client_snapshot c |})
    | (Panic, session) => settle (client_snapshot c) record_publish Panic session
    end
  | _ => (Panic, c)
  end.

Definition connection_subscribe (filter : TopicFilter) (qos : QoS) (c : Client) :
    res client_error unit * Client :=
  match text_as_str (E := unit) filter with
  | Ok filter =>
    let '(r, session) := mq_subscribe (client_session c) filter (to_minimq_qos qos) in
    settle (client_snapshot c) id (map_err mqtt_error_from r) session
  | _ => (Panic, c)
  end.

Definition connection_unsubscribe (filter : TopicFilter) (c : Client) :
    res client_error unit * Client :=
  match text_as_str (E := unit) filter with
  | Ok filter =>
    let '(r, session) := mq_unsubscribe (client_session c) filter in
    settle (client_snapshot c) id (map_err mqtt_error_from r) session
  | _ => (Panic, c)
  end.

(** [from_minimq_publish(message).ok_or_else(..)?; record_receive()] *)
Definition deliver (s : Snapshot) (m : MqPublish) (session : mq_Session) :
    res client_error InboundPublish * Client :=
  settle s record_receive
    (ok_or (Peer mq_InvalidPacket) (from_minimq_publish m)) session.

Definition connection_drive (c : Client) :
    res client_error (option InboundPublish) * Client :=
  match mq_drive (client_session c) with
  | (Ok (Some message), session) =>
    let '(r, c) := deliver (client_snapshot c) message session in (Some <$> r, c)
  | (Ok None, session) => settle (client_snapshot c) id (Ok None) session
  | (Err error, session) =>
    settle (client_snapshot c) id (Err (mqtt_error_from error)) session
  | (Panic, session) => settle (client_snapshot c) id Panic session
  end.

Definition connection_receive (c : Client) : res client_error InboundPublish * Client :=
  match mq_recv (client_session c) with
  | (Ok message, session) => deliver (client_snapshot c) message session
  | (Err error, session) =>
    settle (client_snapshot c) id (Err (mqtt_error_from error)) session
  | (Panic, session) => settle (client_snapshot c) id Panic session
  end.

Definition connection_disconnect (c : Client) : res client_error unit * Client :=
  let '(r, session) := mq_disconnect (client_session c) in
  settle (client_snapshot c) (transition WaitingForNetwork)
    (map_err mqtt_error_from r) session.

(** * Sequences of calls *)

(** The calls a firmware task makes on its client and its connection. *)
Inductive client_op : Type :=
  | CTransition (state : ConnectionState)
  | CExternalFailure (e : ErrorKind)
  | CDrops (count : Z)
  | CConnect
  | CPublish (topic : TopicName) (payload : list Z) (qos : QoS)
  | CSubscribe (filter : TopicFilter) (qos : QoS)
  | CUnsubscribe (filter : TopicFilter)
  | CDrive
  | CReceive
  | CDisconnect.

Inductive client_value : Type :=
  | VDone
  | VSession (resumed : bool)
  | VMessage (m : InboundPublish)
  | VIdle.

Definition client_step (op : client_op) (c : Client) : res client_error client_value * Client :=
  match op with
  | CTransition state => (Ok VDone, client_transition state c)
  | CExternalFailure e => (Ok VDone, record_external_failure e c)
  | CDrops count => (Ok VDone, connection_record_queue_drops count c)
  | CConnect => let '(r, c) := client_connect c in (VSession <$> r, c)
  | CPublish topic payload qos =>
    let '(r, c) := connection_publish topic payload qos c in ((λ _, VDone) <$> r, c)
  | CSubscribe filter qos =>
    let '(r, c) := connection_subscribe filter qos c in ((λ _, VDone) <$> r, c)
  | CUnsubscribe filter =>
    let '(r, c) := connection_unsubscribe filter c in ((λ _, VDone) <$> r, c)
  | CDrive =>
    let '(r, c) := connection_drive c in
    ((λ m, match m with Some m => VMessage m | None => VIdle end) <$> r, c)
  | CReceive => let '(r, c) := connection_receive c in (VMessage <$> r, c)
  | CDisconnect => let '(r, c) := connection_disconnect c in ((λ _, VDone) <$> r, c)
  end.

(** A run: what was called and what it returned, and the client it leaves. *)
Fixpoint client_run (ops : list client_op) (c : Client) :
    list (client_op * res client_error client_value) * Client :=
  match ops with
  | [] => ([], c)
  | op :: ops =>
    let '(r, c) := client_step op c in
    let '(log, c) := client_run ops c in
    ((op, r) :: log, c)
  end.

(** The bookkeeping a call owes the snapshot, told from what it returned. *)
Definition owed (call : client_op * res client_error client_value) : list snapshot_op :=
  match call with
  | (CTransition state, _) => [OpTransition state]
  | (CExternalFailure e, _) => [OpFailure e]
  | (CDrops count, _) => [OpDrops count]
  | (CConnect, r) =>
    OpTransition ConnectingSession ::
    match r with
    | Ok (VSession true) => [OpResumed]
    | Ok _ => [OpConnected]
    | Err e => [OpFailure (mqtt_error_kind e)]
    | Panic => []
    end
  | (_, Err e) =>
    if observed_kind (mqtt_error_kind e) then [OpFailure (mqtt_error_kind e)] else []
  | (CPublish _ _ _, Ok _) => [OpPublish]
  | ((CDrive | CReceive), Ok (VMessage _)) => [OpReceive]
  | (CDisconnect, Ok _) => [OpTransition WaitingForNetwork]
  | _ => []
  end.

Definition acknowledged_publish (call : client_op * res client_error client_value) : bool :=
  match call with (CPublish _ _ _, Ok _) => true | _ => false end.
Definition delivered_message (call : client_op * res client_error client_value) : bool :=
  match call with (_, Ok (VMessage _)) => true | _ => false end.

Definition client_op_ok (op : client_op) : Prop :=
  match op with CDrops count => 0 ≤ count | _ => True end.

(** * Lemmas *)

Lemma observe_owed s (e : client_error) :
  observe_error s e =
  foldl apply_op s (if observed_kind (mqtt_error_kind e)
                    then [OpFailure (mqtt_error_kind e)] else []).
Proof. unfold observe_error. by destruct (observed_kind _). Qed.

Lemma client_step_owed op c :
  client_snapshot (client_step op c).2 =
  foldl apply_op (client_snapshot c) (owed (op, (client_step op c).1)).
Proof.
  destruct op; simpl; try done;
    unfold client_connect, connection_publish, connection_subscribe,
      connection_unsubscribe, connection_drive, connection_receive,
      connection_disconnect, deliver, settle, ok_or;
    repeat (case_match; simplify_eq/=; try done); rewrite ?observe_owed;
    repeat match goal with H : observed_kind _ = _ |- _ => rewrite H end; done.
Qed.

Lemma client_run_owed ops c :
  client_snapshot (client_run ops c).2 =
  foldl apply_op (client_snapshot c) (concat (owed <$> (client_run ops c).1)).
Proof.
  revert c. induction ops as [|op ops IH]; intros c; [done|]. simpl.
  pose proof (client_step_owed op c) as Hs. destruct (client_step op c) as [r c1].
  specialize (IH c1). destruct (client_run ops c1) as [log c2]. csimpl.
  rewrite foldl_app. simpl in Hs. by rewrite <-Hs.
Qed.

Lemma client_run_ops ops c : (client_run ops c).1.*1 = ops.
Proof.
  revert c. induction ops as [|op ops IH]; intros c; [done|]. simpl.
  destruct (client_step op c) as [r c1]. specialize (IH c1).
  destruct (client_run ops c1). csimpl in *. congruence.
Qed.

Lemma owed_ok call : client_op_ok call.1 → Forall op_ok (owed call).
Proof.
  destruct call as [op r]. intros Hop.
  destruct op, r as [[|[]| |]| |]; simpl; repeat case_match; repeat constructor; done.
Qed.

Lemma total_owed (f : snapshot_op → Z) (g : client_op * res client_error client_value → bool) log :
  (∀ call, total f (owed call) = if g call then 1 else 0) →
  total f (concat (owed <$> log)) = Z.of_nat (length (List.filter g log)).
Proof.
  intros Hg. induction log as [|call log IH]; [done|]. csimpl.
  rewrite total_app, Hg, IH. destruct (g call); simpl; lia.
Qed.

Lemma total_owed_publish call :
  total is_publish_op (owed call) = if acknowledged_publish call then 1 else 0.
Proof. destruct call as [[] [[|[]| |]| |]]; simpl; repeat case_match; done. Qed.

Lemma client_run_ok ops c :
  Forall client_op_ok ops → Forall op_ok (concat (owed <$> (client_run ops c).1)).
Proof.
  intros Hops. apply Forall_concat, Forall_fmap.
  rewrite <-(client_run_ops ops c), Forall_fmap in Hops.
  eapply Forall_impl; [exact Hops|]. intros call. apply owed_ok.
Qed.

Lemma client_new_checks config rx tx security creds c :
  client_new config rx tx security creds = Ok c →
  rx ≠ [] ∧ tx ≠ [] ∧ maximum_packet_size config ≤ Z.of_nat (length rx) ∧
  (creds = None ∨ security = Encrypted) ∧ client_snapshot c = mqtt_snapshot_default.
Proof.
  unfold client_new. intros H. case_match eqn:Hb; [done|].
  apply orb_false_iff in Hb as [Hr%bool_decide_eq_false Ht%bool_decide_eq_false].
  destruct (Z.ltb_spec (Z.of_nat (length rx)) (maximum_packet_size config)); [done|].
  case_match eqn:Hs; [done|]. apply bind_Ok_iff in H as (cid & _ & H).
  apply bind_Ok_iff in H as (b1 & _ & H). apply bind_Ok_iff in H as (b2 & _ & [= <-]).
  split_and!; [done..| |done]. destruct creds; [|auto]. right.
  destruct security; [done|]. by rewrite andb_true_r in Hs.
Qed.
End Client.

(** * Properties *)

(** C5: every client keeps its books. For any engine and any sequence of calls
    on a fresh client, the snapshot is exactly the record of what the calls
    returned: connections, resumptions, acknowledged publishes, delivered
    messages, reported queue drops, graceful disconnects and, of the errors,
    those of transport, protocol and disconnection kind (any kind for a
    failed CONNECT); other errors leave it as it was. In particular the
    publish counter is the number of publishes that returned [Ok],
    saturated. *)
Theorem client_keeps_books `{M : Minimq} (ops : list client_op) (session : mq_Session) :
  Forall client_op_ok ops →
  let c := {| client_session := session; client_snapshot := mqtt_snapshot_default |} in
  let '(log, c') := client_run ops c in
  log.*1 = ops ∧
  client_snapshot c' = run_ops (concat (owed <$> log)) ∧
  publishes (client_snapshot c') =
    Z.min (Z.of_nat (length (List.filter acknowledged_publish log))) (u_max 32).
Proof.
  intros Hops c. pose proof (client_run_ops ops c) as H1.
  pose proof (client_run_owed ops c) as H2. pose proof (client_run_ok ops c Hops) as H3.
  destruct (client_run ops c) as [log c']. simpl in *.
  assert (client_snapshot c' = run_ops (concat (owed <$> log))) as Hc by done.
  split_and!; [done..|]. rewrite Hc.
  destruct (run_ops_counters _ H3) as (_ & _ & _ & -> & _).
  by rewrite (total_owed _ acknowledged_publish) by (apply total_owed_publish).
Qed.

Lemma client_keeps_books_witness :
  match text_new TopicName_spec (lit "a") with
  | Ok topic =>
    let ops := [CConnect; CPublish topic [1] AtLeastOnce; CReceive; CReceive] in
    let '(log, c') := client_run ops
      (@Build_Client loopback [] mqtt_snapshot_default) in
    log.*1 = ops ∧ client_snapshot c' = run_ops (concat (owed <$> log)) ∧
    publishes (client_snapshot c') =
      Z.min (Z.of_nat (length (List.filter acknowledged_publish log))) (u_max 32)
  | _ => False
  end.
Proof.
  destruct (text_new TopicName_spec (lit "a")) as [topic| |] eqn:Ht;
    [|vm_compute in Ht; discriminate..].
  apply (client_keeps_books (M := loopback)
    [CConnect; CPublish topic [1] AtLeastOnce; CReceive; CReceive] []).
  repeat constructor.
Defined.

(** Credentials are never sent in the clear, and buffers hold what the
    configuration promises. [Client::new] refuses, in this order, an empty
    buffer, an RX buffer below the configured packet limit (reporting both
    sizes) and credentials over the plaintext transport, before the engine is
    configured; a client it does return has none of these defects and starts
    with the default snapshot. *)
Theorem client_new_safe `{M : Minimq} (config : Config) (rx tx : list Z)
    (security : TransportSecurity) (creds : option Credentials) :
  (rx = [] ∨ tx = [] → client_new config rx tx security creds = Err EmptyBuffer) ∧
  (rx ≠ [] → tx ≠ [] → Z.of_nat (length rx) < maximum_packet_size config →
   client_new config rx tx security creds =
     Err (RxBufferTooSmall (maximum_packet_size config) (Z.of_nat (length rx)))) ∧
  (∀ cr, rx ≠ [] → tx ≠ [] → maximum_packet_size config ≤ Z.of_nat (length rx) →
   client_new config rx tx PlaintextFixture (Some cr) = Err CredentialsRequireEncryption) ∧
  (∀ c, client_new config rx tx security creds = Ok c →
   rx ≠ [] ∧ tx ≠ [] ∧ maximum_packet_size config ≤ Z.of_nat (length rx) ∧
   (creds = None ∨ security = Encrypted) ∧ client_snapshot c = mqtt_snapshot_default).
Proof.
  split_and!; [| | |apply client_new_checks]; unfold client_new.
  - intros [->| ->]; simpl; by rewrite ?orb_true_r.
  - intros Hr Ht Hl. rewrite !bool_decide_false by done. simpl.
    by destruct (Z.ltb_spec (Z.of_nat (length rx)) (maximum_packet_size config)); [|lia].
  - intros cr Hr Ht Hl. rewrite !(bool_decide_false (_ = [])) by done. simpl.
    by destruct (Z.ltb_spec (Z.of_nat (length rx)) (maximum_packet_size config)); [lia|].
Qed.

(** Inbound publications. What the engine delivers at QoS 0 or 1 reaches
    the application with topic, payload, retain flag and QoS unchanged and is
    counted; a QoS 2 publication, which the SDK does not support, is refused
    as an invalid packet of the peer, counted as a protocol failure and never
    as received. The QoS the SDK sends maps back to itself. *)
Theorem inbound_publish_exact `{M : Minimq} (c : Client) (m : MqPublish) (session : mq_Session) :
  mq_drive (client_session c) = (Ok (Some m), session) →
  (∀ q, mp_qos m = to_minimq_qos q →
     connection_drive c =
       (Ok (Some {| inbound_topic := mp_topic m; inbound_payload := mp_payload m;
                    inbound_qos := q; inbound_retained := mp_retained m |}),
        {| client_session := session; client_snapshot := record_receive (client_snapshot c) |})) ∧
  (mp_qos m = MqExactlyOnce →
     connection_drive c =
       (Err (Peer mq_InvalidPacket),
        {| client_session := session;
           client_snapshot := record_failure KindProtocol (client_snapshot c) |})) ∧
  ((∃ q, mp_qos m = to_minimq_qos q) ∨ mp_qos m = MqExactlyOnce).
Proof.
  intros Hd. unfold connection_drive, deliver, settle, from_minimq_publish. rewrite Hd.
  split_and!.
  - by intros [] ->.
  - by intros ->.
  - destruct (mp_qos m); [left; by exists AtMostOnce|left; by exists AtLeastOnce|by right].
Qed.

Lemma inbound_publish_exact_witness :
  let m q := {| mp_topic := lit "t"; mp_payload := [1; 2]; mp_qos := q; mp_retained := true |} in
  let c q := @Build_Client loopback [m q] mqtt_snapshot_default in
  (connection_drive (c MqExactlyOnce)).1 = Err (Peer tt) ∧
  received (client_snapshot (connection_drive (c MqAtMostOnce)).2) = 1.
Proof.
  intros m c.
  destruct (inbound_publish_exact (M := loopback) (c MqExactlyOnce) (m MqExactlyOnce) [])
    as (_ & H & _); [reflexivity|].
  destruct (inbound_publish_exact (M := loopback) (c MqAtMostOnce) (m MqAtMostOnce) [])
    as (H' & _); [reflexivity|].
  split; [by rewrite (H eq_refl)|]. by rewrite (H' AtMostOnce eq_refl).
Defined.
