(* ===== verification/Storage.v ===== *)
(** [crates/storage]: stable keys, the [KeyValueStore] contract, the record
    encoding, and [SequentialStore], which implements the contract over a
    third-party flash map.

    The map engine ([sequential_storage::map::MapStorage] over a NOR flash) is
    a parameter: class [MapEngine] has its calls, [MapEngineLaws] the
    documented behaviour the store relies on.  [KeyValueStore] is the trait;
    [kv_spec_step] is the abstract machine its documentation describes, and
    [store_refines_contract] the refinement between the two. *)
From stdpp Require Import prelude list numbers option strings gmap.
From Stdlib Require Import ZArith.
From S2P Require Import Prelude Text.
Local Open Scope Z_scope.
#[local] Ltac Zify.zify_post_hook ::= Z.to_euclidean_division_equations.

(** * Keys *)

Record Key : Type := { key_namespace : Z; key_record : Z }.

#[global] Instance Key_eq_dec : EqDecision Key.
Proof. solve_decision. Defined.
#[global] Instance Key_countable : Countable Key.
Proof.
  refine (inj_countable' (λ k, (key_namespace k, key_record k))
            (λ '(n, r), {| key_namespace := n; key_record := r |}) _).
  by intros [].
Defined.

Definition key_new (namespace record : Z) : Key :=
  {| key_namespace := namespace; key_record := record |}.

Definition key_from_raw (raw : Z) : Key :=
  {| key_namespace := wrap_u 16 (Z.shiftr raw 16); key_record := wrap_u 16 raw |}.

Definition key_to_raw (k : Key) : Z :=
  Z.lor (Z.shiftl (key_namespace k) 16) (key_record k).

Definition key_wf (k : Key) : Prop := is_u 16 (key_namespace k) ∧ is_u 16 (key_record k).

(** * Results *)

Inductive Fetch : Type :=
  | NotFound
  | Found (len : nat).

Definition found_len (f : Fetch) : option nat :=
  match f with NotFound => None | Found len => Some len end.
Definition is_not_found (f : Fetch) : bool :=
  match f with NotFound => true | Found _ => false end.

Inductive ErrorKind : Type :=
  | StBackend | StFull | StCorrupted | StBufferTooSmall | StValueTooLarge
  | StInvalidData | StInternal.

Inductive Error (E : Type) : Type :=
  | Backend (e : E)
  | Full
  | Corrupted
  | BufferTooSmall (required : nat)
  | ValueTooLarge
  | InvalidData
  | Internal.
Arguments Backend {E} e.
Arguments Full {E}.
Arguments Corrupted {E}.
Arguments BufferTooSmall {E} required.
Arguments ValueTooLarge {E}.
Arguments InvalidData {E}.
Arguments Internal {E}.

Definition storage_error_kind {E} (e : Error E) : ErrorKind :=
  match e with
  | Backend _ => StBackend
  | Full => StFull
  | Corrupted => StCorrupted
  | BufferTooSmall _ => StBufferTooSmall
  | ValueTooLarge => StValueTooLarge
  | InvalidData => StInvalidData
  | Internal => StInternal
  end.

Definition storage_error_text {E} (debug : E → list Z) (e : Error E) : list Z :=
  match e with
  | Backend error => lit "storage backend failed: " ++ debug error
  | Full => lit "persistent storage is full"
  | Corrupted => lit "persistent storage is corrupt"
  | BufferTooSmall required =>
    lit "destination buffer needs " ++ dec (Z.of_nat required) ++ lit " bytes"
  | ValueTooLarge => lit "value is too large for this store"
  | InvalidData => lit "stored value has an invalid encoding"
  | Internal => lit "storage engine invariant failed"
  end.

Inductive ConfigError : Type :=
  | ScratchTooSmall
  | RangeOutOfBounds
  | UnalignedStart
  | UnalignedEnd
  | RangeTooSmall
  | PageTooSmall
  | WordTooLarge.

Definition storage_config_error_text (e : ConfigError) : list Z :=
  match e with
  | ScratchTooSmall => lit "storage scratch buffer is too small"
  | RangeOutOfBounds => lit "storage range is outside the flash"
  | UnalignedStart => lit "storage range start is not erase-aligned"
  | UnalignedEnd => lit "storage range end is not erase-aligned"
  | RangeTooSmall => lit "storage range needs at least two pages"
  | PageTooSmall => lit "flash erase page is too small"
  | WordTooLarge => lit "flash word exceeds the supported size"
  end.

(** * The [KeyValueStore] trait *)

(** [get] also returns the caller's output buffer. *)
Class KeyValueStore (St E : Type) : Type := {
  kv_get : Key → list Z → St → res E Fetch * list Z * St;
  kv_put : Key → list Z → St → res E unit * St;
  kv_delete : Key → St → res E unit * St;
  kv_clear : St → res E unit * St
}.

(** * NOR flash adapters *)

(** The blocking traits, with [read] filling a buffer. *)
Class BlockingNorFlash (S E : Type) : Type := {
  nor_read_size : nat;
  nor_write_size : nat;
  nor_erase_size : nat;
  nor_read : S → Z → list Z → res E (list Z) * S;
  nor_write : S → Z → list Z → res E unit * S;
  nor_erase : S → Z → Z → res E unit * S;
  nor_capacity : S → Z
}.

(** The asynchronous traits have the same calls, each an [async fn]. *)
Class NorFlash (S E : Type) : Type := {
  anor_read_size : nat;
  anor_write_size : nat;
  anor_erase_size : nat;
  anor_read : S → Z → list Z → res E (list Z) * S;
  anor_write : S → Z → list Z → res E unit * S;
  anor_erase : S → Z → Z → res E unit * S;
  anor_capacity : S → Z
}.

Record BlockingFlash (S : Type) : Type := { flash_inner : S }.
Arguments flash_inner {S} _.
Arguments Build_BlockingFlash {S} _.

Definition blocking_flash_new {S} (inner : S) : BlockingFlash S :=
  {| flash_inner := inner |}.

#[export] Instance blocking_flash_nor {S E} `{BlockingNorFlash S E} :
  NorFlash (BlockingFlash S) E := {|
  anor_read_size := nor_read_size;
  anor_write_size := nor_write_size;
  anor_erase_size := nor_erase_size;
  anor_read f offset bytes :=
    let '(r, s) := nor_read (flash_inner f) offset bytes in (r, Build_BlockingFlash s);
  anor_write f offset bytes :=
    let '(r, s) := nor_write (flash_inner f) offset bytes in (r, Build_BlockingFlash s);
  anor_erase f from to :=
    let '(r, s) := nor_erase (flash_inner f) from to in (r, Build_BlockingFlash s);
  anor_capacity f := nor_capacity (flash_inner f)
|}.

(** * Records *)

Inductive SerializationError : Type := SerBufferTooSmall | SerInvalidFormat | SerOther.

Inductive StoredValue : Type :=
  | Live (value : list Z)
  | Tombstone.

(** The byte count, and the buffer afterwards. *)
Definition serialize_into (v : StoredValue) (buffer : list Z) :
    res SerializationError (nat * list Z) :=
  let '(tag, value) := match v with Live value => (1, value) | Tombstone => (0, []) end in
  if decide (length value + 1 ≤ length buffer)%nat then
    let destination := take (length value + 1) buffer in
    destination ← store_at destination 0 tag;
    destination ← copy_range destination 1 (length destination) value;
    Ok (length destination, destination ++ drop (length value + 1) buffer)
  else Err SerBufferTooSmall.

Definition deserialize_from (buffer : list Z) :
    res SerializationError (StoredValue * nat) :=
  match buffer with
  | [0] => Ok (Tombstone, 1%nat)
  | 1 :: value => Ok (Live value, length buffer)
  | _ => Err SerInvalidFormat
  end.

(** * The flash map engine *)

(** [sequential_storage::Error] as the conversion names it. *)
Inductive SeqError (E : Type) : Type :=
  | SeqStorage (e : E)
  | SeqFullStorage
  | SeqCorrupted
  | SeqBufferTooSmall (needed : nat)
  | SeqItemTooBig
  | SeqBufferTooBig
  | SeqSerialization (e : SerializationError)
  | SeqLogicBug
  | SeqOther.
Arguments SeqStorage {E} e.
Arguments SeqFullStorage {E}.
Arguments SeqCorrupted {E}.
Arguments SeqBufferTooSmall {E} needed.
Arguments SeqItemTooBig {E}.
Arguments SeqBufferTooBig {E}.
Arguments SeqSerialization {E} e.
Arguments SeqLogicBug {E}.
Arguments SeqOther {E}.

Inductive MapConfigError : Type :=
  | StartRangeNotAtPageBoundary
  | EndRangeNotAtPageBoundary
  | MapRangeTooSmall
  | PagesTooSmall
  | WordSizeTooLarge.

(** [M] is a map ([MapStorage]) over a flash [F] with errors [E]; the calls take
    the value codec and the length of the scratch buffer, of which the engine
    uses the first four bytes for the key.  A [MapConfig] is its range. *)
Class MapEngine (F M E : Type) : Type := {
  me_capacity : F → Z;
  me_try_config : Z → Z → res MapConfigError unit;
  me_new : F → Z → Z → M;
  me_flash : M → F;   (** [flash], [destroy().0] *)
  me_set_flash : F → M → M;   (** a mutation through [flash] *)
  me_range : M → Z * Z;
  me_fetch_item : ∀ {V : Type}, (list Z → res SerializationError (V * nat)) →
    nat → Z → M → res (SeqError E) (option V) * M;
  me_store_item : ∀ {V : Type}, (V → list Z → res SerializationError (nat * list Z)) →
    nat → Z → V → M → res (SeqError E) unit * M;
  me_erase_all : M → res (SeqError E) unit * M
}.

(** The encoded record that the engine keeps for a key once [v] is stored:
    what the codec wrote into the scratch buffer after the key. *)
Definition encoded {V} (ser : V → list Z → res SerializationError (nat * list Z))
    (scratch : nat) (v : V) (bytes : list Z) : Prop :=
  ∃ buffer n buffer', length buffer = (scratch - 4)%nat ∧
    ser v buffer = Ok (n, buffer') ∧ bytes = take n buffer'.

(** The records a map reads, given those a flash holds in a range. *)
Definition view_of {F M E} `{MapEngine F M E} (contents : F → Z → Z → gmap Z (list Z)) (m : M) :
    gmap Z (list Z) :=
  contents (me_flash m) (me_range m).1 (me_range m).2.

(** The map still owns the same range of the same flash. *)
Definition same_region {F M E} `{MapEngine F M E} (m m' : M) : Prop :=
  me_range m' = me_range m ∧ me_capacity (me_flash m') = me_capacity (me_flash m).

Class MapEngineLaws (F M E : Type) `{MapEngine F M E} : Type := {
  (** The records a map opened over a range of the flash shows. *)
  me_contents : F → Z → Z → gmap Z (list Z);
  me_new_spec : ∀ flash first last, me_try_config first last = Ok tt →
    me_flash (me_new flash first last) = flash ∧
    me_range (me_new flash first last) = (first, last);
  me_fetch_region : ∀ {V} (des : list Z → res SerializationError (V * nat)) scratch key m,
    same_region m (me_fetch_item des scratch key m).2;
  me_store_region : ∀ {V} (ser : V → list Z → res SerializationError (nat * list Z))
      scratch key v m, same_region m (me_store_item ser scratch key v m).2;
  me_erase_region : ∀ m, same_region m (me_erase_all m).2;
  (** Fetching decodes the record of the key and changes no record. *)
  me_fetch_spec : ∀ {V} (des : list Z → res SerializationError (V * nat)) scratch key m,
    let '(r, m') := me_fetch_item des scratch key m in
    view_of me_contents m' = view_of me_contents m ∧
    match r with
    | Ok None => view_of me_contents m !! key = None
    | Ok (Some v) => ∃ bytes n, view_of me_contents m !! key = Some bytes ∧ des bytes = Ok (v, n)
    | Err _ => True
    | Panic => False
    end;
  (** Storing is atomic: the record is replaced, or, only when the call
      failed, possibly kept. *)
  me_store_spec : ∀ {V} (ser : V → list Z → res SerializationError (nat * list Z))
      scratch key v m,
    let '(r, m') := me_store_item ser scratch key v m in
    match r with
    | Ok _ => ∃ bytes, encoded ser scratch v bytes ∧
        view_of me_contents m' = <[key := bytes]> (view_of me_contents m)
    | Err _ => view_of me_contents m' = view_of me_contents m ∨
        ∃ bytes, encoded ser scratch v bytes ∧
          view_of me_contents m' = <[key := bytes]> (view_of me_contents m)
    | Panic => False
    end;
  me_erase_spec : ∀ m,
    let '(r, m') := me_erase_all m in
    match r with Ok _ => view_of me_contents m' = ∅ | Err _ => True | Panic => False end
}.

Abbreviation me_view := (view_of me_contents).

(** * [SequentialStore] *)

Definition ENCODING_OVERHEAD : nat := 5.

Definition MAX_VALUE_SIZE (scratch : nat) : nat := scratch - ENCODING_OVERHEAD.

Definition storage_config_error_from (e : MapConfigError) : ConfigError :=
  match e with
  | StartRangeNotAtPageBoundary => UnalignedStart
  | EndRangeNotAtPageBoundary => UnalignedEnd
  | MapRangeTooSmall => RangeTooSmall
  | PagesTooSmall => PageTooSmall
  | WordSizeTooLarge => WordTooLarge
  end.

Definition storage_error_from {E} (e : SeqError E) : Error E :=
  match e with
  | SeqStorage value => Backend value
  | SeqFullStorage => Full
  | SeqCorrupted => Corrupted
  | SeqBufferTooSmall _ => ValueTooLarge
  | SeqItemTooBig | SeqBufferTooBig => ValueTooLarge
  | SeqSerialization SerBufferTooSmall => ValueTooLarge
  | SeqSerialization _ => InvalidData
  | SeqLogicBug => Internal
  | SeqOther => Internal
  end.

Section SequentialStore.
Context {F M E : Type} `{MapEngine F M E} (SCRATCH : nat).

(** The engine's map; the contents of the scratch buffer are not observable,
    only its length, the const parameter [SCRATCH]. *)
Record SequentialStore : Type := { store_map : M }.

Definition sequential_store_new (flash : F) (range_start range_end : Z) :
    res ConfigError SequentialStore :=
  if (SCRATCH <? ENCODING_OVERHEAD)%nat then Err ScratchTooSmall else
  if (range_end <? range_start) || (me_capacity flash <? range_end)
  then Err RangeOutOfBounds else
  _ ← map_err storage_config_error_from (me_try_config range_start range_end);
  Ok {| store_map := me_new flash range_start range_end |}.

Definition store_range (s : SequentialStore) : Z * Z := me_range (store_map s).

(** [flash_mut] at a mutation [f] of the flash. *)
Definition flash_mut (f : F → F) (s : SequentialStore) : SequentialStore :=
  {| store_map := me_set_flash (f (me_flash (store_map s))) (store_map s) |}.

Definition into_flash (s : SequentialStore) : F := me_flash (store_map s).

Definition store_get (key : Key) (output : list Z) (s : SequentialStore) :
    res (Error E) Fetch * list Z * SequentialStore :=
  let '(stored, m) :=
    me_fetch_item deserialize_from SCRATCH (key_to_raw key) (store_map s) in
  let s := {| store_map := m |} in
  match map_err storage_error_from stored with
  | Ok None | Ok (Some Tombstone) => (Ok NotFound, output, s)
  | Ok (Some (Live value)) =>
    if (length output <? length value)%nat
    then (Err (BufferTooSmall (length value)), output, s)
    else match copy_prefix output value with
         | Ok output => (Ok (Found (length value)), output, s)
         | Err e => (Err e, output, s)
         | Panic => (Panic, output, s)
         end
  | Err e => (Err e, output, s)
  | Panic => (Panic, output, s)
  end.

Definition store_put (key : Key) (value : list Z) (s : SequentialStore) :
    res (Error E) unit * SequentialStore :=
  if (MAX_VALUE_SIZE SCRATCH <? length value)%nat then (Err ValueTooLarge, s) else
  let '(r, m) := me_store_item serialize_into SCRATCH (key_to_raw key) (Live value)
                   (store_map s) in
  (map_err storage_error_from r, {| store_map := m |}).

Definition store_delete (key : Key) (s : SequentialStore) :
    res (Error E) unit * SequentialStore :=
  let '(r, m) := me_store_item serialize_into SCRATCH (key_to_raw key) Tombstone
                   (store_map s) in
  (map_err storage_error_from r, {| store_map := m |}).

Definition store_clear (s : SequentialStore) : res (Error E) unit * SequentialStore :=
  let '(r, m) := me_erase_all (store_map s) in
  (map_err storage_error_from r, {| store_map := m |}).
End SequentialStore.

Arguments SequentialStore M : clear implicits.
Arguments Build_SequentialStore {M} _.
Arguments store_map {M} _.

#[export] Instance sequential_kv {F M E} `{MapEngine F M E} (SCRATCH : nat) :
  KeyValueStore (SequentialStore M) (Error E) := {|
  kv_get := store_get SCRATCH;
  kv_put := store_put SCRATCH;
  kv_delete := store_delete SCRATCH;
  kv_clear := store_clear
|}.

(** * The contract, as an abstract machine *)

(** [None]: an interrupted [clear] left the region undefined until the next
    complete one. *)
Definition kv_state : Type := option (gmap Key (list Z)).

Inductive kv_op : Type :=
  | KvGet (key : Key) (output : list Z)
  | KvPut (key : Key) (value : list Z)
  | KvDelete (key : Key)
  | KvClear.

Inductive kv_out (E : Type) : Type :=
  | OutGet (r : res E Fetch) (output : list Z)
  | OutDone (r : res E unit).
Arguments OutGet {E} r output.
Arguments OutDone {E} r.

#[global] Instance kv_op_eq_dec : EqDecision kv_op.
Proof. solve_decision. Defined.

(** One call against any implementation of the trait. *)
Definition kv_call {St E} `{KeyValueStore St E} (op : kv_op) (s : St) : kv_out E * St :=
  match op with
  | KvGet key output => let '(r, output, s) := kv_get key output s in (OutGet r output, s)
  | KvPut key value => let '(r, s) := kv_put key value s in (OutDone r, s)
  | KvDelete key => let '(r, s) := kv_delete key s in (OutDone r, s)
  | KvClear => let '(r, s) := kv_clear s in (OutDone r, s)
  end.

Fixpoint kv_run {St E} `{KeyValueStore St E} (ops : list kv_op) (s : St) :
    list (kv_out E) * St :=
  match ops with
  | [] => ([], s)
  | op :: ops =>
    let '(o, s) := kv_call op s in
    let '(os, s) := kv_run ops s in (o :: os, s)
  end.

(** The call returned, it did not panic. *)
Definition returns {E} (o : kv_out E) : Prop :=
  match o with OutGet Panic _ | OutDone Panic => False | _ => True end.

(** The trait's documentation: whole values or an error and an untouched
    buffer; a failed [put] or [delete] leaves the complete old or the complete
    new value; values beyond [limit] are refused. *)
Inductive kv_spec_step {E} (limit : nat) : kv_state → kv_op → kv_out (Error E) → kv_state → Prop :=
  | spec_get_missing a key output :
    a !! key = None →
    kv_spec_step limit (Some a) (KvGet key output) (OutGet (Ok NotFound) output) (Some a)
  | spec_get_found a key output value :
    a !! key = Some value → (length value ≤ length output)%nat →
    kv_spec_step limit (Some a) (KvGet key output)
      (OutGet (Ok (Found (length value))) (value ++ drop (length value) output)) (Some a)
  | spec_get_small a key output value :
    a !! key = Some value → (length output < length value)%nat →
    kv_spec_step limit (Some a) (KvGet key output)
      (OutGet (Err (BufferTooSmall (length value))) output) (Some a)
  | spec_get_failed a key output e :
    (∀ required, e ≠ BufferTooSmall required) →
    kv_spec_step limit (Some a) (KvGet key output) (OutGet (Err e) output) (Some a)
  | spec_put_done a key value :
    (length value ≤ limit)%nat →
    kv_spec_step limit (Some a) (KvPut key value) (OutDone (Ok tt)) (Some (<[key := value]> a))
  | spec_put_large a key value :
    (limit < length value)%nat →
    kv_spec_step limit (Some a) (KvPut key value) (OutDone (Err ValueTooLarge)) (Some a)
  | spec_put_failed a a' key value e :
    (length value ≤ limit)%nat → a' = a ∨ a' = <[key := value]> a →
    kv_spec_step limit (Some a) (KvPut key value) (OutDone (Err e)) (Some a')
  | spec_delete_done a key :
    kv_spec_step limit (Some a) (KvDelete key) (OutDone (Ok tt)) (Some (delete key a))
  | spec_delete_failed a a' key e :
    a' = a ∨ a' = delete key a →
    kv_spec_step limit (Some a) (KvDelete key) (OutDone (Err e)) (Some a')
  | spec_clear_done s : kv_spec_step limit s KvClear (OutDone (Ok tt)) (Some ∅)
  | spec_clear_failed s e : kv_spec_step limit s KvClear (OutDone (Err e)) None
  | spec_undefined op o :
    op ≠ KvClear → returns o → kv_spec_step limit None op o None.

Inductive kv_spec_run {E} (limit : nat) :
    kv_state → list kv_op → list (kv_out (Error E)) → kv_state → Prop :=
  | spec_run_nil s : kv_spec_run limit s [] [] s
  | spec_run_cons s1 s2 s3 op o ops os :
    kv_spec_step limit s1 op o s2 → kv_spec_run limit s2 ops os s3 →
    kv_spec_run limit s1 (op :: ops) (o :: os) s3.

Definition kv_op_wf (op : kv_op) : Prop :=
  match op with
  | KvGet key _ | KvPut key _ | KvDelete key => key_wf key
  | KvClear => True
  end.

(** The encoding of a value, and the live value in an encoded record. *)
Definition encode_value (v : StoredValue) : list Z :=
  match v with Live value => 1 :: value | Tombstone => [0] end.

Definition live (record : list Z) : option (list Z) :=
  match record with 1 :: value => Some value | _ => None end.

(** The engine's records represent the abstract contents. *)
Definition represented (a : kv_state) (records : gmap Z (list Z)) : Prop :=
  match a with
  | None => True
  | Some a => ∀ key, key_wf key → a !! key = records !! key_to_raw key ≫= live
  end.

Definition represents {F M E} `{MapEngineLaws F M E} (a : kv_state) (s : SequentialStore M) : Prop :=
  represented a (me_view (store_map s)).

(** * An engine in memory *)

(** A flash that holds its records in memory, with a plan of faults, one per
    storing call: after the plan is used up every call succeeds.  Pages have 256
    bytes.  The engine satisfies the laws, so the theorems about the store are
    not vacuous, and evaluates. *)
Inductive ram_fault : Type := FaultNone | FaultLost | FaultTorn.

Record ram_flash : Type := {
  ram_capacity : Z; ram_records : gmap Z (list Z); ram_faults : list ram_fault
}.

Record ram_map : Type := { ram_storage : ram_flash; ram_range : Z * Z }.

Definition ram_put (records : gmap Z (list Z)) (faults : list ram_fault) (m : ram_map) : ram_map :=
  {| ram_storage := {| ram_capacity := ram_capacity (ram_storage m); ram_records := records;
                       ram_faults := faults |};
     ram_range := ram_range m |}.

Definition ram_encode {V} (ser : V → list Z → res SerializationError (nat * list Z))
    (scratch : nat) (v : V) : res (SeqError unit) (list Z) :=
  '(n, buffer) ← map_err SeqSerialization (ser v (replicate (scratch - 4) 0));
  Ok (take n buffer).

#[export] Instance ram_engine : MapEngine ram_flash ram_map unit := {|
  me_capacity := ram_capacity;
  me_try_config first last :=
    if negb (first mod 256 =? 0) then Err StartRangeNotAtPageBoundary else
    if negb (last mod 256 =? 0) then Err EndRangeNotAtPageBoundary else
    if last - first <? 512 then Err MapRangeTooSmall else Ok tt;
  me_new flash first last := {| ram_storage := flash; ram_range := (first, last) |};
  me_flash := ram_storage;
  me_set_flash flash m := {| ram_storage := flash; ram_range := ram_range m |};
  me_range := ram_range;
  me_fetch_item V des scratch key m :=
    match ram_records (ram_storage m) !! key with
    | None => (Ok None, m)
    | Some bytes =>
      (match des bytes with
       | Ok (v, _) => Ok (Some v)
       | Err e => Err (SeqSerialization e)
       | Panic => Err SeqOther
       end, m)
    end;
  me_store_item V ser scratch key v m :=
    match ram_encode ser scratch v with
    | Ok bytes =>
      let old := ram_records (ram_storage m) in
      let new := <[key := bytes]> old in
      match ram_faults (ram_storage m) with
      | FaultLost :: faults => (Err (SeqStorage tt), ram_put old faults m)
      | FaultTorn :: faults => (Err (SeqStorage tt), ram_put new faults m)
      | FaultNone :: faults => (Ok tt, ram_put new faults m)
      | [] => (Ok tt, ram_put new [] m)
      end
    | Err e => (Err e, m)
    | Panic => (Err SeqOther, m)
    end;
  me_erase_all m := (Ok tt, ram_put ∅ (ram_faults (ram_storage m)) m)
|}.

(** * Lemmas *)

#[export] Instance ram_engine_laws : MapEngineLaws ram_flash ram_map unit.
Proof.
  refine {| me_contents f _ _ := ram_records f |}; unfold same_region, view_of.
  - done.
  - intros V des scratch key m. cbn. by case_match.
  - intros V ser scratch key v m. cbn.
    by destruct (ram_encode _ _ _), (ram_faults (ram_storage m)) as [|[] ?].
  - done.
  - intros V des scratch key m. cbn.
    destruct (ram_records (ram_storage m) !! key) as [bytes|] eqn:Hk; simpl; [|done].
    split; [done|]. destruct (des bytes) as [[v n]| |] eqn:Hd; eauto.
  - intros V ser scratch key v m. cbn.
    destruct (ram_encode ser scratch v) as [bytes| |] eqn:He; [|by left..].
    assert (encoded ser scratch v bytes) as Henc.
    { unfold ram_encode in He. apply bind_Ok_iff in He as ([n buffer] & Hs & [= <-]).
      apply map_err_Ok_iff in Hs. exists (replicate (scratch - 4) 0), n, buffer.
      by rewrite length_replicate. }
    destruct (ram_faults (ram_storage m)) as [|[] ?]; simpl; eauto.
  - done.
Defined.

Lemma key_to_raw_sum k : key_wf k → key_to_raw k = key_namespace k * 65536 + key_record k.
Proof. intros [Hn Hr]. unfold key_to_raw. unfold is_u in Hn. by rewrite lor_shiftl by (done || lia). Qed.

Lemma key_from_raw_fields raw :
  is_u 32 raw →
  key_namespace (key_from_raw raw) = raw / 65536 ∧ key_record (key_from_raw raw) = raw mod 65536.
Proof.
  intros Hr. unfold key_from_raw, wrap_u. simpl. rewrite Z.shiftr_div_pow2 by done.
  unfold is_u in Hr. split; [rewrite Z.mod_small|]; lia.
Qed.

Lemma key_from_to_raw k : key_wf k → key_from_raw (key_to_raw k) = k.
Proof.
  intros Hk. rewrite key_to_raw_sum by done. destruct k as [n r], Hk as [Hn Hr].
  unfold is_u in *. simpl in *.
  destruct (key_from_raw_fields (n * 65536 + r)) as [H1 H2]; [unfold is_u; lia|].
  destruct (key_from_raw _). simpl in *. f_equal; lia.
Qed.

Lemma key_to_from_raw raw : is_u 32 raw → key_to_raw (key_from_raw raw) = raw.
Proof.
  intros Hr. destruct (key_from_raw_fields raw Hr) as [H1 H2]. unfold is_u in Hr.
  rewrite key_to_raw_sum by (unfold key_wf, is_u; lia). lia.
Qed.

Lemma key_to_raw_inj k k' : key_wf k → key_wf k' → key_to_raw k = key_to_raw k' → k = k'.
Proof. intros Hk Hk' H. by rewrite <-(key_from_to_raw k), H, key_from_to_raw. Qed.

Lemma serialize_into_spec v buffer :
  serialize_into v buffer =
  if decide (length (encode_value v) ≤ length buffer)%nat
  then Ok (length (encode_value v), encode_value v ++ drop (length (encode_value v)) buffer)
  else Err SerBufferTooSmall.
Proof.
  unfold serialize_into.
  set (tv := match v with Live value => (1, value) | Tombstone => (0, []) end).
  assert (encode_value v = tv.1 :: tv.2) as -> by by destruct v.
  destruct tv as [tag value]. cbn [fst snd length].
  rewrite Nat.add_1_r. case_decide as Hl; [|done].
  destruct buffer as [|b buffer]; [simpl in Hl; lia|]. simpl in Hl.
  assert (length (take (length value) buffer) = length value) as Ht
    by (rewrite length_take; lia).
  assert (store_at (E := SerializationError) (take (S (length value)) (b :: buffer)) 0 tag
          = Ok (tag :: take (length value) buffer)) as ->.
  { unfold store_at. rewrite decide_True by (simpl; lia). done. }
  cbn [mbind res_bind]. rewrite copy_range_Ok by (simpl; rewrite ?Ht; lia). simpl. rewrite Ht.
  by rewrite drop_ge, app_nil_r by lia.
Qed.

Lemma deserialize_encode v :
  deserialize_from (encode_value v) = Ok (v, length (encode_value v)).
Proof. by destruct v. Qed.

Lemma deserialize_from_Ok bytes v n :
  deserialize_from bytes = Ok (v, n) ↔ bytes = encode_value v ∧ n = length bytes.
Proof.
  split; [|intros [-> ->]; apply deserialize_encode].
  unfold deserialize_from.
  destruct bytes as [|b bytes]; [done|]. destruct b as [|[]|]; try done;
    destruct bytes; by intros [= <- <-].
Qed.

Lemma encoded_value scratch v bytes : encoded serialize_into scratch v bytes → bytes = encode_value v.
Proof.
  intros (buffer & n & buffer' & _ & H & ->). rewrite serialize_into_spec in H.
  case_decide; [|done]. simplify_eq. by rewrite take_app_length.
Qed.

Lemma live_encode v : live (encode_value v) = match v with Live x => Some x | Tombstone => None end.
Proof. by destruct v. Qed.

Lemma represented_insert a key v records :
  key_wf key → represented (Some a) records →
  represented (Some match v with Live x => <[key := x]> a | Tombstone => delete key a end)
    (<[key_to_raw key := encode_value v]> records).
Proof.
  simpl. intros Hk Ha k Hkw. destruct (decide (k = key)) as [->|Hne].
  - rewrite lookup_insert_eq. simpl. rewrite live_encode. destruct v.
    + by rewrite lookup_insert_eq.
    + by rewrite lookup_delete_eq.
  - rewrite lookup_insert_ne by (intros Heq; by apply key_to_raw_inj in Heq).
    rewrite <-Ha by done. destruct v.
    + by rewrite lookup_insert_ne by done.
    + by rewrite lookup_delete_ne by done.
Qed.

Section Refinement.
Context {F M E : Type} `{MapEngineLaws F M E} (SCRATCH : nat).

Lemma represents_store a key v (m m' : M) :
  key_wf key → represents (Some a) (Build_SequentialStore m) →
  me_view m' = <[key_to_raw key := encode_value v]> (me_view m) →
  represents (Some match v with Live x => <[key := x]> a | Tombstone => delete key a end)
    (Build_SequentialStore m').
Proof.
  unfold represents. cbn [store_map]. intros Hk Ha ->. by apply represented_insert.
Qed.

Lemma store_item_cases a key v (s : SequentialStore M) :
  key_wf key → represents (Some a) s →
  let a' := match v with Live x => <[key := x]> a | Tombstone => delete key a end in
  let '(r, m') := me_store_item serialize_into SCRATCH (key_to_raw key) v (store_map s) in
  match r with
  | Ok _ => represents (Some a') (Build_SequentialStore m')
  | Err _ => represents (Some a) (Build_SequentialStore m') ∨
             represents (Some a') (Build_SequentialStore m')
  | Panic => False
  end.
Proof.
  intros Hk Ha a'. destruct s as [m]. simpl store_map.
  pose proof (me_store_spec serialize_into SCRATCH (key_to_raw key) v m) as Hs.
  destruct (me_store_item _ _ _ _ _) as [[[]|e|] m'].
  - destruct Hs as (bytes & ->%encoded_value & Hv). by eapply represents_store.
  - destruct Hs as [Hv|(bytes & ->%encoded_value & Hv)]; [left|right].
    + simpl in *. by rewrite Hv.
    + by eapply represents_store.
  - done.
Qed.

Lemma storage_error_from_required (e : SeqError E) n : storage_error_from e ≠ BufferTooSmall n.
Proof. by destruct e as [| | | | | |[]| |]. Qed.

Lemma store_get_refines a key output (s : SequentialStore M) :
  key_wf key → represents (Some a) s →
  let '(r, output', s') := store_get SCRATCH key output s in
  kv_spec_step (MAX_VALUE_SIZE SCRATCH) (Some a) (KvGet key output) (OutGet r output') (Some a) ∧
  represents (Some a) s'.
Proof.
  intros Hk Ha. unfold store_get. destruct s as [m]. simpl in Ha |- *.
  pose proof (me_fetch_spec deserialize_from SCRATCH (key_to_raw key) m) as Hf.
  destruct (me_fetch_item _ _ _ _) as [r m']. destruct Hf as [Hv Hr].
  assert (represents (Some a) (Build_SequentialStore m')) as Ha'.
  { simpl. by rewrite Hv. }
  pose proof (Ha key Hk) as Hlive.
  destruct r as [[[value|]|]|e|]; simpl; [| | | |done].
  - destruct Hr as (bytes & n & Hb & [-> _]%deserialize_from_Ok).
    rewrite Hb in Hlive. simpl in Hlive.
    destruct (Nat.ltb_spec (length output) (length value)).
    + split; [|done]. by constructor.
    + rewrite copy_prefix_Ok by lia. split; [|done]. by constructor.
  - destruct Hr as (bytes & n & Hb & [-> _]%deserialize_from_Ok).
    rewrite Hb in Hlive. split; [|done]. by constructor.
  - rewrite Hr in Hlive. split; [|done]. by constructor.
  - split; [|done]. constructor. apply storage_error_from_required.
Qed.

Lemma store_call_returns op (s : SequentialStore M) :
  returns (@kv_call _ _ (sequential_kv SCRATCH) op s).1.
Proof.
  destruct s as [m]. destruct op as [key output|key value|key|]; simpl.
  - unfold store_get. simpl.
    pose proof (me_fetch_spec deserialize_from SCRATCH (key_to_raw key) m) as Hr.
    destruct (me_fetch_item _ _ _ _) as [[[[value|]|]|e|] m']; simpl; [| | | |by destruct Hr]; try done.
    destruct (Nat.ltb_spec (length output) (length value)); [done|].
    by rewrite copy_prefix_Ok by lia.
  - unfold store_put. destruct (MAX_VALUE_SIZE SCRATCH <? length value)%nat; [done|].
    pose proof (me_store_spec serialize_into SCRATCH (key_to_raw key) (Live value) m) as Hr.
    simpl. by destruct (me_store_item _ _ _ _ _) as [[] ?].
  - unfold store_delete.
    pose proof (me_store_spec serialize_into SCRATCH (key_to_raw key) Tombstone m) as Hr.
    simpl. by destruct (me_store_item _ _ _ _ _) as [[] ?].
  - unfold store_clear. pose proof (me_erase_spec m) as Hr. simpl.
    by destruct (me_erase_all _) as [[] ?].
Qed.

Lemma store_call_refines a op (s : SequentialStore M) :
  kv_op_wf op → represents a s →
  let '(o, s') := @kv_call _ _ (sequential_kv SCRATCH) op s in
  ∃ a', kv_spec_step (MAX_VALUE_SIZE SCRATCH) a op o a' ∧ represents a' s'.
Proof.
  intros Hop Ha. destruct (decide (a = None ∧ op ≠ KvClear)) as [[-> Hne]|Hdef].
  { pose proof (store_call_returns op s) as Hret. destruct (kv_call op s) as [o s'].
    exists None. by split; [constructor|]. }
  destruct op as [key output|key value|key|]; simpl in *;
    try (destruct a as [a|]; [|by destruct Hdef]).
  - pose proof (store_get_refines a key output s Hop Ha) as Hg.
    destruct (store_get _ _ _ _) as [[r o'] s']. by exists (Some a).
  - unfold store_put. destruct (Nat.ltb_spec (MAX_VALUE_SIZE SCRATCH) (length value)).
    { exists (Some a). split; [by constructor|done]. }
    pose proof (store_item_cases a key (Live value) s Hop Ha) as Hs.
    destruct (me_store_item _ _ _ _ _) as [[[]|e|] m']; simpl in Hs |- *; [| |done].
    + eexists. split; [by constructor|done].
    + destruct Hs as [Hs|Hs]; eexists (Some _); (split; [|exact Hs]); constructor; auto.
  - unfold store_delete. pose proof (store_item_cases a key Tombstone s Hop Ha) as Hs.
    destruct (me_store_item _ _ _ _ _) as [[[]|e|] m']; simpl in Hs |- *; [| |done].
    + eexists. split; [by constructor|done].
    + destruct Hs as [Hs|Hs]; eexists (Some _); (split; [|exact Hs]); constructor; auto.
  - unfold store_clear. pose proof (me_erase_spec (store_map s)) as Hs.
    destruct (me_erase_all _) as [[[]|e|] m']; simpl; [| |done].
    + exists (Some ∅). split; [constructor|]. simpl. intros k _.
      by rewrite Hs, !lookup_empty.
    + exists None. split; [constructor|done].
Qed.

Lemma store_run_refines a ops (s : SequentialStore M) :
  Forall kv_op_wf ops → represents a s →
  let '(os, s') := @kv_run _ _ (sequential_kv SCRATCH) ops s in
  ∃ a', kv_spec_run (MAX_VALUE_SIZE SCRATCH) a ops os a' ∧ represents a' s'.
Proof.
  intros Hops. revert a s. induction Hops as [|op ops Hop _ IH]; intros a s Ha; simpl.
  { exists a. split; [constructor|done]. }
  pose proof (store_call_refines a op s Hop Ha) as Hc.
  destruct (kv_call op s) as [o s1]. destruct Hc as (a1 & Hstep & Ha1).
  specialize (IH a1 s1 Ha1). destruct (kv_run ops s1) as [os s2].
  destruct IH as (a2 & Hrun & Ha2). exists a2. split; [by econstructor|done].
Qed.
End Refinement.

(** * Properties *)

(** The store implements the contract. Over every engine that obeys its
    documentation, any sequence of well-keyed calls on a [SequentialStore]
    that represents some contents answers as the abstract key-value machine
    of the [KeyValueStore] documentation allows, and ends representing the
    machine's state: reads return whole values, an absent key, the exact size
    required, or an error with the buffer untouched; a failed [put] or
    [delete] leaves the old or the new value, never anything else; no call
    panics. *)
Theorem store_refines_contract {F M E} `{MapEngineLaws F M E} (SCRATCH : nat) (a : kv_state)
    (ops : list kv_op) (s : SequentialStore M) :
  Forall kv_op_wf ops → represents a s →
  let '(os, s') := @kv_run _ _ (sequential_kv SCRATCH) ops s in
  ∃ a', kv_spec_run (MAX_VALUE_SIZE SCRATCH) a ops os a' ∧ represents a' s'.
Proof. apply store_run_refines. Qed.

Lemma store_refines_contract_witness :
  let k := key_new 1 2 in
  let ops := [KvPut k [7; 8]; KvGet k [0; 0; 0]; KvPut k [9]; KvGet k []; KvDelete k;
              KvGet k []] in
  let s := Build_SequentialStore
    {| ram_storage := {| ram_capacity := 1024; ram_records := ∅;
                         ram_faults := [FaultNone; FaultTorn] |};
       ram_range := (0, 1024) |} in
  let '(os, s') := @kv_run _ _ (sequential_kv (F := ram_flash) 64) ops s in
  os = [OutDone (Ok tt); OutGet (Ok (Found 2)) [7; 8; 0]; OutDone (Err (Backend tt));
        OutGet (Err (BufferTooSmall 1)) []; OutDone (Ok tt); OutGet (Ok NotFound) []] ∧
  ∃ a', kv_spec_run (MAX_VALUE_SIZE 64) (Some ∅) ops os a' ∧ represents (F := ram_flash) a' s'.
Proof.
  intros k ops s.
  pose proof (store_refines_contract (F := ram_flash) 64 (Some ∅) ops s) as H.
  split; [reflexivity|]. apply H.
  - repeat constructor; vm_compute; done.
  - simpl. intros key _. by rewrite !lookup_empty.
Defined.

(** C21: the record encoding. A value is encoded exactly when tag and bytes fit
    the buffer, in its first bytes, leaving the rest; decoding them gives the
    value and its length back; decoding accepts no other bytes. A store that
    [new] returns has room for the encoding of every value [put] accepts. *)
Theorem record_codec {F M E} `{MapEngine F M E} (SCRATCH : nat) (v : StoredValue)
    (buffer : list Z) :
  (∀ n buffer', serialize_into v buffer = Ok (n, buffer') →
     length buffer' = length buffer ∧ drop n buffer' = drop n buffer ∧
     deserialize_from (take n buffer') = Ok (v, n)) ∧
  (serialize_into v buffer ≠ Panic) ∧
  (∀ bytes n w m buffer', deserialize_from bytes = Ok (w, n) →
     serialize_into w buffer = Ok (m, buffer') → take m buffer' = bytes ∧ m = n) ∧
  (∀ flash first last (s : SequentialStore M) value,
     sequential_store_new SCRATCH flash first last = Ok s →
     (length value ≤ MAX_VALUE_SIZE SCRATCH)%nat → length buffer = (SCRATCH - 4)%nat →
     is_ok (serialize_into (Live value) buffer) ∧ is_ok (serialize_into Tombstone buffer)).
Proof.
  setoid_rewrite serialize_into_spec. split_and!.
  - intros n buffer' Hs. case_decide; [|done]. injection Hs as <- <-.
    rewrite length_app, length_drop, take_app_length, drop_app_length.
    split_and!; [lia|done|apply deserialize_encode].
  - by case_decide.
  - intros bytes n w m buffer' [-> ->]%deserialize_from_Ok Hs.
    case_decide; [|done]. injection Hs as <- <-. by rewrite take_app_length.
  - intros flash first last s value Hs Hv Hb. unfold sequential_store_new in Hs.
    destruct (Nat.ltb_spec SCRATCH ENCODING_OVERHEAD); [done|].
    unfold MAX_VALUE_SIZE, ENCODING_OVERHEAD in *.
    rewrite !decide_True by (simpl; lia). split; by eexists.
Qed.

(** Persistent keys. [to_raw] and [from_raw] are inverse bijections between
    pairs of 16-bit identifiers and 32-bit words, so distinct keys never share
    a stored representation. *)
Theorem key_raw_bijection (k k' : Key) (raw : Z) :
  key_wf k → key_wf k' → is_u 32 raw →
  is_u 32 (key_to_raw k) ∧ key_from_raw (key_to_raw k) = k ∧
  key_wf (key_from_raw raw) ∧ key_to_raw (key_from_raw raw) = raw ∧
  (key_to_raw k = key_to_raw k' ↔ k = k').
Proof.
  intros Hk Hk' Hr. split_and!.
  - rewrite key_to_raw_sum by done. destruct Hk. unfold is_u in *. lia.
  - by apply key_from_to_raw.
  - split; by apply wrap_u_range.
  - by apply key_to_from_raw.
  - split; [by apply key_to_raw_inj|by intros ->].
Qed.

Lemma key_raw_bijection_witness :
  key_from_raw (key_to_raw (key_new 0x1234 0xABCD)) = key_new 0x1234 0xABCD ∧
  key_to_raw (key_new 0x1234 0xABCD) = 0x1234ABCD.
Proof.
  split; [|reflexivity].
  apply (key_raw_bijection (key_new 0x1234 0xABCD) (key_new 0 0) 5);
    repeat split; vm_compute; done.
Defined.
