(* ===== verification/Port.v ===== *)
(** [ports/espressif/esp32c6]: the ESP32-C6 Wi-Fi adapter and station
    controller ([wifi.rs]) and the Bluetooth controller adapter
    ([bluetooth.rs]).

    The Espressif radio drivers are third-party code: class [WifiDriver] lists
    the calls the adapter makes, each threading the driver's state. *)
From stdpp Require Import prelude list numbers option strings.
From S2P Require Import Prelude Text Bluetooth Wifi.
Local Open Scope Z_scope.

(** * The Wi-Fi driver *)

(** The variants of [esp_radio]'s [AuthenticationMethod] that the adapter
    names, and any other one. *)
Inductive AuthenticationMethod : Type :=
  | MethodNone
  | MethodWep
  | MethodWpa
  | MethodWpaWpa2Personal
  | MethodWpa2Personal
  | MethodWpa3Personal
  | MethodWpa2Wpa3Personal
  | MethodWpa2Enterprise
  | MethodOther (n : Z).

(** What the adapter reads of a scan result and of a connection report. *)
Record DriverAccessPoint : Type := {
  drv_ssid : list Z;
  drv_bssid : list Z;
  drv_channel : Z;
  drv_signal_strength : Z;
  drv_auth_method : option AuthenticationMethod
}.

Record DriverConnected : Type := {
  drv_connected_ssid : list Z;
  drv_connected_bssid : list Z;
  drv_connected_channel : Z;
  drv_authmode : AuthenticationMethod
}.

(** What the adapter sets of the driver's station configuration. *)
Record EspStationConfig : Type := {
  esp_ssid : list Z;
  esp_auth_method : AuthenticationMethod;
  esp_password : option (list Z)
}.

Class WifiDriver (D W : Type) : Type := {
  drv_scan : D → nat → res W (list DriverAccessPoint) * D;
  drv_set_config : D → EspStationConfig → res W unit * D;
  drv_connect : D → res W DriverConnected * D;
  drv_wait_for_disconnect : D → res W unit * D
}.

(** * Errors *)

Inductive Error (W : Type) : Type :=
  | NonUtf8StationSsid
  | InvalidDiscoveredSsid
  | UnsupportedAuthentication
  | Driver (e : W).
Arguments NonUtf8StationSsid {W}.
Arguments InvalidDiscoveredSsid {W}.
Arguments UnsupportedAuthentication {W}.
Arguments Driver {W} e.

Definition port_error_text {W} (debug : W → list Z) (e : Error W) : list Z :=
  match e with
  | NonUtf8StationSsid => lit "ESP station configuration requires a UTF-8 SSID"
  | InvalidDiscoveredSsid => lit "ESP driver returned an invalid discovered SSID"
  | UnsupportedAuthentication => lit "unsupported Wi-Fi authentication mode"
  | Driver error => lit "ESP Wi-Fi driver error: " ++ debug error
  end.

(** The wildcard of the source's [match] (the enum is open to later
    additions) has no case today. *)
Definition map_authentication {W} (a : Authentication) :
    res (Error W) AuthenticationMethod :=
  match a with
  | AuthOpen => Ok MethodNone
  | AuthWpa2Personal => Ok MethodWpa2Personal
  | AuthWpa3Personal => Ok MethodWpa3Personal
  | AuthWpa2Wpa3Personal => Ok MethodWpa2Wpa3Personal
  end.

Definition map_security (m : option AuthenticationMethod) : Security :=
  match m with
  | None | Some MethodNone => SecOpen
  | Some MethodWep => SecWep
  | Some (MethodWpa | MethodWpaWpa2Personal) => SecWpa
  | Some MethodWpa2Personal => SecWpa2Personal
  | Some (MethodWpa3Personal | MethodWpa2Wpa3Personal) => SecWpa3Personal
  | Some MethodWpa2Enterprise => SecEnterprise
  | Some (MethodOther _) => SecUnknown
  end.

(** * The adapter *)

Section Adapter.
Context {D W : Type} `{WifiDriver D W}.

(** The radio with its lifecycle state; the packet interfaces are handed on
    unchanged by [into_station_parts] and are not part of the state. *)
Record Esp32c6Wifi : Type := { wifi_controller : D; wifi_state : WifiState }.

(** [new], from what [esp_radio::wifi::new] returned. *)
Definition esp32c6_wifi_new (driver : res W D) : res (Error W) Esp32c6Wifi :=
  controller ← map_err Driver driver;
  Ok {| wifi_controller := controller; wifi_state := WifiReady |}.

(** The [for] loop of [scan]. *)
Fixpoint convert_discovered (discovered : list DriverAccessPoint) :
    res (Error W) (list AccessPoint) :=
  match discovered with
  | [] => Ok []
  | ap :: discovered =>
    ssid ← map_err (λ _, InvalidDiscoveredSsid) (ssid_try_from (drv_ssid ap));
    rest ← convert_discovered discovered;
    Ok ({| ap_ssid := ssid; ap_bssid := drv_bssid ap; ap_channel := drv_channel ap;
           ap_signal_strength_dbm := drv_signal_strength ap;
           ap_security := map_security (drv_auth_method ap) |} :: rest)
  end.

Definition wifi_scan (maximum_results : nat) (w : Esp32c6Wifi) :
    res (Error W) (list AccessPoint) * Esp32c6Wifi :=
  let '(result, controller) := drv_scan (wifi_controller w) maximum_results in
  match result with
  | Ok discovered =>
    match convert_discovered discovered with
    | Ok access_points =>
      (Ok access_points, {| wifi_controller := controller; wifi_state := WifiReady |})
    | r => (r, {| wifi_controller := controller; wifi_state := WifiScanning |})
    end
  | Err error =>
    (Err (Driver error), {| wifi_controller := controller; wifi_state := WifiFailed |})
  | Panic => (Panic, {| wifi_controller := controller; wifi_state := WifiScanning |})
  end.

(** The driver configuration for a portable one. *)
Definition esp_config (station : StationConfig) : res (Error W) EspStationConfig :=
  ssid ← ssid_as_str (station_ssid station);
  ssid ← ok_or NonUtf8StationSsid ssid;
  auth ← map_authentication (station_authentication station);
  password ← match station_passphrase station with
             | Some passphrase => Some <$> passphrase_as_str passphrase
             | None => Ok None
             end;
  Ok {| esp_ssid := ssid; esp_auth_method := auth; esp_password := password |}.

Definition configure_station (station : StationConfig) (w : Esp32c6Wifi) :
    res (Error W) unit * Esp32c6Wifi :=
  match esp_config station with
  | Ok config =>
    match drv_set_config (wifi_controller w) config with
    | (Ok _, controller) =>
      (Ok tt, {| wifi_controller := controller; wifi_state := WifiReady |})
    | (r, controller) =>
      (map_err Driver r, {| wifi_controller := controller; wifi_state := wifi_state w |})
    end
  | Err e => (Err e, w)
  | Panic => (Panic, w)
  end.

Record Esp32c6StationController : Type := { sta_controller : D; sta_state : WifiState }.

Definition into_station_parts (w : Esp32c6Wifi) : Esp32c6StationController :=
  {| sta_controller := wifi_controller w; sta_state := wifi_state w |}.

Definition station_connect (c : Esp32c6StationController) :
    res (Error W) ConnectedStation * Esp32c6StationController :=
  match drv_connect (sta_controller c) with
  | (Ok connected, controller) =>
    (ssid ← map_err (λ _, InvalidDiscoveredSsid)
              (ssid_try_from (drv_connected_ssid connected));
     Ok {| cs_ssid := ssid; cs_bssid := drv_connected_bssid connected;
           cs_channel := drv_connected_channel connected;
           cs_security := map_security (Some (drv_authmode connected)) |},
     {| sta_controller := controller; sta_state := WifiConnected |})
  | (Err error, controller) =>
    (Err (Driver error), {| sta_controller := controller; sta_state := WifiFailed |})
  | (Panic, controller) =>
    (Panic, {| sta_controller := controller; sta_state := WifiConnecting |})
  end.

Definition wait_for_disconnect (c : Esp32c6StationController) :
    res (Error W) unit * Esp32c6StationController :=
  let '(r, controller) := drv_wait_for_disconnect (sta_controller c) in
  (map_err Driver r,
   {| sta_controller := controller;
      sta_state := match r with Panic => sta_state c | _ => WifiDisconnected end |}).
End Adapter.

Arguments Esp32c6Wifi D : clear implicits.
Arguments Esp32c6StationController D : clear implicits.
Arguments Build_Esp32c6Wifi {D} _ _.
Arguments Build_Esp32c6StationController {D} _ _.
Arguments wifi_controller {D} _.
Arguments wifi_state {D} _.
Arguments sta_controller {D} _.
Arguments sta_state {D} _.

(** * Bluetooth *)

(** [bluetooth.rs]: the connector of a controller the driver accepted. *)
Inductive BluetoothError (B : Type) : Type := Controller (e : B).
Arguments Controller {B} e.

Record Esp32c6Bluetooth (C : Type) : Type := {
  bt_connector : C;
  bt_state : BluetoothState
}.
Arguments Build_Esp32c6Bluetooth {C} _ _.
Arguments bt_connector {C} _.
Arguments bt_state {C} _.

Definition bluetooth_new_with_config {Cfg C B} (connector_new : Cfg → res B C)
    (config : Cfg) : res (BluetoothError B) (Esp32c6Bluetooth C) :=
  connector ← map_err Controller (connector_new config);
  Ok {| bt_connector := connector; bt_state := BtReady |}.

(** [efuse::interface_mac_address] is the chip's; the identity is derived
    from its six bytes. *)
Definition static_random_address (mac : list Z) : StaticRandomAddress :=
  address_from_seed mac.

(** * Sequences of calls *)

(** A driver for evaluation: its state counts calls, a scan sees one access
    point, every other connect fails. *)
#[export] Instance toggling : WifiDriver nat unit := {|
  drv_scan d n :=
    (Ok (take n [{| drv_ssid := lit "lab"; drv_bssid := [1; 2; 3; 4; 5; 6];
                    drv_channel := 6; drv_signal_strength := -40;
                    drv_auth_method := Some MethodWpa2Personal |}]), S d);
  drv_set_config d _ := (Ok tt, S d);
  drv_connect d :=
    (if Nat.even d then
       Ok {| drv_connected_ssid := lit "lab"; drv_connected_bssid := [1; 2; 3; 4; 5; 6];
             drv_connected_channel := 6; drv_authmode := MethodWpa2Personal |}
     else Err tt, S d);
  drv_wait_for_disconnect d := (Ok tt, S d)
|}.

Inductive station_call : Type := StaConnect | StaWait.

Definition station_step {D W} `{WifiDriver D W} (call : station_call)
    (c : Esp32c6StationController D) :
    option (res (Error W) unit) * Esp32c6StationController D :=
  match call with
  | StaConnect => let '(r, c) := station_connect c in (Some ((λ _, tt) <$> r), c)
  | StaWait => let '(_, c) := wait_for_disconnect c in (None, c)
  end.

(** The results of the calls (for a connect, whether it succeeded). *)
Fixpoint station_run {D W} `{WifiDriver D W} (calls : list station_call)
    (c : Esp32c6StationController D) :
    list (option (res (Error W) unit)) * Esp32c6StationController D :=
  match calls with
  | [] => ([], c)
  | call :: calls =>
    let '(r, c) := station_step call c in
    let '(rs, c) := station_run calls c in (r :: rs, c)
  end.

(** The driver's SSIDs fit 32 bytes (its own bound) and it does not panic. *)
Class WifiDriverLaws (D W : Type) `{WifiDriver D W} : Prop := {
  drv_scan_ok : ∀ d n,
    match (drv_scan d n).1 with
    | Ok aps => (length aps ≤ n)%nat ∧ Forall (λ ap, (length (drv_ssid ap) ≤ 32)%nat) aps
    | Err _ => True
    | Panic => False
    end;
  drv_connect_ok : ∀ d,
    match (drv_connect d).1 with
    | Ok c => (length (drv_connected_ssid c) ≤ 32)%nat
    | Err _ => True
    | Panic => False
    end;
  drv_wait_ok : ∀ d, (drv_wait_for_disconnect d).1 ≠ Panic
}.

(** An access point as the driver reported it. *)
Definition reports (ap : AccessPoint) (d : DriverAccessPoint) : Prop :=
  ssid_holds (ap_ssid ap) (drv_ssid d) ∧ ap_bssid ap = drv_bssid d ∧
  ap_channel ap = drv_channel d ∧ ap_signal_strength_dbm ap = drv_signal_strength d ∧
  ap_security ap = map_security (drv_auth_method d).

(** The lifecycle state the results of a run call for. *)
Definition state_after {W} (start : WifiState) (rs : list (option (res (Error W) unit))) :
    WifiState :=
  foldl (λ _ r, match r with
                | Some (Ok _) => WifiConnected
                | Some _ => WifiFailed
                | None => WifiDisconnected
                end) start rs.

(** * Lemmas *)

#[export] Instance toggling_laws : WifiDriverLaws nat unit.
Proof.
  split.
  - intros d n. simpl. split; [by rewrite length_take; apply Nat.le_min_l|].
    apply Forall_take. repeat constructor; simpl; lia.
  - intros d. simpl. destruct (Nat.even d); simpl; [lia|done].
  - done.
Qed.

Section PortLemmas.
Context {D W : Type} `{WifiDriver D W}.

Lemma convert_discovered_Ok ds :
  Forall (λ d, (length (drv_ssid d) ≤ 32)%nat) ds →
  ∃ aps, convert_discovered (W := W) ds = Ok aps ∧ Forall2 reports aps ds.
Proof.
  induction 1 as [|d ds Hd _ (aps & IH & Hall)]; [by exists []|]. simpl.
  destruct (ssid_new_spec (drv_ssid d)) as [Hok _].
  destruct (Hok Hd) as (s & Hs & Hh). unfold ssid_try_from. rewrite Hs. simpl.
  rewrite IH. simpl. eexists. split; [done|]. by constructor.
Qed.

Lemma convert_discovered_reports ds aps :
  convert_discovered (W := W) ds = Ok aps → Forall2 reports aps ds.
Proof.
  revert aps. induction ds as [|d ds IH]; simpl; intros aps Hc; [by simplify_eq|].
  apply bind_Ok_iff in Hc as (s & Hs%map_err_Ok_iff & Hc).
  apply bind_Ok_iff in Hc as (rest & Hr & [= <-]).
  constructor; [|by apply IH]. split_and!; try done. by apply ssid_holds_new.
Qed.

Lemma convert_discovered_Err ds e :
  convert_discovered (W := W) ds = Err e → e = InvalidDiscoveredSsid.
Proof.
  revert e. induction ds as [|d ds IH]; simpl; intros e Hc; [done|].
  apply bind_Err_iff in Hc as [Hs|(s & _ & Hc)].
  - by apply map_err_Err_iff in Hs as (? & _ & <-).
  - apply bind_Err_iff in Hc as [Hr|(rest & _ & Hc)]; [by apply IH|done].
Qed.

Lemma station_connect_cases `{!WifiDriverLaws D W} (c : Esp32c6StationController D) :
  let '(r, c') := station_connect c in
  match r with
  | Ok _ => sta_state c' = WifiConnected
  | Err _ => sta_state c' = WifiFailed
  | Panic => False
  end.
Proof.
  unfold station_connect. pose proof (drv_connect_ok (sta_controller c)) as Hc.
  destruct (drv_connect _) as [[conn|e|] d]; simpl in *; [|done..].
  destruct (ssid_new_spec (drv_connected_ssid conn)) as [Hok _].
  destruct (Hok Hc) as (s & Hs & _). unfold ssid_try_from. by rewrite Hs.
Qed.

Lemma wait_for_disconnect_state `{!WifiDriverLaws D W} (c : Esp32c6StationController D) :
  sta_state (wait_for_disconnect c).2 = WifiDisconnected.
Proof.
  unfold wait_for_disconnect. pose proof (drv_wait_ok (sta_controller c)) as Hc.
  by destruct (drv_wait_for_disconnect _) as [[]].
Qed.

Lemma wait_for_disconnect_not_Panic `{!WifiDriverLaws D W} (c : Esp32c6StationController D) :
  (wait_for_disconnect c).1 ≠ Panic.
Proof.
  unfold wait_for_disconnect. pose proof (drv_wait_ok (sta_controller c)) as Hc.
  by destruct (drv_wait_for_disconnect _) as [[]].
Qed.

Lemma station_step_state `{!WifiDriverLaws D W} call (c : Esp32c6StationController D) :
  sta_state (station_step call c).2 = state_after (sta_state c) [(station_step call c).1].
Proof.
  destruct call; simpl.
  - pose proof (station_connect_cases c) as Hc. by destruct (station_connect c) as [[]].
  - pose proof (wait_for_disconnect_state c) as Hc. by destruct (wait_for_disconnect c).
Qed.

Lemma station_run_state `{!WifiDriverLaws D W} calls (c : Esp32c6StationController D) :
  sta_state (station_run calls c).2 = state_after (sta_state c) (station_run calls c).1.
Proof.
  revert c. induction calls as [|call calls IH]; intros c; [done|]. simpl.
  pose proof (station_step_state call c) as Hs. destruct (station_step call c) as [r c1].
  specialize (IH c1). destruct (station_run calls c1) as [rs c2]. simpl in *.
  rewrite IH, Hs. done.
Qed.
End PortLemmas.

(** * Properties *)

(** C26: the station controller's state tells the truth. With a driver that
    respects its own SSID bound, after any sequence of association attempts
    and disconnect waits the lifecycle state is [Connected] exactly when the
    last call was an attempt that succeeded, [Failed] when it was an attempt
    that failed, [Disconnected] when it was a wait; no call panics. *)
Theorem station_state_truthful {D W} `{WifiDriverLaws D W} (calls : list station_call)
    (c : Esp32c6StationController D) :
  let '(rs, c') := station_run calls c in
  sta_state c' = state_after (sta_state c) rs ∧
  length rs = length calls ∧ Forall (λ r, r ≠ Some Panic) rs ∧
  (∀ rs0 r, rs = rs0 ++ [r] →
     (sta_state c' = WifiConnected ↔ r = Some (Ok tt)) ∧
     (sta_state c' = WifiFailed ↔ ∃ e, r = Some (Err e)) ∧
     (sta_state c' = WifiDisconnected ↔ r = None)).
Proof.
  pose proof (station_run_state calls c) as Hs.
  assert (length (station_run calls c).1 = length calls ∧
          Forall (λ r, r ≠ Some Panic) (station_run calls c).1) as [Hl Hp].
  { clear Hs. revert c. induction calls as [|call calls IH]; intros c; [done|]. simpl.
    assert ((station_step call c).1 ≠ Some Panic) as Hstep.
    { destruct call; simpl; [|by destruct (wait_for_disconnect c)].
      pose proof (station_connect_cases c) as Hc. by destruct (station_connect c) as [[]]. }
    destruct (station_step call c) as [r c1]. specialize (IH c1).
    destruct (station_run calls c1). simpl in *. destruct IH. split; [lia|by constructor]. }
  destruct (station_run calls c) as [rs c']. simpl in *. split_and!; [done..|].
  intros rs0 r ->. apply Forall_app in Hp as [_ Hr]. inversion Hr as [|? ? Hr' _]; subst.
  unfold state_after in Hs. rewrite foldl_app in Hs. simpl in Hs. rewrite Hs.
  destruct r as [[[]|e|]|]; naive_solver.
Qed.

Lemma station_state_truthful_witness :
  let c := {| sta_controller := 0%nat; sta_state := WifiReady |} in
  let '(rs, c') := station_run [StaConnect; StaWait; StaWait; StaConnect] c in
  sta_state c' = state_after WifiReady rs ∧ length rs = 4%nat ∧ sta_state c' = WifiFailed.
Proof.
  intros c.
  pose proof (station_state_truthful [StaConnect; StaWait; StaWait; StaConnect] c) as H.
  destruct H as (H1 & H2 & _). split; [exact H1|]. split; [exact H2|reflexivity].
Defined.

(** A configured station is what the product asked for. A configuration
    built from SSID bytes and a passphrase text by the portable constructors
    reaches the driver with the same SSID, the matching authentication method
    and the same secret (none when open), and the adapter becomes ready; an
    SSID that is not UTF-8 is refused before the driver is called, which
    leaves driver and state as they were. *)
Theorem configure_station_exact {D W} `{WifiDriver D W} (ssid_text pass_text : list Z)
    (auth : Authentication) (ssid : Ssid) (pass : Passphrase) (config : StationConfig)
    (w : Esp32c6Wifi D) :
  ssid_new ssid_text = Ok ssid → passphrase_new pass_text = Ok pass → is_str pass_text →
  (station_open ssid = Ok config ∧ auth = AuthOpen ∨
   station_personal ssid pass auth = Ok config) →
  (¬ is_str ssid_text → configure_station config w = (Err NonUtf8StationSsid, w)) ∧
  (is_str ssid_text → ∃ method, map_authentication (W := W) auth = Ok method ∧
     configure_station config w =
     let '(r, controller) := drv_set_config (wifi_controller w)
       {| esp_ssid := ssid_text; esp_auth_method := method;
          esp_password := if decide (auth = AuthOpen) then None else Some pass_text |} in
     (map_err Driver r,
      {| wifi_controller := controller;
         wifi_state := match r with Ok _ => WifiReady | _ => wifi_state w end |})).
Proof.
  intros Hssid Hpass Hstr Hcfg.
  apply ssid_holds_new in Hssid. pose proof (ssid_holds_bytes (E := Error W) _ _ Hssid) as Hb.
  assert (passphrase_as_str (E := Error W) pass = Ok pass_text) as Hp.
  { destruct (passphrase_valid pass_text) eqn:Hv;
      [|unfold passphrase_new in Hpass; by rewrite Hv in Hpass].
    destruct (passphrase_new_Ok _ Hv) as (p & Hp & Hh).
    assert (p = pass) as -> by congruence.
    unfold passphrase_as_str. rewrite (inline_view_holds _ _ _ _ _ Hh). simpl.
    by rewrite from_utf8_or_empty_str. }
  assert (station_ssid config = ssid ∧ station_authentication config = auth ∧
          station_passphrase config = if decide (auth = AuthOpen) then None else Some pass)
    as (Hs & Ha & Hpp).
  { unfold station_open, station_personal, validate_ssid in Hcfg.
    destruct (ssid_is_empty ssid); simpl in Hcfg; [naive_solver|].
    destruct Hcfg as [[Hc ->]|Hc]; [by simplify_eq|]. case_decide; by simplify_eq. }
  unfold configure_station, esp_config, ssid_as_str, from_utf8_ok. rewrite Hs, Hb, Ha, Hpp.
  cbn [mbind res_bind]. split; intros Hu; [by rewrite (decide_False (P := is_str ssid_text))|].
  rewrite (decide_True (P := is_str ssid_text)) by done. simpl.
  destruct auth; simpl; rewrite ?Hp; simpl; eexists; (split; [done|]);
    destruct (drv_set_config _ _) as [[[]| |] ?]; done.
Qed.

Lemma configure_station_exact_witness :
  let pad l n := l ++ replicate (n - length l) 0 in
  let ssid := {| ssid_bytes := pad (lit "lab") 32%nat; ssid_len := 3 |} in
  let pass := {| pass_bytes := pad (lit "secret-1") 64%nat; pass_len := 8 |} in
  let config := {| station_ssid := ssid; station_authentication := AuthWpa2Personal;
                   station_passphrase := Some pass |} in
  let w := {| wifi_controller := 4%nat; wifi_state := WifiScanning |} in
  configure_station (W := unit) config w =
    (Ok tt, {| wifi_controller := 5%nat; wifi_state := WifiReady |}).
Proof.
  intros pad ssid pass config w.
  destruct (configure_station_exact (W := unit) (lit "lab") (lit "secret-1")
    AuthWpa2Personal ssid pass config w) as (_ & H).
  - reflexivity.
  - reflexivity.
  - vm_compute. by eexists.
  - right. reflexivity.
  - destruct H as (method & _ & H); [vm_compute; by eexists|]. rewrite H. reflexivity.
Defined.

(** Scans report what the driver found. A successful scan lists exactly the
    driver's access points in order, with their fields and the mapped
    security, at most as many as asked for, and leaves the adapter ready; a
    driver error leaves it failed; with SSIDs within the driver's bound there
    is no other outcome. Without that bound, an oversized SSID ends the scan
    with [InvalidDiscoveredSsid] and the state still says scanning. *)
Theorem scan_exact {D W} `{WifiDriver D W} (n : nat) (w : Esp32c6Wifi D) :
  let '(r, w') := wifi_scan n w in
  match r with
  | Ok aps => wifi_state w' = WifiReady ∧
      ∃ ds, (drv_scan (wifi_controller w) n).1 = Ok ds ∧ Forall2 reports aps ds
  | Err (Driver e) => wifi_state w' = WifiFailed ∧
      (drv_scan (wifi_controller w) n).1 = Err e
  | Err e => e = InvalidDiscoveredSsid ∧ wifi_state w' = WifiScanning
  | Panic => wifi_state w' = WifiScanning
  end ∧
  (WifiDriverLaws D W →
     (∃ aps, r = Ok aps ∧ (length aps ≤ n)%nat) ∨ ∃ e, r = Err (Driver e)).
Proof.
  unfold wifi_scan. destruct (drv_scan (wifi_controller w) n) as [[ds|e|] d] eqn:Hd.
  - assert (WifiDriverLaws D W →
            ∃ aps, convert_discovered (W := W) ds = Ok aps ∧ (length aps ≤ n)%nat) as Hlaw.
    { intros Hlaws. pose proof (drv_scan_ok (wifi_controller w) n) as Hok.
      rewrite Hd in Hok. destruct Hok as [Hl Hall].
      destruct (convert_discovered_Ok (W := W) ds Hall) as (aps & -> & H2).
      exists aps. split; [done|]. apply Forall2_length in H2. lia. }
    destruct (convert_discovered ds) as [aps|e|] eqn:Hc; cbn.
    + split; [|intros Hl; left; by apply Hlaw in Hl].
      split; [done|]. exists ds. split; [done|]. by eapply convert_discovered_reports.
    + apply convert_discovered_Err in Hc as ->. split; [done|].
      intros Hl. by apply Hlaw in Hl as (? & ? & _).
    + split; [done|]. intros Hl. by apply Hlaw in Hl as (? & ? & _).
  - split; [done|]. intros _. right. by exists e.
  - split; [done|]. intros Hlaws. pose proof (drv_scan_ok (wifi_controller w) n) as Hok.
    by rewrite Hd in Hok.
Qed.
