(* ===== verification/FirmwareConfig.v ===== *)
(** [firmware/seeed/xiao-esp32c6/src/main.rs], build-time configuration: the
    station, probe and MQTT fixture settings read from environment variables
    ([option_env!]), and the topics derived from the client identifier. *)
From stdpp Require Import prelude list numbers option strings.
From Stdlib Require Import ZArith.
From S2P Require Import Prelude Text Wifi Mqtt MqttClient.
Local Open Scope Z_scope.

Definition MQTT_RX_PACKET_BUFFER_SIZE : nat := 512.
Definition MQTT_TX_REPLAY_BUFFER_SIZE : nat := 1024.

(** The variables the firmware reads; [None] is a variable not set. *)
Record BuildEnv : Type := {
  WIFI_SSID : option (list Z);
  WIFI_PASSWORD : option (list Z);
  NETWORK_TEST_HOST : option (list Z);
  NETWORK_TEST_PORT : option (list Z);
  MQTT_HOST : option (list Z);
  MQTT_PORT : option (list Z);
  MQTT_CLIENT_ID : option (list Z);
  MQTT_PLAINTEXT_FIXTURE : option (list Z);
  MQTT_USERNAME : option (list Z);
  MQTT_PASSWORD : option (list Z)
}.

Definition development_station_config (env : BuildEnv) :
    res Wifi.ConfigError (option StationConfig) :=
  match WIFI_SSID env, WIFI_PASSWORD env with
  | None, None => Ok None
  | Some ssid, None => ssid ← ssid_try_from ssid; Some <$> station_open ssid
  | Some ssid, Some password =>
    ssid ← ssid_try_from ssid;
    passphrase ← passphrase_new password;
    Some <$> station_personal ssid passphrase AuthWpa2Wpa3Personal
  | None, Some _ => Err EmptySsid
  end.

Record NetworkProbe : Type := { probe_host : list Z; probe_port : Z }.

Definition probe_port_error : list Z :=
  lit "NETWORK_TEST_PORT must be an integer from 1 through 65535".

Definition development_network_probe (env : BuildEnv) :
    res (list Z) (option NetworkProbe) :=
  match NETWORK_TEST_HOST env, NETWORK_TEST_PORT env with
  | None, None => Ok None
  | Some host, Some port =>
    if negb (bool_decide (host = [])) then
      port ← ok_or probe_port_error (parse_u 16 port);
      if port =? 0 then Err probe_port_error
      else Ok (Some {| probe_host := host; probe_port := port |})
    else Err (lit "NETWORK_TEST_HOST must not be empty")
  | _, _ => Err (lit "NETWORK_TEST_HOST and NETWORK_TEST_PORT must be set together")
  end.

(** * MQTT fixture *)

Definition topic_prefix : list Z := lit "embedded-sdk/test/".

(** The text, read back from the storage the caller owns. *)
Definition fixture_topic_text (storage : list Z) (client_id : ClientId) (suffix : list Z) :
    res (list Z) (list Z) :=
  client ← text_as_str client_id;
  let len := (length topic_prefix + length client + length suffix)%nat in
  if (length storage <? len)%nat
  then Err (lit "MQTT fixture topic exceeds its bounded capacity") else
  storage ← copy_range storage 0 (length topic_prefix) topic_prefix;
  storage ← copy_range storage (length topic_prefix)
              (length topic_prefix + length client) client;
  storage ← copy_range storage (length topic_prefix + length client) len suffix;
  text ← slice_to storage len;
  ok_or (lit "MQTT fixture topic is not UTF-8") (from_utf8_ok text).

Record MqttDevelopmentConfig : Type := {
  dev_session : Config;
  dev_telemetry_topic : TopicName;
  dev_command_filter : TopicFilter
}.

Definition mqtt_port_error : list Z :=
  lit "MQTT_PORT must be an integer from 1 through 65535".

Definition is_set (v : option (list Z)) : bool :=
  match v with Some _ => true | None => false end.

Definition development_mqtt_config (env : BuildEnv) :
    res (list Z) (option MqttDevelopmentConfig) :=
  if negb (is_set (MQTT_HOST env)) && negb (is_set (MQTT_PORT env))
     && negb (is_set (MQTT_CLIENT_ID env)) && negb (is_set (MQTT_PLAINTEXT_FIXTURE env))
     && negb (is_set (MQTT_USERNAME env)) && negb (is_set (MQTT_PASSWORD env))
  then Ok None else
  if is_set (MQTT_USERNAME env) || is_set (MQTT_PASSWORD env)
  then Err (lit "credentials are unavailable until verified TLS is implemented") else
  match MQTT_HOST env, MQTT_PORT env, MQTT_CLIENT_ID env with
  | Some host, Some port, Some client_id =>
    if negb (bool_decide (MQTT_PLAINTEXT_FIXTURE env = Some (lit "1")))
    then Err (lit "set MQTT_PLAINTEXT_FIXTURE=1 for an isolated local test broker") else
    hostname ← map_err (λ _, lit "MQTT_HOST is invalid") (text_new BrokerHostname_spec host);
    port ← ok_or mqtt_port_error (parse_u 16 port);
    port ← map_err (λ _, mqtt_port_error) (broker_port_new port);
    client_id ← map_err (λ _, lit "MQTT_CLIENT_ID is invalid")
                  (text_new ClientId_spec client_id);
    telemetry ← fixture_topic_text (replicate MAX_TOPIC_LEN 0) client_id (lit "/telemetry");
    telemetry_topic ← map_err (λ _, lit "MQTT telemetry topic is invalid")
                        (text_new TopicName_spec telemetry);
    command ← fixture_topic_text (replicate MAX_TOPIC_LEN 0) client_id (lit "/commands");
    command_filter ← map_err (λ _, lit "MQTT command topic is invalid")
                       (text_new TopicFilter_spec command);
    session ← map_err (λ _, lit "MQTT session limits are invalid")
                (mqtt_config_new hostname port client_id 30 300
                   (Z.of_nat MQTT_RX_PACKET_BUFFER_SIZE));
    Ok (Some {| dev_session := session; dev_telemetry_topic := telemetry_topic;
                dev_command_filter := command_filter |})
  | _, _, _ => Err (lit "MQTT_HOST, MQTT_PORT, and MQTT_CLIENT_ID must be set together")
  end.

(** The client [mqtt_task] builds from a configuration. *)
Definition mqtt_task_client `{M : Minimq} (config : MqttDevelopmentConfig) :
    res (AdapterConfigError mq_ConfigError) Client :=
  client_new (dev_session config) (replicate MQTT_RX_PACKET_BUFFER_SIZE 0)
    (replicate MQTT_TX_REPLAY_BUFFER_SIZE 0) PlaintextFixture None.

(** A topic of the fixture, and a client identifier usable in one. *)
Definition fixture_topic (client suffix : list Z) : list Z :=
  topic_prefix ++ client ++ suffix.

Definition fixture_client_ok (client : list Z) : Prop :=
  (1 ≤ length client ≤ 64)%nat ∧ (0 ∉ client) ∧ (0x2B ∉ client) ∧ (0x23 ∉ client).

(** No variable of the fixture is set. *)
Definition mqtt_unset (env : BuildEnv) : Prop :=
  MQTT_HOST env = None ∧ MQTT_PORT env = None ∧ MQTT_CLIENT_ID env = None ∧
  MQTT_PLAINTEXT_FIXTURE env = None ∧ MQTT_USERNAME env = None ∧ MQTT_PASSWORD env = None.

(** The variables that enable it, all set and valid, and no credential. *)
Definition mqtt_complete (env : BuildEnv) (host port id : list Z) (p : Z) : Prop :=
  MQTT_HOST env = Some host ∧ MQTT_PORT env = Some port ∧ MQTT_CLIENT_ID env = Some id ∧
  MQTT_PLAINTEXT_FIXTURE env = Some (lit "1") ∧ MQTT_USERNAME env = None ∧
  MQTT_PASSWORD env = None ∧ is_ok (text_new BrokerHostname_spec host) ∧
  parse_u 16 port = Some p ∧ 1 ≤ p ≤ 65535 ∧ fixture_client_ok id.

(** A complete configuration. *)
Definition fixture_env : BuildEnv :=
  {| WIFI_SSID := Some (lit "lab"); WIFI_PASSWORD := Some (lit "commission-me");
     NETWORK_TEST_HOST := Some (lit "example.test"); NETWORK_TEST_PORT := Some (lit "80");
     MQTT_HOST := Some (lit "broker.lan"); MQTT_PORT := Some (lit "1883");
     MQTT_CLIENT_ID := Some (lit "xiao-1"); MQTT_PLAINTEXT_FIXTURE := Some (lit "1");
     MQTT_USERNAME := None; MQTT_PASSWORD := None |}.

(** * Lemmas *)

Lemma fixture_topic_text_eq storage client_id client suffix :
  length storage = MAX_TOPIC_LEN → is_str client → is_str suffix →
  text_holds client_id client → (length suffix ≤ 32)%nat →
  fixture_topic_text storage client_id suffix = Ok (fixture_topic client suffix).
Proof.
  intros Hst Hc Hs Hh Hl. unfold fixture_topic_text, fixture_topic.
  rewrite (text_holds_str (E := list Z) client_id client Hc Hh). cbn [mbind res_bind].
  assert (length client ≤ 64)%nat as Hcl by (destruct Hh as [? _]; exact H).
  assert (length topic_prefix = 18%nat) as Hpl by done.
  unfold MAX_TOPIC_LEN in Hst.
  destruct (Nat.ltb_spec (length storage) (length topic_prefix + length client + length suffix));
    [lia|].
  assert (copy_range (E := list Z) storage 0 (length topic_prefix) topic_prefix =
          Ok (topic_prefix ++ drop (length topic_prefix) storage)) as ->.
  { apply (copy_range_append [] topic_prefix storage). change (length []) with 0%nat. lia. }
  cbn [mbind res_bind].
  rewrite copy_range_append by lia. cbn [mbind res_bind].
  rewrite <-length_app, copy_range_append by (rewrite length_app; lia). cbn [mbind res_bind].
  rewrite <-(length_app (topic_prefix ++ client)), slice_to_Ok
    by (rewrite (length_app _ (drop _ _)); lia).
  cbn [mbind res_bind]. rewrite take_app_length, <-app_assoc, from_utf8_ok_str; [done|].
  apply is_str_app; [vm_compute; by eexists|by apply is_str_app].
Qed.

Lemma fixture_topic_chars c client suffix :
  c ∉ topic_prefix → c ∉ suffix → c ∉ fixture_topic client suffix ↔ c ∉ client.
Proof. unfold fixture_topic. rewrite !elem_of_app. tauto. Qed.

Lemma not_elem_check c (l : list Z) : bool_decide (c ∈ l) = false → c ∉ l.
Proof. apply bool_decide_eq_false_1. Qed.

Lemma fixture_topic_name client suffix :
  suffix = lit "/telemetry" ∨ suffix = lit "/commands" → (length client ≤ 64)%nat →
  is_ok (text_new TopicName_spec (fixture_topic client suffix)) ↔
  (0 ∉ client) ∧ (0x2B ∉ client) ∧ (0x23 ∉ client).
Proof.
  intros Hs Hl. rewrite text_new_Ok_iff. simpl. rewrite validate_topic_name_spec.
  assert (length suffix ≤ 10)%nat as Hsl by (destruct Hs as [->| ->]; simpl; lia).
  assert (fixture_topic client suffix ≠ []) by done.
  assert (length (fixture_topic client suffix) ≤ MAX_TOPIC_LEN)%nat.
  { unfold fixture_topic, MAX_TOPIC_LEN. rewrite !length_app.
    change (length topic_prefix) with 18%nat. lia. }
  rewrite !fixture_topic_chars; [tauto|..];
    by (destruct Hs as [->| ->] || idtac; apply not_elem_check; vm_compute).
Qed.

Lemma fixture_topic_filter client suffix :
  is_ok (text_new TopicName_spec (fixture_topic client suffix)) →
  is_ok (text_new TopicFilter_spec (fixture_topic client suffix)).
Proof.
  rewrite !text_new_Ok_iff. intros (? & ? & ?). split_and!; [done..|].
  by apply topic_name_is_filter.
Qed.

Lemma client_text_ok id :
  is_ok (text_new ClientId_spec id) ↔ (1 ≤ length id ≤ 64)%nat ∧ (0 ∉ id).
Proof.
  rewrite text_new_Ok_iff. simpl. unfold validate_client_id, MAX_CLIENT_ID_LEN.
  rewrite <-contains_false. destruct (contains 0 id), id; simpl;
    (split; [intros (? & ? & ?)|intros (? & ?)]); split_and!; try done; lia.
Qed.

Lemma development_mqtt_config_good env host port id p :
  MQTT_HOST env = Some host → MQTT_PORT env = Some port → MQTT_CLIENT_ID env = Some id →
  MQTT_PLAINTEXT_FIXTURE env = Some (lit "1") → MQTT_USERNAME env = None →
  MQTT_PASSWORD env = None → is_str id → fixture_client_ok id →
  is_ok (text_new BrokerHostname_spec host) → parse_u 16 port = Some p → p ≠ 0 →
  ∃ cfg, development_mqtt_config env = Ok (Some cfg).
Proof.
  intros Hh Hp Hc Hf Hu Hpw Hstr (Hl & H0 & Hplus & Hhash) [hostname Hhost] Hport Hp0.
  unfold development_mqtt_config. rewrite Hh, Hp, Hc, Hf, Hu, Hpw.
  rewrite bool_decide_true by done.
  cbn [is_set negb andb orb]. rewrite Hhost, Hport. cbn [mbind res_bind ok_or map_err].
  unfold broker_port_new. destruct (Z.eqb_spec p 0); [done|].
  cbn [mbind res_bind ok_or map_err].
  destruct (proj2 (client_text_ok id)) as [cid Hcid]; [done|]. rewrite Hcid.
  cbn [mbind res_bind ok_or map_err]. pose proof (text_new_holds id cid Hcid) as Hh'.
  assert (∀ suffix, suffix = lit "/telemetry" ∨ suffix = lit "/commands" →
    fixture_topic_text (replicate MAX_TOPIC_LEN 0) cid suffix = Ok (fixture_topic id suffix) ∧
    is_ok (text_new TopicName_spec (fixture_topic id suffix))) as Htopic.
  { intros suffix Hs. split; [|apply fixture_topic_name; [done|lia|done]].
    apply fixture_topic_text_eq; [by rewrite length_replicate|done| |done|];
      destruct Hs as [->| ->]; (simpl; lia) || (vm_compute; by eexists). }
  destruct (Htopic (lit "/telemetry")) as [-> [t Ht]]; [by left|].
  cbn [mbind res_bind]. rewrite Ht. cbn [mbind res_bind map_err].
  destruct (Htopic (lit "/commands")) as [-> [f Hf']%fixture_topic_filter]; [by right|].
  cbn [mbind res_bind]. rewrite Hf'. cbn [mbind res_bind map_err]. by eexists.
Qed.

Lemma development_mqtt_config_inv env cfg :
  (∀ id, MQTT_CLIENT_ID env = Some id → is_str id) →
  development_mqtt_config env = Ok (Some cfg) →
  ∃ host port id p,
    MQTT_HOST env = Some host ∧ MQTT_PORT env = Some port ∧ MQTT_CLIENT_ID env = Some id ∧
    MQTT_PLAINTEXT_FIXTURE env = Some (lit "1") ∧ MQTT_USERNAME env = None ∧
    MQTT_PASSWORD env = None ∧ fixture_client_ok id ∧
    text_new BrokerHostname_spec host = Ok (config_hostname (dev_session cfg)) ∧
    text_new ClientId_spec id = Ok (config_client_id (dev_session cfg)) ∧
    parse_u 16 port = Some p ∧ p ≠ 0 ∧ config_port (dev_session cfg) = {| port_get := p |} ∧
    maximum_packet_size (dev_session cfg) = 512 ∧
    text_new TopicName_spec (fixture_topic id (lit "/telemetry")) =
      Ok (dev_telemetry_topic cfg) ∧
    text_new TopicFilter_spec (fixture_topic id (lit "/commands")) =
      Ok (dev_command_filter cfg).
Proof.
  intros Hstr H. unfold development_mqtt_config in H.
  case_match; [done|]. case_match eqn:Hcred; [done|].
  apply orb_false_iff in Hcred as [Hu Hpw].
  destruct (MQTT_HOST env) as [host|]; [|done]. destruct (MQTT_PORT env) as [port|]; [|done].
  destruct (MQTT_CLIENT_ID env) as [id|]; [|done]. specialize (Hstr id eq_refl).
  case_match eqn:Hfix; [done|]. apply negb_false_iff, bool_decide_eq_true in Hfix.
  apply bind_Ok_iff in H as (hostname & Hhost%map_err_Ok_iff & H).
  apply bind_Ok_iff in H as (p & Hp%ok_or_Ok_iff & H).
  apply bind_Ok_iff in H as (bp & Hbp%map_err_Ok_iff & H).
  apply bind_Ok_iff in H as (cid & Hcid%map_err_Ok_iff & H).
  pose proof (text_new_holds id cid Hcid) as Hh.
  destruct (proj1 (client_text_ok id)) as [Hlen Hnul]; [by eexists|].
  assert (∀ suffix text, suffix = lit "/telemetry" ∨ suffix = lit "/commands" →
    fixture_topic_text (replicate MAX_TOPIC_LEN 0) cid suffix = Ok text →
    text = fixture_topic id suffix) as Htext.
  { intros suffix text Hs Ht. rewrite (fixture_topic_text_eq _ cid id) in Ht; [congruence|..];
      try done; destruct Hs as [->| ->]; (simpl; lia) || (vm_compute; by eexists). }
  apply bind_Ok_iff in H as (t1 & ->%Htext & H); [|by left].
  apply bind_Ok_iff in H as (topic & Htopic%map_err_Ok_iff & H).
  apply bind_Ok_iff in H as (t2 & ->%Htext & H); [|by right].
  apply bind_Ok_iff in H as (filter & Hfilter%map_err_Ok_iff & H).
  apply bind_Ok_iff in H as (session & Hsession%map_err_Ok_iff & [= <-]).
  unfold mqtt_config_new in Hsession. simpl in Hsession. injection Hsession as <-.
  unfold broker_port_new in Hbp. destruct (Z.eqb_spec p 0); [done|]. injection Hbp as <-.
  destruct (MQTT_USERNAME env), (MQTT_PASSWORD env); try done.
  destruct (proj1 (fixture_topic_name id (lit "/telemetry") (or_introl eq_refl) ltac:(lia)))
    as (_ & Hplus & Hhash); [by eexists|].
  exists host, port, id, p. split_and!; try done; lia.
Qed.

Lemma development_network_probe_not_Panic env : development_network_probe env ≠ Panic.
Proof.
  unfold development_network_probe, ok_or. destruct (NETWORK_TEST_HOST env) as [host|],
    (NETWORK_TEST_PORT env) as [port|]; try done.
  case_bool_decide; [done|]. cbn [negb]. destruct (parse_u 16 port); cbn; [|done].
  by case_match.
Qed.

Lemma development_station_config_not_Panic env : development_station_config env ≠ Panic.
Proof.
  unfold development_station_config, ssid_try_from, station_open, station_personal,
    validate_ssid.
  destruct (WIFI_SSID env) as [ssid|], (WIFI_PASSWORD env) as [pw|]; try done;
    destruct (ssid_new_spec ssid) as [Hok Herr];
    (destruct (decide (length ssid ≤ MAX_SSID_LEN)%nat) as [Hl|Hl];
      [destruct (Hok Hl) as (s & -> & _)|rewrite Herr by lia; done]); cbn [mbind res_bind].
  - unfold passphrase_new. destruct (passphrase_valid pw) eqn:Hv; [|done].
    destruct (passphrase_new_Ok pw Hv) as (p & Hp & _). unfold passphrase_new in Hp.
    rewrite Hv in Hp. rewrite Hp. cbn. by destruct (ssid_is_empty s).
  - by destruct (ssid_is_empty s).
Qed.

Lemma development_mqtt_config_not_Panic env :
  (∀ id, MQTT_CLIENT_ID env = Some id → is_str id) → development_mqtt_config env ≠ Panic.
Proof.
  intros Hstr. unfold development_mqtt_config. case_match; [done|]. case_match; [done|].
  destruct (MQTT_HOST env) as [host|]; [|done]. destruct (MQTT_PORT env) as [port|]; [|done].
  destruct (MQTT_CLIENT_ID env) as [id|]; [|done]. specialize (Hstr id eq_refl).
  case_match; [done|].
  apply bind_not_Panic; [apply map_err_not_Panic, mqtt_texts_not_Panic|intros hostname _].
  apply bind_not_Panic; [by destruct (parse_u 16 port)|intros p _].
  apply bind_not_Panic; [unfold broker_port_new; by case_match|intros bp _].
  apply bind_not_Panic; [apply map_err_not_Panic, mqtt_texts_not_Panic|].
  intros cid Hcid%map_err_Ok_iff%text_new_holds.
  assert (∀ suffix, suffix = lit "/telemetry" ∨ suffix = lit "/commands" →
    fixture_topic_text (replicate MAX_TOPIC_LEN 0) cid suffix ≠ Panic) as Htopic.
  { intros suffix Hs. rewrite (fixture_topic_text_eq _ cid id); [done|..];
      try done; destruct Hs as [->| ->]; (simpl; lia) || (vm_compute; by eexists). }
  apply bind_not_Panic; [by apply Htopic; left|intros t1 _].
  apply bind_not_Panic; [apply map_err_not_Panic, mqtt_texts_not_Panic|intros topic _].
  apply bind_not_Panic; [by apply Htopic; right|intros t2 _].
  apply bind_not_Panic; [apply map_err_not_Panic, mqtt_texts_not_Panic|intros filter _].
  by apply bind_not_Panic.
Qed.

(** The guards before any value is looked at. *)
Lemma development_mqtt_config_guards env :
  (development_mqtt_config env = Ok None ↔ mqtt_unset env) ∧
  (is_Some (MQTT_USERNAME env) ∨ is_Some (MQTT_PASSWORD env) →
     development_mqtt_config env =
       Err (lit "credentials are unavailable until verified TLS is implemented")) ∧
  (MQTT_USERNAME env = None → MQTT_PASSWORD env = None → ¬ mqtt_unset env →
   MQTT_HOST env = None ∨ MQTT_PORT env = None ∨ MQTT_CLIENT_ID env = None →
     development_mqtt_config env =
       Err (lit "MQTT_HOST, MQTT_PORT, and MQTT_CLIENT_ID must be set together")).
Proof.
  unfold mqtt_unset. split_and!.
  - split; [|intros (Hh & Hp & Hi & Hf & Hu & Hw); unfold development_mqtt_config;
      by rewrite Hh, Hp, Hi, Hf, Hu, Hw].
    intros H. unfold development_mqtt_config in H. case_match eqn:Hunset.
    + repeat setoid_rewrite andb_true_iff in Hunset. unfold is_set in Hunset.
      destruct (MQTT_HOST env), (MQTT_PORT env), (MQTT_CLIENT_ID env),
        (MQTT_PLAINTEXT_FIXTURE env), (MQTT_USERNAME env), (MQTT_PASSWORD env); naive_solver.
    + exfalso. case_match; [done|]. destruct (MQTT_HOST env), (MQTT_PORT env),
        (MQTT_CLIENT_ID env); try done. case_match; [done|].
      repeat (apply bind_Ok_iff in H as (? & _ & H)). done.
  - intros Hcred. unfold development_mqtt_config, is_set.
    destruct (MQTT_USERNAME env), (MQTT_PASSWORD env);
      rewrite ?andb_false_r; try done; by destruct Hcred as [[]|[]].
  - intros Hu Hw Hset Hmissing. unfold development_mqtt_config. rewrite Hu, Hw.
    destruct (MQTT_HOST env), (MQTT_PORT env), (MQTT_CLIENT_ID env),
      (MQTT_PLAINTEXT_FIXTURE env); try done; naive_solver.
Qed.

Lemma fixture_config_contents `{M : Minimq} env cfg :
  (∀ id, MQTT_CLIENT_ID env = Some id → is_str id) →
  development_mqtt_config env = Ok (Some cfg) →
  ∃ host port id p, mqtt_complete env host port id p ∧
    text_new BrokerHostname_spec host = Ok (config_hostname (dev_session cfg)) ∧
    port_get (config_port (dev_session cfg)) = p ∧
    text_as_str (E := unit) (config_client_id (dev_session cfg)) = Ok id ∧
    text_as_str (E := unit) (dev_telemetry_topic cfg) =
      Ok (topic_prefix ++ id ++ lit "/telemetry") ∧
    text_as_str (E := unit) (dev_command_filter cfg) =
      Ok (topic_prefix ++ id ++ lit "/commands") ∧
    match mqtt_task_client cfg with
    | Ok c => client_snapshot c = mqtt_snapshot_default
    | Err e => ∃ b, e = ConfigBackend b
    | Panic => ∃ b, mq_client_id b id = Panic
    end.
Proof.
  intros Hstr H. apply development_mqtt_config_inv in H as
    (host & port & id & p & Hh & Hpo & Hi & Hf & Hu & Hw & Hid & Hhost & Hcid & Hport & Hp0 &
     Hcport & Hmax & Ht & Hfi); [|done]. specialize (Hstr id Hi).
  apply parse_u_range in Hport as Hr. unfold is_u in Hr.
  assert (∀ suffix, is_str suffix → is_str (fixture_topic id suffix)) as Hts.
  { intros suffix Hs. apply is_str_app; [vm_compute; by eexists|by apply is_str_app]. }
  exists host, port, id, p. split_and!; [..|by rewrite Hcport| | | |].
  - split_and!; try done; [by eexists|lia|lia].
  - done.
  - apply text_holds_str; [done|by apply text_new_holds].
  - apply text_holds_str; [apply Hts; vm_compute; by eexists|by apply text_new_holds].
  - apply text_holds_str; [apply Hts; vm_compute; by eexists|by apply text_new_holds].
  - unfold mqtt_task_client, client_new. rewrite Hmax.
    cbn [bool_decide replicate MQTT_RX_PACKET_BUFFER_SIZE]. simpl.
    rewrite (text_holds_str _ id) by (done || by apply text_new_holds). simpl.
    destruct (mq_client_id _ id) eqn:Hm; simpl; eauto.
Qed.

(** * Properties *)

(** C37: the MQTT fixture is enabled exactly by a complete, safe configuration.
    For every build whose client identifier, if any, is UTF-8,
    [development_mqtt_config] produces a configuration exactly when host, port
    and client identifier are all set, the plaintext fixture is enabled with
    the value 1, no credential is set, the host is a valid hostname, the port is
    1 to 65535 and the identifier is 1 to 64 bytes without NUL or wildcards; it
    leaves the fixture off exactly when no variable is set; any credential, and
    without one any missing variable of the three, is its own error; and it
    never panics.  The configuration is then that host, port and identifier, its
    topics are the fixture prefix, the identifier and the suffix, read back
    unchanged (256 bytes always suffice), and the client built from it is refused
    only by the engine, never for its buffers or credentials. *)
Theorem mqtt_fixture_config_exact `{M : Minimq} (env : BuildEnv) :
  (∀ id, MQTT_CLIENT_ID env = Some id → is_str id) →
  ((∃ cfg, development_mqtt_config env = Ok (Some cfg)) ↔
     ∃ host port id p, mqtt_complete env host port id p) ∧
  (development_mqtt_config env = Ok None ↔ mqtt_unset env) ∧
  (is_Some (MQTT_USERNAME env) ∨ is_Some (MQTT_PASSWORD env) →
     development_mqtt_config env =
       Err (lit "credentials are unavailable until verified TLS is implemented")) ∧
  (MQTT_USERNAME env = None → MQTT_PASSWORD env = None → ¬ mqtt_unset env →
   MQTT_HOST env = None ∨ MQTT_PORT env = None ∨ MQTT_CLIENT_ID env = None →
     development_mqtt_config env =
       Err (lit "MQTT_HOST, MQTT_PORT, and MQTT_CLIENT_ID must be set together")) ∧
  development_mqtt_config env ≠ Panic ∧
  (∀ cfg, development_mqtt_config env = Ok (Some cfg) →
     ∃ host port id p, mqtt_complete env host port id p ∧
       text_new BrokerHostname_spec host = Ok (config_hostname (dev_session cfg)) ∧
       port_get (config_port (dev_session cfg)) = p ∧
       text_as_str (E := unit) (config_client_id (dev_session cfg)) = Ok id ∧
       text_as_str (E := unit) (dev_telemetry_topic cfg) =
         Ok (topic_prefix ++ id ++ lit "/telemetry") ∧
       text_as_str (E := unit) (dev_command_filter cfg) =
         Ok (topic_prefix ++ id ++ lit "/commands") ∧
       match mqtt_task_client cfg with
       | Ok c => client_snapshot c = mqtt_snapshot_default
       | Err e => ∃ b, e = ConfigBackend b
       | Panic => ∃ b, mq_client_id b id = Panic
       end).
Proof.
  intros Hstr.
  destruct (development_mqtt_config_guards env) as (Hnone & Hcred & Htogether).
  split_and!; [|done..|by apply development_mqtt_config_not_Panic
    |intros; by apply fixture_config_contents].
  split.
  - intros [cfg (host & port & id & p & H & _)%fixture_config_contents]; [|done].
    by exists host, port, id, p.
  - intros (host & port & id & p & Hh & Hp & Hc & Hf & Hu & Hpw & Hhost & Hport & Hp0 & Hid).
    eapply development_mqtt_config_good; try done; [by apply Hstr|lia].
Qed.

Lemma mqtt_fixture_config_exact_witness :
  ∃ cfg, development_mqtt_config fixture_env = Ok (Some cfg) ∧
    text_as_str (E := unit) (dev_telemetry_topic cfg) =
      Ok (topic_prefix ++ lit "xiao-1" ++ lit "/telemetry").
Proof.
  destruct (mqtt_fixture_config_exact (M := loopback) fixture_env)
    as (Hiff & _ & _ & _ & _ & Hsome).
  { intros id [= <-]. vm_compute. by eexists. }
  destruct (proj2 Hiff) as [cfg Hcfg].
  - exists (lit "broker.lan"), (lit "1883"), (lit "xiao-1"), 1883.
    split_and!; try done; [vm_compute; by eexists|].
    split_and!; [simpl; lia|simpl; lia|by apply not_elem_check; vm_compute..].
  - exists cfg. split; [exact Hcfg|].
    destruct (Hsome cfg Hcfg) as (h & po & id & p & (_ & _ & Hid & _) & _ & _ & _ & Ht & _).
    injection Hid as <-. exact Ht.
Defined.

(** Station credentials are never downgraded. Without variables the station
    is off; with an SSID alone it is an open network; with a password it is a
    WPA2/WPA3 personal network carrying exactly that password, never an open
    one; a password without SSID, an invalid SSID or an invalid password is an
    error, and no outcome but these exists. *)
Theorem station_env_exact (env : BuildEnv) :
  match development_station_config env with
  | Ok None => WIFI_SSID env = None ∧ WIFI_PASSWORD env = None
  | Ok (Some c) => ∃ ssid s, WIFI_SSID env = Some ssid ∧ ssid_new ssid = Ok s ∧
      ssid ≠ [] ∧ station_ssid c = s ∧
      match WIFI_PASSWORD env with
      | None => station_authentication c = AuthOpen ∧ station_passphrase c = None
      | Some password => station_authentication c = AuthWpa2Wpa3Personal ∧
          ∃ p, passphrase_new password = Ok p ∧ station_passphrase c = Some p
      end
  | Err EmptySsid => WIFI_SSID env = Some [] ∨ WIFI_SSID env = None ∧ is_Some (WIFI_PASSWORD env)
  | Err SsidTooLong => ∃ ssid, WIFI_SSID env = Some ssid ∧ (32 < length ssid)%nat
  | Err InvalidPassphrase =>
      ∃ password, WIFI_PASSWORD env = Some password ∧ passphrase_new password = Err InvalidPassphrase
  | Err Wifi.InvalidReconnectPolicy => False
  | Panic => False
  end.
Proof.
  unfold development_station_config, ssid_try_from, station_open, station_personal, validate_ssid.
  destruct (WIFI_SSID env) as [ssid|], (WIFI_PASSWORD env) as [pw|] eqn:Hpw; try by eauto.
  - destruct (ssid_new_spec ssid) as [Hok Herr].
    destruct (decide (length ssid ≤ MAX_SSID_LEN)%nat) as [Hl|Hl].
    + destruct (Hok Hl) as (s & Hs & Hh). rewrite Hs. cbn [mbind res_bind].
      destruct (passphrase_valid pw) eqn:Hv.
      * destruct (passphrase_new_Ok pw Hv) as (p & Hp & _). rewrite Hp. cbn [mbind res_bind].
        rewrite (ssid_holds_empty s ssid Hh). case_bool_decide; subst; simpl; [by left|].
        eauto 10.
      * assert (passphrase_new pw = Err InvalidPassphrase) as Hp
          by (unfold passphrase_new; by rewrite Hv).
        rewrite Hp. simpl. eauto.
    + rewrite Herr by lia. simpl. exists ssid. unfold MAX_SSID_LEN in Hl. split; [done|lia].
  - destruct (ssid_new_spec ssid) as [Hok Herr].
    destruct (decide (length ssid ≤ MAX_SSID_LEN)%nat) as [Hl|Hl].
    + destruct (Hok Hl) as (s & Hs & Hh). rewrite Hs. cbn [mbind res_bind].
      rewrite (ssid_holds_empty s ssid Hh). case_bool_decide; subst; simpl; [by left|].
      eauto 10.
    + rewrite Herr by lia. simpl. exists ssid. unfold MAX_SSID_LEN in Hl. split; [done|lia].
Qed.
