(* ===== verification/Firmware.v ===== *)
(** [firmware/seeed/xiao-esp32c6/src/main.rs], the tasks: the telemetry
    producer and its bounded channel, the MQTT session task, the station
    supervisor, the network monitor and the Bluetooth status counter.

    The tasks share the outbound channel and an atomic drop counter, so their
    interleaving is explicit: a session is run over the sequence of events
    that wake it or the producer.  An engine call that finishes is an atomic
    step; one that is cancelled (a timeout, or the loss of IP) leaves the
    engine's session in a state the environment chooses.  What the environment
    decides (network state, DNS answers, TCP, timeouts, entropy) is the
    argument [RoundEnv] of a round. *)
From stdpp Require Import prelude list numbers option strings.
From Stdlib Require Import ZArith.
From S2P Require Import Prelude Text Backoff Bluetooth Wifi Networking Mqtt MqttClient Port.
From S2P Require Import FirmwareConfig.
Local Open Scope Z_scope.

(** * The outbound channel *)

Definition MQTT_OUTBOUND_CHANNEL_DEPTH : nat := 4.

Record OutboundMessage : Type := { out_payload : list Z; out_qos : QoS }.

Definition telemetry_payload : list Z :=
  [0x7B; 0x22] ++ lit "version" ++ [0x22; 0x3A; 0x31; 0x2C; 0x22] ++ lit "kind"
  ++ [0x22; 0x3A; 0x22] ++ lit "heartbeat" ++ [0x22; 0x7D].

Definition telemetry : OutboundMessage :=
  {| out_payload := telemetry_payload; out_qos := AtLeastOnce |}.

(** [with_timeout] *)
Inductive timed (A : Type) : Type := InTime (a : A) | Elapsed.
Arguments InTime {A} a.
Arguments Elapsed {A}.

Section MqttTask.
Context `{M : Minimq}.

(** What the MQTT task and the producer share or keep. *)
Record FwState : Type := {
  fw_client : Client;
  fw_backoff : Mqtt.ReconnectBackoff;
  fw_queue : list OutboundMessage;   (** [MQTT_OUTBOUND] *)
  fw_drops : Z                       (** [MQTT_QUEUE_DROPS] *)
}.

Definition with_client (f : Client → Client) (st : FwState) : FwState :=
  {| fw_client := f (fw_client st); fw_backoff := fw_backoff st;
     fw_queue := fw_queue st; fw_drops := fw_drops st |}.

(** A dropped future leaves the session as the engine left it. *)
Definition with_session (s : mq_Session) : FwState → FwState :=
  with_client (λ c, {| client_session := s; client_snapshot := client_snapshot c |}).

(** One turn of [mqtt_telemetry_producer_task]; [fetch_add] wraps. *)
Definition produce (st : FwState) : FwState :=
  if (length (fw_queue st) <? MQTT_OUTBOUND_CHANNEL_DEPTH)%nat then
    {| fw_client := fw_client st; fw_backoff := fw_backoff st;
       fw_queue := fw_queue st ++ [telemetry]; fw_drops := fw_drops st |}
  else
    {| fw_client := fw_client st; fw_backoff := fw_backoff st;
       fw_queue := fw_queue st; fw_drops := wrapping_add_u 32 (fw_drops st) 1 |}.

(** [MQTT_QUEUE_DROPS.swap(0)] and [record_queue_drops] *)
Definition drain_drops (st : FwState) : FwState :=
  {| fw_client := connection_record_queue_drops (fw_drops st) (fw_client st);
     fw_backoff := fw_backoff st; fw_queue := fw_queue st; fw_drops := 0 |}.

(** What can happen next while a session is up. *)
Inductive session_event : Type :=
  | EvProduce      (** the producer's timer fires *)
  | EvPending (s : mq_Session)
                   (** a pending [connection.receive()] moved the session *)
  | EvInbound      (** [connection.receive()] resolves *)
  | EvOutbound (during : nat)
                   (** [MQTT_OUTBOUND.receive()] resolves and the publish finishes,
                       the producer taking [during] turns meanwhile *)
  | EvPublishCut (s : mq_Session)
                   (** the same, but IP is lost before the publish finishes *)
  | EvIpDown.      (** [network.wait_ip_down()] resolves *)

Inductive session_end : Type :=
  | EndSubscribe (kind : ErrorKind)
  | EndReceive (kind : ErrorKind)
  | EndPublish (kind : ErrorKind)   (** the message taken from the channel is lost *)
  | EndIpDown
  | EndPublishCut                   (** IP down; the message being published is lost *)
  | EndRunning                      (** no event left: still up *)
  | EndPanic.

(** The producer's turns in an event. *)
Definition event_turns (e : session_event) : nat :=
  match e with EvProduce => 1 | EvOutbound during => during | _ => 0 end.

(** After the session only the producer goes on. *)
Definition produce_rest (events : list session_event) (st : FwState) : FwState :=
  foldl (λ st e, Nat.iter (event_turns e) produce st) st events.

(** A message has left the channel. *)
Definition with_queue (queue : list OutboundMessage) (st : FwState) : FwState :=
  {| fw_client := fw_client st; fw_backoff := fw_backoff st; fw_queue := queue;
     fw_drops := fw_drops st |}.

(** The loop of [run_mqtt_connection] after the drain at its head; an
    outbound event needs a queued message. *)
Fixpoint session_loop (topic : TopicName) (events : list session_event) (st : FwState) :
    session_end * FwState :=
  match events with
  | [] => (EndRunning, st)
  | EvProduce :: events => session_loop topic events (produce st)
  | EvPending s :: events => session_loop topic events (with_session s st)
  | EvIpDown :: events => (EndIpDown, produce_rest events st)
  | EvInbound :: events =>
    let '(r, c) := connection_receive (fw_client st) in
    let st := with_client (λ _, c) st in
    match r with
    | Ok _ => session_loop topic events (drain_drops st)
    | Err e => (EndReceive (mqtt_error_kind e), produce_rest events st)
    | Panic => (EndPanic, st)
    end
  | EvOutbound during :: events =>
    match fw_queue st with
    | [] => session_loop topic events (Nat.iter during produce st)
    | m :: queue =>
      let st := Nat.iter during produce (with_queue queue st) in
      let '(r, c) := connection_publish topic (out_payload m) (out_qos m) (fw_client st) in
      let st := with_client (λ _, c) st in
      match r with
      | Ok _ => session_loop topic events (drain_drops st)
      | Err e => (EndPublish (mqtt_error_kind e), produce_rest events st)
      | Panic => (EndPanic, st)
      end
    end
  | EvPublishCut s :: events =>
    match fw_queue st with
    | [] => session_loop topic events st
    | _ :: queue =>
      (EndPublishCut, produce_rest events (with_session s (with_queue queue st)))
    end
  end.

(** [cut]: IP is lost before the subscription is acknowledged. *)
Definition run_mqtt_connection (resumed : bool) (topic : TopicName) (filter : TopicFilter)
    (cut : option mq_Session) (events : list session_event) (st : FwState) :
    session_end * FwState :=
  if resumed then session_loop topic events (drain_drops st) else
  if cut is Some s then (EndIpDown, produce_rest events (with_session s st)) else
  let '(r, c) := connection_subscribe filter AtLeastOnce (fw_client st) in
  let st := with_client (λ _, c) st in
  match r with
  | Ok _ => session_loop topic events (drain_drops st)
  | Err e => (EndSubscribe (mqtt_error_kind e), produce_rest events st)
  | Panic => (EndPanic, st)
  end.

(** * One round of [mqtt_task] *)

Record RoundEnv : Type := {
  re_produced : nat;    (** producer turns before the session is up *)
  re_network : res Networking.ConfigError NetworkSnapshot;
  re_dns : timed (list Z → res DnsError (list IpAddress));
  re_tcp : Ipv4Addr → Z → timed bool;
  re_connect_cut : option mq_Session;     (** the timeout of [client.connect] *)
  re_subscribe_cut : option mq_Session;
  re_events : list session_event;
  re_entropy : Z
}.

Inductive retry_cause : Type :=
  | CauseDns
  | CauseTcp
  | CauseConnect
  | CauseSession (e : session_end).

Inductive round_result : Type :=
  | RoundNetworkError             (** sleeps one second *)
  | RoundNoDns                    (** waits for IP down *)
  | RoundRetry (cause : retry_cause) (delay_ms : Z)
  | RoundStopped (cut : bool)     (** IP was lost; [cut]: with a message *)
  | RoundRunning
  | RoundPanic.

(** [mqtt_backoff] *)
Definition task_backoff (cause : retry_cause) (entropy : Z) (st : FwState) :
    round_result * FwState :=
  let '(delay_ms, backoff) := mqtt_next_delay_ms (fw_backoff st) entropy in
  (RoundRetry cause delay_ms,
   {| fw_client := fw_client st; fw_backoff := backoff; fw_queue := fw_queue st;
      fw_drops := fw_drops st |}).

Definition fail_external (cause : retry_cause) (entropy : Z) (st : FwState) :
    round_result * FwState :=
  task_backoff cause entropy (with_client (record_external_failure KindTransport) st).

Definition reset_backoff (st : FwState) : FwState :=
  {| fw_client := fw_client st; fw_backoff := mqtt_backoff_reset (fw_backoff st);
     fw_queue := fw_queue st; fw_drops := fw_drops st |}.

(** The [match result] after a session. *)
Definition finish_session (entropy : Z) (e : session_end) (st : FwState) :
    round_result * FwState :=
  match e with
  | EndIpDown => (RoundStopped false, with_client (client_transition WaitingForNetwork) st)
  | EndPublishCut => (RoundStopped true, with_client (client_transition WaitingForNetwork) st)
  | EndRunning => (RoundRunning, st)
  | EndPanic => (RoundPanic, st)
  | EndSubscribe _ | EndReceive _ | EndPublish _ => task_backoff (CauseSession e) entropy st
  end.

(** From the established transport on. *)
Definition session_round (config : MqttDevelopmentConfig) (env : RoundEnv) (st : FwState) :
    round_result * FwState :=
  match re_connect_cut env with
  | Some s =>
    fail_external CauseConnect (re_entropy env)
      (with_session s (with_client (client_transition ConnectingSession) st))
  | None =>
    let '(r, c) := client_connect (fw_client st) in
    let st := with_client (λ _, c) st in
    match r with
    | Err _ => task_backoff CauseConnect (re_entropy env) st
    | Panic => (RoundPanic, st)
    | Ok resumed =>
      let '(e, st) := run_mqtt_connection resumed (dev_telemetry_topic config)
                        (dev_command_filter config) (re_subscribe_cut env) (re_events env)
                        (reset_backoff st) in
      finish_session (re_entropy env) e st
    end
  end.

(** TCP to the first address of the answer. *)
Definition transport_round (config : MqttDevelopmentConfig) (env : RoundEnv)
    (addresses : list Ipv4Addr) (st : FwState) : round_result * FwState :=
  let st := with_client (client_transition ConnectingTransport) st in
  match index (E := unit) addresses 0 with
  | Ok address =>
    match re_tcp env address (port_get (config_port (dev_session config))) with
    | InTime true => session_round config env st
    | InTime false | Elapsed => fail_external CauseTcp (re_entropy env) st
    end
  | _ => (RoundPanic, st)
  end.

(** DNS, into a buffer of four addresses. *)
Definition resolve_round (config : MqttDevelopmentConfig) (env : RoundEnv) (st : FwState) :
    round_result * FwState :=
  let st := with_client (client_transition ResolvingBroker) st in
  match text_as_str (E := unit) (config_hostname (dev_session config)) with
  | Ok hostname =>
    match re_dns env with
    | Elapsed => fail_external CauseDns (re_entropy env) st
    | InTime dns_query =>
      match resolve_ipv4 dns_query hostname (replicate 4 IPV4_UNSPECIFIED) with
      | (Err _, _) => fail_external CauseDns (re_entropy env) st
      | (Panic, _) => (RoundPanic, st)
      | (Ok _, addresses) => transport_round config env addresses st
      end
    end
  | _ => (RoundPanic, st)
  end.

Definition mqtt_round (config : MqttDevelopmentConfig) (env : RoundEnv) (st : FwState) :
    round_result * FwState :=
  let st := Nat.iter (re_produced env) produce st in
  let st := with_client (client_transition WaitingForNetwork) st in
  match re_network env with
  | Err _ => (RoundNetworkError, st)
  | Panic => (RoundPanic, st)
  | Ok snapshot =>
    if negb (is_dns_ready snapshot) then (RoundNoDns, st) else resolve_round config env st
  end.

(** The task over a sequence of rounds; it ends only where a session is still
    running. *)
Fixpoint mqtt_task (config : MqttDevelopmentConfig) (envs : list RoundEnv) (st : FwState) :
    list round_result * FwState :=
  match envs with
  | [] => ([], st)
  | env :: envs =>
    let '(r, st) := mqtt_round config env st in
    match r with
    | RoundRunning | RoundPanic => ([r], st)
    | _ => let '(rs, st) := mqtt_task config envs st in (r :: rs, st)
    end
  end.

(** The state [mqtt_task] and the statics start in. *)
Definition fw_init (client : Client) : FwState :=
  {| fw_client := client; fw_backoff := policy_backoff mqtt_policy_default;
     fw_queue := []; fw_drops := 0 |}.
End MqttTask.


(** * The station supervisor *)

Section Supervisor.
Context {D W : Type} `{WifiDriver D W}.

(** One turn of [supervise_station]'s loop, up to its sleep: whether the
    association succeeded, and the delay. *)
Definition supervise_turn (entropy : Z)
    (s : Esp32c6StationController D * Wifi.ReconnectBackoff) :
    res unit (bool * Z * (Esp32c6StationController D * Wifi.ReconnectBackoff)) :=
  let '(controller, backoff) := s in
  let '(r, controller) := station_connect controller in
  match r with
  | Ok _ =>
    let backoff := wifi_backoff_reset backoff in
    let '(r, controller) := wait_for_disconnect controller in
    match r with
    | Panic => Panic
    | _ =>
      '(delay, backoff) ← wifi_next_delay_ms backoff entropy;
      Ok (true, delay, (controller, backoff))
    end
  | Err _ =>
    '(delay, backoff) ← wifi_next_delay_ms backoff entropy;
    Ok (false, delay, (controller, backoff))
  | Panic => Panic
  end.

Fixpoint supervise_station (entropies : list Z)
    (s : Esp32c6StationController D * Wifi.ReconnectBackoff) :
    res unit (list (bool * Z) * (Esp32c6StationController D * Wifi.ReconnectBackoff)) :=
  match entropies with
  | [] => Ok ([], s)
  | e :: entropies =>
    '(ok, delay, s) ← supervise_turn e s;
    '(log, s) ← supervise_station entropies s;
    Ok ((ok, delay) :: log, s)
  end.
End Supervisor.

(** What the turns do to the back-off calculator. *)
Definition turn_ops (turn : bool * Z) : list retry_op :=
  (if turn.1 then [RetrySucceeded] else []) ++ [RetryAfter turn.2].

(** * The network monitor *)

Inductive monitor_state : Type := MonWaitLink | MonWaitConfig | MonConfigured.

Inductive monitor_event : Type :=
  | MonLinkUp
  | MonConfigUp (snapshot : res Networking.ConfigError NetworkSnapshot)
  | MonDhcpTimeout
  | MonLinkDown
  | MonConfigDown (snapshot : res Networking.ConfigError NetworkSnapshot).

Inductive monitor_output : Type :=
  | OutLinkUp
  | OutDhcpPending
  | OutLinkDown
  | OutConversionFailed
  | OutConfigured (dns_servers : Z)
  | OutProbe (probe : NetworkProbe)
  | OutProbeSkipped
  | OutConfigurationLost.

Definition monitor_configured (probe : option NetworkProbe) (s : NetworkSnapshot) :
    list monitor_output :=
  OutConfigured (match snapshot_ipv4 s with
                 | Some c => dns_len (ipv4_dns_servers c) | None => 0 end) ::
  match probe with
  | Some probe => if is_dns_ready s then [OutProbe probe] else [OutProbeSkipped]
  | None => []
  end.

(** One event; events a state does not wait for pass unnoticed.  The second
    [snapshot] of the source is taken at the same instant as the first. *)
Definition monitor_step (probe : option NetworkProbe) (event : monitor_event)
    (s : monitor_state) : list monitor_output * monitor_state :=
  match s, event with
  | MonWaitLink, MonLinkUp => ([OutLinkUp], MonWaitConfig)
  | MonWaitConfig, MonConfigUp (Ok snapshot) =>
    if is_ip_ready snapshot then (monitor_configured probe snapshot, MonConfigured)
    else ([], MonWaitConfig)
  | MonWaitConfig, MonConfigUp _ => ([OutConversionFailed], MonWaitLink)
  | MonWaitConfig, MonDhcpTimeout => ([OutDhcpPending], MonWaitConfig)
  | MonWaitConfig, MonLinkDown => ([OutLinkDown], MonWaitLink)
  | MonConfigured, MonConfigDown (Ok _) => ([OutConfigurationLost], MonWaitLink)
  | MonConfigured, MonConfigDown _ => ([OutConversionFailed], MonWaitLink)
  | _, _ => ([], s)
  end.

(** * Counters *)

(** [bluetooth_status_notifications]: the values notified, in order. *)
Fixpoint status_values (n : nat) (value : Z) : list Z :=
  match n with
  | O => []
  | S n => let value := wrapping_add_u 8 value 1 in value :: status_values n value
  end.

(** [heartbeat]: the numbers printed, in order. *)
Fixpoint heartbeat_values (n : nat) (heartbeat : Z) : list Z :=
  match n with
  | O => []
  | S n => heartbeat :: heartbeat_values n (wrapping_add_u 64 heartbeat 1)
  end.

(** * Specification *)

(** The engine's calls return (the network may stay silent, they do not
    panic). *)
Class MinimqTotal `{M : Minimq} : Prop := {
  mqt_connect : ∀ s, (mq_connect s).1 ≠ Panic;
  mqt_publish : ∀ s t p q, (mq_publish s t p q).1 ≠ Panic;
  mqt_subscribe : ∀ s f q, (mq_subscribe s f q).1 ≠ Panic;
  mqt_recv : ∀ s, (mq_recv s).1 ≠ Panic
}.

(** The texts of a configuration read back; the ones the firmware builds do. *)
Definition config_texts_ok (config : MqttDevelopmentConfig) : Prop :=
  is_ok (text_as_str (E := unit) (config_hostname (dev_session config))) ∧
  is_ok (text_as_str (E := unit) (dev_telemetry_topic config)) ∧
  is_ok (text_as_str (E := unit) (dev_command_filter config)).

Definition in_session (s : Snapshot) : Prop :=
  mq_state s = MqttConnected ∨ mq_state s = MqttResumed.

(** What the snapshot shows when a session failed with an error of kind [k]. *)
Definition after_failure (k : ErrorKind) (s : Snapshot) : Prop :=
  if observed_kind k then mq_state s = BackingOff ∧ last_error s = Some k
  else in_session s.

Definition session_end_state (e : session_end) (s : Snapshot) : Prop :=
  match e with
  | EndSubscribe k | EndReceive k | EndPublish k => after_failure k s
  | EndIpDown | EndPublishCut | EndRunning => in_session s
  | EndPanic => False
  end.

Definition round_state (maximum : Z) (r : round_result) (s : Snapshot) : Prop :=
  match r with
  | RoundNetworkError | RoundNoDns | RoundStopped _ => mq_state s = WaitingForNetwork
  | RoundRetry (CauseSession e) d => 0 ≤ d ≤ maximum ∧ session_end_state e s
  | RoundRetry _ d => 0 ≤ d ≤ maximum ∧ mq_state s = BackingOff
  | RoundRunning => in_session s
  | RoundPanic => False
  end.

(** Messages: published, queued, and dropped (reported or still counted in the
    atomic). *)
Definition fw_total `{M : Minimq} (st : FwState) : Z :=
  publishes (client_snapshot (fw_client st)) + Z.of_nat (length (fw_queue st))
  + queue_drops (client_snapshot (fw_client st)) + fw_drops st.

Definition fw_ok `{M : Minimq} (st : FwState) : Prop :=
  0 ≤ publishes (client_snapshot (fw_client st)) ∧
  0 ≤ queue_drops (client_snapshot (fw_client st)) ∧ 0 ≤ fw_drops st ∧
  (length (fw_queue st) ≤ MQTT_OUTBOUND_CHANNEL_DEPTH)%nat.

Definition produced `{M : Minimq} (events : list session_event) : Z :=
  Z.of_nat (sum_list (event_turns <$> events)).

Definition lost (e : session_end) : Z :=
  match e with EndPublish _ | EndPublishCut => 1 | _ => 0 end.

Definition round_lost (r : round_result) : Z :=
  match r with
  | RoundRetry (CauseSession e) _ => lost e
  | RoundStopped cut => if cut then 1 else 0
  | _ => 0
  end.

(** Producer turns a round consumes: those before the session, and, when a
    session ran, those during and after it. *)
Definition round_produced `{M : Minimq} (env : RoundEnv) (r : round_result) : Z :=
  Z.of_nat (re_produced env) +
  match r with
  | RoundStopped _ | RoundRunning | RoundRetry (CauseSession _) _ => produced (re_events env)
  | _ => 0
  end.

Fixpoint task_produced `{M : Minimq} (envs : list RoundEnv) (rs : list round_result) : Z :=
  match envs, rs with
  | env :: envs, r :: rs => round_produced env r + task_produced envs rs
  | _, _ => 0
  end.

Definition task_lost (rs : list round_result) : Z := foldr (λ r n, (round_lost r + n)%Z) 0 rs.

(** The environment's futures return without panicking. *)
Definition env_ok `{M : Minimq} (env : RoundEnv) : Prop :=
  re_network env ≠ Panic ∧
  match re_dns env with InTime query => ∀ name, query name ≠ Panic | Elapsed => True end.

Definition same_books (s s' : Snapshot) : Prop :=
  publishes s' = publishes s ∧ queue_drops s' = queue_drops s.

(** The back-off after a round: well formed, same policy. *)
Definition backoff_kept `{M : Minimq} (st st' : FwState) : Prop :=
  mqtt_backoff_wf (fw_backoff st') ∧ mb_policy (fw_backoff st') = mb_policy (fw_backoff st).

(** From [st] to [st'], [n] messages were offered and [l] lost. *)
Definition conserves `{M : Minimq} (st st' : FwState) (n l : Z) : Prop :=
  fw_ok st' ∧ fw_total st' + l = fw_total st + n.

(** What a round consumed of the producer's turns after it was entered. *)
Definition session_produced `{M : Minimq} (env : RoundEnv) (r : round_result) : Z :=
  match r with
  | RoundStopped _ | RoundRunning | RoundRetry (CauseSession _) _ => produced (re_events env)
  | _ => 0
  end.

(** A part of a round conserves messages. *)
Definition part_conserves `{M : Minimq} (env : RoundEnv) (st : FwState) (part : round_result * FwState) : Prop :=
  part.1 ≠ RoundPanic →
  conserves st part.2 (session_produced env part.1) (round_lost part.1).

(** Producer turns that the rounds offer at most. *)
Definition offered `{M : Minimq} (envs : list RoundEnv) : Z :=
  foldr (λ env n, (Z.of_nat (re_produced env) + produced (re_events env) + n)%Z) 0 envs.

(** A delay of the default policy: never below one second nor above one
    minute, and at most 1.5 s right after an association. *)
Definition station_delay_ok (turn : bool * Z) : Prop :=
  1000 ≤ turn.2 ≤ 60000 ∧ (turn.1 = true → turn.2 ≤ 1500).

(** * A concrete run *)

Definition fixture_config : option MqttDevelopmentConfig :=
  match development_mqtt_config fixture_env with Ok c => c | _ => None end.

Definition fixture_snapshot : NetworkSnapshot :=
  network_snapshot_new LinkUp (Some
    {| ipv4_address := [10; 0; 0; 2]; ipv4_prefix_len := 24; ipv4_gateway := None;
       ipv4_dns_servers := {| dns_addresses := replicate MAX_DNS_SERVERS [10; 0; 0; 1];
                              dns_len := 1 |} |}).

(** The broker resolves and answers; [events] happen in its session. *)
Definition fixture_round (events : list (session_event (M := loopback))) :
    RoundEnv (M := loopback) :=
  {| re_produced := 1; re_network := Ok fixture_snapshot;
     re_dns := InTime (λ _, Ok [IpV4 [10; 0; 0; 9]]); re_tcp _ _ := InTime true;
     re_connect_cut := None; re_subscribe_cut := None; re_events := events; re_entropy := 3 |}.

Definition fixture_client : Client (M := loopback) :=
  {| client_session := ([] : mq_Session (Minimq := loopback));
     client_snapshot := mqtt_snapshot_default |}.

(** * Lemmas *)

#[export] Instance loopback_total : MinimqTotal (M := loopback).
Proof. split; [done|done|done|]. by intros []. Qed.

Section TaskLemmas.
Context `{M : Minimq}.

Lemma observe_same_books {I P R} s (e : MqttClient.Error I P R) : same_books s (observe_error s e).
Proof. unfold observe_error. by destruct (observed_kind _). Qed.

Lemma observe_after {I P R} s (e : MqttClient.Error I P R) :
  in_session s → after_failure (mqtt_error_kind e) (observe_error s e).
Proof. unfold observe_error, after_failure. by destruct (observed_kind _). Qed.

Lemma receive_spec `{!MinimqTotal} c :
  let '(r, c') := connection_receive c in
  same_books (client_snapshot c) (client_snapshot c') ∧
  match r with
  | Ok _ => client_snapshot c' = record_receive (client_snapshot c)
  | Err e => client_snapshot c' = observe_error (client_snapshot c) e
  | Panic => False
  end.
Proof.
  unfold connection_receive, deliver, settle, ok_or. pose proof (mqt_recv (client_session c)) as Hr.
  destruct (mq_recv _) as [[m|e|] s]; simpl in *; [|by split; [apply observe_same_books|]|done].
  destruct (from_minimq_publish m); simpl; [done|]. by split; [apply observe_same_books|].
Qed.

Lemma subscribe_spec `{!MinimqTotal} filter q c :
  is_ok (text_as_str (E := unit) filter) →
  let '(r, c') := connection_subscribe filter q c in
  same_books (client_snapshot c) (client_snapshot c') ∧
  match r with
  | Ok _ => client_snapshot c' = client_snapshot c
  | Err e => client_snapshot c' = observe_error (client_snapshot c) e
  | Panic => False
  end.
Proof.
  intros [f Hf]. unfold connection_subscribe, settle. rewrite Hf.
  pose proof (mqt_subscribe (client_session c) f (to_minimq_qos q)) as Hr.
  destruct (mq_subscribe _ _ _) as [[]]; simpl in *; [done| |done].
  by split; [apply observe_same_books|].
Qed.

Lemma publish_spec `{!MinimqTotal} topic payload q c :
  is_ok (text_as_str (E := unit) topic) →
  let '(r, c') := connection_publish topic payload q c in
  match r with
  | Ok _ => client_snapshot c' = record_publish (client_snapshot c)
  | Err e => client_snapshot c' = observe_error (client_snapshot c) e
  | Panic => False
  end.
Proof.
  intros [t Ht]. unfold connection_publish, settle. rewrite Ht.
  pose proof (mqt_publish (client_session c) t payload (to_minimq_qos q)) as Hr.
  by destruct (mq_publish _ _ _ _) as [[|[]|]].
Qed.

Lemma produce_client st :
  fw_client (produce st) = fw_client st ∧ fw_backoff (produce st) = fw_backoff st.
Proof. unfold produce. by case_match. Qed.

Lemma produce_iter n st :
  fw_client (Nat.iter n produce st) = fw_client st ∧
  fw_backoff (Nat.iter n produce st) = fw_backoff st.
Proof.
  induction n as [|n IH]; [done|]. simpl.
  by destruct (produce_client (Nat.iter n produce st)) as [-> ->].
Qed.

Lemma produce_rest_client es st :
  fw_client (produce_rest es st) = fw_client st ∧ fw_backoff (produce_rest es st) = fw_backoff st.
Proof.
  unfold produce_rest. revert st. induction es as [|e es IH]; intros st; [done|].
  cbn [foldl]. destruct (IH (Nat.iter (event_turns e) produce st)) as [-> ->]. apply produce_iter.
Qed.

Lemma session_loop_state `{!MinimqTotal} topic events st :
  is_ok (text_as_str (E := unit) topic) → in_session (client_snapshot (fw_client st)) →
  let '(e, st') := session_loop topic events st in
  session_end_state e (client_snapshot (fw_client st')) ∧ fw_backoff st' = fw_backoff st.
Proof.
  intros Ht. revert st. induction events as [|[] events IH]; intros st Hst; simpl.
  - done.
  - destruct (produce_client st) as [Hc Hb]. specialize (IH (produce st)).
    rewrite Hc, Hb in IH. by apply IH.
  - by apply (IH (with_session s st)).
  - pose proof (receive_spec (fw_client st)) as Hr.
    destruct (connection_receive _) as [[m|e|] c]; destruct Hr as [_ Hr]; [| |done].
    + apply (IH (drain_drops (with_client (λ _, c) st))). simpl. by rewrite Hr.
    + destruct (produce_rest_client events (with_client (λ _, c) st)) as [-> ->].
      simpl. rewrite Hr. split; [by apply observe_after|done].
  - destruct (fw_queue st) as [|m queue].
    { destruct (produce_iter during st) as [Hc Hb]. specialize (IH (Nat.iter during produce st)).
      rewrite Hc, Hb in IH. by apply IH. }
    destruct (produce_iter during (with_queue queue st)) as [Hc Hb].
    change (fw_backoff st) with (fw_backoff (with_queue queue st)).
    change (fw_client st) with (fw_client (with_queue queue st)) in Hst.
    rewrite <-Hc in Hst. rewrite <-Hb.
    set (st1 := Nat.iter during produce (with_queue queue st)) in *. clearbody st1.
    pose proof (publish_spec topic (out_payload m) (out_qos m) (fw_client st1) Ht) as Hr.
    destruct (connection_publish _ _ _ _) as [[u|e|] c]; [| |done]; simpl.
    + match goal with |- context [session_loop topic events ?s] => apply (IH s) end.
      simpl. by rewrite Hr.
    + match goal with |- context [produce_rest events ?s] =>
        destruct (produce_rest_client events s) as [-> ->] end.
      simpl. rewrite Hr. split; [by apply observe_after|done].
  - destruct (fw_queue st) as [|m queue]; [by apply IH|]. simpl.
    match goal with |- context [produce_rest events ?s] =>
      by destruct (produce_rest_client events s) as [-> ->] end.
  - by destruct (produce_rest_client events st) as [-> ->].
Qed.

Lemma run_mqtt_connection_state `{!MinimqTotal} resumed topic filter cut events st :
  is_ok (text_as_str (E := unit) topic) → is_ok (text_as_str (E := unit) filter) →
  in_session (client_snapshot (fw_client st)) →
  let '(e, st') := run_mqtt_connection resumed topic filter cut events st in
  session_end_state e (client_snapshot (fw_client st')) ∧ fw_backoff st' = fw_backoff st.
Proof.
  intros Ht Hf Hst. unfold run_mqtt_connection. destruct resumed.
  - by apply (session_loop_state topic events (drain_drops st)).
  - destruct cut as [s|].
    { by destruct (produce_rest_client events (with_session s st)) as [-> ->]. }
    pose proof (subscribe_spec filter AtLeastOnce (fw_client st) Hf) as Hs.
    destruct (connection_subscribe _ _ _) as [[u|e|] c]; destruct Hs as [_ Hs]; [| |done].
    + apply (session_loop_state topic events (drain_drops (with_client (λ _, c) st)) Ht).
      simpl. by rewrite Hs.
    + destruct (produce_rest_client events (with_client (λ _, c) st)) as [-> ->].
      simpl. rewrite Hs. split; [by apply observe_after|done].
Qed.
End TaskLemmas.

Section RoundLemmas.
Context `{M : Minimq} `{!MinimqTotal}.

Lemma task_backoff_spec cause entropy st :
  mqtt_backoff_wf (fw_backoff st) →
  let '(r, st') := task_backoff cause entropy st in
  (∃ d, r = RoundRetry cause d ∧ 0 ≤ d ≤ maximum_delay_ms (mb_policy (fw_backoff st))) ∧
  fw_client st' = fw_client st ∧ fw_queue st' = fw_queue st ∧ fw_drops st' = fw_drops st ∧
  mqtt_backoff_wf (fw_backoff st') ∧ mb_policy (fw_backoff st') = mb_policy (fw_backoff st).
Proof.
  intros Hb. unfold task_backoff. pose proof (mqtt_backoff_wf_next _ entropy Hb) as Hb'.
  rewrite mqtt_next_delay_eq in * by done. simpl in *. destruct Hb as [Hp Ha].
  pose proof (mqtt_base_range _ _ Hp (proj1 Ha)).
  pose proof (mqtt_jitter_range _ entropy Hp).
  split_and!; try done. eexists. split; [done|]. lia.
Qed.

Lemma fail_external_state cause entropy st :
  mqtt_backoff_wf (fw_backoff st) →
  match cause with CauseSession _ => False | _ => True end →
  let '(r, st') := fail_external cause entropy st in
  round_state (maximum_delay_ms (mb_policy (fw_backoff st))) r (client_snapshot (fw_client st')) ∧
  backoff_kept st st'.
Proof.
  intros Hb Hcause. unfold fail_external.
  pose proof (task_backoff_spec cause entropy
    (with_client (record_external_failure KindTransport) st) Hb) as Hs.
  destruct (task_backoff _ _ _) as [r st'].
  destruct Hs as ((d & -> & Hd) & Hc & _ & _ & Hw & Hp). split; [|by split].
  destruct cause; try done; simpl; rewrite Hc; by split.
Qed.

Lemma finish_session_state entropy e st :
  mqtt_backoff_wf (fw_backoff st) → session_end_state e (client_snapshot (fw_client st)) →
  let '(r, st') := finish_session entropy e st in
  round_state (maximum_delay_ms (mb_policy (fw_backoff st))) r (client_snapshot (fw_client st')) ∧
  backoff_kept st st'.
Proof.
  intros Hb He. pose proof (task_backoff_spec (CauseSession e) entropy st Hb) as Htb.
  destruct e; cbn [finish_session]; try done;
    destruct (task_backoff _ _ _) as [r st'];
    destruct Htb as ((d & -> & Hd) & Hc & _ & _ & Hw & Hp);
    (split; [split; [done|by rewrite Hc]|by split]).
Qed.

Lemma session_round_state config env st :
  config_texts_ok config → mqtt_backoff_wf (fw_backoff st) →
  let '(r, st') := session_round config env st in
  round_state (maximum_delay_ms (mb_policy (fw_backoff st))) r (client_snapshot (fw_client st')) ∧
  backoff_kept st st'.
Proof.
  intros (_ & Ht & Hf) Hb. unfold session_round. destruct (re_connect_cut env) as [s0|].
  { by apply (fail_external_state CauseConnect (re_entropy env)
      (with_session s0 (with_client (client_transition ConnectingSession) st))). }
  unfold client_connect. pose proof (mqt_connect (client_session (fw_client st))) as Hco.
  destruct (mq_connect _) as [[event|e|] s]; [| |done].
  - destruct event;
      (match goal with |- context [run_mqtt_connection ?re ?t ?f ?cu ?ev ?s] =>
         pose proof (run_mqtt_connection_state re t f cu ev s Ht Hf) as Hr;
         destruct (run_mqtt_connection re t f cu ev s) as [e st'] end);
      (destruct Hr as [He Hbk]; [unfold in_session; simpl; auto|]);
      (assert (mqtt_backoff_wf (fw_backoff st')) as Hb' by (rewrite Hbk; by destruct Hb));
      pose proof (finish_session_state (re_entropy env) e st' Hb' He) as Hfin;
      destruct (finish_session _ _ _) as [r st'']; unfold backoff_kept in *;
      rewrite Hbk in Hfin; exact Hfin.
  - cbv beta iota zeta.
    match goal with |- context [task_backoff ?c ?en ?s] =>
      pose proof (task_backoff_spec c en s Hb) as Htb; destruct (task_backoff c en s) end.
    destruct Htb as ((d & -> & Hd) & Hc & _ & _ & Hw & Hp). split; [|by split].
    split; [done|]. by rewrite Hc.
Qed.

Lemma resolve_round_state config env st :
  config_texts_ok config → env_ok env → mqtt_backoff_wf (fw_backoff st) →
  let '(r, st') := resolve_round config env st in
  round_state (maximum_delay_ms (mb_policy (fw_backoff st))) r (client_snapshot (fw_client st')) ∧
  backoff_kept st st'.
Proof.
  intros [[h Hh] Hcfg] [_ Hdns] Hb. unfold resolve_round. rewrite Hh.
  destruct (re_dns env) as [query|]; cycle 1.
  { by apply (fail_external_state CauseDns (re_entropy env) (with_client _ st)). }
  pose proof (resolve_ipv4_length query h (replicate 4 IPV4_UNSPECIFIED) (Hdns h)) as Hr.
  destruct (resolve_ipv4 _ _ _) as [[n|e|] addresses]; destruct Hr as [? Hl]; [| |done]; cycle 1.
  { by apply (fail_external_state CauseDns (re_entropy env) (with_client _ st)). }
  unfold transport_round. destruct addresses as [|address addresses]; [done|]. simpl.
  destruct (re_tcp env address _) as [[]|].
  - apply (session_round_state config env (with_client _ (with_client _ st)));
      [split; [by exists h|done]|done].
  - by apply (fail_external_state CauseTcp (re_entropy env) (with_client _ (with_client _ st))).
  - by apply (fail_external_state CauseTcp (re_entropy env) (with_client _ (with_client _ st))).
Qed.

Lemma mqtt_round_state config env st :
  config_texts_ok config → env_ok env → mqtt_backoff_wf (fw_backoff st) →
  let '(r, st') := mqtt_round config env st in
  round_state (maximum_delay_ms (mb_policy (fw_backoff st))) r (client_snapshot (fw_client st')) ∧
  backoff_kept st st'.
Proof.
  intros Hcfg Henv Hb. unfold mqtt_round.
  destruct (produce_iter (re_produced env) st) as [_ Hpb].
  set (st0 := Nat.iter _ _ _) in *. clearbody st0.
  unfold backoff_kept. rewrite <-Hpb in *. clear Hpb st.
  pose proof Henv as [Hnet _]. destruct (re_network env) as [snapshot|e|]; [|done|done].
  destruct (negb (is_dns_ready snapshot)); [done|].
  by apply (resolve_round_state config env (with_client _ st0)).
Qed.
End RoundLemmas.

(** * Conservation of messages *)

Section Conservation.
Context `{M : Minimq} `{!MinimqTotal}.

Lemma conserves_trans st1 st2 st3 n1 n2 l2 :
  conserves st1 st2 n1 0 → conserves st2 st3 n2 l2 → conserves st1 st3 (n1 + n2) l2.
Proof. unfold conserves. intros [_ H1] [? H2]. split; [done|lia]. Qed.

(** A step that only moves messages. *)
Lemma conserves_step st1 st2 st3 n l :
  conserves st1 st2 0 0 → conserves st2 st3 n l → conserves st1 st3 n l.
Proof. unfold conserves. intros [_ H1] [? H2]. split; [done|lia]. Qed.

Lemma client_conserves c' st :
  fw_ok st → same_books (client_snapshot (fw_client st)) (client_snapshot c') →
  conserves st (with_client (λ _, c') st) 0 0.
Proof.
  unfold conserves, fw_ok, fw_total. simpl. intros (? & ? & ? & ?) [-> ->]. split; [done|lia].
Qed.

Lemma session_conserves s st : fw_ok st → conserves st (with_session s st) 0 0.
Proof. intros Hst. split; [exact Hst|unfold fw_total; simpl; lia]. Qed.

Lemma produce_conserves st :
  fw_ok st → fw_total st + 1 < 2 ^ 32 → conserves st (produce st) 1 0.
Proof.
  intros Hst Hb. pose proof Hst as (Hp & Hd & Ha & Hl).
  unfold conserves, produce, fw_ok, fw_total, MQTT_OUTBOUND_CHANNEL_DEPTH in *.
  destruct (Nat.ltb_spec (length (fw_queue st)) 4); simpl.
  - rewrite length_app. simpl. split_and!; lia.
  - unfold wrapping_add_u. rewrite wrap_u_small by (unfold is_u; lia). split_and!; lia.
Qed.

Lemma drain_conserves st : fw_ok st → fw_total st < 2 ^ 32 → conserves st (drain_drops st) 0 0.
Proof.
  intros Hst Hb. pose proof Hst as (Hp & Hd & Ha & Hl).
  unfold conserves, fw_ok, fw_total in *. simpl.
  unfold saturating_add_u, u_max. split_and!; try done; lia.
Qed.

Lemma produce_iter_conserves n st :
  fw_ok st → fw_total st + Z.of_nat n < 2 ^ 32 →
  conserves st (Nat.iter n produce st) (Z.of_nat n) 0.
Proof.
  intros Hst. induction n as [|n IH]; intros Hb; simpl; [split; [done|lia]|].
  destruct IH as [Hok Ht]; [lia|].
  destruct (produce_conserves (Nat.iter n produce st) Hok) as [? ?]; [lia|].
  split; [done|lia].
Qed.

Lemma produced_cons e es : produced (e :: es) = Z.of_nat (event_turns e) + produced es.
Proof. unfold produced. csimpl. lia. Qed.

Lemma produced_nonneg es : 0 ≤ produced es.
Proof. unfold produced. lia. Qed.

Lemma produce_rest_conserves es st :
  fw_ok st → fw_total st + produced es < 2 ^ 32 →
  conserves st (produce_rest es st) (produced es) 0.
Proof.
  unfold produce_rest. revert st.
  induction es as [|e es IH]; intros st Hst Hb; [split; [done|unfold produced; simpl; lia]|].
  rewrite produced_cons in *. pose proof (produced_nonneg es). cbn [foldl].
  pose proof (produce_iter_conserves (event_turns e) st Hst ltac:(lia)) as Hp.
  eapply conserves_trans; [exact Hp|]. destruct Hp as [Hok Ht]. apply IH; [done|lia].
Qed.

(** A message taken from the channel is out of the books until its publish
    succeeds. *)
Lemma with_queue_conserves st m queue :
  fw_queue st = m :: queue → fw_ok st → conserves st (with_queue queue st) 0 1.
Proof.
  intros Hq (Hp & Hd & Ha & Hl). rewrite Hq in Hl. simpl in Hl.
  unfold conserves, fw_ok, fw_total. simpl. rewrite Hq. simpl. split_and!; lia.
Qed.

Lemma published_conserves st c :
  fw_ok st → fw_total st + 1 < 2 ^ 32 →
  client_snapshot c = record_publish (client_snapshot (fw_client st)) →
  conserves st (with_client (λ _, c) st) 1 0.
Proof.
  intros (Hp & Hd & Ha & Hl) Hb Hr. unfold conserves, fw_ok, fw_total in *. simpl. rewrite Hr. simpl.
  unfold saturating_add_u, u_max. split_and!; lia.
Qed.

(** A publish, with the producer's turns while it runs. *)
Lemma outbound_conserves topic during m queue st :
  is_ok (text_as_str (E := unit) topic) → fw_queue st = m :: queue → fw_ok st →
  fw_total st + Z.of_nat during < 2 ^ 32 →
  let st1 := Nat.iter during produce (with_queue queue st) in
  let '(r, c) := connection_publish topic (out_payload m) (out_qos m) (fw_client st1) in
  match r with
  | Ok _ => conserves st (with_client (λ _, c) st1) (Z.of_nat during) 0
  | Err _ => conserves st (with_client (λ _, c) st1) (Z.of_nat during) 1
  | Panic => False
  end.
Proof.
  intros Ht Hq Hst Hb st1. destruct (with_queue_conserves _ _ _ Hq Hst) as [Hok0 Htot0].
  destruct (produce_iter_conserves during _ Hok0 ltac:(lia)) as [Hok1 Htot1]. fold st1 in Hok1, Htot1.
  pose proof (publish_spec topic (out_payload m) (out_qos m) (fw_client st1) Ht) as Hr.
  destruct (connection_publish _ _ _ _) as [[u|e|] c]; [| |done].
  - destruct (published_conserves st1 c Hok1 ltac:(lia) Hr) as [Hok2 Htot2]. split; [done|lia].
  - destruct (client_conserves c st1 Hok1) as [Hok2 Htot2]; [|split; [done|lia]].
    rewrite Hr. apply observe_same_books.
Qed.

Lemma session_loop_conserves topic events st :
  is_ok (text_as_str (E := unit) topic) → fw_ok st →
  fw_total st + produced events < 2 ^ 32 →
  let '(e, st') := session_loop topic events st in
  conserves st st' (produced events) (lost e).
Proof.
  intros Ht. revert st. induction events as [|ev events IH]; intros st Hst Hb.
  { split; [done|unfold produced; simpl; lia]. }
  rewrite produced_cons in *. pose proof (produced_nonneg events) as Hn.
  (* a step that leaves the loop running *)
  assert (∀ st1 n, conserves st st1 (Z.of_nat n) 0 → (n ≤ event_turns ev)%nat →
    let '(e, st') := session_loop topic events st1 in
    conserves st st' (Z.of_nat n + produced events) (lost e)) as Hgo.
  { intros st1 n Hc Hle. specialize (IH st1 (proj1 Hc) ltac:(destruct Hc; lia)).
    destruct (session_loop topic events st1). by eapply conserves_trans. }
  (* a step that ends it *)
  assert (∀ st1 n l, conserves st st1 (Z.of_nat n) l → 0 ≤ l → (n ≤ event_turns ev)%nat →
    conserves st (produce_rest events st1) (Z.of_nat n + produced events) l) as Hend.
  { intros st1 n l [Hok Htot] Hl Hle.
    destruct (produce_rest_conserves events st1 Hok ltac:(lia)). split; [done|lia]. }
  destruct ev as [|s| |during|s|]; cbn [session_loop event_turns] in *.
  - apply (Hgo (produce st) 1%nat); [apply produce_conserves; [done|lia]|done].
  - apply (Hgo (with_session s st) 0%nat); [by apply session_conserves|done].
  - pose proof (receive_spec (fw_client st)) as Hr.
    destruct (connection_receive _) as [r c]. destruct Hr as [Hsame Hr].
    pose proof (client_conserves c st Hst Hsame) as Hc. destruct r as [m|e|]; [| |done].
    + apply (Hgo _ 0%nat); [|done]. eapply conserves_step; [exact Hc|].
      apply drain_conserves; destruct Hc; [done|lia].
    + by apply (Hend _ 0%nat 0).
  - destruct (fw_queue st) as [|m queue] eqn:Hq.
    { apply (Hgo _ during); [apply produce_iter_conserves; [done|lia]|done]. }
    pose proof (outbound_conserves topic during m queue st Ht Hq Hst ltac:(lia)) as Hr.
    cbv zeta in Hr. destruct (connection_publish _ _ _ _) as [[u|e|] c]; [| |done].
    + apply (Hgo _ during); [|done]. destruct Hr as [Hok Htot].
      destruct (drain_conserves _ Hok ltac:(lia)). split; [done|lia].
    + by apply (Hend _ during 1).
  - destruct (fw_queue st) as [|m queue] eqn:Hq; [by apply (Hgo st 0%nat); [split; [done|lia]|]|].
    apply (Hend _ 0%nat 1); [|done..]. by apply (with_queue_conserves st m queue).
  - apply (Hend st 0%nat 0); [split; [done|lia]|done..].
Qed.

Lemma run_mqtt_connection_conserves resumed topic filter cut events st :
  is_ok (text_as_str (E := unit) topic) → is_ok (text_as_str (E := unit) filter) →
  fw_ok st → fw_total st + produced events < 2 ^ 32 →
  let '(e, st') := run_mqtt_connection resumed topic filter cut events st in
  conserves st st' (produced events) (lost e).
Proof.
  intros Ht Hf Hst Hb. pose proof (produced_nonneg events) as Hn.
  assert (∀ st1, conserves st st1 0 0 →
    let '(e, st') := session_loop topic events (drain_drops st1) in
    conserves st st' (produced events) (lost e)) as Hloop.
  { intros st1 Hc. pose proof (drain_conserves _ (proj1 Hc) ltac:(destruct Hc; lia)) as Hdr.
    pose proof (session_loop_conserves topic events _ Ht (proj1 Hdr)
                  ltac:(destruct Hc, Hdr; lia)) as Hs.
    destruct (session_loop _ _ _) as [e st'].
    eapply conserves_step; [exact Hc|]. by eapply conserves_step; [exact Hdr|]. }
  unfold run_mqtt_connection. destruct resumed.
  - apply Hloop. split; [done|lia].
  - destruct cut as [s|].
    { pose proof (session_conserves s st Hst) as Hc. eapply conserves_step; [exact Hc|].
      apply produce_rest_conserves; destruct Hc; [done|lia]. }
    pose proof (subscribe_spec filter AtLeastOnce (fw_client st) Hf) as Hs.
    destruct (connection_subscribe _ _ _) as [r c]. destruct Hs as [Hsame Hs].
    pose proof (client_conserves c st Hst Hsame) as Hc.
    destruct r as [u|e|]; [by apply Hloop| |done].
    eapply conserves_step; [exact Hc|].
    apply produce_rest_conserves; destruct Hc; [done|lia].
Qed.
End Conservation.

Section TaskConservation.
Context `{M : Minimq} `{!MinimqTotal}.

Lemma transition_conserves state st :
  fw_ok st → conserves st (with_client (client_transition state) st) 0 0.
Proof. intros Hst. by apply (client_conserves (client_transition state (fw_client st))). Qed.

Lemma task_backoff_conserves cause entropy st :
  fw_ok st → conserves st (task_backoff cause entropy st).2 0 0.
Proof. intros Hst. by split; [|unfold fw_total; simpl; lia]. Qed.

Lemma fail_external_conserves cause entropy st :
  fw_ok st → conserves st (fail_external cause entropy st).2 0 0.
Proof.
  intros Hst. unfold fail_external. eapply conserves_step; [|by apply task_backoff_conserves].
  by apply (client_conserves (record_external_failure KindTransport (fw_client st))).
Qed.

Lemma finish_session_conserves env e st :
  fw_ok st →
  let '(r, st') := finish_session (re_entropy env) e st in
  r ≠ RoundPanic →
  conserves st st' 0 0 ∧ session_produced env r = produced (re_events env) ∧
  round_lost r = lost e.
Proof.
  intros Hst. destruct e as [k|k|k| | | |]; cbn [finish_session]; intros Hr.
  - split; [exact (task_backoff_conserves (CauseSession (EndSubscribe k)) (re_entropy env) st Hst)|done].
  - split; [exact (task_backoff_conserves (CauseSession (EndReceive k)) (re_entropy env) st Hst)|done].
  - split; [exact (task_backoff_conserves (CauseSession (EndPublish k)) (re_entropy env) st Hst)|done].
  - split; [by apply transition_conserves|done].
  - split; [by apply transition_conserves|done].
  - split; [|done]. split; [done|lia].
  - done.
Qed.

Lemma part_after_transition env state st part :
  fw_ok st → part_conserves env (with_client (client_transition state) st) part →
  part_conserves env st part.
Proof.
  intros Hst Hp Hr. eapply conserves_step; [by apply transition_conserves|by apply Hp].
Qed.

Lemma fail_external_part env cause st :
  fw_ok st → match cause with CauseSession _ => False | _ => True end →
  part_conserves env st (fail_external cause (re_entropy env) st).
Proof.
  intros Hst Hc _. pose proof (fail_external_conserves cause (re_entropy env) st Hst).
  by destruct cause.
Qed.

Lemma session_round_conserves config env st :
  config_texts_ok config → fw_ok st → fw_total st + produced (re_events env) < 2 ^ 32 →
  part_conserves env st (session_round config env st).
Proof.
  intros (_ & Ht & Hf) Hst Hb. unfold session_round. destruct (re_connect_cut env) as [s0|].
  { apply (part_after_transition env ConnectingSession); [done|].
    intros Hr. eapply conserves_step; [by apply (session_conserves s0)|].
    by apply fail_external_part. }
  unfold client_connect. pose proof (mqt_connect (client_session (fw_client st))) as Hco.
  destruct (mq_connect _) as [[event|e|] s]; [| |done].
  - destruct event; cbv beta iota zeta;
      (match goal with |- context [run_mqtt_connection ?re ?t ?f ?cu ?ev ?s] =>
         pose proof (run_mqtt_connection_conserves re t f cu ev s Ht Hf Hst Hb) as Hr;
         destruct (run_mqtt_connection re t f cu ev s) as [e st'] end);
      (assert (conserves st st' (produced (re_events env)) (lost e)) as Hr' by exact Hr);
      pose proof (finish_session_conserves env e st' (proj1 Hr')) as Hfin;
      destruct (finish_session _ _ _) as [r st'']; intros Hnp;
      destruct (Hfin Hnp) as ([Hok Htot] & Hse & Hlo);
      simpl; rewrite Hse, Hlo; destruct Hr' as [_ Hr']; (split; [done|lia]).
  - intros _. exact (task_backoff_conserves CauseConnect (re_entropy env)
      (with_client (λ _, {| client_session := s; client_snapshot :=
        record_failure (mqtt_error_kind (mqtt_error_from e))
          (transition ConnectingSession (client_snapshot (fw_client st))) |}) st) Hst).
Qed.

Lemma resolve_round_conserves config env st :
  config_texts_ok config → fw_ok st → fw_total st + produced (re_events env) < 2 ^ 32 →
  part_conserves env st (resolve_round config env st).
Proof.
  intros Hcfg Hst Hb. apply (part_after_transition env ResolvingBroker); [done|].
  unfold resolve_round. destruct (text_as_str _) as [h| |]; [|done..].
  destruct (re_dns env) as [query|]; [|by apply fail_external_part].
  destruct (resolve_ipv4 _ _ _) as [[n|e|] addresses];
    [|by apply fail_external_part|done].
  apply (part_after_transition env ConnectingTransport); [done|].
  unfold transport_round. destruct (index _ _) as [address| |]; [|done..].
  destruct (re_tcp env address _) as [[]|]; [|by apply fail_external_part..].
  by apply session_round_conserves.
Qed.

Lemma mqtt_round_conserves config env st :
  config_texts_ok config → fw_ok st →
  fw_total st + Z.of_nat (re_produced env) + produced (re_events env) < 2 ^ 32 →
  let '(r, st') := mqtt_round config env st in
  r ≠ RoundPanic → conserves st st' (round_produced env r) (round_lost r).
Proof.
  intros Hcfg Hst Hb. pose proof (produced_nonneg (re_events env)) as Hn.
  destruct (produce_iter_conserves (re_produced env) st Hst ltac:(lia)) as [Hok Hp].
  assert (part_conserves env (Nat.iter (re_produced env) produce st) (mqtt_round config env st))
    as Hpart.
  { apply (part_after_transition env WaitingForNetwork); [done|]. unfold mqtt_round.
    destruct (re_network env) as [snapshot|e|]; [| |done].
    - destruct (negb (is_dns_ready snapshot)); [split; [done|simpl; lia]|].
      apply resolve_round_conserves; [done..|]. unfold fw_total in *. simpl. lia.
    - split; [done|simpl; lia]. }
  destruct (mqtt_round config env st) as [r st']. intros Hr.
  destruct (Hpart Hr) as [Hok' Ht]. simpl in *. split; [done|].
  change (round_produced env r) with (Z.of_nat (re_produced env) + session_produced env r). lia.
Qed.

Lemma round_lost_nonneg r : 0 ≤ round_lost r.
Proof. by destruct r as [| |[| | |[]]|[]| |]. Qed.

Lemma mqtt_task_spec config envs st :
  config_texts_ok config → Forall env_ok envs → mqtt_backoff_wf (fw_backoff st) → fw_ok st →
  fw_total st + offered envs < 2 ^ 32 →
  let '(rs, st') := mqtt_task config envs st in
  Forall (λ r, r ≠ RoundPanic ∧ ∀ c d, r = RoundRetry c d →
    0 ≤ d ≤ maximum_delay_ms (mb_policy (fw_backoff st))) rs ∧
  conserves st st' (task_produced envs rs) (task_lost rs).
Proof.
  intros Hcfg Henvs. revert st. induction Henvs as [|env envs Henv _ IH]; intros st Hb Hok Ho.
  { split; [constructor|]. split; [done|simpl; lia]. }
  assert (0 ≤ offered envs) as Hnn.
  { clear. induction envs as [|env envs IH]; simpl; [done|].
    pose proof (produced_nonneg (re_events env)). lia. }
  pose proof (produced_nonneg (re_events env)) as Hpn.
  simpl in Ho. cbn [mqtt_task].
  pose proof (mqtt_round_state config env st Hcfg Henv Hb) as Hs.
  pose proof (mqtt_round_conserves config env st Hcfg Hok ltac:(lia)) as Hc.
  destruct (mqtt_round config env st) as [r st1]. destruct Hs as [Hs [Hb1 Hpol]].
  assert (r ≠ RoundPanic ∧ ∀ c d, r = RoundRetry c d →
    0 ≤ d ≤ maximum_delay_ms (mb_policy (fw_backoff st))) as Hr.
  { split; [by intros ->|]. intros c d ->. by destruct c, Hs. }
  destruct (Hc (proj1 Hr)) as [Hok1 Ht1].
  assert (fw_total st1 + offered envs < 2 ^ 32) as Hb2.
  { pose proof (round_lost_nonneg r).
    assert (round_produced env r ≤ Z.of_nat (re_produced env) + produced (re_events env))
      by (unfold round_produced; destruct r as [| |[] ?| | |]; lia). lia. }
  specialize (IH st1 Hb1 Hok1 Hb2). rewrite Hpol in IH.
  destruct r; try (by destruct Hr);
    try (destruct (mqtt_task config envs st1) as [rs st2]; destruct IH as [Hall [Hok2 Ht2]];
         split; [by constructor|]; split; [done|]; simpl in *; lia).
  split; [by repeat constructor|]. split; [done|]. simpl in *.
  destruct envs; simpl; lia.
Qed.
End TaskConservation.

(** * The supervisor *)

Lemma default_delay k (b : Wifi.ReconnectBackoff) e :
  wifi_backoff_at wifi_policy_default k b →
  ∃ d b', wifi_next_delay_ms (E := unit) b e = Ok (d, b') ∧
    wifi_backoff_at wifi_policy_default (S k) b' ∧ 1000 ≤ d ≤ 60000 ∧ (k = 0%nat → d ≤ 1500).
Proof.
  intros Hb. pose proof wifi_policy_default_wf as Hp.
  destruct (wifi_next_delay_at (E := unit) _ k b e Hp Hb) as (b' & Hn & Hb').
  eexists _, b'. split; [exact Hn|]. split; [done|].
  pose proof (wifi_base_range _ k Hp) as Hr. pose proof (wifi_base_lower _ k Hp) as Hlo.
  pose proof (Z.mod_pos_bound e 501 ltac:(done)) as Hm.
  unfold wifi_policy_default in *.
  cbn [Wifi.initial_delay_ms Wifi.maximum_delay_ms maximum_jitter_ms] in *.
  change (500 + 1) with 501. split; [lia|].
  intros ->. unfold wifi_base.
  cbn [Wifi.initial_delay_ms Wifi.maximum_delay_ms maximum_jitter_ms].
  change (2 ^ Z.of_nat 0) with 1. lia.
Qed.

Section SupervisorLemmas.
Context {D W : Type} `{WifiDriverLaws D W}.

Lemma supervise_turn_spec e k (c : Esp32c6StationController D) b :
  wifi_backoff_at wifi_policy_default k b →
  ∃ ok d c' b' k', supervise_turn e (c, b) = Ok (ok, d, (c', b')) ∧
    wifi_backoff_at wifi_policy_default k' b' ∧ station_delay_ok (ok, d) ∧
    run_retries (E := unit) (turn_ops (ok, e)) b = Ok ([d], b') ∧
    sta_state c' = if ok then WifiDisconnected else WifiFailed.
Proof.
  intros Hb. unfold supervise_turn. pose proof (station_connect_cases c) as Hc.
  destruct (station_connect c) as [[st|err|] c1]; [| |done].
  - pose proof (wait_for_disconnect_state c1) as Hw.
    pose proof (wait_for_disconnect_not_Panic c1) as Hnp.
    destruct (wait_for_disconnect c1) as [r c2]. cbn [fst] in Hnp.
    destruct (default_delay 0 (wifi_backoff_reset b) e) as (d & b' & Hn & Hb' & Hd & Hlow);
      [eapply wifi_backoff_at_reset; [apply wifi_policy_default_wf|done]|].
    exists true, d, c2, b', 1%nat. rewrite Hn. unfold turn_ops. simpl. rewrite Hn.
    specialize (Hlow eq_refl). split_and!; try done; [by destruct r|simpl in *; lia..].
  - destruct (default_delay k b e) as (d & b' & Hn & Hb' & Hd & _); [done|].
    exists false, d, c1, b', (S k). rewrite Hn. unfold turn_ops. simpl. rewrite Hn.
    split_and!; done.
Qed.

Lemma run_retries_app ops1 ops2 (b : Wifi.ReconnectBackoff) ds1 b1 ds2 b2 :
  run_retries (E := unit) ops1 b = Ok (ds1, b1) →
  run_retries (E := unit) ops2 b1 = Ok (ds2, b2) →
  run_retries (E := unit) (ops1 ++ ops2) b = Ok (ds1 ++ ds2, b2).
Proof.
  revert b ds1. induction ops1 as [|[e|] ops1 IH]; simpl; intros b ds1 H1 H2.
  - by simplify_eq.
  - apply bind_Ok_iff in H1 as ([d b0] & -> & H1). simpl.
    apply bind_Ok_iff in H1 as ([ds b0'] & H1 & [= <- <-]). by rewrite (IH _ _ H1 H2).
  - by apply IH.
Qed.

Lemma supervise_station_spec es k (c : Esp32c6StationController D) b :
  wifi_backoff_at wifi_policy_default k b →
  ∃ log c' b', supervise_station es (c, b) = Ok (log, (c', b')) ∧
    length log = length es ∧ Forall station_delay_ok log ∧
    run_retries (E := unit) (concat (turn_ops <$> zip log.*1 es)) b = Ok (log.*2, b') ∧
    (∀ log0 turn, log = log0 ++ [turn] →
       sta_state c' = if turn.1 then WifiDisconnected else WifiFailed).
Proof.
  revert k c b. induction es as [|e es IH]; intros k c b Hb.
  { exists [], c, b. split_and!; try done. intros [] ? [=]. }
  destruct (supervise_turn_spec e k c b Hb) as (ok & d & c1 & b1 & k1 & Ht & Hb1 & Hd & Hr & Hs).
  destruct (IH k1 c1 b1 Hb1) as (log & c2 & b2 & Hl & Hlen & Hall & Hrun & Hlast).
  exists ((ok, d) :: log), c2, b2. cbn [supervise_station]. rewrite Ht. cbn [mbind res_bind].
  rewrite Hl. cbn [mbind res_bind]. split_and!; [done|simpl; lia|by constructor| |].
  - csimpl. apply (run_retries_app _ _ _ [d] b1); done.
  - intros log0 turn Heq. destruct log0 as [|t log0]; [|by simplify_eq/=; eapply Hlast].
    simplify_eq/=. destruct es; [|by simpl in *; lia]. simpl in Hl. by simplify_eq.
Qed.
End SupervisorLemmas.

(** * Properties *)

(** C15: each round of the MQTT task leaves a truthful snapshot, with one
    exception. Over any engine whose calls return, with readable
    configuration texts, a round never panics, keeps the back-off well formed
    under its policy, sleeps between zero and the policy's maximum, and shows:
    waiting for the network after a network error, missing DNS or lost IP;
    backing off after a failed DNS query, TCP connect or CONNECT; connected or
    resumed while a session runs. After a session that failed, it shows
    backing off with the error's kind only when the kind is transport,
    protocol or disconnection; after a capacity, not-ready or configuration
    error the task sleeps its back-off while the snapshot still says
    connected. *)
Theorem mqtt_round_truthful `{M : Minimq} `{!MinimqTotal} (config : MqttDevelopmentConfig)
    (env : RoundEnv) (st : FwState) :
  config_texts_ok config → env_ok env → mqtt_backoff_wf (fw_backoff st) →
  let '(r, st') := mqtt_round config env st in
  round_state (maximum_delay_ms (mb_policy (fw_backoff st))) r (client_snapshot (fw_client st')) ∧
  mqtt_backoff_wf (fw_backoff st') ∧ mb_policy (fw_backoff st') = mb_policy (fw_backoff st).
Proof. apply mqtt_round_state. Qed.

Lemma mqtt_round_truthful_witness :
  ∃ config, fixture_config = Some config ∧
    let '(r, st) := mqtt_round config (fixture_round [EvProduce; EvOutbound 0; EvInbound; EvInbound])
      (fw_init fixture_client) in
    r = RoundRetry (CauseSession (EndReceive KindDisconnected)) 1003 ∧
    round_state 60000 r (client_snapshot (fw_client st)).
Proof.
  eexists. split; [vm_compute; reflexivity|].
  match goal with |- let '(_, _) := mqtt_round ?c ?e ?s in _ =>
    pose proof (mqtt_round_truthful (M := loopback) c e s) as Ht;
    destruct (mqtt_round c e s) as [r st] eqn:Hr end.
  assert (r = RoundRetry (CauseSession (EndReceive KindDisconnected)) 1003) as ->.
  { vm_compute in Hr. by injection Hr. }
  split; [done|]. apply Ht.
  - unfold config_texts_ok, is_ok. split_and!; eexists; vm_compute; reflexivity.
  - by split.
  - split; [|unfold is_u; simpl; lia]. unfold mqtt_policy_wf, is_u. simpl. lia.
Defined.

(** C3: no message disappears uncounted, except with an unfinished publish. Over any
    number of rounds of the MQTT task interleaved with the producer, from the
    initial state, every telemetry message offered is published, queued (at
    most four), counted as dropped (in the snapshot or still in the atomic)
    or lost in a publish that failed or that the loss of IP cut short, as long as fewer than 2^32 are offered;
    no round panics and no retry delay leaves 0 to 60 s. *)
Theorem mqtt_messages_conserved `{M : Minimq} `{!MinimqTotal} (config : MqttDevelopmentConfig)
    (envs : list RoundEnv) (session : mq_Session) :
  config_texts_ok config → Forall env_ok envs → offered envs < 2 ^ 32 →
  let st := fw_init {| client_session := session; client_snapshot := mqtt_snapshot_default |} in
  let '(rs, st') := mqtt_task config envs st in
  task_produced envs rs =
    publishes (client_snapshot (fw_client st')) + Z.of_nat (length (fw_queue st')) +
    queue_drops (client_snapshot (fw_client st')) + fw_drops st' + task_lost rs ∧
  (length (fw_queue st') ≤ 4)%nat ∧
  Forall (λ r, r ≠ RoundPanic ∧ ∀ c d, r = RoundRetry c d → 0 ≤ d ≤ 60000) rs.
Proof.
  intros Hcfg Henvs Ho st.
  pose proof (mqtt_task_spec config envs st Hcfg Henvs) as Hs.
  destruct (mqtt_task config envs st) as [rs st'].
  destruct Hs as [Hall [(_ & _ & _ & Hl) Ht]].
  - split; [|unfold is_u; simpl; lia]. unfold mqtt_policy_wf, is_u. simpl. lia.
  - repeat split; simpl; unfold MQTT_OUTBOUND_CHANNEL_DEPTH; lia.
  - unfold fw_total. simpl. lia.
  - split_and!; [|done|done]. unfold fw_total in Ht. simpl in Ht. lia.
Qed.

Lemma mqtt_messages_conserved_witness :
  ∃ config, fixture_config = Some config ∧
    let envs := [fixture_round [EvProduce; EvOutbound 0; EvInbound; EvInbound; EvProduce];
                 fixture_round (replicate 5 EvProduce ++ [EvOutbound 2; EvIpDown])] in
    let '(rs, st) := mqtt_task config envs (fw_init fixture_client) in
    task_produced envs rs = 11 ∧ task_lost rs = 0 ∧ length (fw_queue st) = 4%nat ∧
    publishes (client_snapshot (fw_client st)) + 4 +
      queue_drops (client_snapshot (fw_client st)) + fw_drops st = 11.
Proof.
  eexists. split; [vm_compute; reflexivity|]. intros envs.
  match goal with |- let '(_, _) := mqtt_task ?c ?e (fw_init ?cl) in _ =>
    pose proof (mqtt_messages_conserved (M := loopback) c e (client_session cl)) as Ht;
    cbv zeta in Ht; change (@Build_Client loopback (client_session cl) mqtt_snapshot_default) with cl in Ht;
    destruct (mqtt_task c e (fw_init cl)) as [rs st] eqn:Hr end.
  assert (task_produced envs rs = 11 ∧ task_lost rs = 0 ∧ length (fw_queue st) = 4%nat)
    as (Hp & Hl & Hq).
  { vm_compute in Hr. injection Hr as <- <-. by vm_compute. }
  destruct Ht as (Ht & _).
  - unfold config_texts_ok, is_ok. split_and!; eexists; vm_compute; reflexivity.
  - by repeat constructor.
  - by vm_compute.
  - split_and!; [done..|]. rewrite Hp, Hl, Hq in Ht. lia.
Defined.

(** C16: the station supervisor. With any driver that respects its bounds, for
    every sequence of random words, the supervisor's loop makes a turn for
    each: its delays are those of the default back-off policy, reset by every
    successful association, lie between 1 and 60 s, and are at most 1.5 s
    right after a lost association; at each sleep the controller's state is
    disconnected after a success and failed after a failure. *)
Theorem station_supervisor_paced {D W} `{WifiDriverLaws D W} (es : list Z)
    (c : Esp32c6StationController D) :
  ∃ log c' b', supervise_station es (c, wifi_backoff_default) = Ok (log, (c', b')) ∧
    length log = length es ∧
    run_retries (E := unit) (concat (turn_ops <$> zip log.*1 es)) wifi_backoff_default =
      Ok (log.*2, b') ∧
    Forall (λ turn, 1000 ≤ turn.2 ≤ 60000 ∧ (turn.1 = true → turn.2 ≤ 1500)) log ∧
    (∀ log0 turn, log = log0 ++ [turn] →
       sta_state c' = if turn.1 then WifiDisconnected else WifiFailed).
Proof.
  destruct (supervise_station_spec es 0 c wifi_backoff_default) as (log & c' & b' & H1 & H2 & H3 & H4 & H5).
  - apply wifi_backoff_at_new, wifi_policy_default_wf.
  - exists log, c', b'. by split_and!.
Qed.

Lemma station_supervisor_paced_witness :
  let c := {| sta_controller := 0%nat; sta_state := WifiReady |} in
  ∃ log c' b', supervise_station [0; 7; 9] (c, wifi_backoff_default) = Ok (log, (c', b')) ∧
    length log = 3%nat.
Proof.
  intros c. destruct (station_supervisor_paced [0; 7; 9] c) as (log & c' & b' & H1 & H2 & _).
  exists log, c', b'. split; [exact H1|exact H2].
Defined.
