(* ===== verification/Advertisement.v ===== *)
(** [firmware/seeed/xiao-esp32c6-beacon-scanner/src/main.rs], advertisements:
    local names, beacon formats, [AdvertisementMetadata::parse], and the texts
    the report shows of them.

    The decoder of advertising structures, the address type's display and the
    two HCI address kinds come from [trouble-host]: they are the class
    [TroubleHost]. *)
From stdpp Require Import prelude list numbers option strings gmap.
From Stdlib Require Import ZArith.
From S2P Require Import Prelude Text Bluetooth.
Local Open Scope Z_scope.

Definition LOCAL_NAME_CAPACITY : nat := 29.

Definition BEACON_FORMAT_IBEACON : Z := 1.
Definition BEACON_FORMAT_EDDYSTONE_UID : Z := 2.
Definition BEACON_FORMAT_EDDYSTONE_URL : Z := 4.
Definition BEACON_FORMAT_EDDYSTONE_TLM : Z := 8.
Definition BEACON_FORMAT_EDDYSTONE_EID : Z := 16.
Definition BEACON_FORMAT_ALTBEACON : Z := 32.

(** * Names, beacon formats, advertisement metadata *)

(** [Address]: its kind's raw value and its six bytes. *)
Record Address : Type := { addr_kind : Z; addr_bytes : list Z }.

#[global] Instance Address_eq_dec : EqDecision Address.
Proof. solve_decision. Defined.
#[global] Instance Address_countable : Countable Address.
Proof.
  apply (inj_countable' (λ a, (addr_kind a, addr_bytes a))
    (λ '(k, b), {| addr_kind := k; addr_bytes := b |})). by intros [].
Defined.

Record LocalName : Type := { local_bytes : list Z; local_len : Z }.

#[global] Instance LocalName_eq_dec : EqDecision LocalName.
Proof. solve_decision. Defined.

Definition local_name_from_bytes (value : list Z) : res unit (option LocalName) :=
  if match value with [] => true | _ => false end
     || (LOCAL_NAME_CAPACITY <? length value)%nat
     || match utf8_decode value with Some _ => false | None => true end
  then Ok None
  else
    bytes ← inline_fill 0 LOCAL_NAME_CAPACITY value;
    Ok (Some {| local_bytes := bytes; local_len := wrap_u 8 (Z.of_nat (length value)) |}).

Definition local_name_as_str (n : LocalName) : res unit (list Z) :=
  bytes ← inline_view (local_bytes n) (local_len n); Ok (from_utf8_or_empty bytes).

Record BeaconMetadata : Type := { feasycom : bool; formats : Z }.

Definition beacon_metadata_new : BeaconMetadata := {| feasycom := false; formats := 0 |}.

Definition beacon_merge (b other : BeaconMetadata) : BeaconMetadata :=
  {| feasycom := feasycom b || feasycom other; formats := Z.lor (formats b) (formats other) |}.

Definition is_beacon (b : BeaconMetadata) : bool := feasycom b || negb (formats b =? 0).

Record AdvertisementMetadata : Type := {
  ad_name : option LocalName;
  ad_manufacturer : option Z;
  ad_beacon : BeaconMetadata
}.

Definition ad_metadata_new : AdvertisementMetadata :=
  {| ad_name := None; ad_manufacturer := None; ad_beacon := beacon_metadata_new |}.

(** The variants of [trouble_host::advertise::AdStructure] that the firmware
    writes or distinguishes. *)
Inductive AdStructure : Type :=
  | AdFlags (flags : Z)
  | CompleteLocalName (name : list Z)
  | ShortenedLocalName (name : list Z)
  | ServiceData16 (uuid : list Z) (data : list Z)
  | ManufacturerSpecificData (company_identifier : Z) (payload : list Z)
  | AdOther.

Class TroubleHost : Type := {
  (** [AdStructure::decode]; [None] is an item that fails to decode *)
  ad_decode : list Z → list (option AdStructure);
  hci_address_display : Address → list Z;
  KIND_PUBLIC : Z;
  KIND_RANDOM : Z
}.

Definition mark_feasycom (b : BeaconMetadata) : BeaconMetadata :=
  {| feasycom := true; formats := formats b |}.
Definition mark_format (flag : Z) (b : BeaconMetadata) : BeaconMetadata :=
  {| feasycom := feasycom b; formats := Z.lor (formats b) flag |}.

(** The format of an Eddystone frame, by its first byte. *)
Definition eddystone_flag (data : list Z) : Z :=
  match head data with
  | Some b =>
    if b =? 0x00 then BEACON_FORMAT_EDDYSTONE_UID
    else if b =? 0x10 then BEACON_FORMAT_EDDYSTONE_URL
    else if b =? 0x20 then BEACON_FORMAT_EDDYSTONE_TLM
    else if b =? 0x30 then BEACON_FORMAT_EDDYSTONE_EID
    else 0
  | None => 0
  end.

Definition manufacturer_beacon (company : Z) (payload : list Z) (b : BeaconMetadata) :
    BeaconMetadata :=
  let b := if (company =? 0x004C) && (23 <=? length payload)%nat
              && starts_with [0x02; 0x15] payload
           then mark_format BEACON_FORMAT_IBEACON b else b in
  let b := if (24 <=? length payload)%nat && starts_with [0xBE; 0xAC] payload
           then mark_format BEACON_FORMAT_ALTBEACON b else b in
  if company =? 0xFFF0 then mark_feasycom b else b.

Definition service_beacon (uuid data : list Z) (b : BeaconMetadata) : BeaconMetadata :=
  if bool_decide (uuid = [0xF0; 0xFF]) then
    if (11 <=? length data)%nat then mark_feasycom b else b
  else if bool_decide (uuid = [0xAA; 0xFE]) then mark_format (eddystone_flag data) b
  else b.

(** One turn of the loop of [AdvertisementMetadata::parse]. *)
Definition ad_metadata_step (structure : AdStructure) (m : AdvertisementMetadata) :
    res unit AdvertisementMetadata :=
  match structure with
  | CompleteLocalName name | ShortenedLocalName name =>
    name ← local_name_from_bytes name;
    Ok {| ad_name := name; ad_manufacturer := ad_manufacturer m; ad_beacon := ad_beacon m |}
  | ServiceData16 uuid data =>
    Ok {| ad_name := ad_name m; ad_manufacturer := ad_manufacturer m;
          ad_beacon := service_beacon uuid data (ad_beacon m) |}
  | ManufacturerSpecificData company payload =>
    Ok {| ad_name := ad_name m; ad_manufacturer := Some company;
          ad_beacon := manufacturer_beacon company payload (ad_beacon m) |}
  | AdFlags _ | AdOther => Ok m
  end.

Fixpoint ad_metadata_loop (structures : list AdStructure) (m : AdvertisementMetadata) :
    res unit AdvertisementMetadata :=
  match structures with
  | [] => Ok m
  | s :: structures => m ← ad_metadata_step s m; ad_metadata_loop structures m
  end.

(** [AdvertisementMetadata::parse] *)
Definition ad_metadata_parse `{TroubleHost} (data : list Z) : res unit AdvertisementMetadata :=
  ad_metadata_loop (omap id (ad_decode data)) ad_metadata_new.

(** * Labels and quoted names *)

Definition beacon_labels : list (Z * list Z) :=
  [(BEACON_FORMAT_IBEACON, lit "iBeacon");
   (BEACON_FORMAT_EDDYSTONE_UID, lit "E-UID");
   (BEACON_FORMAT_EDDYSTONE_URL, lit "E-URL");
   (BEACON_FORMAT_EDDYSTONE_TLM, lit "E-TLM");
   (BEACON_FORMAT_EDDYSTONE_EID, lit "E-EID");
   (BEACON_FORMAT_ALTBEACON, lit "AltBeacon")].

(** The loop of [BeaconLabel::fmt]: the text so far and [wrote_label]. *)
Fixpoint beacon_label_loop (labels : list (Z * list Z)) (bits : Z) (out : list Z)
    (wrote_label : bool) : list Z * bool :=
  match labels with
  | [] => (out, wrote_label)
  | (flag, label) :: labels =>
    if negb (Z.land bits flag =? 0)
    then beacon_label_loop labels bits
           (out ++ (if wrote_label then [0x2F] else []) ++ label) true
    else beacon_label_loop labels bits out wrote_label
  end.

Definition beacon_label_display (b : BeaconMetadata) : list Z :=
  let '(out, wrote_label) :=
    if feasycom b then beacon_label_loop beacon_labels (formats b) (lit "Feasy") true
    else beacon_label_loop beacon_labels (formats b) [] false in
  if wrote_label then out else out ++ [0x2D].

(** One character of [DisplayName::fmt]; 0x22 is the quote, 0x5C the
    backslash. *)
Definition display_char (c : Z) : list Z :=
  if (c =? 0x22) || (c =? 0x5C) then 0x5C :: utf8_encode c
  else if is_control c then [0x2E]
  else utf8_encode c.

Definition display_name (n : option LocalName) : res unit (list Z) :=
  match n with
  | None => Ok [0x2D]
  | Some n =>
    s ← local_name_as_str n;
    Ok ([0x22] ++ concat (display_char <$> default [] (utf8_decode s)) ++ [0x22])
  end.

(** A codec for evaluation: a structure is its length, its type and its
    content. *)
Definition ad_structure_bytes (s : AdStructure) : Z * list Z :=
  match s with
  | AdFlags flags => (0x01, [flags])
  | ShortenedLocalName name => (0x08, name)
  | CompleteLocalName name => (0x09, name)
  | ServiceData16 uuid data => (0x16, uuid ++ data)
  | ManufacturerSpecificData c payload => (0xFF, [c mod 256; c / 256] ++ payload)
  | AdOther => (0x00, [])
  end.

Definition ad_structure_encode (s : AdStructure) : list Z :=
  let '(kind, content) := ad_structure_bytes s in
  Z.of_nat (S (length content)) :: kind :: content.

Definition ad_structure_decode (kind : Z) (content : list Z) : option AdStructure :=
  if kind =? 0x01 then AdFlags <$> head content
  else if kind =? 0x08 then Some (ShortenedLocalName content)
  else if kind =? 0x09 then Some (CompleteLocalName content)
  else if kind =? 0x16 then
    match content with a :: b :: data => Some (ServiceData16 [a; b] data) | _ => None end
  else if kind =? 0xFF then
    match content with
    | lo :: hi :: payload => Some (ManufacturerSpecificData (hi * 256 + lo) payload)
    | _ => None
    end
  else Some AdOther.

(** [fuel] is the number of bytes. *)
Fixpoint ad_bytes_decode (fuel : nat) (data : list Z) : list (option AdStructure) :=
  match fuel, data with
  | S fuel, len :: kind :: data =>
    let n := Z.to_nat (len - 1) in
    ad_structure_decode kind (take n data) :: ad_bytes_decode fuel (drop n data)
  | _, _ => []
  end.

#[export] Instance fixture_host : TroubleHost :=
  {| ad_decode data := ad_bytes_decode (length data) data;
     hci_address_display a := concat (hex2 true <$> addr_bytes a);
     KIND_PUBLIC := 0; KIND_RANDOM := 1 |}.

(** * Specification *)

Definition name_ok (n : LocalName) : Prop :=
  ∃ v, inline_holds 0 LOCAL_NAME_CAPACITY (local_bytes n) (local_len n) v ∧ is_str v.

Definition metadata_ok (m : AdvertisementMetadata) : Prop :=
  ∀ n, ad_name m = Some n → name_ok n.

(** Whether a beacon shows a format flag, as [BeaconLabel] tests it. *)
Definition shows (flag : Z) (b : BeaconMetadata) : bool := negb (Z.land (formats b) flag =? 0).

Definition structure_name (s : AdStructure) : option (list Z) :=
  match s with CompleteLocalName n | ShortenedLocalName n => Some n | _ => None end.
Definition structure_company (s : AdStructure) : option Z :=
  match s with ManufacturerSpecificData c _ => Some c | _ => None end.

(** What a structure alone says of the beacon. *)
Definition structure_beacon (s : AdStructure) : BeaconMetadata :=
  match s with
  | ServiceData16 uuid data => service_beacon uuid data beacon_metadata_new
  | ManufacturerSpecificData c p => manufacturer_beacon c p beacon_metadata_new
  | _ => beacon_metadata_new
  end.

(** A name field of [value]. *)
Definition name_of (value : list Z) (n : option LocalName) : Prop :=
  if decide (value ≠ [] ∧ (length value ≤ LOCAL_NAME_CAPACITY)%nat ∧ is_str value)
  then ∃ name, n = Some name ∧
    inline_holds 0 LOCAL_NAME_CAPACITY (local_bytes name) (local_len name) value
  else n = None.

(** The merge of what the structures say. *)
Definition structures_beacon (ss : list AdStructure) : BeaconMetadata :=
  foldr (λ s b, beacon_merge (structure_beacon s) b) beacon_metadata_new ss.

(** The frames each label stands for. *)
Inductive frame_of : Z → AdStructure → Prop :=
  | FrameIBeacon payload :
    (23 ≤ length payload)%nat → starts_with [0x02; 0x15] payload = true →
    frame_of BEACON_FORMAT_IBEACON (ManufacturerSpecificData 0x004C payload)
  | FrameAltBeacon company payload :
    (24 ≤ length payload)%nat → starts_with [0xBE; 0xAC] payload = true →
    frame_of BEACON_FORMAT_ALTBEACON (ManufacturerSpecificData company payload)
  | FrameUid data :
    frame_of BEACON_FORMAT_EDDYSTONE_UID (ServiceData16 [0xAA; 0xFE] (0x00 :: data))
  | FrameUrl data :
    frame_of BEACON_FORMAT_EDDYSTONE_URL (ServiceData16 [0xAA; 0xFE] (0x10 :: data))
  | FrameTlm data :
    frame_of BEACON_FORMAT_EDDYSTONE_TLM (ServiceData16 [0xAA; 0xFE] (0x20 :: data))
  | FrameEid data :
    frame_of BEACON_FORMAT_EDDYSTONE_EID (ServiceData16 [0xAA; 0xFE] (0x30 :: data)).

Inductive feasycom_frame : AdStructure → Prop :=
  | FeasyService data :
    (11 ≤ length data)%nat → feasycom_frame (ServiceData16 [0xF0; 0xFF] data)
  | FeasyCompany payload : feasycom_frame (ManufacturerSpecificData 0xFFF0 payload).

Definition beacon_flags : list Z := fst <$> beacon_labels.

Definition label_names (b : BeaconMetadata) (labels : list (Z * list Z)) : list (list Z) :=
  omap (λ '(flag, label), if shows flag b then Some label else None) labels.

(** The texts of the labels [BeaconLabel] writes. *)
Definition shown_labels (b : BeaconMetadata) : list (list Z) :=
  (if feasycom b then [lit "Feasy"] else []) ++ label_names b beacon_labels.

Definition masked (c : Z) : Z := if is_control c then 0x2E else c.

(** Reads the text between the quotes back. *)
Fixpoint unquote (l : list Z) : option (list Z) :=
  match l with
  | [] => Some []
  | c :: l =>
    if c =? 0x5C then
      match l with
      | d :: l => if (d =? 0x22) || (d =? 0x5C) then cons d <$> unquote l else None
      | [] => None
      end
    else if c =? 0x22 then None else cons c <$> unquote l
  end.

(** The characters [display_char] writes. *)
Definition display_chars (c : Z) : list Z :=
  if (c =? 0x22) || (c =? 0x5C) then [0x5C; c] else [masked c].

(** * Lemmas *)

Section Advertisements.

Lemma local_name_from_bytes_spec value :
  ∃ n, local_name_from_bytes value = Ok n ∧ name_of value n.
Proof.
  unfold local_name_from_bytes, name_of.
  destruct (decide (_ ∧ _ ∧ _)) as [(Hne & Hl & Hs)|Hbad].
  - destruct value as [|x value]; [done|]. cbn [orb].
    destruct (Nat.ltb_spec LOCAL_NAME_CAPACITY (length (x :: value))); [lia|].
    destruct Hs as [cs ->]. cbn [orb].
    destruct (inline_fill_build (E := unit) 0 8 LOCAL_NAME_CAPACITY (x :: value))
      as (cells & -> & Hh); [done|lia|].
    eexists. split; [done|]. eexists. split; [done|]. exact Hh.
  - exists None. split; [|done]. case_match; [done|]. exfalso. apply Hbad.
    destruct value as [|x value]; [done|]. cbn [orb] in *.
    destruct (Nat.ltb_spec LOCAL_NAME_CAPACITY (length (x :: value))); [done|].
    split_and!; [done|done|]. unfold is_str. by destruct (utf8_decode _).
Qed.

Lemma name_of_ok value n name : name_of value n → n = Some name → name_ok name.
Proof.
  unfold name_of. case_decide as Hd; [|by intros ->].
  intros (name' & -> & Hh) [= ->]. exists value. naive_solver.
Qed.

Lemma merge_assoc a b c : beacon_merge a (beacon_merge b c) = beacon_merge (beacon_merge a b) c.
Proof. unfold beacon_merge. simpl. by rewrite orb_assoc, Z.lor_assoc. Qed.

Lemma merge_new b : beacon_merge b beacon_metadata_new = b.
Proof. unfold beacon_merge. destruct b. simpl. by rewrite orb_false_r, Z.lor_0_r. Qed.

Lemma merge_new_l b : beacon_merge beacon_metadata_new b = b.
Proof. by destruct b. Qed.

Lemma service_beacon_merge uuid data b :
  service_beacon uuid data b = beacon_merge b (service_beacon uuid data beacon_metadata_new).
Proof.
  unfold service_beacon. repeat case_match; try (by rewrite merge_new); destruct b;
    unfold beacon_merge; simpl; by rewrite ?orb_true_r, ?orb_false_r, ?Z.lor_0_r.
Qed.

Lemma manufacturer_beacon_merge c p b :
  manufacturer_beacon c p b = beacon_merge b (manufacturer_beacon c p beacon_metadata_new).
Proof.
  unfold manufacturer_beacon. repeat case_match; try (by rewrite merge_new); destruct b;
    unfold beacon_merge, mark_format, mark_feasycom; simpl;
    by rewrite ?orb_true_r, ?orb_false_r, ?Z.lor_0_r, <-?Z.lor_assoc.
Qed.

Lemma ad_metadata_step_spec s m :
  ∃ m', ad_metadata_step s m = Ok m' ∧
    (match structure_name s with
     | Some value => name_of value (ad_name m') | None => ad_name m' = ad_name m end) ∧
    ad_manufacturer m' = (match structure_company s with
      | Some c => Some c | None => ad_manufacturer m end) ∧
    ad_beacon m' = beacon_merge (ad_beacon m) (structure_beacon s).
Proof.
  destruct s as [?|value|value|uuid data|c p|]; simpl.
  - eexists. split; [done|]. by rewrite merge_new.
  - destruct (local_name_from_bytes_spec value) as (n & -> & Hn).
    eexists. split; [done|]. simpl. by rewrite merge_new.
  - destruct (local_name_from_bytes_spec value) as (n & -> & Hn).
    eexists. split; [done|]. simpl. by rewrite merge_new.
  - eexists. split; [done|]. simpl. by rewrite <-service_beacon_merge.
  - eexists. split; [done|]. simpl. by rewrite <-manufacturer_beacon_merge.
  - eexists. split; [done|]. by rewrite merge_new.
Qed.

Lemma ad_metadata_loop_spec ss m :
  ∃ m', ad_metadata_loop ss m = Ok m' ∧
    (match last (omap structure_name ss) with
     | Some value => name_of value (ad_name m') | None => ad_name m' = ad_name m end) ∧
    ad_manufacturer m' = (match last (omap structure_company ss) with
      | Some c => Some c | None => ad_manufacturer m end) ∧
    ad_beacon m' = beacon_merge (ad_beacon m) (structures_beacon ss).
Proof.
  revert m. induction ss as [|s ss IH]; intros m.
  { exists m. simpl. by rewrite merge_new. }
  cbn [ad_metadata_loop]. destruct (ad_metadata_step_spec s m) as (m1 & -> & Hn & Hc & Hb).
  cbn [mbind res_bind]. destruct (IH m1) as (m2 & -> & Hn2 & Hc2 & Hb2).
  exists m2. split; [done|]. csimpl. rewrite Hb2, Hb, merge_assoc, Hc2, Hc. split_and!; [| |done].
  - destruct (structure_name s) as [value|]; [|by destruct (last _); [|congruence]].
    rewrite last_cons. destruct (last (omap structure_name ss)); [done|by rewrite Hn2].
  - destruct (structure_company s) as [c|]; [|done]. rewrite last_cons.
    by destruct (last (omap structure_company ss)).
Qed.

Lemma ad_metadata_parse_ok `{TroubleHost} data :
  ∃ m, ad_metadata_parse data = Ok m ∧ metadata_ok m.
Proof.
  destruct (ad_metadata_loop_spec (omap id (ad_decode data)) ad_metadata_new)
    as (m & Hm & Hn & _). exists m. split; [done|]. intros n Hname.
  destruct (last _) as [value|]; [by eapply name_of_ok|]. by rewrite Hname in Hn.
Qed.

Lemma nonzero_lor a b : negb (Z.lor a b =? 0) = negb (a =? 0) || negb (b =? 0).
Proof.
  destruct (Z.eqb_spec (Z.lor a b) 0) as [[-> ->]%Z.lor_eq_0_iff|Hne]; [done|].
  destruct (Z.eqb_spec a 0), (Z.eqb_spec b 0); subst; done.
Qed.

Lemma shows_merge flag a b :
  shows flag (beacon_merge a b) = shows flag a || shows flag b.
Proof. unfold shows. simpl. by rewrite Z.land_lor_distr_l, nonzero_lor. Qed.

Lemma shows_structures flag ss :
  shows flag (structures_beacon ss) = true ↔ ∃ s, s ∈ ss ∧ shows flag (structure_beacon s) = true.
Proof.
  induction ss as [|s ss IH].
  - split; [done|]. by intros (? & ?%elem_of_nil & _).
  - cbn [structures_beacon foldr]. rewrite shows_merge, orb_true_iff.
    unfold structures_beacon in IH. rewrite IH. setoid_rewrite elem_of_cons. naive_solver.
Qed.

Lemma feasycom_structures ss :
  feasycom (structures_beacon ss) = true ↔
  ∃ s, s ∈ ss ∧ feasycom (structure_beacon s) = true.
Proof.
  induction ss as [|s ss IH].
  - split; [done|]. by intros (? & ?%elem_of_nil & _).
  - cbn [structures_beacon foldr beacon_merge feasycom]. rewrite orb_true_iff.
    unfold structures_beacon in IH. rewrite IH. setoid_rewrite elem_of_cons. naive_solver.
Qed.

(** A case analysis on a label's flag. *)
Lemma beacon_flags_ind (P : Z → Prop) :
  P BEACON_FORMAT_IBEACON → P BEACON_FORMAT_EDDYSTONE_UID → P BEACON_FORMAT_EDDYSTONE_URL →
  P BEACON_FORMAT_EDDYSTONE_TLM → P BEACON_FORMAT_EDDYSTONE_EID → P BEACON_FORMAT_ALTBEACON →
  ∀ flag, flag ∈ beacon_flags → P flag.
Proof.
  intros ?????? flag Hf. unfold beacon_flags in Hf. simpl in Hf.
  repeat (apply elem_of_cons in Hf as [->|Hf]; [done|]). by apply elem_of_nil in Hf.
Qed.

Lemma manufacturer_shows flag c p :
  shows flag (manufacturer_beacon c p beacon_metadata_new) =
  ((c =? 0x004C) && (23 <=? length p)%nat && starts_with [0x02; 0x15] p &&
     negb (Z.land BEACON_FORMAT_IBEACON flag =? 0)) ||
  ((24 <=? length p)%nat && starts_with [0xBE; 0xAC] p &&
     negb (Z.land BEACON_FORMAT_ALTBEACON flag =? 0)).
Proof.
  unfold manufacturer_beacon, shows.
  destruct ((c =? 0x004C) && (23 <=? length p)%nat && starts_with [0x02; 0x15] p),
    ((24 <=? length p)%nat && starts_with [0xBE; 0xAC] p), (c =? 0xFFF0);
    cbn [formats mark_format mark_feasycom beacon_metadata_new andb orb];
    rewrite ?Z.lor_0_l, ?Z.land_lor_distr_l, ?nonzero_lor, ?orb_false_r; done.
Qed.

Lemma manufacturer_frame flag c p :
  flag ∈ beacon_flags →
  shows flag (manufacturer_beacon c p beacon_metadata_new) = true ↔
  frame_of flag (ManufacturerSpecificData c p).
Proof.
  intros Hf. rewrite manufacturer_shows, orb_true_iff, !andb_true_iff, Z.eqb_eq, !Nat.leb_le.
  revert flag Hf. apply beacon_flags_ind; cbn; split; try (by inversion 1);
    try (by intros [[_ ?]|[_ ?]]).
  - intros [[[[-> ?] ?] _]|[_ ?]]; [by constructor|done].
  - inversion 1; subst; auto.
  - intros [[_ ?]|[[? ?] _]]; [done|by constructor].
  - inversion 1; subst; auto.
Qed.

Lemma eddystone_frame flag data :
  flag ∈ beacon_flags →
  negb (Z.land (eddystone_flag data) flag =? 0) = true ↔
  frame_of flag (ServiceData16 [0xAA; 0xFE] data).
Proof.
  intros Hf. destruct data as [|x data]; [split; [done|by inversion 1]|].
  unfold eddystone_flag. cbn [head].
  destruct (Z.eqb_spec x 0x00) as [->|?]; [|destruct (Z.eqb_spec x 0x10) as [->|?];
    [|destruct (Z.eqb_spec x 0x20) as [->|?]; [|destruct (Z.eqb_spec x 0x30) as [->|?]]]];
    revert flag Hf; apply beacon_flags_ind; cbn;
    split; try done; try (by inversion 1; subst); intros _; constructor.
Qed.

Lemma shows_structure flag s :
  flag ∈ beacon_flags → shows flag (structure_beacon s) = true ↔ frame_of flag s.
Proof.
  intros Hf. destruct s as [?|n|n|uuid data|c p|]; cbn [structure_beacon];
    [split; [done|by inversion 1]..| |by apply manufacturer_frame|split; [done|by inversion 1]].
  unfold service_beacon. case_bool_decide as Hu; [|case_bool_decide as Hu2]; subst.
  - split; [by case_match|by inversion 1].
  - by apply eddystone_frame.
  - split; [done|]. inversion 1; by subst.
Qed.

Lemma feasycom_structure s :
  feasycom (structure_beacon s) = true ↔ feasycom_frame s.
Proof.
  destruct s as [?|n|n|uuid data|c p|]; cbn [structure_beacon];
    [split; [done|by inversion 1]..| | |split; [done|by inversion 1]].
  - unfold service_beacon. case_bool_decide as Hu; [|case_bool_decide as Hu2]; subst.
    + destruct (Nat.leb_spec 11 (length data)); (split; [|inversion 1]); try done; [by constructor|lia].
    + split; [done|]. inversion 1.
    + split; [done|]. inversion 1; by subst.
  - unfold manufacturer_beacon. destruct (Z.eqb_spec c 0xFFF0) as [->|Hc].
    + split; [constructor|done].
    + split; [by repeat case_match|]. inversion 1; by subst.
Qed.

Lemma structures_flags ss flag :
  flag ∈ beacon_flags →
  shows flag (structures_beacon ss) = true ↔ ∃ s, s ∈ ss ∧ frame_of flag s.
Proof. intros Hf. rewrite shows_structures. by setoid_rewrite shows_structure. Qed.

Lemma structures_feasycom ss :
  feasycom (structures_beacon ss) = true ↔ ∃ s, s ∈ ss ∧ feasycom_frame s.
Proof. rewrite feasycom_structures. by setoid_rewrite feasycom_structure. Qed.
End Advertisements.

Section Labels.

Lemma join_snoc c ps p : ps ≠ [] → join_with c (ps ++ [p]) = join_with c ps ++ [c] ++ p.
Proof.
  induction ps as [|q ps IH]; [done|]. intros _. destruct ps as [|q' ps]; [done|].
  change (join_with c ((q :: q' :: ps) ++ [p])) with (q ++ c :: join_with c ((q' :: ps) ++ [p])).
  rewrite IH by done. change (join_with c (q :: q' :: ps)) with (q ++ c :: join_with c (q' :: ps)).
  by rewrite <-app_assoc.
Qed.

Lemma beacon_label_loop_spec labels b done_ :
  beacon_label_loop labels (formats b) (join_with 0x2F done_)
    (match done_ with [] => false | _ => true end) =
  (join_with 0x2F (done_ ++ label_names b labels),
   match done_ ++ label_names b labels with [] => false | _ => true end).
Proof.
  revert done_. induction labels as [|[flag label] labels IH]; intros done_.
  { cbn [beacon_label_loop label_names omap list_omap]. by rewrite app_nil_r. }
  cbn [beacon_label_loop]. change (negb (Z.land (formats b) flag =? 0)) with (shows flag b).
  unfold label_names. csimpl. destruct (shows flag b) eqn:Hs; [|apply IH].
  specialize (IH (done_ ++ [label])). rewrite <-app_assoc in IH.
  etrans; [|exact IH]. destruct done_ as [|d ds]; [done|]. rewrite join_snoc by done. by destruct ds.
Qed.

Lemma beacon_label_display_spec b :
  beacon_label_display b =
  match shown_labels b with [] => lit "-" | ls => join_with 0x2F ls end.
Proof.
  unfold beacon_label_display, shown_labels. destruct (feasycom b).
  - pose proof (beacon_label_loop_spec beacon_labels b [lit "Feasy"]) as Hl.
    change (join_with 0x2F [lit "Feasy"]) with (lit "Feasy") in Hl. by rewrite Hl.
  - pose proof (beacon_label_loop_spec beacon_labels b []) as Hl. cbn [join_with] in Hl.
    rewrite Hl. cbn [app]. by destruct (label_names b beacon_labels).
Qed.

Lemma structure_formats_range s : is_u 6 (formats (structure_beacon s)).
Proof.
  destruct s as [?|n|n|uuid data|c p|]; try done; cbn [structure_beacon].
  - unfold service_beacon, eddystone_flag. by repeat case_match.
  - unfold manufacturer_beacon. by repeat case_match.
Qed.

Lemma structures_formats_range ss : is_u 6 (formats (structures_beacon ss)).
Proof.
  induction ss as [|s ss IH]; [done|]. cbn [structures_beacon foldr beacon_merge formats].
  apply lor_u; [done|apply structure_formats_range|exact IH].
Qed.

Lemma formats_shown bits :
  is_u 6 bits → bits ≠ 0 → existsb (λ flag, negb (Z.land bits flag =? 0)) beacon_flags = true.
Proof.
  intros Hb Hne.
  pose proof (byte_check (λ x, implb (x <? 64) ((x =? 0) ||
    existsb (λ flag, negb (Z.land x flag =? 0)) beacon_flags)) ltac:(by vm_compute) bits) as Hc.
  unfold is_u in *. simpl in Hb. specialize (Hc ltac:(simpl; lia)). cbv beta in Hc.
  rewrite (proj2 (Z.ltb_lt bits 64)) in Hc by lia. cbn [implb] in Hc.
  by rewrite (proj2 (Z.eqb_neq bits 0) Hne) in Hc.
Qed.

Lemma is_beacon_iff b :
  is_u 6 (formats b) → is_beacon b = true ↔ shown_labels b ≠ [].
Proof.
  intros Hb. unfold is_beacon, shown_labels. destruct (feasycom b); [done|]. cbn [orb app].
  rewrite negb_true_iff, Z.eqb_neq. split.
  - intros Hne%(formats_shown _ Hb) Hnil. apply existsb_exists in Hne as (flag & Hf & Hs).
    apply list_elem_of_In in Hf. unfold beacon_flags in Hf.
    apply list_elem_of_fmap in Hf as ([flag' label] & -> & Hf).
    assert (label ∈ label_names b beacon_labels) as Hin; [|rewrite Hnil in Hin; by apply elem_of_nil in Hin].
    unfold label_names. apply list_elem_of_omap. exists (flag', label).
    split; [done|]. unfold shows. simpl in *. by rewrite Hs.
  - intros Hne H0. apply Hne. unfold label_names, shows. rewrite H0. done.
Qed.

(** ** Quoted names *)

Lemma display_char_utf8 c : scalar c → utf8 (display_char c) (display_chars c).
Proof.
  intros Hc. unfold display_char, display_chars, masked.
  assert (∀ d, scalar d → utf8 (utf8_encode d) [d]) as Hone.
  { intros d Hd. rewrite <-(app_nil_r (utf8_encode d)). apply utf8_cons; [done|apply utf8_nil]. }
  case_match eqn:Hq.
  - apply (utf8_cons_eq 0x5C [0x5C] (utf8_encode c) [c]); [by left|done|by apply Hone].
  - case_match; [apply (Hone 0x2E)|by apply Hone]. by left.
Qed.

Lemma display_chars_utf8 l cs :
  utf8 l cs → utf8 (concat (display_char <$> cs)) (concat (display_chars <$> cs)).
Proof.
  induction 1 as [|c l cs Hc _ IH]; csimpl; [constructor|].
  apply utf8_app; [by apply display_char_utf8|done].
Qed.

Lemma unquote_display cs : unquote (concat (display_chars <$> cs)) = Some (masked <$> cs).
Proof.
  induction cs as [|c cs IH]; csimpl; [done|]. unfold display_chars at 1.
  destruct ((c =? 0x22) || (c =? 0x5C)) eqn:Hq.
  - cbn [app unquote]. rewrite Hq, IH. simpl. unfold masked.
    apply orb_true_iff in Hq as [->%Z.eqb_eq| ->%Z.eqb_eq]; done.
  - cbn [app unquote]. rewrite IH.
    assert (masked c ≠ 0x5C ∧ masked c ≠ 0x22) as [H1 H2].
    { unfold masked. apply orb_false_iff in Hq as [?%Z.eqb_neq ?%Z.eqb_neq]. by case_match. }
    by rewrite (proj2 (Z.eqb_neq _ _) H1), (proj2 (Z.eqb_neq _ _) H2).
Qed.

Lemma display_no_control cs : Forall (λ c, is_control c = false) (concat (display_chars <$> cs)).
Proof.
  induction cs as [|c cs IH]; csimpl; [constructor|]. apply Forall_app; split; [|done].
  unfold display_chars. destruct (_ || _) eqn:Hq.
  - apply orb_true_iff in Hq as [->%Z.eqb_eq| ->%Z.eqb_eq]; by repeat constructor.
  - constructor; [|constructor]. unfold masked. by destruct (is_control c) eqn:?.
Qed.
End Labels.

Lemma display_name_ok n : (∀ m, n = Some m → name_ok m) → is_ok (display_name n).
Proof.
  destruct n as [n|]; intros Hn; [|by eexists].
  destruct (Hn n eq_refl) as (v & Hv & _). unfold display_name, local_name_as_str.
  rewrite (inline_view_holds _ _ _ _ _ Hv). by eexists.
Qed.

Lemma frame_flag flag s : frame_of flag s → flag ∈ beacon_flags.
Proof.
  intros Hf. apply list_elem_of_In.
  destruct Hf; vm_compute; tauto.
Qed.

Lemma shown_labels_nil b :
  shown_labels b = [] ↔ feasycom b = false ∧ ∀ flag, flag ∈ beacon_flags → shows flag b = false.
Proof.
  unfold shown_labels. split.
  - intros [Hf Hl]%app_eq_nil. split; [by destruct (feasycom b)|].
    intros flag ([flag' label] & -> & Hin)%list_elem_of_fmap. apply not_true_iff_false. intros Hs.
    assert (label ∈ label_names b beacon_labels) as Hx; [|rewrite Hl in Hx; by apply elem_of_nil in Hx].
    apply list_elem_of_omap. exists (flag', label). split; [done|]. simpl in Hs. by rewrite Hs.
  - intros [-> Hl]. cbn [app]. destruct (label_names b beacon_labels) as [|l ls] eqn:Hn; [done|].
    assert (l ∈ label_names b beacon_labels) as Hx by (rewrite Hn; by left).
    apply list_elem_of_omap in Hx as ([flag label] & Hin & Hs).
    rewrite Hl in Hs; [done|]. apply list_elem_of_fmap. by exists (flag, label).
Qed.

Lemma ibeacon_is_frame b :
  ibeacon_wf b → frame_of BEACON_FORMAT_IBEACON (ManufacturerSpecificData 0x004C (manufacturer_payload b)).
Proof.
  intros [[Hlen _] _]. constructor; [|done]. unfold manufacturer_payload.
  rewrite !length_app, length_take, Hlen. done.
Qed.

(** * Properties *)

(** C35: what the scanner reads from an advertisement. Whatever the decoder
    yields, parsing never panics; the name is that of the last name structure,
    absent if that one is empty, longer than 29 bytes or not UTF-8; the
    manufacturer is that of the last manufacturer structure; each format flag
    is set exactly when some structure is a frame of that format and the
    vendor flag exactly when one is a Feasycom frame. The label column joins
    the labels of the set flags with slashes and is a dash exactly for an
    advertisement with no such frame, which is when it is not a beacon. Every
    iBeacon payload that the SDK builds is recognised. *)
Theorem advertisement_recognised `{TroubleHost} (data : list Z) :
  let ss := omap id (ad_decode data) in
  ∃ m, ad_metadata_parse data = Ok m ∧
    (match last (omap structure_name ss) with
     | Some value => name_of value (ad_name m) | None => ad_name m = None end) ∧
    ad_manufacturer m = last (omap structure_company ss) ∧
    (∀ flag, flag ∈ beacon_flags →
       shows flag (ad_beacon m) = true ↔ ∃ s, s ∈ ss ∧ frame_of flag s) ∧
    (feasycom (ad_beacon m) = true ↔ ∃ s, s ∈ ss ∧ feasycom_frame s) ∧
    beacon_label_display (ad_beacon m) =
      match shown_labels (ad_beacon m) with [] => lit "-" | ls => join_with 0x2F ls end ∧
    (is_beacon (ad_beacon m) = true ↔
       ∃ s, s ∈ ss ∧ (feasycom_frame s ∨ ∃ flag, frame_of flag s)) ∧
    (∀ b, ibeacon_wf b → ManufacturerSpecificData 0x004C (manufacturer_payload b) ∈ ss →
       shows BEACON_FORMAT_IBEACON (ad_beacon m) = true).
Proof.
  intros ss. destruct (ad_metadata_loop_spec ss ad_metadata_new) as (m & Hm & Hn & Hc & Hb).
  rewrite merge_new_l in Hb. exists m.
  assert (is_u 6 (formats (ad_beacon m))) as Hrange by (rewrite Hb; apply structures_formats_range).
  assert (∀ flag, flag ∈ beacon_flags →
    shows flag (ad_beacon m) = true ↔ ∃ s, s ∈ ss ∧ frame_of flag s) as Hflags.
  { intros flag Hf. rewrite Hb. by apply structures_flags. }
  assert (feasycom (ad_beacon m) = true ↔ ∃ s, s ∈ ss ∧ feasycom_frame s) as Hfeasy.
  { rewrite Hb. apply structures_feasycom. }
  split; [exact Hm|]. split; [exact Hn|].
  split; [rewrite Hc; by destruct (last (omap structure_company ss))|]. split; [exact Hflags|]. split; [exact Hfeasy|].
  split; [apply beacon_label_display_spec|]. split.
  - rewrite is_beacon_iff by done. rewrite shown_labels_nil, <-not_true_iff_false, Hfeasy. split.
    + intros Hnot. destruct (decide (feasycom (ad_beacon m) = true)) as [Hf|Hf].
      { apply Hfeasy in Hf as (s & ? & ?). eauto. }
      destruct (existsb (λ flag, shows flag (ad_beacon m)) beacon_flags) eqn:Hex.
      * apply existsb_exists in Hex as (flag & Hin%list_elem_of_In & Hs).
        apply Hflags in Hs as (s & ? & ?); eauto.
      * destruct Hnot. split; [intros Hx; by apply Hf, Hfeasy|]. intros flag Hin%list_elem_of_In.
        apply not_true_iff_false. intros Hs. apply not_true_iff_false in Hex. apply Hex.
        apply existsb_exists. eauto.
    + intros (s & Hs & [Hfs|[flag Hfl]]) [Hno Hall]; [apply Hno; eauto|].
      pose proof (frame_flag _ _ Hfl) as Hin. specialize (Hall flag Hin).
      assert (shows flag (ad_beacon m) = true); [apply Hflags; eauto|congruence].
  - intros b Hwf Hin. apply Hflags; [by apply (frame_flag _ _ (ibeacon_is_frame b Hwf))|].
    eexists. split; [exact Hin|by apply ibeacon_is_frame].
Qed.

(** C36: names are shown unambiguously. For every local name the scanner
    accepts, the displayed text is the quoted name on one line: valid UTF-8
    without control characters, in which the quotes and backslashes of the
    name are escaped, so that reading it back gives the name with its control
    characters replaced by dots; names without control characters are
    displayed injectively. *)
Theorem display_name_readable value n :
  local_name_from_bytes value = Ok (Some n) →
  ∃ cs out ocs, utf8 value cs ∧ display_name (Some n) = Ok ([0x22] ++ out ++ [0x22]) ∧
    utf8 out ocs ∧ Forall (λ c, is_control c = false) ocs ∧ unquote ocs = Some (masked <$> cs).
Proof.
  intros Hv. destruct (local_name_from_bytes_spec value) as (n' & Hn' & Hname).
  rewrite Hv in Hn'. injection Hn' as <-. unfold name_of in Hname.
  case_decide as Hd; [|done]. destruct Hd as (_ & _ & Hstr), Hname as (? & [= <-] & Hh).
  pose proof Hstr as [cs Hcs]%is_str_utf8.
  exists cs, (concat (display_char <$> cs)), (concat (display_chars <$> cs)).
  split_and!; [done| |by apply (display_chars_utf8 value)|apply display_no_control|apply unquote_display].
  unfold display_name, local_name_as_str. rewrite (inline_view_holds _ _ _ _ _ Hh).
  cbn [mbind res_bind]. rewrite from_utf8_or_empty_str by done.
  by rewrite (utf8_decode_complete _ _ Hcs).
Qed.

Lemma display_name_readable_witness :
  let value := [0x41; 0x22; 0x07; 0xC3; 0xA9] in
  ∃ n out, local_name_from_bytes value = Ok (Some n) ∧
    display_name (Some n) = Ok ([0x22] ++ out ++ [0x22]) ∧
    out = [0x41; 0x5C; 0x22; 0x2E; 0xC3; 0xA9].
Proof.
  intros value.
  destruct (local_name_from_bytes value) as [[n|]| |] eqn:Hn; [|by vm_compute in Hn..].
  destruct (display_name_readable value n Hn) as (cs & out & ocs & _ & Hd & _).
  exists n, out. split_and!; [done..|]. vm_compute in Hn. injection Hn as <-.
  vm_compute in Hd. injection Hd as Hd. by apply (app_inv_tail [0x22]).
Defined.
