(* ===== verification/Scanner.v ===== *)
(** [firmware/seeed/xiao-esp32c6-beacon-scanner/src/main.rs], the scanner: the
    registry of heard devices and the report of a scan window.

    [sort_unstable_by] leaves the order of equal elements open, so it is a
    class, with its documented contract. *)
From stdpp Require Import prelude list numbers option strings gmap sorting.
From Stdlib Require Import ZArith.
From S2P Require Import Prelude Text Advertisement.
Local Open Scope Z_scope.

Definition DEVICE_STALE_AFTER_MS : Z := 15000.
Definition DEVICE_CAPACITY : nat := 128.
Definition REMEMBERED_DEVICE_CAPACITY : nat := 48.
Definition SNAPSHOT_DISPLAY_LIMIT : nat := 12.
Definition BEACON_DISPLAY_LIMIT : nat := 24.

(** * The device registry *)

Record DeviceEntry : Type := {
  address : Address;
  previous_window_average : option Z;
  window_rssi_sum : Z;
  window_reports : Z;
  window_peak_rssi : Z;
  last_seen_ms : Z;
  entry_name : option LocalName;
  manufacturer : option Z;
  beacon : BeaconMetadata
}.

(** [i64] division truncates; [as i16] wraps. *)
Definition window_average (e : DeviceEntry) : option Z :=
  if window_reports e =? 0 then None
  else Some (wrap_s 16 (Z.quot (window_rssi_sum e) (window_reports e))).

Record DisplayedDevice : Type := {
  dev_address : Address;
  average_rssi : Z;
  dev_last_seen_ms : Z;
  dev_name : option LocalName;
  dev_manufacturer : option Z;
  dev_beacon : BeaconMetadata
}.

Definition displayed_from_entry (e : DeviceEntry) : DisplayedDevice :=
  {| dev_address := address e;
     average_rssi := default (s_min 16) (window_average e);
     dev_last_seen_ms := last_seen_ms e; dev_name := entry_name e;
     dev_manufacturer := manufacturer e; dev_beacon := beacon e |}.

Definition same_address (a b : Address) : bool :=
  (addr_kind a =? addr_kind b) && bool_decide (addr_bytes a = addr_bytes b).

Definition matches_address (d : DisplayedDevice) (a : Address) : bool :=
  same_address (dev_address d) a.

Record DeviceRegistry : Type := {
  entries : list (option DeviceEntry);
  previous_remembered : list (option DisplayedDevice);
  reg_window_reports : Z;
  window_malformed_reports : Z;
  window_evictions : Z
}.

Definition registry_new : DeviceRegistry :=
  {| entries := replicate DEVICE_CAPACITY None;
     previous_remembered := replicate REMEMBERED_DEVICE_CAPACITY None;
     reg_window_reports := 0; window_malformed_reports := 0; window_evictions := 0 |}.

(** What a report adds to a known device. *)
Definition update_entry (rssi : Z) (m : AdvertisementMetadata) (now_ms : Z) (e : DeviceEntry) :
    DeviceEntry :=
  {| address := address e;
     previous_window_average := previous_window_average e;
     window_rssi_sum := saturating_add_s 32 (window_rssi_sum e) rssi;
     window_reports := saturating_add_u 32 (window_reports e) 1;
     window_peak_rssi := Z.max (window_peak_rssi e) rssi;
     last_seen_ms := now_ms;
     entry_name := if ad_name m is Some _ then ad_name m else entry_name e;
     manufacturer := if ad_manufacturer m is Some _ then ad_manufacturer m else manufacturer e;
     beacon := beacon_merge (beacon e) (ad_beacon m) |}.

Definition new_entry (a : Address) (rssi : Z) (m : AdvertisementMetadata) (now_ms : Z) :
    DeviceEntry :=
  {| address := a; previous_window_average := None; window_rssi_sum := rssi;
     window_reports := 1; window_peak_rssi := rssi; last_seen_ms := now_ms;
     entry_name := ad_name m; manufacturer := ad_manufacturer m; beacon := ad_beacon m |}.

Definition holds_address (a : Address) (slot : option DeviceEntry) : bool :=
  if slot is Some e then same_address (address e) a else false.

Definition slot_is_none (slot : option DeviceEntry) : bool :=
  if slot is Some _ then false else true.

(** [entry.map_or(u64::MAX, |entry| entry.last_seen_ms)] *)
Definition slot_age_key (slot : option DeviceEntry) : Z :=
  if slot is Some e then last_seen_ms e else u_max 64.

(** The slot a new device takes, and whether it evicts another. *)
Definition slot_for_new (slots : list (option DeviceEntry)) : nat * bool :=
  match position slot_is_none slots with
  | Some index => (index, false)
  | None => (match min_index slot_age_key slots with Some (index, _) => index | None => O end, true)
  end.

(** [DeviceRegistry::record] *)
Definition registry_record (a : Address) (rssi : Z) (m : AdvertisementMetadata) (now_ms : Z)
    (r : DeviceRegistry) : res unit DeviceRegistry :=
  let reports := wrapping_add_u 32 (reg_window_reports r) 1 in
  match position (holds_address a) (entries r) with
  | Some i =>
    slot ← index (entries r) i;
    match slot with
    | Some e =>
      slots ← store_at (entries r) i (Some (update_entry rssi m now_ms e));
      Ok {| entries := slots; previous_remembered := previous_remembered r;
            reg_window_reports := reports;
            window_malformed_reports := window_malformed_reports r;
            window_evictions := window_evictions r |}
    | None => Panic
    end
  | None =>
    let '(i, evicts) := slot_for_new (entries r) in
    slots ← store_at (entries r) i (Some (new_entry a rssi m now_ms));
    Ok {| entries := slots; previous_remembered := previous_remembered r;
          reg_window_reports := reports;
          window_malformed_reports := window_malformed_reports r;
          window_evictions := if evicts then wrapping_add_u 32 (window_evictions r) 1
                              else window_evictions r |}
  end.

Definition is_stale (now_ms : Z) (e : DeviceEntry) : bool :=
  DEVICE_STALE_AFTER_MS <? saturating_sub_u now_ms (last_seen_ms e).

Definition remove_stale (now_ms : Z) (r : DeviceRegistry) : DeviceRegistry :=
  {| entries := (λ slot, match slot with
       | Some e => if is_stale now_ms e then None else Some e
       | None => None end) <$> entries r;
     previous_remembered := previous_remembered r;
     reg_window_reports := reg_window_reports r;
     window_malformed_reports := window_malformed_reports r;
     window_evictions := window_evictions r |}.

(** [ScanReportHandler::record_malformed_report] *)
Definition record_malformed_report (r : DeviceRegistry) : DeviceRegistry :=
  {| entries := entries r; previous_remembered := previous_remembered r;
     reg_window_reports := reg_window_reports r;
     window_malformed_reports := wrapping_add_u 32 (window_malformed_reports r) 1;
     window_evictions := window_evictions r |}.

(** An item of [LeAdvReportsIter], with the time it is handled at; [None] is
    malformed. *)
Record AdvReport : Type := {
  rep_address : Address; rep_rssi : Z; rep_data : list Z
}.

(** [ScanReportHandler::record] *)
Definition handler_record `{TroubleHost} (now_ms : Z) (rep : AdvReport) (r : DeviceRegistry) :
    res unit DeviceRegistry :=
  m ← ad_metadata_parse (rep_data rep);
  registry_record (rep_address rep) (rep_rssi rep) m now_ms r.

(** [EventHandler::on_adv_reports] *)
Fixpoint on_adv_reports `{TroubleHost} (reports : list (Z * option AdvReport))
    (r : DeviceRegistry) : res unit DeviceRegistry :=
  match reports with
  | [] => Ok r
  | (now_ms, Some rep) :: reports =>
    r ← handler_record now_ms rep r; on_adv_reports reports r
  | (_, None) :: reports => on_adv_reports reports (record_malformed_report r)
  end.

(** * The report of a scan window *)

(** [slice::sort_unstable_by], for a comparison that is a total preorder. *)
Class SortUnstable : Type := {
  sort_unstable_by {A : Type} : (A → A → comparison) → list A → list A;
  sort_unstable_by_perm {A : Type} (cmp : A → A → comparison) (l : list A) :
    sort_unstable_by cmp l ≡ₚ l;
  sort_unstable_by_sorted {A : Type} (cmp : A → A → comparison) (l : list A) :
    (∀ x y, cmp y x = CompOpp (cmp x y)) →
    (∀ x y z, cmp x y ≠ Gt → cmp y z ≠ Gt → cmp x z ≠ Gt) →
    StronglySorted (λ x y, cmp x y ≠ Gt) (sort_unstable_by cmp l)
}.

(** [Option<i16>::cmp]: [None] is least. *)
Definition option_cmp (a b : option Z) : comparison :=
  match a, b with
  | Some a, Some b => Z.compare a b
  | Some _, None => Gt
  | None, Some _ => Lt
  | None, None => Eq
  end.

Definition by_average (left right : option DeviceEntry) : comparison :=
  option_cmp (right ≫= window_average) (left ≫= window_average).

Definition heard (e : DeviceEntry) : bool := 0 <? window_reports e.

Definition heard_entries (slots : list (option DeviceEntry)) : list DeviceEntry :=
  List.filter heard (omap id slots).

(** What [print_snapshot] does to each entry under the lock. *)
Definition reset_window (e : DeviceEntry) : DeviceEntry :=
  {| address := address e;
     previous_window_average := if window_average e is Some average then Some average
                                else previous_window_average e;
     window_rssi_sum := 0; window_reports := 0; window_peak_rssi := s_min 8;
     last_seen_ms := last_seen_ms e; entry_name := entry_name e;
     manufacturer := manufacturer e; beacon := beacon e |}.

Definition reset_windows (remembered : list (option DisplayedDevice)) (r : DeviceRegistry) :
    DeviceRegistry :=
  {| entries := option_map reset_window <$> entries r; previous_remembered := remembered;
     reg_window_reports := 0; window_malformed_reports := 0; window_evictions := 0 |}.

(** A remembered device that no heard entry has the address of. *)
Definition is_lost (slots : list (option DeviceEntry)) (previous : DisplayedDevice) : bool :=
  negb (existsb (λ current, heard current && matches_address previous (address current))
    (omap id slots)).

(** The array [remembered] filled by the zip. *)
Definition remember (heard : list DeviceEntry) : list (option DisplayedDevice) :=
  let firsts := take REMEMBERED_DEVICE_CAPACITY (displayed_from_entry <$> heard) in
  (Some <$> firsts) ++ replicate (REMEMBERED_DEVICE_CAPACITY - length firsts) None.

(** What a report shows. *)
Record SnapshotReport : Type := {
  sr_count : nat;
  sr_packets : Z;
  sr_malformed : Z;
  sr_evicted : Z;
  sr_shown : nat;
  sr_rows : list DeviceEntry;
  sr_beacon_count : nat;
  sr_beacon_rows : list DeviceEntry;
  sr_lost_count : nat;
  sr_lost_rows : list DisplayedDevice
}.

(** [ScanReportHandler::print_snapshot], up to the printing: the report, and
    the registry it leaves. *)
Definition take_snapshot `{SortUnstable} (now_ms : Z) (r : DeviceRegistry) :
    SnapshotReport * DeviceRegistry :=
  let snapshot := remove_stale now_ms r in
  let count := length (heard_entries (entries snapshot)) in
  let slots := sort_unstable_by by_average (entries snapshot) in
  let heard := heard_entries slots in
  let beacons := List.filter (λ e, is_beacon (beacon e)) heard in
  let lost := List.filter (is_lost slots) (omap id (previous_remembered snapshot)) in
  ({| sr_count := count;
      sr_packets := reg_window_reports snapshot;
      sr_malformed := window_malformed_reports snapshot;
      sr_evicted := window_evictions snapshot;
      sr_shown := Nat.min count SNAPSHOT_DISPLAY_LIMIT;
      sr_rows := take SNAPSHOT_DISPLAY_LIMIT heard;
      sr_beacon_count := length beacons;
      sr_beacon_rows := take BEACON_DISPLAY_LIMIT beacons;
      sr_lost_count := length lost;
      sr_lost_rows := take SNAPSHOT_DISPLAY_LIMIT lost |},
   reset_windows (remember heard) snapshot).

(** * Formatters *)

Definition SPACE : Z := 0x20.
Definition pad_left (n : nat) (s : list Z) : list Z := replicate (n - length s) SPACE ++ s.
Definition pad_right (n : nat) (s : list Z) : list Z := s ++ replicate (n - length s) SPACE.

(** [RssiDelta]: [{delta:+5}] *)
Definition rssi_delta_display (delta : option Z) : list Z :=
  match delta with
  | Some d => pad_left 5 ((if d <? 0 then [] else [0x2B]) ++ dec d)
  | None => lit "    -"
  end.

Definition address_kind_display `{TroubleHost} (kind : Z) : list Z :=
  if kind =? KIND_PUBLIC then lit "pub"
  else if kind =? KIND_RANDOM then lit "rnd"
  else pad_right 3 (dec kind).

Definition manufacturer_display (m : option Z) : list Z :=
  match m with
  | Some identifier => lit "0x" ++ hex4 identifier
  | None => lit "-     "
  end.

(** [previous.map(|previous| average - previous)], an [i16] subtraction. *)
Definition entry_delta (e : DeviceEntry) : res unit (option Z) :=
  let average := default (s_min 16) (window_average e) in
  match previous_window_average e with
  | Some previous => d ← sub_s 16 average previous; Ok (Some d)
  | None => Ok None
  end.

Section Lines.
Context `{TroubleHost}.

Definition entry_line (now_ms : Z) (e : DeviceEntry) : res unit (list Z) :=
  delta ← entry_delta e;
  name ← display_name (entry_name e);
  Ok (join_with SPACE
    [pad_right 5 (dec (default (s_min 16) (window_average e)));
     rssi_delta_display delta;
     pad_right 4 (dec (window_peak_rssi e));
     pad_right 5 (dec (saturating_sub_u now_ms (last_seen_ms e)));
     pad_right 4 (dec (window_reports e));
     address_kind_display (addr_kind (address e)); [];
     hci_address_display (address e); manufacturer_display (manufacturer e);
     beacon_label_display (beacon e); name]).

Definition beacon_line (e : DeviceEntry) : res unit (list Z) :=
  delta ← entry_delta e;
  name ← display_name (entry_name e);
  Ok (join_with SPACE
    [pad_right 5 (dec (default (s_min 16) (window_average e)));
     rssi_delta_display delta; hci_address_display (address e);
     manufacturer_display (manufacturer e); beacon_label_display (beacon e); name]).

Definition lost_line (now_ms : Z) (d : DisplayedDevice) : res unit (list Z) :=
  name ← display_name (dev_name d);
  Ok (join_with SPACE
    [pad_right 5 (dec (average_rssi d));
     pad_right 5 (dec (saturating_sub_u now_ms (dev_last_seen_ms d)));
     address_kind_display (addr_kind (dev_address d)); [];
     hci_address_display (dev_address d); manufacturer_display (dev_manufacturer d);
     beacon_label_display (dev_beacon d); name]).

Definition section_lines (count limit : nat) (title1 header : list Z)
    (rows : res unit (list (list Z))) : res unit (list (list Z)) :=
  if (0 <? count)%nat then
    rows ← rows;
    Ok ([title1 ++ dec (Z.of_nat count) ++ lit "; showing strongest "
         ++ dec (Z.of_nat (Nat.min count limit)); header] ++ rows)
  else Ok [].

(** The printing of [print_snapshot], a line per [println!]. *)
Definition report_lines (now_ms : Z) (s : SnapshotReport) : res unit (list (list Z)) :=
  rows ← mapM (entry_line now_ms) (sr_rows s);
  beacons ← section_lines (sr_beacon_count s) BEACON_DISPLAY_LIMIT (lit "Detected beacons: ")
    (lit "  AVG DELTA ADDRESS             MFG    BEACON NAME") (mapM beacon_line (sr_beacon_rows s));
  lost ← section_lines (sr_lost_count s) SNAPSHOT_DISPLAY_LIMIT (lit "Lost since previous scan: ")
    (lit " LAST AGEms KIND ADDRESS             MFG    BEACON NAME")
    (mapM (lost_line now_ms) (sr_lost_rows s));
  Ok ([lit "Seen " ++ dec (Z.of_nat (sr_count s)) ++ lit " devices (" ++ dec (sr_packets s)
       ++ lit " packets, " ++ dec (sr_malformed s) ++ lit " malformed, " ++ dec (sr_evicted s)
       ++ lit " evicted); showing strongest " ++ dec (Z.of_nat (sr_shown s));
       lit "  AVG DELTA  MAX AGEms PKTS KIND ADDRESS             MFG    BEACON NAME"]
      ++ rows ++ beacons ++ lost ++ [[]]).

(** [ScanReportHandler::print_snapshot] *)
Definition print_snapshot `{SortUnstable} (now_ms : Z) (r : DeviceRegistry) :
    res unit (list (list Z) * DeviceRegistry) :=
  let '(s, r) := take_snapshot now_ms r in
  lines ← report_lines now_ms s; Ok (lines, r).

(** One successful window of the scanner's loop: its reports, then the
    report. *)
Definition scan_window `{SortUnstable} (reports : list (Z * option AdvReport)) (now_ms : Z)
    (r : DeviceRegistry) : res unit (list (list Z) * DeviceRegistry) :=
  r ← on_adv_reports reports r; print_snapshot now_ms r.

(** The loop of [scanner_task]: a turn whose scan fails to start ([None])
    prints nothing of the registry. *)
Fixpoint scanner_task `{SortUnstable} (turns : list (option (list (Z * option AdvReport) * Z)))
    (r : DeviceRegistry) : res unit (list (list (list Z)) * DeviceRegistry) :=
  match turns with
  | [] => Ok ([], r)
  | None :: turns => scanner_task turns r
  | Some (reports, now_ms) :: turns =>
    '(lines, r) ← scan_window reports now_ms r;
    '(log, r) ← scanner_task turns r;
    Ok (lines :: log, r)
  end.
End Lines.

(** * Specification *)

(** A window's sum lies between 128 and 127 times its number of reports, even
    after the counters saturate. *)
Definition window_ok (e : DeviceEntry) : Prop :=
  is_u 32 (window_reports e) ∧ is_s 32 (window_rssi_sum e) ∧
  -128 * window_reports e ≤ window_rssi_sum e ≤ 127 * window_reports e.

Definition entry_ok (e : DeviceEntry) : Prop :=
  window_ok e ∧ is_s 8 (window_peak_rssi e) ∧ is_u 64 (last_seen_ms e) ∧
  (∀ p, previous_window_average e = Some p → is_s 8 p) ∧
  (∀ n, entry_name e = Some n → name_ok n).

(** No two slots hold the same address. *)
Definition distinct_slots (slots : list (option DeviceEntry)) : Prop :=
  ∀ i j e1 e2, slots !! i = Some (Some e1) → slots !! j = Some (Some e2) →
    address e1 = address e2 → i = j.

Definition slots_ok (slots : list (option DeviceEntry)) : Prop :=
  distinct_slots slots ∧ ∀ e, Some e ∈ slots → entry_ok e.

Definition registry_ok (r : DeviceRegistry) : Prop :=
  length (entries r) = DEVICE_CAPACITY ∧
  length (previous_remembered r) = REMEMBERED_DEVICE_CAPACITY ∧
  slots_ok (entries r) ∧
  (∀ d n, Some d ∈ previous_remembered r → dev_name d = Some n → name_ok n).

(** The registry as a map from addresses. *)
Definition slots_map (slots : list (option DeviceEntry)) : gmap Address DeviceEntry :=
  list_to_map ((λ e, (address e, e)) <$> omap id slots).

Definition registry_map (r : DeviceRegistry) : gmap Address DeviceEntry := slots_map (entries r).

(** The contract of [DeviceRegistry::record]. *)
Definition record_spec (a : Address) (rssi : Z) (m : AdvertisementMetadata) (now_ms : Z)
    (r r' : DeviceRegistry) : Prop :=
  match registry_map r !! a with
  | Some e =>
    registry_map r' = <[a := update_entry rssi m now_ms e]> (registry_map r) ∧
    window_evictions r' = window_evictions r
  | None =>
    if (size (registry_map r) <? DEVICE_CAPACITY)%nat then
      registry_map r' = <[a := new_entry a rssi m now_ms]> (registry_map r) ∧
      window_evictions r' = window_evictions r
    else ∃ b old,
      registry_map r !! b = Some old ∧
      (∀ c e, registry_map r !! c = Some e → last_seen_ms old ≤ last_seen_ms e) ∧
      registry_map r' = <[a := new_entry a rssi m now_ms]> (delete b (registry_map r)) ∧
      window_evictions r' = wrapping_add_u 32 (window_evictions r) 1
  end.

Definition fresh (now_ms : Z) (e : DeviceEntry) : option DeviceEntry :=
  if is_stale now_ms e then None else Some e.

Definition stronger (e1 e2 : DeviceEntry) : Prop :=
  ∃ a1 a2, window_average e1 = Some a1 ∧ window_average e2 = Some a2 ∧ a2 ≤ a1.

Definition metadata_of `{TroubleHost} (data : list Z) : AdvertisementMetadata :=
  match ad_metadata_parse data with Ok m => m | _ => ad_metadata_new end.

(** What a report does to the entry of its address. *)
Definition record_one `{TroubleHost} (o : option DeviceEntry) (nr : Z * AdvReport) : option DeviceEntry :=
  let '(now_ms, rep) := nr in
  Some (match o with
        | Some e => update_entry (rep_rssi rep) (metadata_of (rep_data rep)) now_ms e
        | None => new_entry (rep_address rep) (rep_rssi rep) (metadata_of (rep_data rep)) now_ms
        end).

Definition well_formed_reports (reports : list (Z * option AdvReport)) : list (Z * AdvReport) :=
  omap (λ '(now_ms, o), (λ rep, (now_ms, rep)) <$> o) reports.

Definition reports_of (a : Address) (reports : list (Z * option AdvReport)) :
    list (Z * AdvReport) :=
  List.filter (λ '(_, rep), bool_decide (rep_address rep = a)) (well_formed_reports reports).

Definition report_ok (item : Z * option AdvReport) : Prop :=
  is_u 64 item.1 ∧ ∀ rep, item.2 = Some rep → is_s 8 (rep_rssi rep).

Definition report_addresses (reports : list (Z * option AdvReport)) : gset Address :=
  list_to_set ((λ nr : Z * AdvReport, rep_address nr.2) <$> well_formed_reports reports).

Definition rssi_sum (mine : list (Z * AdvReport)) : Z :=
  foldr (λ nr n, rep_rssi nr.2 + n) 0 mine.

(** [e]'s window consists of the reports [mine]. *)
Definition tallies (mine : list (Z * AdvReport)) (e : DeviceEntry) : Prop :=
  window_reports e = Z.of_nat (length mine) ∧
  window_average e = Some (Z.quot (rssi_sum mine) (Z.of_nat (length mine))) ∧
  (∃ nr, nr ∈ mine ∧ rep_rssi nr.2 = window_peak_rssi e) ∧
  (∀ nr, nr ∈ mine → rep_rssi nr.2 ≤ window_peak_rssi e) ∧
  fst <$> last mine = Some (last_seen_ms e).

Definition window_empty (e : DeviceEntry) : Prop :=
  window_reports e = 0 ∧ window_rssi_sum e = 0 ∧ window_peak_rssi e = s_min 8.

Definition windows_empty (r : DeviceRegistry) : Prop :=
  ∀ a e, registry_map r !! a = Some e → window_empty e.

Definition turn_ok (turn : option (list (Z * option AdvReport) * Z)) : Prop :=
  match turn with Some (reports, _) => Forall report_ok reports | None => True end.

(** [e'] is [e] at the start of the next window. *)
Definition carried_over (e e' : DeviceEntry) : Prop :=
  window_empty e' ∧
  previous_window_average e' =
    (if window_reports e =? 0 then previous_window_average e else window_average e) ∧
  address e' = address e ∧ last_seen_ms e' = last_seen_ms e ∧ entry_name e' = entry_name e ∧
  manufacturer e' = manufacturer e ∧ beacon e' = beacon e.

(** The counters behind [tallies]. *)
Definition counted (mine : list (Z * AdvReport)) (e : DeviceEntry) : Prop :=
  window_reports e = Z.of_nat (length mine) ∧ window_rssi_sum e = rssi_sum mine ∧
  (∃ nr, nr ∈ mine ∧ rep_rssi nr.2 = window_peak_rssi e) ∧
  (∀ nr, nr ∈ mine → rep_rssi nr.2 ≤ window_peak_rssi e) ∧
  fst <$> last mine = Some (last_seen_ms e).

(** The heard devices of a report, and the remembered ones it misses. *)
Definition ranking `{SortUnstable} (now_ms : Z) (r : DeviceRegistry) : list DeviceEntry :=
  heard_entries (sort_unstable_by by_average (entries (remove_stale now_ms r))).

Definition lost_devices `{SortUnstable} (now_ms : Z) (r : DeviceRegistry) : list DisplayedDevice :=
  List.filter (is_lost (sort_unstable_by by_average (entries (remove_stale now_ms r))))
    (omap id (previous_remembered r)).

(** * Lemmas *)

Section Slots.
Implicit Types slots : list (option DeviceEntry).

Lemma same_address_iff a b : same_address a b = true ↔ a = b.
Proof.
  unfold same_address. rewrite andb_true_iff, Z.eqb_eq, bool_decide_eq_true.
  destruct a, b; simpl. naive_solver.
Qed.

Lemma elem_of_entries slots e : e ∈ omap id slots ↔ Some e ∈ slots.
Proof. rewrite list_elem_of_omap. naive_solver. Qed.

Lemma distinct_slots_cons slot slots :
  distinct_slots (slot :: slots) →
  distinct_slots slots ∧ (∀ e e', slot = Some e → Some e' ∈ slots → address e ≠ address e').
Proof.
  intros Hd. split.
  - intros i j e1 e2 H1 H2 Ha. by pose proof (Hd (S i) (S j) e1 e2 H1 H2 Ha) as [=].
  - intros e e' -> [j Hj]%list_elem_of_lookup Ha.
    by pose proof (Hd O (S j) e e' eq_refl Hj Ha).
Qed.

Lemma distinct_slots_NoDup slots :
  distinct_slots slots → NoDup ((λ e, (address e, e)) <$> omap id slots).*1.
Proof.
  induction slots as [|slot slots IH]; intros Hd; [constructor|].
  destruct (distinct_slots_cons _ _ Hd) as [Hs Hh].
  destruct slot as [e|]; simpl; [|by apply IH]. constructor; [|by apply IH].
  rewrite <-list_fmap_compose. intros (e' & Ha & He')%list_elem_of_fmap.
  apply elem_of_entries in He'. by apply (Hh e e').
Qed.

Lemma slots_map_lookup slots a e :
  distinct_slots slots →
  slots_map slots !! a = Some e ↔ address e = a ∧ Some e ∈ slots.
Proof.
  intros Hd. unfold slots_map.
  rewrite <-elem_of_list_to_map by by apply distinct_slots_NoDup.
  rewrite list_elem_of_fmap. setoid_rewrite elem_of_entries. naive_solver.
Qed.

Lemma slots_map_None slots a :
  distinct_slots slots →
  slots_map slots !! a = None ↔ ∀ e, Some e ∈ slots → address e ≠ a.
Proof.
  intros Hd. rewrite eq_None_not_Some. split.
  - intros Hn e He Ha. apply Hn. exists e. by apply slots_map_lookup.
  - intros Hn [e [Ha He]%slots_map_lookup]; [by eapply Hn|done].
Qed.

Lemma slots_map_size slots :
  distinct_slots slots → size (slots_map slots) = length (omap id slots).
Proof.
  intros Hd. unfold slots_map.
  rewrite map_size_list_to_map by by apply distinct_slots_NoDup. by rewrite length_fmap.
Qed.

Lemma elem_of_insert slots i s x :
  (i < length slots)%nat →
  x ∈ <[i := s]> slots ↔ x = s ∨ ∃ j, j ≠ i ∧ slots !! j = Some x.
Proof.
  intros Hi. rewrite list_elem_of_lookup. split.
  - intros [j Hj]. destruct (decide (j = i)) as [->|Hne].
    + rewrite list_lookup_insert_eq in Hj by done. naive_solver.
    + rewrite list_lookup_insert_ne in Hj by done. eauto.
  - intros [->|(j & Hne & Hj)].
    + exists i. by apply list_lookup_insert_eq.
    + exists j. by rewrite list_lookup_insert_ne.
Qed.

(** Writing an entry whose address no other slot holds. *)
Lemma slots_insert slots i old e :
  slots_ok slots → slots !! i = Some old → entry_ok e →
  (∀ j e', j ≠ i → slots !! j = Some (Some e') → address e' ≠ address e) →
  slots_ok (<[i := Some e]> slots) ∧
  slots_map (<[i := Some e]> slots) =
    <[address e := e]> (match old with
                        | Some o => delete (address o) (slots_map slots)
                        | None => slots_map slots end).
Proof.
  intros [Hd Hok] Hi He Hother.
  assert (i < length slots)%nat as Hlt by by eapply lookup_lt_Some.
  assert (distinct_slots (<[i := Some e]> slots)) as Hd'.
  { intros j k e1 e2 Hj Hk Ha.
    destruct (decide (j = i)) as [->|Hji], (decide (k = i)) as [->|Hki]; [done| | |].
    - rewrite list_lookup_insert_eq in Hj by done. rewrite list_lookup_insert_ne in Hk by done.
      injection Hj as <-. by destruct (Hother k e2).
    - rewrite list_lookup_insert_ne in Hj by done. rewrite list_lookup_insert_eq in Hk by done.
      injection Hk as <-. by destruct (Hother j e1).
    - rewrite list_lookup_insert_ne in Hj, Hk by done. by eapply Hd. }
  split; [split; [done|]|].
  - intros e' He'. apply elem_of_insert in He' as [[= ->]|(j & _ & Hj)]; [done| |done].
    apply Hok. by eapply list_elem_of_lookup_2.
  - apply map_eq. intros a. apply option_eq. intros e'.
    rewrite slots_map_lookup by done. rewrite elem_of_insert by done.
    destruct (decide (a = address e)) as [->|Hne].
    + rewrite lookup_insert_eq. split; [|naive_solver].
      intros [Ha [[= ->]|(j & Hji & Hj)]]; [done|]. by destruct (Hother j e').
    + rewrite lookup_insert_ne by done. destruct old as [o|].
      * rewrite lookup_delete_Some, slots_map_lookup by done. split.
        -- intros [<- [[= ->]|(j & Hji & Hj)]]; [done|]. split_and!; [|done|by eapply list_elem_of_lookup_2].
           intros Heq. by apply Hji, (Hd j i e' o).
        -- intros (Hao & Ha & [j Hj]%list_elem_of_lookup). split; [done|]. right. exists j.
           split; [|done]. intros ->. by simplify_eq.
      * rewrite slots_map_lookup by done. split.
        -- intros [<- [[= ->]|(j & Hji & Hj)]]; [done|]. split; [done|by eapply list_elem_of_lookup_2].
        -- intros (Ha & [j Hj]%list_elem_of_lookup). split; [done|]. right. exists j.
           split; [|done]. intros ->. by simplify_eq.
Qed.
End Slots.

Section Record.

Lemma lookup_holds (slots : list (option DeviceEntry)) i slot a :
  slots !! i = Some slot → holds_address a slot = true →
  ∃ e, slot = Some e ∧ address e = a.
Proof.
  intros Hi Hh. destruct slot as [e|]; [|done].
  exists e. split; [done|]. by apply same_address_iff.
Qed.

Lemma not_held slots a :
  position (holds_address a) slots = None → ∀ e, Some e ∈ slots → address e ≠ a.
Proof.
  intros Hp e He <-. pose proof (proj1 (position_None _ _) Hp _ He) as Hh.
  simpl in Hh. assert (same_address (address e) (address e) = true) by by apply same_address_iff.
  congruence.
Qed.

Lemma omap_id_length (slots : list (option DeviceEntry)) :
  (length (omap id slots) ≤ length slots)%nat ∧
  (None ∈ slots → (length (omap id slots) < length slots)%nat) ∧
  ((∀ slot, slot ∈ slots → slot_is_none slot = false) →
   length (omap id slots) = length slots).
Proof.
  induction slots as [|slot slots (IH1 & IH2 & IH3)]; 
    [simpl; split_and!; [lia|by intros ?%elem_of_nil|done]|].
  destruct slot as [e|]; csimpl; split_and!.
  - lia.
  - intros [?|?%IH2]%elem_of_cons; [done|lia].
  - intros Hall. rewrite IH3; [done|]. intros. apply Hall. by right.
  - lia.
  - lia.
  - intros Hall. by specialize (Hall None ltac:(by left)).
Qed.

(** What [slot_for_new] picks. *)
Lemma slot_for_new_spec slots :
  distinct_slots slots → slots ≠ [] → (∀ e, Some e ∈ slots → last_seen_ms e ≤ u_max 64) →
  let '(i, evicts) := slot_for_new slots in
  if evicts then
    size (slots_map slots) = length slots ∧
    ∃ old, slots !! i = Some (Some old) ∧
      ∀ e, Some e ∈ slots → last_seen_ms old ≤ last_seen_ms e
  else (size (slots_map slots) < length slots)%nat ∧ slots !! i = Some None.
Proof.
  intros Hd Hne Hages. unfold slot_for_new. rewrite slots_map_size by done.
  pose proof (omap_id_length slots) as (_ & Hlt & Hfull).
  destruct (position slot_is_none slots) as [i|] eqn:Hp.
  - apply position_Some in Hp as (slot & Hi & Hs & _). destruct slot as [e|]; [done|].
    split; [|done]. apply Hlt. by eapply list_elem_of_lookup_2.
  - pose proof (proj1 (position_None _ _) Hp) as Hnone.
    split; [by apply Hfull|].
    destruct (min_index slot_age_key slots) as [[i k]|] eqn:Hm;
      [|by apply min_index_None in Hm].
    apply min_index_Some in Hm as (slot & Hi & <- & Hmin).
    destruct slot as [old|]; [|by specialize (Hnone None ltac:(by eapply list_elem_of_lookup_2))].
    exists old. split; [done|]. intros e He. apply (Hmin _ He).
Qed.

Lemma sat_sum s r n :
  is_s 32 s → is_s 8 r → is_u 32 n → -128 * n ≤ s ≤ 127 * n →
  is_s 32 (saturating_add_s 32 s r) ∧ is_u 32 (saturating_add_u 32 n 1) ∧
  -128 * saturating_add_u 32 n 1 ≤ saturating_add_s 32 s r ≤ 127 * saturating_add_u 32 n 1.
Proof. unfold saturating_add_s, saturating_add_u, u_max, is_s, is_u. simpl. lia. Qed.

Lemma update_entry_ok rssi m now e :
  entry_ok e → is_s 8 rssi → is_u 64 now → metadata_ok m → entry_ok (update_entry rssi m now e).
Proof.
  intros ((Hr & Hs & Hw) & Hp & Hl & Hpre & Hn) Hrssi Hnow Hm.
  destruct (sat_sum _ _ _ Hs Hrssi Hr Hw) as (? & ? & ?).
  split; [done|]. split; [unfold is_s in *; simpl in *; lia|]. split_and!; simpl; try done.
  intros n. destruct (ad_name m) eqn:Hname; [|apply Hn]. intros [= <-]. by apply Hm.
Qed.

Lemma new_entry_ok a rssi m now :
  is_s 8 rssi → is_u 64 now → metadata_ok m → entry_ok (new_entry a rssi m now).
Proof.
  intros Hrssi Hnow Hm. unfold entry_ok, window_ok, is_u, is_s in *. simpl in *.
  split_and!; try lia; try done.
Qed.

(** Writing one slot of a well-formed registry. *)
Lemma registry_write r i old e r' :
  registry_ok r → entries r !! i = Some old → entry_ok e →
  (∀ j e', j ≠ i → entries r !! j = Some (Some e') → address e' ≠ address e) →
  entries r' = <[i := Some e]> (entries r) → previous_remembered r' = previous_remembered r →
  registry_ok r' ∧
  registry_map r' = <[address e := e]> (match old with
    | Some o => delete (address o) (registry_map r) | None => registry_map r end).
Proof.
  intros (Hlen & Hrem & Hslots & Hnames) Hi He Hother Hent Hprev.
  destruct (slots_insert _ _ _ _ Hslots Hi He Hother) as [Hok' Hmap].
  unfold registry_ok, registry_map. rewrite Hent, Hprev, length_insert. by split_and!.
Qed.

Lemma store_at_Ok {A} (l : list A) i x y :
  l !! i = Some x → store_at (E := unit) l i y = Ok (<[i := y]> l).
Proof. intros Hi%lookup_lt_Some. unfold store_at. by rewrite decide_True. Qed.

Lemma registry_record_refines a rssi m now r :
  registry_ok r → is_s 8 rssi → is_u 64 now → metadata_ok m →
  ∃ r', registry_record a rssi m now r = Ok r' ∧ registry_ok r' ∧ record_spec a rssi m now r r' ∧
    previous_remembered r' = previous_remembered r ∧
    reg_window_reports r' = wrapping_add_u 32 (reg_window_reports r) 1 ∧
    window_malformed_reports r' = window_malformed_reports r.
Proof.
  intros Hok Hrssi Hnow Hm. pose proof Hok as (Hlen & _ & [Hd Hents] & _).
  unfold registry_record, record_spec.
  destruct (position (holds_address a) (entries r)) as [i|] eqn:Hp.
  - apply position_Some in Hp as (slot & Hi & Hh & _).
    destruct (lookup_holds _ _ _ _ Hi Hh) as (e & -> & Ha).
    rewrite (index_Ok _ _ _ Hi). cbn [mbind res_bind]. rewrite (store_at_Ok _ _ _ _ Hi).
    cbn [mbind res_bind]. eexists. split; [reflexivity|].
    assert (entry_ok e) as He by (apply Hents; by eapply list_elem_of_lookup_2).
    assert (registry_map r !! a = Some e) as ->.
    { apply slots_map_lookup; [done|]. split; [done|by eapply list_elem_of_lookup_2]. }
    match goal with |- registry_ok ?r1 ∧ _ =>
      destruct (registry_write r i (Some e) (update_entry rssi m now e) r1) as [Hok' Hmap] end;
      [done|done|by apply update_entry_ok| |reflexivity|reflexivity|].
    { intros j e' Hji Hj Heq. by apply Hji, (Hd j i e' e). }
    split; [exact Hok'|]. split_and!; try done.
    etrans; [exact Hmap|]. simpl. rewrite Ha. apply insert_delete_eq.
  - pose proof (not_held _ _ Hp) as Hnot.
    assert (registry_map r !! a = None) as -> by by apply slots_map_None.
    pose proof (slot_for_new_spec (entries r) Hd) as Hslot.
    rewrite Hlen in Hslot. fold (registry_map r) in Hslot.
    specialize (Hslot ltac:(by intros Hnil; rewrite Hnil in Hlen)).
    assert (∀ e, Some e ∈ entries r → last_seen_ms e ≤ u_max 64) as Hages.
    { intros e He. apply Hents in He as (_ & _ & Hl & _). unfold is_u, u_max in *. lia. }
    specialize (Hslot Hages). destruct (slot_for_new (entries r)) as [i evicts].
    assert (∃ old, entries r !! i = Some old) as [old Hi] by (destruct evicts; naive_solver).
    rewrite (store_at_Ok _ _ _ _ Hi). cbn [mbind res_bind]. eexists. split; [reflexivity|].
    match goal with |- registry_ok ?r1 ∧ _ =>
      destruct (registry_write r i old (new_entry a rssi m now) r1) as [Hok' Hmap] end;
      [done|done|by apply new_entry_ok| |reflexivity|reflexivity|].
    { intros j e' _ Hj. apply Hnot. by eapply list_elem_of_lookup_2. }
    split; [exact Hok'|]. split_and!; try done.
    destruct evicts.
    + destruct Hslot as (Hsize & o & Ho & Hmin). rewrite Hsize, Nat.ltb_irrefl.
      assert (old = Some o) as -> by congruence.
      exists (address o), o. split_and!; [| |exact Hmap|done].
      * apply slots_map_lookup; [done|]. split; [done|by eapply list_elem_of_lookup_2].
      * intros c e [_ He]%slots_map_lookup; [by apply Hmin|done].
    + destruct Hslot as [Hsize Hnone]. apply Nat.ltb_lt in Hsize as ->.
      assert (old = None) as -> by congruence. split; [exact Hmap|done].
Qed.
End Record.

Section Snapshots.

(** Slots transformed one by one, addresses kept. *)
Lemma slots_transform (f : DeviceEntry → option DeviceEntry) slots :
  slots_ok slots →
  (∀ e e', f e = Some e' → address e' = address e) →
  (∀ e e', entry_ok e → f e = Some e' → entry_ok e') →
  slots_ok ((λ slot, slot ≫= f) <$> slots) ∧
  slots_map ((λ slot, slot ≫= f) <$> slots) = omap f (slots_map slots).
Proof.
  intros [Hd Hok] Ha Hf.
  assert (∀ i e', ((λ slot, slot ≫= f) <$> slots) !! i = Some (Some e') →
    ∃ e, slots !! i = Some (Some e) ∧ f e = Some e') as Hinv.
  { intros i e'. rewrite list_lookup_fmap. intros (slot & Hi & Hs)%fmap_Some.
    symmetry in Hs. apply bind_Some in Hs as (e & -> & He). eauto. }
  assert (distinct_slots ((λ slot, slot ≫= f) <$> slots)) as Hd'.
  { intros i j e1 e2 (e1' & H1 & Hf1)%Hinv (e2' & H2 & Hf2)%Hinv Heq.
    apply Ha in Hf1, Hf2. eapply Hd; [done..|congruence]. }
  split; [split; [done|]|].
  - intros e' [i Hi]%list_elem_of_lookup. apply Hinv in Hi as (e & Hi & He).
    eapply Hf; [|done]. apply Hok. by eapply list_elem_of_lookup_2.
  - apply map_eq. intros a. apply option_eq. intros e'.
    rewrite slots_map_lookup, lookup_omap_Some by done. split.
    + intros [<- [i Hi]%list_elem_of_lookup]. apply Hinv in Hi as (e & Hi & He).
      exists e. split; [done|]. apply slots_map_lookup; [done|].
      split; [by symmetry; apply Ha|by eapply list_elem_of_lookup_2].
    + intros (e & He & Hm). apply slots_map_lookup in Hm as [<- [i Hi]%list_elem_of_lookup]; [|done].
      split; [by apply Ha|]. apply list_elem_of_lookup. exists i.
      rewrite list_lookup_fmap, Hi. simpl. by rewrite He.
Qed.

Lemma registry_slots_ok r slots prev x y z :
  registry_ok r → length slots = DEVICE_CAPACITY → slots_ok slots →
  length prev = REMEMBERED_DEVICE_CAPACITY →
  (∀ d n, Some d ∈ prev → dev_name d = Some n → name_ok n) →
  registry_ok {| entries := slots; previous_remembered := prev; reg_window_reports := x;
                 window_malformed_reports := y; window_evictions := z |}.
Proof. intros. by split_and!. Qed.

Lemma remove_stale_spec now r :
  registry_ok r →
  registry_ok (remove_stale now r) ∧
  registry_map (remove_stale now r) = omap (fresh now) (registry_map r).
Proof.
  intros Hok. pose proof Hok as (Hlen & Hrem & Hslots & Hnames).
  destruct (slots_transform (fresh now) (entries r) Hslots) as [Hok' Hmap].
  - intros e e'. unfold fresh. case_match; naive_solver.
  - intros e e'. unfold fresh. case_match; naive_solver.
  - split; [|exact Hmap].
    apply (registry_slots_ok r); [done| |exact Hok'|done|done]. by rewrite length_fmap.
Qed.

Lemma average_range e : window_ok e → ∀ a, window_average e = Some a →
  a = Z.quot (window_rssi_sum e) (window_reports e) ∧ is_s 8 a ∧ 0 < window_reports e.
Proof.
  intros (Hr & _ & Hw) a. unfold window_average.
  destruct (Z.eqb_spec (window_reports e) 0) as [|Hne]; [done|]. intros [= <-].
  unfold is_u in Hr. assert (0 < window_reports e) as Hpos by lia.
  assert (-128 ≤ Z.quot (window_rssi_sum e) (window_reports e) ≤ 127) as Hq.
  { split.
    - apply Z.quot_le_lower_bound; lia.
    - apply Z.quot_le_upper_bound; lia. }
  rewrite wrap_s_small by (unfold is_s; simpl; lia). split_and!; [done|unfold is_s; simpl; lia..|done].
Qed.

Lemma heard_average e :
  window_ok e → heard e = true → ∃ a, window_average e = Some a ∧ is_s 8 a.
Proof.
  intros Hw Hh. unfold heard in Hh. apply Z.ltb_lt in Hh.
  destruct (window_average e) as [a|] eqn:Ha.
  - exists a. split; [done|]. by apply (average_range e Hw).
  - unfold window_average in Ha. destruct (Z.eqb_spec (window_reports e) 0); [lia|done].
Qed.

Lemma reset_window_ok e : entry_ok e → entry_ok (reset_window e).
Proof.
  intros (Hw & Hp & Hl & Hpre & Hn). split_and!; simpl; try done.
  intros p. destruct (window_average e) as [a|] eqn:Ha; [|apply Hpre].
  intros [= <-]. by apply (average_range e Hw).
Qed.

Lemma reset_windows_spec remembered r :
  registry_ok r → length remembered = REMEMBERED_DEVICE_CAPACITY →
  (∀ d n, Some d ∈ remembered → dev_name d = Some n → name_ok n) →
  registry_ok (reset_windows remembered r) ∧
  registry_map (reset_windows remembered r) = reset_window <$> registry_map r.
Proof.
  intros Hok Hl Hn. pose proof Hok as (Hlen & _ & Hslots & _).
  destruct (slots_transform (λ e, Some (reset_window e)) (entries r) Hslots) as [Hok' Hmap].
  - by intros e e' [= <-].
  - intros e e' He [= <-]. by apply reset_window_ok.
  - split.
    + apply (registry_slots_ok r); [done|by rewrite length_fmap|exact Hok'|done|done].
    + etrans; [exact Hmap|]. apply map_eq. intros a.
      rewrite lookup_omap, lookup_fmap. unfold registry_map. by destruct (slots_map _ !! a).
Qed.

(** ** The order of a report *)

Lemma by_average_antisym x y : by_average y x = CompOpp (by_average x y).
Proof.
  unfold by_average, option_cmp. destruct (x ≫= _) as [a|], (y ≫= _) as [b|]; try done.
  apply Z.compare_antisym.
Qed.

Lemma by_average_trans x y z :
  by_average x y ≠ Gt → by_average y z ≠ Gt → by_average x z ≠ Gt.
Proof.
  unfold by_average, option_cmp.
  destruct (x ≫= _) as [a|], (y ≫= _) as [b|], (z ≫= _) as [c|]; try done.
  rewrite !Z.compare_le_iff. lia.
Qed.

Lemma heard_entries_sorted slots :
  (∀ e, Some e ∈ slots → entry_ok e) →
  StronglySorted (λ x y, by_average x y ≠ Gt) slots → StronglySorted stronger (heard_entries slots).
Proof.
  intros Hok Hs. induction Hs as [|slot slots Hs IH Hall]; [constructor|].
  unfold heard_entries in *. destruct slot as [e|]; csimpl; cycle 1.
  { apply IH. intros e He. apply Hok. by right. }
  destruct (heard e) eqn:He; [|apply IH; intros; apply Hok; by right].
  constructor; [apply IH; intros; apply Hok; by right|].
  apply Forall_forall. intros e' [He' Hh']%list_elem_of_In%filter_In.
  apply list_elem_of_In, elem_of_entries in He'.
  destruct (heard_average e) as (a & Ha & _); [apply Hok; by left|done|].
  destruct (heard_average e') as (a' & Ha' & _); [apply Hok; by right|done|].
  exists a, a'. split_and!; [done..|].
  rewrite Forall_forall in Hall. specialize (Hall _ He').
  unfold by_average in Hall. simpl in Hall. rewrite Ha, Ha' in Hall. simpl in Hall.
  by apply Z.compare_le_iff in Hall.
Qed.

Lemma heard_entries_perm slots slots' :
  slots ≡ₚ slots' → heard_entries slots ≡ₚ heard_entries slots'.
Proof.
  unfold heard_entries. intros Hp.
  assert (omap id slots ≡ₚ omap id slots') as Hq by by rewrite Hp.
  revert Hq. generalize (omap id slots) (omap id slots'). clear.
  induction 1 as [|x l l' _ IH|x y l|l1 l2 l3 _ IH1 _ IH2]; simpl;
    [done|by case_match; [constructor|]|by repeat case_match; [constructor|..]|by etrans].
Qed.

Lemma heard_entries_elem slots e : e ∈ heard_entries slots ↔ Some e ∈ slots ∧ heard e = true.
Proof.
  unfold heard_entries. rewrite list_elem_of_In, filter_In, <-list_elem_of_In.
  by rewrite elem_of_entries.
Qed.

Lemma heard_entries_NoDup slots : distinct_slots slots → NoDup (heard_entries slots).
Proof.
  intros Hd%distinct_slots_NoDup. unfold heard_entries.
  apply NoDup_ListNoDup, List.NoDup_filter, NoDup_ListNoDup.
  rewrite <-list_fmap_compose in Hd. by eapply NoDup_fmap_1.
Qed.

Lemma remember_spec heard :
  length (remember heard) = REMEMBERED_DEVICE_CAPACITY ∧
  ∀ d, Some d ∈ remember heard ↔
    d ∈ take REMEMBERED_DEVICE_CAPACITY (displayed_from_entry <$> heard).
Proof.
  unfold remember. set (firsts := take _ _). split.
  - assert (length firsts ≤ REMEMBERED_DEVICE_CAPACITY)%nat by (unfold firsts; rewrite length_take; lia).
    rewrite length_app, length_fmap, length_replicate. lia.
  - intros d. rewrite elem_of_app, list_elem_of_fmap. split.
    + intros [(? & [= ->] & ?)|[? _]%elem_of_replicate]; done.
    + intros ?. left. eauto.
Qed.

Lemma is_lost_iff slots d :
  is_lost slots d = true ↔ ∀ e, e ∈ heard_entries slots → address e ≠ dev_address d.
Proof.
  unfold is_lost. rewrite negb_true_iff, <-not_true_iff_false, existsb_exists. split.
  - intros Hn e He Ha. apply Hn. apply heard_entries_elem in He as [He Hh]. exists e.
    rewrite <-list_elem_of_In, elem_of_entries. split; [done|].
    rewrite Hh. by apply same_address_iff.
  - intros Hall (e & He & Hm). apply andb_true_iff in Hm as [Hh Hm].
    apply same_address_iff in Hm. rewrite <-list_elem_of_In, elem_of_entries in He.
    apply (Hall e); [by apply heard_entries_elem|done].
Qed.
End Snapshots.

Section Windows.
Context `{TroubleHost}.

Lemma metadata_of_eq data : ad_metadata_parse data = Ok (metadata_of data) ∧ metadata_ok (metadata_of data).
Proof.
  unfold metadata_of. destruct (ad_metadata_parse_ok data) as (m & -> & Hm). by split.
Qed.

Lemma handler_record_spec now rep r :
  registry_ok r → report_ok (now, Some rep) →
  ∃ r', handler_record now rep r = Ok r' ∧ registry_ok r' ∧
    record_spec (rep_address rep) (rep_rssi rep) (metadata_of (rep_data rep)) now r r' ∧
    reg_window_reports r' = wrapping_add_u 32 (reg_window_reports r) 1 ∧
    window_malformed_reports r' = window_malformed_reports r.
Proof.
  intros Hok [Hnow Hrssi]. unfold handler_record.
  destruct (metadata_of_eq (rep_data rep)) as [-> Hm]. cbn [mbind res_bind].
  destruct (registry_record_refines (rep_address rep) (rep_rssi rep)
    (metadata_of (rep_data rep)) now r) as (r' & Hr & ? & ? & _ & ? & ?); [done|by apply Hrssi|done..|].
  by exists r'.
Qed.

Lemma malformed_ok r : registry_ok r → registry_ok (record_malformed_report r).
Proof. done. Qed.

(** Reports never panic and keep the registry well formed. *)
Lemma on_adv_reports_ok reports r :
  registry_ok r → Forall report_ok reports → ∃ r', on_adv_reports reports r = Ok r' ∧ registry_ok r'.
Proof.
  intros Hok Hall. revert r Hok. induction Hall as [|[now [rep|]] reports Hrep _ IH]; intros r Hok.
  - by exists r.
  - destruct (handler_record_spec now rep r Hok Hrep) as (r1 & Hr & Hok1 & _).
    cbn [on_adv_reports]. rewrite Hr. by apply IH.
  - by apply (IH (record_malformed_report r)).
Qed.

(** With room, a report touches only its own address. *)
Lemma record_spec_room a rssi m now r r' (A : gset Address) :
  record_spec a rssi m now r r' → a ∈ A →
  (size (dom (registry_map r) ∪ A) ≤ DEVICE_CAPACITY)%nat →
  window_evictions r' = window_evictions r ∧
  registry_map r' = <[a := match registry_map r !! a with
    | Some e => update_entry rssi m now e | None => new_entry a rssi m now end]> (registry_map r).
Proof.
  intros Hs Ha Hsize. unfold record_spec in Hs.
  destruct (registry_map r !! a) as [e|] eqn:He; [naive_solver|].
  rewrite (proj2 (Nat.ltb_lt _ _)) in Hs; [naive_solver|].
  assert (size (dom (registry_map r) ∪ {[ a ]}) ≤ DEVICE_CAPACITY)%nat as Hle.
  { etrans; [|exact Hsize]. apply subseteq_size. set_solver. }
  rewrite size_union, size_singleton, size_dom in Hle;
    [lia|]. apply not_elem_of_dom in He. set_solver.
Qed.

Lemma on_adv_reports_entries reports r :
  registry_ok r → Forall report_ok reports →
  (size (dom (registry_map r) ∪ report_addresses reports) ≤ DEVICE_CAPACITY)%nat →
  ∃ r', on_adv_reports reports r = Ok r' ∧ registry_ok r' ∧
    window_evictions r' = window_evictions r ∧
    ∀ a, registry_map r' !! a = foldl record_one (registry_map r !! a) (reports_of a reports).
Proof.
  intros Hok Hall. revert r Hok.
  induction Hall as [|[now [rep|]] reports Hrep _ IH]; intros r Hok Hsize.
  - by exists r.
  - destruct (handler_record_spec now rep r Hok Hrep) as (r1 & Hr & Hok1 & Hs & _).
    cbn [on_adv_reports]. rewrite Hr. cbn [mbind res_bind].
    edestruct (record_spec_room _ _ _ _ _ _ (report_addresses ((now, Some rep) :: reports)) Hs)
      as [Hev Hmap]; [unfold report_addresses; csimpl; set_solver|exact Hsize|].
    destruct (IH r1 Hok1) as (r2 & -> & Hok2 & Hev2 & Hent).
    { rewrite Hmap, dom_insert_L. etrans; [|exact Hsize]. apply subseteq_size.
      unfold report_addresses. csimpl. set_solver. }
    exists r2. split_and!; [done|done|congruence|]. intros a. rewrite Hent, Hmap.
    unfold reports_of. csimpl. case_bool_decide as Ha; subst.
    + rewrite lookup_insert_eq. done.
    + by rewrite lookup_insert_ne.
  - by apply (IH (record_malformed_report r)).
Qed.

(** ** Statistics *)

Lemma rssi_sum_snoc mine nr : rssi_sum (mine ++ [nr]) = rssi_sum mine + rep_rssi nr.2.
Proof. induction mine as [|x mine IH]; simpl in *; lia. Qed.

Lemma rssi_sum_bound mine :
  Forall (λ nr : Z * AdvReport, is_s 8 (rep_rssi nr.2)) mine →
  -128 * Z.of_nat (length mine) ≤ rssi_sum mine ≤ 127 * Z.of_nat (length mine).
Proof.
  induction 1 as [|x mine Hx _ IH]; [done|]. unfold is_s in Hx. cbn [length rssi_sum foldr] in *.
  unfold rssi_sum in IH. simpl in Hx. lia.
Qed.

Lemma counted_one o nr e :
  (∀ e, o = Some e → window_empty e) → is_s 8 (rep_rssi nr.2) →
  record_one o nr = Some e → counted [nr] e.
Proof.
  destruct nr as [now rep]. intros Ho Hr [= <-]. unfold is_s in Hr. simpl in Hr.
  destruct o as [e|].
  - destruct (Ho e eq_refl) as (Hn & Hs & Hp). unfold s_min in Hp. simpl in Hp.
    unfold counted, update_entry. cbn [window_reports window_rssi_sum window_peak_rssi last_seen_ms].
    rewrite Hn, Hs, Hp. split_and!; try done.
    + simpl. unfold saturating_add_s. simpl. lia.
    + exists (now, rep). simpl. split; [by left|lia].
    + intros nr ->%list_elem_of_singleton. simpl. lia.
  - unfold counted. simpl. split_and!; try done; [lia| |].
    + exists (now, rep). split; [by left|done].
    + intros nr ->%list_elem_of_singleton. simpl. lia.
Qed.

Lemma counted_snoc mine nr e e' :
  counted mine e → Forall (λ nr : Z * AdvReport, is_s 8 (rep_rssi nr.2)) (mine ++ [nr]) →
  Z.of_nat (length (mine ++ [nr])) < 2 ^ 24 →
  record_one (Some e) nr = Some e' → counted (mine ++ [nr]) e'.
Proof.
  intros (Hn & Hs & (top & Ht & Htop) & Hmax & Hlast) Hall Hlen He'.
  pose proof (rssi_sum_bound _ Hall) as Hb. apply Forall_app in Hall as [Hall Hnr].
  rewrite Forall_singleton in Hnr.
  rewrite length_app in *. rewrite rssi_sum_snoc in *. simpl in Hlen, Hb.
  destruct nr as [now rep]. injection He' as <-. unfold is_s in Hnr. simpl in Hnr, Hb.
  unfold counted, update_entry. cbn [window_reports window_rssi_sum window_peak_rssi last_seen_ms].
  rewrite length_app, rssi_sum_snoc, last_snoc, Hn, Hs. split_and!; try done.
  - simpl. unfold saturating_add_u, u_max. lia.
  - simpl. unfold saturating_add_s. simpl. lia.
  - destruct (Z.max_spec (window_peak_rssi e) (rep_rssi rep)) as [[_ ->]|[_ ->]].
    + exists (now, rep). split; [|done]. apply elem_of_app. right. by left.
    + exists top. split; [|done]. apply elem_of_app. by left.
  - intros nr Hin. apply elem_of_app in Hin as [Hin|Hin];
      [|apply list_elem_of_singleton in Hin as ->; simpl; lia].
    specialize (Hmax _ Hin). lia.
Qed.

Lemma counted_fold o mine :
  (∀ e, o = Some e → window_empty e) →
  Forall (λ nr : Z * AdvReport, is_s 8 (rep_rssi nr.2)) mine →
  Z.of_nat (length mine) < 2 ^ 24 →
  match mine with
  | [] => foldl record_one o mine = o
  | _ => ∃ e, foldl record_one o mine = Some e ∧ counted mine e
  end.
Proof.
  intros Ho. induction mine as [|nr mine IH] using rev_ind; intros Hall Hlen; [done|].
  assert (∃ e, foldl record_one o (mine ++ [nr]) = Some e ∧ counted (mine ++ [nr]) e) as Hgoal;
    [|by destruct mine].
  rewrite foldl_snoc. pose proof Hall as [Hall1 Hall2]%Forall_app.
  rewrite Forall_singleton in Hall2.
  rewrite length_app in Hlen. specialize (IH Hall1 ltac:(lia)).
  destruct mine as [|x mine].
  - simpl. destruct (record_one o nr) as [e|] eqn:He; [|by destruct nr].
    exists e. split; [done|]. by eapply counted_one.
  - destruct IH as (e & -> & Hc). destruct (record_one (Some e) nr) as [e'|] eqn:He; [|by destruct nr].
    exists e'. split; [done|]. eapply counted_snoc; [done|done| |done]. rewrite length_app. lia.
Qed.

Lemma counted_tallies mine e :
  Forall (λ nr : Z * AdvReport, is_s 8 (rep_rssi nr.2)) mine → mine ≠ [] →
  counted mine e → tallies mine e.
Proof.
  intros Hall Hne (Hn & Hs & Hrest). split; [done|]. split; [|done].
  pose proof (rssi_sum_bound _ Hall) as Hb.
  assert (0 < Z.of_nat (length mine)) by (destruct mine; [done|simpl; lia]).
  unfold window_average. rewrite Hn, Hs. destruct (Z.eqb_spec (Z.of_nat (length mine)) 0); [lia|].
  f_equal. apply wrap_s_small; [done|].
  assert (-128 ≤ Z.quot (rssi_sum mine) (Z.of_nat (length mine)) ≤ 127) as Hq.
  { split; [apply Z.quot_le_lower_bound|apply Z.quot_le_upper_bound]; lia. }
  unfold is_s. simpl. lia.
Qed.

Lemma reports_of_ok a reports :
  Forall report_ok reports →
  Forall (λ nr : Z * AdvReport, is_s 8 (rep_rssi nr.2)) (reports_of a reports) ∧
  (length (reports_of a reports) ≤ length reports)%nat.
Proof.
  unfold reports_of. induction 1 as [|[now [rep|]] reports [_ Hrep] _ [IH1 IH2]]; csimpl; [done| |].
  - destruct (bool_decide _); csimpl; [|split; [done|lia]].
    split; [constructor; [by apply Hrep|done]|lia].
  - split; [done|lia].
Qed.
End Windows.

Section Display.

Lemma mapM_ok {A B} (f : A → res unit B) l :
  (∀ x, x ∈ l → is_ok (f x)) → is_ok (mapM f l).
Proof.
  induction l as [|x l IH]; intros Hall; simpl; [by eexists|].
  destruct (Hall x) as [y ->]; [by left|]. destruct IH as [ys ->]; [intros; apply Hall; by right|].
  by eexists.
Qed.

Lemma entry_delta_ok e : entry_ok e → heard e = true → is_ok (entry_delta e).
Proof.
  intros (Hw & _ & _ & Hp & _) Hh. unfold entry_delta.
  destruct (heard_average e Hw Hh) as (a & -> & Ha).
  destruct (previous_window_average e) as [p|]; [|by eexists].
  specialize (Hp p eq_refl). rewrite sub_s_Ok; [by eexists|].
  unfold is_s in *. simpl in *. lia.
Qed.

Lemma section_lines_ok count limit t h rows : is_ok rows → is_ok (section_lines count limit t h rows).
Proof. intros [ls ->]. unfold section_lines. case_match; by eexists. Qed.

Lemma report_lines_ok `{TroubleHost} now s :
  (∀ e, e ∈ sr_rows s ∨ e ∈ sr_beacon_rows s → entry_ok e ∧ heard e = true) →
  (∀ d n, d ∈ sr_lost_rows s → dev_name d = Some n → name_ok n) →
  is_ok (report_lines now s).
Proof.
  intros Hrows Hlost. unfold report_lines.
  destruct (mapM_ok (entry_line now) (sr_rows s)) as [rows ->].
  { intros e He. destruct (Hrows e ltac:(by left)) as [Hok Hh]. unfold entry_line.
    destruct (entry_delta_ok e Hok Hh) as [d ->]. destruct Hok as (_ & _ & _ & _ & Hn).
    destruct (display_name_ok _ Hn) as [n ->]. by eexists. }
  destruct (section_lines_ok (sr_beacon_count s) BEACON_DISPLAY_LIMIT (lit "Detected beacons: ")
    (lit "  AVG DELTA ADDRESS             MFG    BEACON NAME") (mapM beacon_line (sr_beacon_rows s)))
    as [beacons ->].
  { apply mapM_ok. intros e He. destruct (Hrows e ltac:(by right)) as [Hok Hh]. unfold beacon_line.
    destruct (entry_delta_ok e Hok Hh) as [d ->]. destruct Hok as (_ & _ & _ & _ & Hn).
    destruct (display_name_ok _ Hn) as [n ->]. by eexists. }
  destruct (section_lines_ok (sr_lost_count s) SNAPSHOT_DISPLAY_LIMIT
    (lit "Lost since previous scan: ")
    (lit " LAST AGEms KIND ADDRESS             MFG    BEACON NAME")
    (mapM (lost_line now) (sr_lost_rows s))) as [lost ->].
  { apply mapM_ok. intros d Hd. unfold lost_line.
    destruct (display_name_ok (dev_name d)) as [n ->]; [intros m; by apply Hlost|]. by eexists. }
  by eexists.
Qed.
End Display.

(** * Implementations of the classes *)

(** Merge sort keeps the contract of [sort_unstable_by]. *)
#[export] Instance merge_sort_unstable : SortUnstable.
Proof.
  refine {| sort_unstable_by A cmp l := merge_sort (λ x y, cmp x y ≠ Gt) l |}.
  - intros. apply merge_sort_Permutation.
  - intros A cmp l Hanti Htrans. apply StronglySorted_merge_sort; [exact Htrans|].
    intros x y. rewrite (Hanti x y). destruct (cmp x y); [by left..|right; done].
Defined.

Lemma fresh_lookup now r e :
  registry_ok r →
  Some e ∈ entries (remove_stale now r) ↔
  registry_map r !! address e = Some e ∧ is_stale now e = false.
Proof.
  intros Hok. destruct (remove_stale_spec now r Hok) as [(_ & _ & [Hd _] & _) Hmap].
  assert (Some e ∈ entries (remove_stale now r) ↔
    registry_map (remove_stale now r) !! address e = Some e) as ->.
  { unfold registry_map. rewrite slots_map_lookup by done. naive_solver. }
  rewrite Hmap, lookup_omap_Some. unfold fresh. split.
  - intros (e' & He & Hl). by destruct (is_stale now e') eqn:?; simplify_eq.
  - intros [Hl Hs]. exists e. by rewrite Hs.
Qed.

Section Reports.
Context `{TroubleHost} `{SortUnstable}.

(** The heard devices in the order of the report. *)
Lemma ranking_spec now_ms r :
  registry_ok r →
  NoDup (ranking now_ms r) ∧ StronglySorted stronger (ranking now_ms r) ∧
  (∀ e, e ∈ ranking now_ms r ↔
     registry_map r !! address e = Some e ∧ heard e = true ∧ is_stale now_ms e = false) ∧
  (∀ e, e ∈ ranking now_ms r → entry_ok e ∧ heard e = true) ∧
  length (heard_entries (entries (remove_stale now_ms r))) = length (ranking now_ms r).
Proof.
  intros Hok. destruct (remove_stale_spec now_ms r Hok) as [(_ & _ & [Hd He] & _) _].
  unfold ranking. set (slots := sort_unstable_by _ _).
  assert (slots ≡ₚ entries (remove_stale now_ms r)) as Hperm by apply sort_unstable_by_perm.
  pose proof (heard_entries_perm _ _ Hperm) as Hrank.
  assert (∀ e, Some e ∈ slots → entry_ok e) as Hslots by (intros e; rewrite Hperm; apply He).
  split_and!.
  - rewrite Hrank. by apply heard_entries_NoDup.
  - apply heard_entries_sorted; [done|]. apply sort_unstable_by_sorted;
      [apply by_average_antisym|apply by_average_trans].
  - intros e. rewrite Hrank, heard_entries_elem, fresh_lookup by done. naive_solver.
  - intros e [Hin Hh]%heard_entries_elem. split; [by apply Hslots|done].
  - by rewrite Hrank.
Qed.

Lemma lost_spec now_ms r d :
  d ∈ lost_devices now_ms r ↔ Some d ∈ previous_remembered r ∧
    ∀ e, e ∈ ranking now_ms r → address e ≠ dev_address d.
Proof.
  unfold lost_devices. rewrite list_elem_of_In, filter_In, <-list_elem_of_In, is_lost_iff.
  rewrite list_elem_of_omap. unfold ranking. naive_solver.
Qed.

(** A report keeps the registry well formed and can be printed. *)
Lemma take_snapshot_ok now_ms r :
  registry_ok r →
  registry_ok (take_snapshot now_ms r).2 ∧
  (∀ a, registry_map (take_snapshot now_ms r).2 !! a = e ← registry_map r !! a;
     if is_stale now_ms e then None else Some (reset_window e)) ∧
  is_ok (report_lines now_ms (take_snapshot now_ms r).1).
Proof.
  intros Hok. destruct (remove_stale_spec now_ms r Hok) as [Hok1 Hmap1].
  destruct (ranking_spec now_ms r Hok) as (_ & _ & _ & Hrok & _).
  destruct (remember_spec (ranking now_ms r)) as [Hrl Hrm].
  destruct (reset_windows_spec (remember (ranking now_ms r)) _ Hok1 Hrl) as [Hok2 Hmap2].
  { intros d n Hd Hname. apply Hrm, elem_of_take in Hd as (i & Hd & _).
    apply list_elem_of_lookup_2, list_elem_of_fmap in Hd as (e & -> & He).
    apply Hrok in He as [(_ & _ & _ & _ & He) _]. by apply He. }
  split; [exact Hok2|]. split.
  - intros a. etrans; [exact (f_equal (lookup a) Hmap2)|]. rewrite lookup_fmap, Hmap1, lookup_omap.
    destruct (registry_map r !! a) as [e|]; [|done]. simpl. unfold fresh. by case_match.
  - apply report_lines_ok.
    + intros e [(i & He & _)%elem_of_take|(i & He & _)%elem_of_take];
        apply list_elem_of_lookup_2 in He; apply Hrok; [done|].
      by apply list_elem_of_In, filter_In in He as [?%list_elem_of_In _].
    + intros d n (i & Hd & _)%elem_of_take. apply list_elem_of_lookup_2 in Hd.
      apply (lost_spec now_ms r) in Hd as [Hd _].
      destruct Hok as (_ & _ & _ & Hnames). by apply Hnames.
Qed.

Lemma reset_window_carried e : carried_over e (reset_window e).
Proof.
  unfold carried_over, reset_window, window_average.
  by destruct (Z.eqb_spec (window_reports e) 0).
Qed.

Lemma print_snapshot_Ok now_ms r :
  registry_ok r →
  ∃ lines, print_snapshot now_ms r = Ok (lines, (take_snapshot now_ms r).2).
Proof.
  intros Hok. destruct (take_snapshot_ok now_ms r Hok) as (_ & _ & [lines Hl]). exists lines.
  unfold print_snapshot. destruct (take_snapshot now_ms r) as [s r']. simpl in Hl. by rewrite Hl.
Qed.

Lemma scanner_task_ok turns r :
  registry_ok r → windows_empty r → Forall turn_ok turns →
  ∃ log r', scanner_task turns r = Ok (log, r') ∧ registry_ok r' ∧ windows_empty r' ∧
    length log = length (omap id turns).
Proof.
  intros Hok Hempty Hall. revert r Hok Hempty.
  induction Hall as [|[[reports now_ms]|] turns Hturn _ IH]; intros r Hok Hempty.
  - by exists [], r.
  - destruct (on_adv_reports_ok reports r Hok Hturn) as (r1 & Hr1 & Hok1).
    destruct (print_snapshot_Ok now_ms r1 Hok1) as [lines Hp].
    destruct (take_snapshot_ok now_ms r1 Hok1) as (Hok2 & Hmap & _).
    destruct (IH (take_snapshot now_ms r1).2 Hok2) as (log & r2 & Hlog & Hok3 & He3 & Hlen).
    { intros a e. rewrite Hmap. intros (e1 & _ & Hs)%bind_Some. case_match; [done|].
      injection Hs as <-. done. }
    exists (lines :: log), r2. cbn [scanner_task]. unfold scan_window. rewrite Hr1.
    cbn [mbind res_bind]. rewrite Hp. cbn [mbind res_bind]. rewrite Hlog.
    split_and!; [done..|]. csimpl. by rewrite Hlen.
  - by apply IH.
Qed.
End Reports.

(** * Properties *)

(** C4: the registry is a bounded map from addresses to devices. From a
    well-formed registry, recording a report never panics and keeps it well
    formed (128 slots, one per address, window sums within -128 to 127 times
    the report count): a known address has its entry updated and no other
    changes; an unknown address is added while there is room; when the map has
    128 devices, exactly one device, none of which was seen longer ago, gives
    way and the eviction is counted. *)
Theorem registry_is_bounded_map a rssi m now_ms r :
  registry_ok r → is_s 8 rssi → is_u 64 now_ms → metadata_ok m →
  ∃ r', registry_record a rssi m now_ms r = Ok r' ∧ registry_ok r' ∧
    (size (registry_map r') ≤ DEVICE_CAPACITY)%nat ∧
    match registry_map r !! a with
    | Some e =>
      registry_map r' = <[a := update_entry rssi m now_ms e]> (registry_map r) ∧
      window_evictions r' = window_evictions r
    | None =>
      if (size (registry_map r) <? DEVICE_CAPACITY)%nat then
        registry_map r' = <[a := new_entry a rssi m now_ms]> (registry_map r) ∧
        window_evictions r' = window_evictions r
      else ∃ b old,
        registry_map r !! b = Some old ∧
        (∀ c e, registry_map r !! c = Some e → last_seen_ms old ≤ last_seen_ms e) ∧
        registry_map r' = <[a := new_entry a rssi m now_ms]> (delete b (registry_map r)) ∧
        window_evictions r' = wrapping_add_u 32 (window_evictions r) 1
    end.
Proof.
  intros Hok Hr Hn Hm.
  destruct (registry_record_refines a rssi m now_ms r Hok Hr Hn Hm) as (r' & H1 & H2 & H3 & _).
  exists r'. split_and!; [done|done| |exact H3].
  destruct H2 as (Hlen & _ & [Hd _] & _). unfold registry_map.
  rewrite slots_map_size by done. rewrite <-Hlen. apply omap_id_length.
Qed.

Lemma registry_new_ok : registry_ok registry_new.
Proof.
  split_and!; [done|done| |].
  - split.
    + intros i j e1 e2 Hi%list_elem_of_lookup_2%elem_of_replicate. by destruct Hi.
    + intros e He%elem_of_replicate. by destruct He.
  - intros d n Hd%elem_of_replicate. by destruct Hd.
Qed.

Lemma registry_map_new : registry_map registry_new = ∅.
Proof. by vm_compute. Qed.

Lemma registry_is_bounded_map_witness :
  let a := {| addr_kind := 1; addr_bytes := [1; 2; 3; 4; 5; 6] |} in
  ∃ r', registry_record a (-60) ad_metadata_new 7 registry_new = Ok r' ∧
    registry_map r' = {[ a := new_entry a (-60) ad_metadata_new 7 ]}.
Proof.
  intros a.
  destruct (registry_is_bounded_map a (-60) ad_metadata_new 7 registry_new)
    as (r' & Hr & _ & _ & Hm); [apply registry_new_ok|by vm_compute|by vm_compute|done|].
  exists r'. split; [exact Hr|].
  rewrite registry_map_new, lookup_empty, map_size_empty in Hm. destruct Hm as [Hm _].
  by rewrite Hm, insert_empty.
Defined.

(** C13: the statistics of a scan window. Starting from reset windows (as after
    every report), with at most 128 devices known or heard and fewer than 2^24
    reports, handling the reports never panics and evicts nobody; afterwards a
    device that sent reports has exactly their count, their mean RSSI truncated
    toward zero, their greatest RSSI and the time of the last one, whatever
    was interleaved, and every other device's entry is as before. *)
Theorem window_statistics `{TroubleHost} (reports : list (Z * option AdvReport)) r :
  registry_ok r → Forall report_ok reports →
  (∀ a e, registry_map r !! a = Some e → window_empty e) →
  (size (dom (registry_map r) ∪ report_addresses reports) ≤ DEVICE_CAPACITY)%nat →
  Z.of_nat (length reports) < 2 ^ 24 →
  ∃ r', on_adv_reports reports r = Ok r' ∧ registry_ok r' ∧
    window_evictions r' = window_evictions r ∧
    ∀ a, match reports_of a reports with
         | [] => registry_map r' !! a = registry_map r !! a
         | mine => ∃ e, registry_map r' !! a = Some e ∧ tallies mine e
         end.
Proof.
  intros Hok Hrep Hempty Hsize Hlen.
  destruct (on_adv_reports_entries reports r Hok Hrep Hsize) as (r' & H1 & H2 & H3 & H4).
  exists r'. split_and!; [done..|]. intros a. specialize (H4 a).
  destruct (reports_of_ok a reports Hrep) as [Hall Hle].
  pose proof (counted_fold (registry_map r !! a) (reports_of a reports)
    (Hempty a) Hall ltac:(lia)) as Hc.
  destruct (reports_of a reports) as [|nr mine]; [by rewrite H4|].
  destruct Hc as (e & He & Hc). exists e. split; [by rewrite H4|].
  by apply counted_tallies.
Qed.

Lemma window_statistics_witness :
  let a := {| addr_kind := 1; addr_bytes := [1; 2; 3; 4; 5; 6] |} in
  let rep n := {| rep_address := a; rep_rssi := n; rep_data := [] |} in
  ∃ r' e, on_adv_reports [(1, Some (rep (-60))); (2, None); (3, Some (rep (-51)))] registry_new = Ok r' ∧
    registry_map r' !! a = Some e ∧ window_average e = Some (-55).
Proof.
  intros a rep.
  destruct (window_statistics [(1, Some (rep (-60))); (2, None); (3, Some (rep (-51)))] registry_new)
    as (r' & Hr & _ & _ & Hs).
  - apply registry_new_ok.
  - rewrite !Forall_cons, Forall_nil. unfold report_ok, is_u, is_s. simpl.
    split_and!; try lia; intros ? Heq; simplify_eq; simpl; lia.
  - intros b e. by rewrite registry_map_new, lookup_empty.
  - rewrite registry_map_new. apply Nat.leb_le. by vm_compute.
  - done.
  - specialize (Hs a). destruct Hs as (e & He & _ & Ha & _).
    exists r', e. split; [exact Hr|]. split; [exact He|]. rewrite Ha. by vm_compute.
Defined.

(** C14: the report of a scan window. From a well-formed registry the report
    never panics (no RSSI difference overflows), and there is a ranking of
    exactly the devices heard in the window and not stale, strongest average
    first, of which the report shows: their number and the first 12; among
    the beacons their number and the first 24; as lost, exactly the remembered
    devices not in the ranking. The registry then remembers the first 48 of
    the ranking, has dropped the stale devices and reset every window; a
    device not heard in the window keeps the average of an earlier one. *)
Theorem snapshot_report_exact `{TroubleHost} `{SortUnstable} now_ms r :
  registry_ok r →
  ∃ s r' lines ranking lost,
    take_snapshot now_ms r = (s, r') ∧ print_snapshot now_ms r = Ok (lines, r') ∧
    registry_ok r' ∧
    NoDup ranking ∧ StronglySorted stronger ranking ∧
    (∀ e, e ∈ ranking ↔
       registry_map r !! address e = Some e ∧ heard e = true ∧ is_stale now_ms e = false) ∧
    sr_count s = length ranking ∧ sr_rows s = take 12 ranking ∧
    sr_beacon_count s = length (List.filter (λ e, is_beacon (beacon e)) ranking) ∧
    sr_beacon_rows s = take 24 (List.filter (λ e, is_beacon (beacon e)) ranking) ∧
    (∀ d, d ∈ lost ↔ Some d ∈ previous_remembered r ∧
       ∀ e, e ∈ ranking → address e ≠ dev_address d) ∧
    sr_lost_count s = length lost ∧ sr_lost_rows s = take 12 lost ∧
    (∀ d, Some d ∈ previous_remembered r' ↔
       d ∈ take 48 (displayed_from_entry <$> ranking)) ∧
    (∀ a, match registry_map r !! a with
          | Some e =>
            if is_stale now_ms e then registry_map r' !! a = None
            else ∃ e', registry_map r' !! a = Some e' ∧ carried_over e e'
          | None => registry_map r' !! a = None
          end).
Proof.
  intros Hok. destruct (ranking_spec now_ms r Hok) as (H1 & H2 & H3 & _ & H4).
  destruct (take_snapshot_ok now_ms r Hok) as (H5 & H6 & _).
  destruct (print_snapshot_Ok now_ms r Hok) as [lines H7].
  exists (take_snapshot now_ms r).1, (take_snapshot now_ms r).2, lines, (ranking now_ms r),
    (lost_devices now_ms r).
  split_and!; try done; [apply lost_spec|apply remember_spec|].
  intros a. rewrite H6. destruct (registry_map r !! a) as [e|]; [|done]. simpl.
  destruct (is_stale now_ms e); [done|]. eexists. split; [done|apply reset_window_carried].
Qed.

Lemma snapshot_report_exact_witness :
  let a := {| addr_kind := 1; addr_bytes := [1; 2; 3; 4; 5; 6] |} in
  ∃ r s r' lines e, registry_record a (-60) ad_metadata_new 7 registry_new = Ok r ∧
    take_snapshot 100 r = (s, r') ∧ print_snapshot 100 r = Ok (lines, r') ∧
    registry_map r' !! a = Some e ∧ previous_window_average e = Some (-60).
Proof.
  intros a.
  destruct (registry_record_refines a (-60) ad_metadata_new 7 registry_new registry_new_ok)
    as (r & Hr & Hok & Hm & _); [by vm_compute|by vm_compute|done|].
  destruct (snapshot_report_exact 100 r Hok)
    as (s & r' & lines & ranking & lost & H1 & H2 & _ & _ & _ & _ & _ & _ & _ & _ & _ & _ & _ & _ & H3).
  unfold record_spec in Hm. rewrite registry_map_new, lookup_empty, map_size_empty in Hm.
  destruct Hm as [Hm _]. specialize (H3 a). rewrite Hm, lookup_insert_eq in H3.
  destruct H3 as (e & He & _ & Hp & _).
  exists r, s, r', lines, e. by split_and!.
Defined.

(** The scanner never panics. Over any turns of its loop, from the empty
    registry, with any reports whose RSSI is an [i8] and time a [u64], the
    task handles every report and prints one report per successful scan; the
    registry stays well formed and each scan starts with empty windows. *)
Theorem scanner_never_panics `{TroubleHost} `{SortUnstable}
    (turns : list (option (list (Z * option AdvReport) * Z))) :
  Forall turn_ok turns →
  ∃ log r, scanner_task turns registry_new = Ok (log, r) ∧ registry_ok r ∧ windows_empty r ∧
    length log = length (omap id turns).
Proof.
  apply scanner_task_ok; [apply registry_new_ok|].
  intros a e. by rewrite registry_map_new, lookup_empty.
Qed.

Lemma scanner_never_panics_witness :
  let a := {| addr_kind := 1; addr_bytes := [1; 2; 3; 4; 5; 6] |} in
  let rep n := {| rep_address := a; rep_rssi := n; rep_data := [] |} in
  ∃ log r, scanner_task [Some ([(1, Some (rep (-60)))], 5000); None; Some ([], 10000)] registry_new =
    Ok (log, r) ∧ length log = 2%nat.
Proof.
  intros a rep.
  destruct (scanner_never_panics [Some ([(1, Some (rep (-60)))], 5000); None; Some ([], 10000)])
    as (log & r & Hl & _ & _ & Hlen).
  - rewrite !Forall_cons, Forall_nil. unfold turn_ok, report_ok, is_u, is_s.
    rewrite !Forall_cons, Forall_nil. simpl. split_and!; try done; intros ? Heq; simplify_eq; simpl; lia.
  - by exists log, r.
Defined.
