(* ===== verification/Beacon.v ===== *)
(** [firmware/seeed/xiao-esp32c6-beacon/src/main.rs]: the beacon's settings
    from build-time variables, its name, and what it advertises.

    [trouble-host]'s encoder of advertising structures is the class
    [AdEncoder], with its documented contract against the decoder of
    [Advertisement] in [AdEncoderLaws]. *)
From stdpp Require Import prelude list numbers option strings.
From Stdlib Require Import ZArith.
From S2P Require Import Prelude Text Bluetooth Advertisement.
Local Open Scope Z_scope.

Definition DEFAULT_BEACON_UUID : list Z := lit "7a1e1000-4c2a-4f66-a1d4-3f55b55a1000".
Definition DEFAULT_BEACON_MAJOR : Z := 1.
Definition DEFAULT_MEASURED_POWER_DBM : Z := -59.
Definition DEFAULT_RADIO_TX_POWER_DBM : Z := 9.
Definition DEFAULT_ADVERTISING_INTERVAL_MS : Z := MIN_MILLIS.
Definition MAX_BEACON_NAME_LENGTH : nat := 29.
Definition GENERATED_BEACON_NAME_LENGTH : nat := 11.
Definition GENERATED_BEACON_NAME_PREFIX : list Z := lit "Beacon ".

(** * Names *)

Record BeaconName : Type := { bname_bytes : list Z; bname_length : Z }.

Definition hexadecimal_digit (nibble : Z) : Z :=
  if between 0 nibble 9 then 0x30 + nibble else 0x41 + nibble - 10.

Definition beacon_name_from_address {E} (a : StaticRandomAddress) : res E BeaconName :=
  bytes ← copy_range (replicate MAX_BEACON_NAME_LENGTH 0) 0 (length GENERATED_BEACON_NAME_PREFIX)
            GENERATED_BEACON_NAME_PREFIX;
  a4 ← index a 4;
  a5 ← index a 5;
  bytes ← store_at bytes 7 (hexadecimal_digit (Z.shiftr a4 4));
  bytes ← store_at bytes 8 (hexadecimal_digit (Z.land a4 0x0F));
  bytes ← store_at bytes 9 (hexadecimal_digit (Z.shiftr a5 4));
  bytes ← store_at bytes 10 (hexadecimal_digit (Z.land a5 0x0F));
  Ok {| bname_bytes := bytes; bname_length := Z.of_nat GENERATED_BEACON_NAME_LENGTH |}.

Definition beacon_name_from_str {E} (name : list Z) : res E (option BeaconName) :=
  if match name with [] => true | _ => false end || (MAX_BEACON_NAME_LENGTH <? length name)%nat
  then Ok None
  else
    bytes ← copy_range (replicate MAX_BEACON_NAME_LENGTH 0) 0 (length name) name;
    Ok (Some {| bname_bytes := bytes; bname_length := wrap_u 8 (Z.of_nat (length name)) |}).

Definition beacon_name_as_bytes {E} (n : BeaconName) : res E (list Z) :=
  inline_view (bname_bytes n) (bname_length n).

Definition beacon_name_as_str {E} (n : BeaconName) : res E (list Z) :=
  bytes ← beacon_name_as_bytes n; Ok (from_utf8_or_empty bytes).

(** * Settings *)

Inductive SettingsError : Type :=
  | InvalidUuid
  | InvalidName
  | InvalidMajor
  | InvalidMinor
  | InvalidMeasuredPower
  | InvalidAdvertisingInterval
  | UnsupportedRadioTxPower.

Definition settings_error_display (e : SettingsError) : list Z :=
  match e with
  | InvalidUuid => lit "BEACON_UUID must use canonical 8-4-4-4-12 hexadecimal UUID syntax"
  | InvalidName => lit "BEACON_NAME must contain between 1 and 29 UTF-8 bytes"
  | InvalidMajor => lit "BEACON_MAJOR must be an integer from 0 through 65535"
  | InvalidMinor => lit "BEACON_MINOR must be an integer from 0 through 65535"
  | InvalidMeasuredPower =>
    lit "BEACON_MEASURED_POWER_DBM must be an integer from -128 through 127"
  | InvalidAdvertisingInterval => lit "BEACON_INTERVAL_MS must be an integer from 20 through 10240"
  | UnsupportedRadioTxPower =>
    lit "BEACON_RADIO_TX_POWER_DBM must be one of -15,-12,-9,-6,-3,0,3,6,9,12,15,18,20"
  end.

(** [esp_radio]'s levels. *)
Inductive ControllerTxPower : Type :=
  | N15 | N12 | N9 | N6 | N3 | N0 | P3 | P6 | P9 | P12 | P15 | P18 | P20.

Definition controller_tx_power (dbm : Z) : res SettingsError ControllerTxPower :=
  if dbm =? -15 then Ok N15 else if dbm =? -12 then Ok N12 else if dbm =? -9 then Ok N9
  else if dbm =? -6 then Ok N6 else if dbm =? -3 then Ok N3 else if dbm =? 0 then Ok N0
  else if dbm =? 3 then Ok P3 else if dbm =? 6 then Ok P6 else if dbm =? 9 then Ok P9
  else if dbm =? 12 then Ok P12 else if dbm =? 15 then Ok P15 else if dbm =? 18 then Ok P18
  else if dbm =? 20 then Ok P20 else Err UnsupportedRadioTxPower.

Record BeaconSettings : Type := {
  set_name : BeaconName;
  set_frame : IBeacon;
  set_interval : AdvertisingInterval;
  set_radio_tx_power : ControllerTxPower;
  set_radio_tx_power_dbm : Z
}.

(** The variables [option_env!] reads. *)
Record BeaconEnv : Type := {
  BEACON_NAME : option (list Z);
  BEACON_UUID : option (list Z);
  BEACON_MAJOR : option (list Z);
  BEACON_MINOR : option (list Z);
  BEACON_MEASURED_POWER_DBM : option (list Z);
  BEACON_INTERVAL_MS : option (list Z);
  BEACON_RADIO_TX_POWER_DBM : option (list Z)
}.

(** [parse] is the type's [FromStr]. *)
Definition parse_optional {T} (parse : list Z → option T) (value : option (list Z)) (default : T)
    (error : SettingsError) : res SettingsError T :=
  match value with
  | Some value => ok_or error (parse value)
  | None => Ok default
  end.

(** [u16::from_be_bytes] *)
Definition from_be16 (hi lo : Z) : Z := hi * 256 + lo.

Definition beacon_settings (env : BeaconEnv) (a : StaticRandomAddress) :
    res SettingsError BeaconSettings :=
  name ← match BEACON_NAME env with
         | Some name => n ← beacon_name_from_str name; ok_or InvalidName n
         | None => beacon_name_from_address a
         end;
  uuid ← map_err (λ _, InvalidUuid)
           (uuid_parse (default DEFAULT_BEACON_UUID (BEACON_UUID env)));
  major ← parse_optional (parse_u 16) (BEACON_MAJOR env) DEFAULT_BEACON_MAJOR InvalidMajor;
  a4 ← index a 4;
  a5 ← index a 5;
  minor ← parse_optional (parse_u 16) (BEACON_MINOR env) (from_be16 a4 a5) InvalidMinor;
  measured_power ← parse_optional (parse_s 8) (BEACON_MEASURED_POWER_DBM env)
                     DEFAULT_MEASURED_POWER_DBM InvalidMeasuredPower;
  interval_millis ← parse_optional (parse_u 16) (BEACON_INTERVAL_MS env)
                      DEFAULT_ADVERTISING_INTERVAL_MS InvalidAdvertisingInterval;
  interval ← map_err (λ _, InvalidAdvertisingInterval) (interval_from_millis interval_millis);
  radio_tx_power_dbm ← parse_optional (parse_s 8) (BEACON_RADIO_TX_POWER_DBM env)
                         DEFAULT_RADIO_TX_POWER_DBM UnsupportedRadioTxPower;
  radio_tx_power ← controller_tx_power radio_tx_power_dbm;
  Ok {| set_name := name; set_frame := ibeacon_new uuid major minor measured_power;
        set_interval := interval; set_radio_tx_power := radio_tx_power;
        set_radio_tx_power_dbm := radio_tx_power_dbm |}.

(** * Advertising *)

(** [AdStructure::encode_slice] into a buffer of [cap] bytes ([None]: it does
    not fit), and [LE_GENERAL_DISCOVERABLE | BR_EDR_NOT_SUPPORTED]. *)
Class AdEncoder `{TroubleHost} : Type := {
  ad_encode : list AdStructure → nat → option (list Z);
  AD_FLAGS : Z
}.

Inductive advertise_setup : Type :=
  | PayloadFailed
  | ScanResponseFailed
  | Advertising (adv_data scan_data : list Z).

(** The head of [advertise_forever]: the two packets. *)
Definition advertise_packets `{AdEncoder} (settings : BeaconSettings) : res unit advertise_setup :=
  let payload := manufacturer_payload (set_frame settings) in
  match ad_encode [AdFlags AD_FLAGS; ManufacturerSpecificData IBEACON_COMPANY_IDENTIFIER payload] 31
  with
  | None => Ok PayloadFailed
  | Some adv_data =>
    name ← beacon_name_as_bytes (set_name settings);
    match ad_encode [CompleteLocalName name] 31 with
    | None => Ok ScanResponseFailed
    | Some scan_data => Ok (Advertising adv_data scan_data)
    end
  end.

(** * Specification *)

(** The structures the firmware writes. *)
Definition ad_writable (s : AdStructure) : Prop :=
  match s with
  | AdFlags flags => is_u 8 flags
  | CompleteLocalName name => (length name ≤ 29)%nat
  | ManufacturerSpecificData c payload => is_u 16 c ∧ (length payload ≤ 27)%nat
  | _ => False
  end.

Class AdEncoderLaws `{AdEncoder} : Prop := {
  ad_flags_byte : is_u 8 AD_FLAGS;
  (** it fails only for lack of room *)
  ad_encode_fits ss cap :
    Forall ad_writable ss →
    (length (concat (ad_structure_encode <$> ss)) ≤ cap)%nat → is_Some (ad_encode ss cap);
  (** and what it writes decodes to the structures *)
  ad_decode_encode ss cap data :
    Forall ad_writable ss → ad_encode ss cap = Some data → ad_decode data = Some <$> ss
}.

(** The text of a name. *)
Definition bname_holds (n : BeaconName) (v : list Z) : Prop :=
  inline_holds 0 MAX_BEACON_NAME_LENGTH (bname_bytes n) (bname_length n) v.

(** [Beacon XXXX] for a 16-bit minor. *)
Definition generated_name (minor : Z) : list Z :=
  GENERATED_BEACON_NAME_PREFIX ++ hex2 true (minor / 256) ++ hex2 true (minor mod 256).

(** The default minor: the last two bytes of the address. *)
Definition default_minor (a : StaticRandomAddress) : Z := from_be16 (nth 4 a 0) (nth 5 a 0).

(** A variable's value, or the default. *)
Definition chosen {T} (parse : list Z → option T) (variable : option (list Z)) (d : T) (x : T) :
    Prop := match variable with Some v => parse v = Some x | None => x = d end.

Definition name_value (v : list Z) : option (list Z) :=
  if (1 <=? length v)%nat && (length v <=? 29)%nat then Some v else None.

Definition interval_value (v : list Z) : option Z :=
  n ← parse_u 16 v; if between 20 n 10240 then Some n else None.

Definition tx_levels : list Z := [-15; -12; -9; -6; -3; 0; 3; 6; 9; 12; 15; 18; 20].

Definition tx_value (v : list Z) : option Z :=
  n ← parse_s 8 v; if bool_decide (n ∈ tx_levels) then Some n else None.

(** [e]'s variable is set to something its grammar refuses. *)
Definition blames (env : BeaconEnv) (e : SettingsError) : Prop :=
  let refused {T} (parse : list Z → option T) variable :=
    ∃ v, variable = Some v ∧ parse v = None in
  match e with
  | InvalidName => refused name_value (BEACON_NAME env)
  | InvalidUuid => refused (λ v, ok_opt (uuid_parse v)) (BEACON_UUID env)
  | InvalidMajor => refused (parse_u 16) (BEACON_MAJOR env)
  | InvalidMinor => refused (parse_u 16) (BEACON_MINOR env)
  | InvalidMeasuredPower => refused (parse_s 8) (BEACON_MEASURED_POWER_DBM env)
  | InvalidAdvertisingInterval => refused interval_value (BEACON_INTERVAL_MS env)
  | UnsupportedRadioTxPower => refused tx_value (BEACON_RADIO_TX_POWER_DBM env)
  end.

(** The settings a set of variables asks for. *)
Definition settings_for (env : BeaconEnv) (a : StaticRandomAddress) (s : BeaconSettings) : Prop :=
  (∃ v, bname_holds (set_name s) v ∧
     chosen name_value (BEACON_NAME env) (generated_name (default_minor a)) v) ∧
  chosen (λ v, ok_opt (uuid_parse v)) (BEACON_UUID env)
    [0x7A; 0x1E; 0x10; 0x00; 0x4C; 0x2A; 0x4F; 0x66; 0xA1; 0xD4; 0x3F; 0x55; 0xB5; 0x5A; 0x10; 0x00]
    (beacon_uuid (set_frame s)) ∧
  chosen (parse_u 16) (BEACON_MAJOR env) 1 (beacon_major (set_frame s)) ∧
  chosen (parse_u 16) (BEACON_MINOR env) (default_minor a) (beacon_minor (set_frame s)) ∧
  chosen (parse_s 8) (BEACON_MEASURED_POWER_DBM env) (-59) (beacon_measured_power (set_frame s)) ∧
  chosen interval_value (BEACON_INTERVAL_MS env) 20 (interval_millis (set_interval s)) ∧
  chosen tx_value (BEACON_RADIO_TX_POWER_DBM env) 9 (set_radio_tx_power_dbm s) ∧
  controller_tx_power (set_radio_tx_power_dbm s) = Ok (set_radio_tx_power s).

(** * Concrete instances *)

Definition default_env : BeaconEnv :=
  {| BEACON_NAME := None; BEACON_UUID := None; BEACON_MAJOR := None; BEACON_MINOR := None;
     BEACON_MEASURED_POWER_DBM := None; BEACON_INTERVAL_MS := None;
     BEACON_RADIO_TX_POWER_DBM := None |}.

(** A codec that keeps the contract. *)
#[export] Instance fixture_encoder : AdEncoder :=
  {| ad_encode ss cap :=
       let data := concat (ad_structure_encode <$> ss) in
       if (length data <=? cap)%nat then Some data else None;
     AD_FLAGS := 0x06 |}.

(** * Lemmas *)

Section Names.
Context {E : Type}.

Lemma hexadecimal_digit_eq n : 0 ≤ n → hexadecimal_digit n = hex_digit true n.
Proof.
  intros Hn. unfold hexadecimal_digit, hex_digit.
  destruct (Z.ltb_spec n 10); [rewrite between_true by lia|rewrite between_false by lia]; lia.
Qed.

Lemma nibbles b : is_u 8 b →
  hexadecimal_digit (Z.shiftr b 4) = hex_digit true (b / 16) ∧
  hexadecimal_digit (Z.land b 0x0F) = hex_digit true (b mod 16).
Proof.
  intros [Hb _]. rewrite Z.shiftr_div_pow2 by done. change 0x0F with (Z.ones 4).
  rewrite Z.land_ones by done. change (2 ^ 4) with 16.
  rewrite !hexadecimal_digit_eq; [done|apply Z.mod_pos_bound; lia|apply Z.div_pos; lia].
Qed.

Lemma from_be16_fields hi lo : is_u 8 hi → is_u 8 lo →
  from_be16 hi lo / 256 = hi ∧ from_be16 hi lo mod 256 = lo ∧ is_u 16 (from_be16 hi lo).
Proof.
  unfold is_u, from_be16. simpl. intros Hhi Hlo. split_and!; try lia.
  - rewrite Z.div_add_l by lia. rewrite Z.div_small by lia. lia.
  - rewrite Z.add_comm, Z.mod_add by lia. apply Z.mod_small. lia.
Qed.

Lemma beacon_name_from_address_spec a :
  address_wf a →
  ∃ n, beacon_name_from_address (E := E) a = Ok n ∧ bname_holds n (generated_name (default_minor a)).
Proof.
  intros (a0 & a1 & a2 & a3 & a4 & a5 & -> & _ & _ & _ & _ & H4 & H5)%address_wf_cases.
  eexists. split; [reflexivity|].
  destruct (from_be16_fields a4 a5 H4 H5) as (Hdiv & Hmod & _).
  unfold bname_holds, generated_name, default_minor. cbn [nth]. rewrite Hdiv, Hmod.
  destruct (nibbles a4 H4) as [Ha Hb], (nibbles a5 H5) as [Hc Hd]. unfold hex2.
  rewrite <-Ha, <-Hb, <-Hc, <-Hd. split_and!; [simpl; unfold MAX_BEACON_NAME_LENGTH; lia|done|done].
Qed.

Lemma beacon_name_from_str_spec v :
  match name_value v with
  | Some _ => ∃ n, beacon_name_from_str (E := E) v = Ok (Some n) ∧ bname_holds n v
  | None => beacon_name_from_str (E := E) v = Ok None
  end.
Proof.
  unfold name_value, beacon_name_from_str, MAX_BEACON_NAME_LENGTH.
  destruct v as [|x v]; [done|]. cbn [orb]. set (w := x :: v).
  assert ((1 <=? length w)%nat = true) as -> by done. cbn [andb].
  destruct (Nat.leb_spec (length w) 29), (Nat.ltb_spec 29 (length w)); try lia; [|done].
  rewrite copy_range_Ok by (rewrite ?length_replicate; lia). cbn [mbind res_bind].
  eexists. split; [done|]. unfold bname_holds, inline_holds. cbn [bname_bytes bname_length].
  rewrite wrap_u_small by (unfold is_u; lia). split_and!; [done|done|].
  cbn [take app]. by rewrite drop_replicate.
Qed.
End Names.

Section Settings.

Lemma parse_optional_cases {T} (parse : list Z → option T) variable d e :
  match parse_optional parse variable d e with
  | Ok x => chosen parse variable d x
  | Err e' => e' = e ∧ ∃ v, variable = Some v ∧ parse v = None
  | Panic => False
  end.
Proof.
  unfold parse_optional, chosen, ok_or. destruct variable as [v|]; [|done].
  destruct (parse v) eqn:Hp; [done|]. eauto.
Qed.

Lemma default_uuid : uuid_parse DEFAULT_BEACON_UUID =
  Ok [0x7A; 0x1E; 0x10; 0x00; 0x4C; 0x2A; 0x4F; 0x66; 0xA1; 0xD4; 0x3F; 0x55; 0xB5; 0x5A; 0x10; 0x00].
Proof. by vm_compute. Qed.

Lemma tx_power_cases n :
  match controller_tx_power n with
  | Ok _ => n ∈ tx_levels
  | Err e => e = UnsupportedRadioTxPower ∧ n ∉ tx_levels
  | Panic => False
  end.
Proof.
  unfold controller_tx_power, tx_levels.
  repeat match goal with |- context [?x =? ?y] =>
    destruct (Z.eqb_spec x y) as [->|]; [set_solver|] end.
  split; [done|]. rewrite !not_elem_of_cons. split_and!; [done..|]. by intros ?%elem_of_nil.
Qed.

Lemma interval_cases n :
  match interval_from_millis n with
  | Ok i => interval_millis i = n ∧ 20 ≤ n ≤ 10240
  | Err _ => between 20 n 10240 = false
  | Panic => False
  end.
Proof.
  unfold interval_from_millis, MIN_MILLIS, MAX_MILLIS, between.
  destruct (Z.ltb_spec n 20), (Z.ltb_spec 10240 n); simpl; try lia;
    apply andb_false_iff; rewrite !Z.leb_gt; lia.
Qed.

Lemma interval_setting variable :
  match (n ← parse_optional (parse_u 16) variable DEFAULT_ADVERTISING_INTERVAL_MS
               InvalidAdvertisingInterval;
         map_err (λ _, InvalidAdvertisingInterval) (interval_from_millis n)) with
  | Ok i => chosen interval_value variable 20 (interval_millis i)
  | Err e => e = InvalidAdvertisingInterval ∧ ∃ v, variable = Some v ∧ interval_value v = None
  | Panic => False
  end.
Proof.
  unfold interval_value. destruct variable as [v|]; [|done]. cbn [parse_optional chosen].
  destruct (parse_u 16 v) as [n|] eqn:Hv; cbn [ok_or mbind res_bind option_bind];
    [|split; [done|]; exists v; by rewrite Hv].
  pose proof (interval_cases n) as Hn. destruct (interval_from_millis n) as [i|e|]; simpl; [| |done].
  - destruct Hn as [-> Hn]. by rewrite between_true.
  - split; [done|]. exists v. rewrite Hv. simpl. by rewrite Hn.
Qed.

Lemma tx_setting variable :
  match (n ← parse_optional (parse_s 8) variable DEFAULT_RADIO_TX_POWER_DBM
               UnsupportedRadioTxPower;
         _ ← controller_tx_power n; Ok n) with
  | Ok n => chosen tx_value variable 9 n
  | Err e => e = UnsupportedRadioTxPower ∧ ∃ v, variable = Some v ∧ tx_value v = None
  | Panic => False
  end.
Proof.
  unfold tx_value. destruct variable as [v|]; [|done]. cbn [parse_optional chosen].
  destruct (parse_s 8 v) as [n|] eqn:Hv; cbn [ok_or mbind res_bind option_bind];
    [|split; [done|]; exists v; by rewrite Hv].
  pose proof (tx_power_cases n) as Hn. destruct (controller_tx_power n) as [p|e|]; simpl; [| |done].
  - by rewrite bool_decide_true.
  - destruct Hn as [-> Hn]. split; [done|]. exists v. rewrite Hv. simpl. by rewrite bool_decide_false.
Qed.

Lemma uuid_cases variable :
  match map_err (λ _, InvalidUuid) (uuid_parse (default DEFAULT_BEACON_UUID variable)) with
  | Ok u => chosen (λ v, ok_opt (uuid_parse v)) variable
      [0x7A; 0x1E; 0x10; 0x00; 0x4C; 0x2A; 0x4F; 0x66; 0xA1; 0xD4; 0x3F; 0x55; 0xB5; 0x5A; 0x10; 0x00] u
  | Err e => e = InvalidUuid ∧ ∃ v, variable = Some v ∧ ok_opt (uuid_parse v) = None
  | Panic => False
  end.
Proof.
  destruct variable as [v|]; [|cbn [default chosen]; by rewrite default_uuid].
  change (default _ (Some v)) with v. cbn [chosen].
  pose proof (uuid_parse_not_Panic v) as Hp.
  destruct (uuid_parse v) as [u|e|] eqn:Hu; simpl; [done| |by destruct Hp].
  split; [done|]. exists v. by rewrite Hu.
Qed.

Lemma name_cases (variable : option (list Z)) a :
  address_wf a →
  match (match variable with
         | Some name => n ← beacon_name_from_str name; ok_or InvalidName n
         | None => beacon_name_from_address a end) with
  | Ok n => ∃ v, bname_holds n v ∧ chosen name_value variable (generated_name (default_minor a)) v
  | Err e => e = InvalidName ∧ ∃ v, variable = Some v ∧ name_value v = None
  | Panic => False
  end.
Proof.
  intros Ha. destruct variable as [v|].
  - pose proof (beacon_name_from_str_spec (E := SettingsError) v) as Hv.
    destruct (name_value v) as [w|] eqn:Hn.
    + destruct Hv as (n & -> & Hh). simpl. exists v. split; [done|].
      unfold name_value in *. by case_match; simplify_eq.
    + rewrite Hv. simpl. eauto.
  - destruct (beacon_name_from_address_spec (E := SettingsError) a Ha) as (n & -> & Hh).
    by eexists.
Qed.

Lemma beacon_settings_spec env a :
  address_wf a →
  match beacon_settings env a with
  | Ok s => settings_for env a s
  | Err e => blames env e
  | Panic => False
  end.
Proof.
  intros Ha. unfold beacon_settings.
  pose proof (name_cases (BEACON_NAME env) a Ha) as Hn. cbv beta in Hn.
  destruct (match BEACON_NAME env with Some _ => _ | None => _ end) as [name|e|];
    [|by destruct Hn as [-> ?]|done]. cbn [mbind res_bind].
  pose proof (uuid_cases (BEACON_UUID env)) as Hu.
  destruct (map_err _ (uuid_parse _)) as [uuid|e|]; [|by destruct Hu as [-> ?]|done].
  cbn [mbind res_bind].
  pose proof (parse_optional_cases (parse_u 16) (BEACON_MAJOR env) DEFAULT_BEACON_MAJOR InvalidMajor) as Hma.
  destruct (parse_optional _ _ DEFAULT_BEACON_MAJOR _) as [major|e|]; [|by destruct Hma as [-> ?]|done].
  cbn [mbind res_bind].
  destruct (address_wf_cases a Ha) as (a0 & a1 & a2 & a3 & a4 & a5 & -> & _ & _ & _ & _ & H4 & H5).
  cbn [index lookup list_lookup mbind res_bind].
  pose proof (parse_optional_cases (parse_u 16) (BEACON_MINOR env) (from_be16 a4 a5) InvalidMinor) as Hmi.
  destruct (parse_optional _ (BEACON_MINOR env) _ _) as [minor|e|]; [|by destruct Hmi as [-> ?]|done].
  cbn [mbind res_bind].
  pose proof (parse_optional_cases (parse_s 8) (BEACON_MEASURED_POWER_DBM env)
    DEFAULT_MEASURED_POWER_DBM InvalidMeasuredPower) as Hmp.
  destruct (parse_optional _ (BEACON_MEASURED_POWER_DBM env) _ _) as [power|e|];
    [|by destruct Hmp as [-> ?]|done]. cbn [mbind res_bind].
  pose proof (interval_setting (BEACON_INTERVAL_MS env)) as Hin.
  destruct (parse_optional _ (BEACON_INTERVAL_MS env) _ _) as [millis|e|];
    cbn [mbind res_bind] in *; [|by destruct Hin as [-> ?]|done].
  destruct (map_err _ (interval_from_millis millis)) as [interval|e|];
    cbn [mbind res_bind] in *; [|by destruct Hin as [-> ?]|done].
  pose proof (tx_setting (BEACON_RADIO_TX_POWER_DBM env)) as Htx.
  destruct (parse_optional _ (BEACON_RADIO_TX_POWER_DBM env) _ _) as [dbm|e|];
    cbn [mbind res_bind] in *; [|by destruct Htx as [-> ?]|done].
  pose proof (tx_power_cases dbm) as Hp. destruct (controller_tx_power dbm) as [p|e|] eqn:Hdbm;
    cbn [mbind res_bind] in *; [|by destruct Hp as [-> ?], Htx as [_ ?]|done].
  by split_and!.
Qed.
End Settings.

Lemma ad_structure_roundtrip s :
  ad_writable s →
  ad_structure_decode (ad_structure_bytes s).1 (ad_structure_bytes s).2 = Some s.
Proof.
  destruct s as [f|n|n|u d|c p|]; simpl; try done. intros [Hc _]. unfold ad_structure_decode. simpl.
  do 2 f_equal. pose proof (Z.div_mod c 256). lia.
Qed.

Lemma ad_bytes_roundtrip ss fuel :
  Forall ad_writable ss → (length (concat (ad_structure_encode <$> ss)) ≤ fuel)%nat →
  ad_bytes_decode fuel (concat (ad_structure_encode <$> ss)) = Some <$> ss.
Proof.
  intros Hall. revert fuel. induction Hall as [|s ss Hs _ IH]; intros fuel Hf; [by destruct fuel|].
  csimpl in *. unfold ad_structure_encode at 1. unfold ad_structure_encode at 1 in Hf.
  pose proof (ad_structure_roundtrip s Hs) as Hrt.
  destruct (ad_structure_bytes s) as [kind content]. cbn [fst snd] in Hrt.
  cbn [app length] in *. rewrite length_app in Hf. destruct fuel as [|fuel]; [lia|].
  cbn [ad_bytes_decode].
  replace (Z.to_nat (Z.of_nat (S (length content)) - 1)) with (length content) by lia.
  rewrite take_app_length, drop_app_length, Hrt. f_equal. apply IH. lia.
Qed.

#[export] Instance fixture_encoder_laws : AdEncoderLaws.
Proof.
  split.
  - by vm_compute.
  - intros ss cap _ Hl. simpl. apply Nat.leb_le in Hl. rewrite Hl. by eexists.
  - intros ss cap data Hall. simpl. case_match; intros [= <-]. by apply ad_bytes_roundtrip.
Qed.

Section Seen.
Context `{AdEncoderLaws}.

Lemma hex2_ascii b : is_u 8 b → Forall (λ c, 0 ≤ c < 0x80) (hex2 true b).
Proof.
  unfold is_u. simpl. intros Hb.
  assert (∀ n, 0 ≤ n < 16 → 0 ≤ hex_digit true n < 0x80) as Hd.
  { intros n Hn. unfold hex_digit. destruct (n <? 10); lia. }
  unfold hex2. rewrite !Forall_cons, Forall_nil. split_and!; try done; apply Hd.
  - split; [apply Z.div_pos; lia|apply Z.div_lt_upper_bound; lia].
  - split; [apply Z.div_pos; lia|apply Z.div_lt_upper_bound; lia].
  - apply Z.mod_pos_bound. lia.
  - apply Z.mod_pos_bound. lia.
Qed.

Lemma generated_name_ascii minor :
  is_u 16 minor → Forall (λ b, 0 ≤ b < 0x80) (generated_name minor).
Proof.
  unfold is_u. simpl. intros Hm. unfold generated_name.
  apply Forall_app; split; [by repeat constructor|].
  apply Forall_app; split; apply hex2_ascii; unfold is_u; simpl.
  - split; [apply Z.div_pos; lia|apply Z.div_lt_upper_bound; lia].
  - apply Z.mod_pos_bound. lia.
Qed.

Lemma default_minor_u16 a : address_wf a → is_u 16 (default_minor a).
Proof.
  intros (a0 & a1 & a2 & a3 & a4 & a5 & -> & _ & _ & _ & _ & H4 & H5)%address_wf_cases.
  by apply from_be16_fields.
Qed.

Lemma settings_name env a s :
  address_wf a → (∀ v, BEACON_NAME env = Some v → is_str v) → settings_for env a s →
  ∃ v, bname_holds (set_name s) v ∧ v ≠ [] ∧ (length v ≤ 29)%nat ∧ is_str v.
Proof.
  intros Ha Hstr [(v & Hh & Hv) _]. exists v. split; [done|].
  destruct Hh as [Hl _]. unfold MAX_BEACON_NAME_LENGTH in Hl.
  unfold chosen, name_value in Hv. destruct (BEACON_NAME env) as [w|].
  - case_match eqn:Hw; [|done]. injection Hv as ->. apply andb_true_iff in Hw as [Hw _].
    split_and!; [by intros ->|done|by apply Hstr].
  - subst. split_and!; [done|done|].
    apply is_str_ascii, generated_name_ascii, default_minor_u16, Ha.
Qed.

Lemma frame_wf env a s : address_wf a → settings_for env a s → ibeacon_wf (set_frame s).
Proof.
  intros Ha (_ & Hu & Hma & Hmi & Hp & _). unfold chosen in *.
  split_and!.
  - destruct (BEACON_UUID env) as [v|]; [|rewrite Hu; split; [done|]].
    + destruct (uuid_parse v) eqn:Hv; simplify_eq/=. by apply uuid_parse_iff in Hv as [? _].
    + by repeat constructor.
  - destruct (BEACON_MAJOR env); [by eapply parse_u_range|by rewrite Hma].
  - destruct (BEACON_MINOR env); [by eapply parse_u_range|rewrite Hmi; by apply default_minor_u16].
  - destruct (BEACON_MEASURED_POWER_DBM env); [by eapply parse_s_range|by rewrite Hp].
Qed.

Lemma payload_shape b :
  ibeacon_wf b →
  length (manufacturer_payload b) = 23%nat ∧
  manufacturer_beacon IBEACON_COMPANY_IDENTIFIER (manufacturer_payload b) beacon_metadata_new =
    {| feasycom := false; formats := BEACON_FORMAT_IBEACON |}.
Proof.
  intros [[Hl _] _].
  assert (length (manufacturer_payload b) = 23%nat) as Hlen.
  { unfold manufacturer_payload. by rewrite !length_app, length_take, Hl. }
  split; [done|]. unfold manufacturer_beacon. by rewrite Hlen.
Qed.

Lemma adv_packet s :
  ibeacon_wf (set_frame s) →
  ∃ data m, ad_encode [AdFlags AD_FLAGS; ManufacturerSpecificData IBEACON_COMPANY_IDENTIFIER
      (manufacturer_payload (set_frame s))] 31 = Some data ∧
    ad_metadata_parse data = Ok m ∧ ad_manufacturer m = Some IBEACON_COMPANY_IDENTIFIER ∧
    ad_beacon m = {| feasycom := false; formats := BEACON_FORMAT_IBEACON |} ∧
    ad_name m = None.
Proof.
  intros Hwf. destruct (payload_shape _ Hwf) as [Hlen Hb].
  generalize dependent (manufacturer_payload (set_frame s)). intros p Hlen Hb. set (ss := [_; _]).
  assert (Forall ad_writable ss) as Hw.
  { unfold ss. rewrite !Forall_cons, Forall_nil. split_and!; [apply ad_flags_byte| |done].
    split; [done|]. rewrite Hlen. lia. }
  destruct (ad_encode_fits ss 31 Hw) as [data Hd].
  { simpl. rewrite !length_app. simpl. rewrite Hlen. simpl. lia. }
  pose proof (ad_decode_encode ss 31 data Hw Hd) as Hdec.
  destruct (ad_metadata_loop_spec (omap id (Some <$> ss)) ad_metadata_new)
    as (m & Hm & Hn & Hc & Hbm).
  exists data, m. unfold ad_metadata_parse. rewrite Hdec.
  split_and!; [done|done|by rewrite Hc| |exact Hn].
  rewrite Hbm, merge_new_l. cbn [ss fmap list_fmap omap list_omap id structures_beacon foldr structure_beacon].
  by rewrite Hb.
Qed.

Lemma scan_packet v :
  v ≠ [] → (length v ≤ 29)%nat → is_str v →
  ∃ data m n, ad_encode [CompleteLocalName v] 31 = Some data ∧
    ad_metadata_parse data = Ok m ∧ ad_name m = Some n ∧ local_name_as_str n = Ok v ∧
    ad_manufacturer m = None ∧ ad_beacon m = beacon_metadata_new.
Proof.
  intros Hne Hl Hs. set (ss := [_]).
  assert (Forall ad_writable ss) as Hw by (unfold ss; by rewrite Forall_singleton).
  destruct (ad_encode_fits ss 31 Hw) as [data Hd].
  { simpl. rewrite length_app. simpl. lia. }
  pose proof (ad_decode_encode ss 31 data Hw Hd) as Hdec.
  destruct (ad_metadata_loop_spec (omap id (Some <$> ss)) ad_metadata_new)
    as (m & Hm & Hn & Hc & Hb). cbn in Hn. unfold name_of in Hn.
  rewrite decide_True in Hn by done. destruct Hn as (n & Hn & Hh).
  exists data, m, n. unfold ad_metadata_parse. rewrite Hdec. split_and!; [done..| |done|by rewrite Hb].
  unfold local_name_as_str.
  rewrite (inline_view_holds _ _ _ _ _ Hh). cbn [mbind res_bind]. by rewrite from_utf8_or_empty_str.
Qed.
End Seen.

(** * Properties *)

(** The beacon's settings. For every set of variables and every device
    address, either the settings are exactly those asked for (each variable
    parsed by its grammar, or its default: the name [Beacon XXXX] and the
    minor from the last two address bytes, 1, -59 dBm, 20 ms, 9 dBm) with the
    controller level of the radio power, or the error names a variable that is
    set and refused; nothing panics. *)
Theorem beacon_settings_exact (env : BeaconEnv) (a : StaticRandomAddress) :
  address_wf a →
  match beacon_settings env a with
  | Ok s => settings_for env a s ∧ ibeacon_wf (set_frame s)
  | Err e => blames env e
  | Panic => False
  end.
Proof.
  intros Ha. pose proof (beacon_settings_spec env a Ha) as Hs.
  destruct (beacon_settings env a); [|done..]. split; [done|by eapply frame_wf].
Qed.

Lemma beacon_settings_exact_witness :
  ∃ s, beacon_settings default_env [0xC0; 1; 2; 3; 0xA1; 0xB2] = Ok s ∧
    beacon_minor (set_frame s) = 0xA1B2 ∧ set_radio_tx_power s = P9.
Proof.
  pose proof (beacon_settings_exact default_env [0xC0; 1; 2; 3; 0xA1; 0xB2]) as Hs.
  destruct (beacon_settings _ _) as [s|e|] eqn:He; [|by vm_compute in He..].
  exists s. split; [done|].
  destruct Hs as [(_ & _ & _ & Hm & _ & _ & Ht & Hp) _]; [split; [done|by repeat constructor]|].
  split; [exact Hm|]. cbn in Ht. rewrite Ht in Hp. by injection Hp.
Defined.

(** Every beacon is seen. With any encoder and decoder of advertising
    structures that keep their contract, a beacon with valid settings always
    builds both of its packets, and the scanner firmware reads from them the
    manufacturer 0x004C, the single label iBeacon and exactly the beacon's
    name; with neither a name nor a minor configured, that name spells the
    advertised minor in hexadecimal. *)
Theorem beacon_seen_by_scanner `{AdEncoderLaws} (env : BeaconEnv) (a : StaticRandomAddress)
    (s : BeaconSettings) :
  address_wf a → (∀ v, BEACON_NAME env = Some v → is_str v) → beacon_settings env a = Ok s →
  ∃ adv scan m1 m2 name n,
    advertise_packets s = Ok (Advertising adv scan) ∧
    ad_metadata_parse adv = Ok m1 ∧ ad_manufacturer m1 = Some IBEACON_COMPANY_IDENTIFIER ∧
    beacon_label_display (ad_beacon m1) = lit "iBeacon" ∧
    ad_metadata_parse scan = Ok m2 ∧ ad_name m2 = Some n ∧ local_name_as_str n = Ok name ∧
    beacon_name_as_str (E := unit) (set_name s) = Ok name ∧
    (BEACON_NAME env = None → BEACON_MINOR env = None →
       name = generated_name (beacon_minor (set_frame s))).
Proof.
  intros Ha Hstr Hs. pose proof (beacon_settings_spec env a Ha) as Hspec. rewrite Hs in Hspec.
  destruct (settings_name env a s Ha Hstr Hspec) as (v & Hh & Hne & Hl & Hv).
  destruct (adv_packet s (frame_wf env a s Ha Hspec)) as (adv & m1 & He1 & Hm1 & Hc & Hb & _).
  destruct (scan_packet v Hne Hl Hv) as (scan & m2 & n & He2 & Hm2 & Hn & Hstrn & _).
  exists adv, scan, m1, m2, v, n. unfold advertise_packets, beacon_name_as_str, beacon_name_as_bytes.
  rewrite He1, !(inline_view_holds _ _ _ _ _ Hh). cbn [mbind res_bind].
  rewrite He2, Hb, from_utf8_or_empty_str by done. split_and!; try done.
  intros Hno Hmi. destruct Hspec as ((w & Hw & Hc1) & _ & _ & Hc2 & _). unfold chosen in *.
  rewrite Hno in Hc1. rewrite Hmi in Hc2. subst w. rewrite Hc2.
  by eapply inline_holds_inj.
Qed.

Lemma beacon_seen_by_scanner_witness :
  ∃ s adv scan m1, beacon_settings default_env [0xC0; 1; 2; 3; 0xA1; 0xB2] = Ok s ∧
    advertise_packets s = Ok (Advertising adv scan) ∧ ad_metadata_parse adv = Ok m1 ∧
    beacon_label_display (ad_beacon m1) = lit "iBeacon".
Proof.
  destruct (beacon_settings default_env [0xC0; 1; 2; 3; 0xA1; 0xB2]) as [s|e|] eqn:He;
    [|by vm_compute in He..].
  destruct (beacon_seen_by_scanner default_env [0xC0; 1; 2; 3; 0xA1; 0xB2] s)
    as (adv & scan & m1 & m2 & name & n & H1 & H2 & _ & H3 & _);
    [split; [done|by repeat constructor]|done|done|].
  by exists s, adv, scan, m1.
Defined.
