(* ===== verification/HostStd.v ===== *)
(** The standard library of the host build tool: the order of [str], the
    stable sort of slices, [BTreeMap] and [BTreeSet] keyed by strings,
    [OsStr::to_string_lossy], [str::lines], the [Debug] format of a [str] and
    padded [Display].

    A [BTreeMap<String, V>] is a [gmap] together with the order in which it
    is iterated: the stable sort of its entries by key.  [sort_by] is an
    insertion sort; a stable sort is determined by its specification, so the
    algorithm of Rust's [slice::sort_by] gives the same list. *)
From stdpp Require Import prelude list numbers option strings gmap sorting.
From Stdlib Require Import ZArith.
From S2P Require Import Prelude.
From S2P Require Import Text.
Local Open Scope Z_scope.
#[local] Ltac Zify.zify_post_hook ::= Z.to_euclidean_division_equations.

(** * The order of [str]: lexicographic on bytes *)

Fixpoint str_le (a b : list Z) : bool :=
  match a, b with
  | [], _ => true
  | _ :: _, [] => false
  | x :: a, y :: b =>
    if x <? y then true else if x =? y then str_le a b else false
  end.

(** * [slice::sort_by] on a string key *)

Section StableSort.
Context {A : Type} (key : A → list Z).

(** [x] goes before the first element whose key is not smaller, so equal
    keys keep their order. *)
Fixpoint insert_by (x : A) (l : list A) : list A :=
  match l with
  | [] => [x]
  | y :: l' => if str_le (key x) (key y) then x :: l else y :: insert_by x l'
  end.

Definition sort_by (l : list A) : list A := foldr insert_by [] l.

Definition key_le (x y : A) : Prop := str_le (key x) (key y) = true.
End StableSort.

(** * [BTreeMap<String, V>] and [BTreeSet<String>] *)

(** [map.insert(k, v)]: the map and the value that was there. *)
Definition btree_insert {V} (k : list Z) (v : V) (m : gmap (list Z) V) :
  gmap (list Z) V * option V :=
  (<[k := v]> m, m !! k).

(** [map.values()], in key order. *)
Definition btree_values {V} (m : gmap (list Z) V) : list V :=
  snd <$> sort_by fst (map_to_list m).

(** [set.insert(k)]: the set and whether the key was new. *)
Definition btree_set_insert (k : list Z) (s : gset (list Z)) :
  gset (list Z) * bool :=
  ({[k]} ∪ s, bool_decide (k ∉ s)).

(** [set.iter()]. *)
Definition btree_elements (s : gset (list Z)) : list (list Z) :=
  sort_by id (elements s).

(** * Text *)

(** [s.chars()]. *)
Definition chars (s : list Z) : list Z := default [] (utf8_decode s).

(** [{:<width$}] of a string: padded with spaces to [width] characters. *)
Definition pad_right (width : nat) (s : list Z) : list Z :=
  s ++ replicate (width - length (chars s)) 0x20.

(** [s.replace(from, to)] for one ASCII character. *)
Definition replace_char (from to : Z) (s : list Z) : list Z :=
  (λ b, if b =? from then to else b) <$> s.

(** [s.lines()]: pieces ended by a newline, which is dropped together with a
    carriage return before it; what follows the last newline, if anything. *)
Definition strip_cr (s : list Z) : list Z :=
  if ends_with_char 0x0D s then removelast s else s.

Fixpoint lines_of (pieces : list (list Z)) : list (list Z) :=
  match pieces with
  | [] => []
  | [final] => if bool_decide (final = []) then [] else [final]
  | piece :: pieces => strip_cr piece :: lines_of pieces
  end.

Definition lines (s : list Z) : list (list Z) := lines_of (split_on 0x0A s).

(** One step of [core::str::from_utf8]'s validation: the next character, an
    invalid sequence of some length, or an input that ends inside one. *)
Inductive Utf8Step : Type :=
  | Whole (width : nat)
  | Invalid (error_len : nat)
  | Incomplete.

Definition continuation (b : Z) : bool := between 0x80 b 0xBF.

Definition second3 (b0 b1 : Z) : bool :=
  (b0 =? 0xE0) && between 0xA0 b1 0xBF
  || between 0xE1 b0 0xEC && between 0x80 b1 0xBF
  || (b0 =? 0xED) && between 0x80 b1 0x9F
  || between 0xEE b0 0xEF && between 0x80 b1 0xBF.

Definition second4 (b0 b1 : Z) : bool :=
  (b0 =? 0xF0) && between 0x90 b1 0xBF
  || between 0xF1 b0 0xF3 && between 0x80 b1 0xBF
  || (b0 =? 0xF4) && between 0x80 b1 0x8F.

Definition expect (ok : Z → bool) (error_len : nat)
    (k : list Z → Utf8Step) (l : list Z) : Utf8Step :=
  match l with
  | [] => Incomplete
  | b :: l => if ok b then k l else Invalid error_len
  end.

Definition utf8_step (b0 : Z) (l : list Z) : Utf8Step :=
  if between 0 b0 0x7F then Whole 1
  else if between 0xC2 b0 0xDF then expect continuation 1 (λ _, Whole 2) l
  else if between 0xE0 b0 0xEF then
    expect (second3 b0) 1 (expect continuation 2 (λ _, Whole 3)) l
  else if between 0xF0 b0 0xF4 then
    expect (second4 b0) 1
      (expect continuation 2 (expect continuation 3 (λ _, Whole 4))) l
  else Invalid 1.

(** [String::from_utf8_lossy] and [OsStr::to_string_lossy]: each invalid
    sequence becomes U+FFFD.  Every step drops at least one byte. *)
Definition replacement : list Z := utf8_encode 0xFFFD.

Fixpoint lossy_loop (fuel : nat) (l : list Z) : list Z :=
  match fuel, l with
  | O, _ | _, [] => []
  | S fuel, b0 :: rest =>
    match utf8_step b0 rest with
    | Whole n => take n l ++ lossy_loop fuel (drop n l)
    | Invalid n => replacement ++ lossy_loop fuel (drop n l)
    | Incomplete => replacement
    end
  end.

Definition to_string_lossy (l : list Z) : list Z := lossy_loop (length l) l.

(** [Utf8Error]: [valid_up_to] and [error_len]. *)
Fixpoint utf8_error_loop (fuel at_ : nat) (l : list Z) :
  option (nat * option nat) :=
  match fuel, l with
  | O, _ | _, [] => None
  | S fuel, b0 :: rest =>
    match utf8_step b0 rest with
    | Whole n => utf8_error_loop fuel (at_ + n) (drop n l)
    | Invalid n => Some (at_, Some n)
    | Incomplete => Some (at_, None)
    end
  end.

Definition utf8_error (l : list Z) : option (nat * option nat) :=
  utf8_error_loop (length l) 0 l.

(** [Display] of [Utf8Error] and [FromUtf8Error]. *)
Definition utf8_error_text (e : nat * option nat) : list Z :=
  match e with
  | (valid_up_to, Some error_len) =>
    lit "invalid utf-8 sequence of " ++ dec (Z.of_nat error_len)
    ++ lit " bytes from index " ++ dec (Z.of_nat valid_up_to)
  | (valid_up_to, None) =>
    lit "incomplete utf-8 byte sequence from index " ++ dec (Z.of_nat valid_up_to)
  end.

(** [{:x}] without leading zeros; eight digits hold every [u32]. *)
Fixpoint hex_digits (fuel : nat) (n : Z) : list Z :=
  match fuel with
  | O => []
  | S fuel =>
    if n <? 16 then [hex_digit false n]
    else hex_digits fuel (n / 16) ++ [hex_digit false (n mod 16)]
  end.

(** [{:?}] of a [str].  Which characters outside ASCII are escaped (grapheme
    extenders and unprintable ones) is read from tables of the Rust release
    and stays a parameter. *)
Definition debug_char (escaped : Z → bool) (c : Z) : list Z :=
  if c =? 0 then lit "\0"
  else if c =? 0x09 then lit "\t"
  else if c =? 0x0D then lit "\r"
  else if c =? 0x0A then lit "\n"
  else if (c =? 0x22) || (c =? 0x5C) then [0x5C; c]
  else if (c <? 0x20) || (c =? 0x7F) || (0x80 <=? c) && escaped c then
    lit "\u{" ++ hex_digits 8 c ++ lit "}"
  else utf8_encode c.

Definition debug_str (escaped : Z → bool) (s : list Z) : list Z :=
  [0x22] ++ (chars s ≫= debug_char escaped) ++ [0x22].

Lemma existsb_true {A} (f : A → bool) l :
  existsb f l = true ↔ ∃ x, x ∈ l ∧ f x = true.
Proof. rewrite existsb_exists. by setoid_rewrite list_elem_of_In. Qed.

Lemma existsb_false {A} (f : A → bool) l :
  existsb f l = false ↔ Forall (λ x, f x = false) l.
Proof.
  induction l as [|x l IH]; simpl; [by split; [constructor|]|].
  by rewrite orb_false_iff, IH, Forall_cons.
Qed.

(** * The order of strings *)

Lemma str_le_refl a : str_le a a = true.
Proof. induction a as [|x a IH]; simpl; [done|]. by rewrite Z.ltb_irrefl, Z.eqb_refl. Qed.

Lemma str_le_total a b : str_le a b = true ∨ str_le b a = true.
Proof.
  revert b. induction a as [|x a IH]; intros [|y b]; simpl; auto.
  destruct (Z.ltb_spec x y), (Z.ltb_spec y x), (Z.eqb_spec x y), (Z.eqb_spec y x);
    auto; lia.
Qed.

Lemma str_le_antisym a b : str_le a b = true → str_le b a = true → a = b.
Proof.
  revert b. induction a as [|x a IH]; intros [|y b]; simpl; try done.
  destruct (Z.ltb_spec x y), (Z.ltb_spec y x), (Z.eqb_spec x y), (Z.eqb_spec y x);
    try lia; try done. intros. f_equal; auto.
Qed.

Lemma str_le_trans a b c : str_le a b = true → str_le b c = true → str_le a c = true.
Proof.
  revert b c. induction a as [|x a IH]; intros [|y b] [|z c]; simpl; try done.
  destruct (Z.ltb_spec x y), (Z.ltb_spec y z), (Z.ltb_spec x z),
    (Z.eqb_spec x y), (Z.eqb_spec y z), (Z.eqb_spec x z); try lia; try done.
  apply IH.
Qed.

#[export] Instance key_le_trans {A} (key : A → list Z) : Transitive (key_le key).
Proof. intros x y z. apply str_le_trans. Qed.

(** * Sorting *)

Section SortLemmas.
Context {A : Type} (key : A → list Z).

Lemma insert_by_perm x l : insert_by key x l ≡ₚ x :: l.
Proof.
  induction l as [|y l IH]; simpl; [done|]. case_match; [done|].
  rewrite IH. constructor.
Qed.

Lemma sort_by_perm l : sort_by key l ≡ₚ l.
Proof. induction l as [|x l IH]; simpl; [done|]. by rewrite insert_by_perm, IH. Qed.

Lemma insert_by_sorted x l :
  StronglySorted (key_le key) l → StronglySorted (key_le key) (insert_by key x l).
Proof.
  induction 1 as [|y l Hl IH Hy]; simpl; [by repeat constructor|].
  destruct (str_le (key x) (key y)) eqn:Hxy.
  - constructor; [by constructor|]. constructor; [done|].
    eapply Forall_impl; [done|]. intros z. by apply str_le_trans.
  - constructor; [done|]. rewrite insert_by_perm. constructor; [|done].
    destruct (str_le_total (key x) (key y)); [congruence|done].
Qed.

Lemma sort_by_sorted l : StronglySorted (key_le key) (sort_by key l).
Proof. induction l; simpl; [constructor|]. by apply insert_by_sorted. Qed.

(** Distinct keys leave one sorted order only. *)
Lemma sorted_unique l k :
  NoDup (key <$> l) → StronglySorted (key_le key) l →
  StronglySorted (key_le key) k → l ≡ₚ k → l = k.
Proof.
  intros Hnd Hl. revert k. induction Hl as [|x l Hl IH Hx]; intros k Hk Hp.
  { by apply Permutation_nil_l in Hp. }
  destruct Hk as [|y k Hk Hy]; [by apply Permutation_nil_r in Hp|].
  assert (x = y) as <-.
  { assert (x ∈ y :: k) as Hxk by (rewrite <-Hp; left).
    assert (y ∈ x :: l) as Hyl by (rewrite Hp; left).
    apply elem_of_cons in Hxk as [|Hxk]; [done|].
    apply elem_of_cons in Hyl as [|Hyl]; [done|].
    rewrite Forall_forall in Hx, Hy. csimpl in Hnd. apply NoDup_cons in Hnd as [Hnd _].
    destruct Hnd. apply list_elem_of_fmap. exists y. split; [|done].
    apply str_le_antisym; [by apply Hx|by apply Hy]. }
  f_equal. apply IH; [by inversion Hnd|done|by eapply Permutation_cons_inv].
Qed.

Lemma sort_by_unique l k :
  NoDup (key <$> l) → l ≡ₚ k → sort_by key l = sort_by key k.
Proof.
  intros Hnd Hp. apply sorted_unique; try apply sort_by_sorted.
  - by rewrite sort_by_perm.
  - by rewrite !sort_by_perm.
Qed.
End SortLemmas.

(** * Maps and sets in order *)

Lemma elem_of_btree_values {V} (m : gmap (list Z) V) v :
  v ∈ btree_values m ↔ ∃ k, m !! k = Some v.
Proof.
  unfold btree_values. rewrite sort_by_perm. rewrite list_elem_of_fmap. split.
  - intros ([k w] & -> & Hkw%elem_of_map_to_list). by exists k.
  - intros (k & Hk). exists (k, v). split; [done|]. by apply elem_of_map_to_list.
Qed.

Lemma btree_values_nil {V} (m : gmap (list Z) V) : btree_values m = [] ↔ m = ∅.
Proof.
  split; [|by intros ->]. intros Hm. apply map_eq. intros k. rewrite lookup_empty.
  apply eq_None_not_Some. intros [v Hv].
  assert (v ∈ btree_values m) as Hin by (apply elem_of_btree_values; eauto).
  rewrite Hm in Hin. by apply elem_of_nil in Hin.
Qed.

Lemma elem_of_btree_elements (s : gset (list Z)) k : k ∈ btree_elements s ↔ k ∈ s.
Proof. unfold btree_elements. by rewrite sort_by_perm, elem_of_elements. Qed.

Lemma btree_elements_NoDup (s : gset (list Z)) : NoDup (btree_elements s).
Proof. unfold btree_elements. rewrite sort_by_perm. apply NoDup_elements. Qed.

(** * Text *)

Lemma replace_char_fresh from to s : from ≠ to → from ∉ replace_char from to s.
Proof.
  unfold replace_char. intros Hne (b & Hb & _)%list_elem_of_fmap.
  destruct (Z.eqb_spec b from); congruence.
Qed.

(** [chars] of a valid string: an ASCII character is in the string's
    characters exactly when it is in its bytes. *)
Lemma chars_ascii s c : is_str s → 0 ≤ c < 0x80 → c ∈ chars s ↔ c ∈ s.
Proof.
  intros [cs Hcs] Hc. unfold chars. rewrite Hcs. simpl. symmetry.
  apply utf8_ascii_elem; [by apply utf8_decode_iff|done].
Qed.

Lemma utf8_step_encode c l :
  scalar c → ∃ b0 rest, utf8_encode c ++ l = b0 :: rest ∧
    utf8_step b0 rest = Whole (length (utf8_encode c)).
Proof.
  intros [(? & ->)|[(? & ->)|[(? & ? & ->)|(? & ->)]]]%utf8_encode_cases;
    eexists _, _; (split; [reflexivity|]); unfold utf8_step.
  - by rewrite between_true by lia.
  - rewrite between_false, between_true by lia.
    cbn. unfold continuation. by rewrite between_true by lia.
  - rewrite (between_false 0), (between_false 0xC2), between_true by lia. cbn.
    replace (second3 _ _) with true by (unfold second3, between; lia).
    unfold continuation. by rewrite between_true by lia.
  - rewrite (between_false 0), (between_false 0xC2), (between_false 0xE0),
      between_true by lia. cbn.
    replace (second4 _ _) with true by (unfold second4, between; lia).
    unfold continuation. by rewrite !between_true by lia.
Qed.

(** Valid text has no UTF-8 error and is its own lossy conversion. *)
Lemma utf8_loops_valid l cs fuel at_ :
  utf8 l cs → (length l ≤ fuel)%nat →
  lossy_loop fuel l = l ∧ utf8_error_loop fuel at_ l = None.
Proof.
  intros H. revert fuel at_. induction H as [|c l cs Hc _ IH]; intros fuel at_ Hf.
  { by destruct fuel. }
  destruct (utf8_step_encode c l Hc) as (b0 & rest & Heq & Hstep).
  rewrite length_app in Hf.
  assert (0 < length (utf8_encode c))%nat as Hlen.
  { unfold utf8_encode. repeat case_match; simpl; lia. }
  destruct fuel as [|fuel]; [lia|]. rewrite Heq. cbn [lossy_loop utf8_error_loop].
  rewrite Hstep, <-Heq, take_app_length, drop_app_length.
  destruct (IH fuel (at_ + length (utf8_encode c))%nat) as [-> ->]; [lia|done].
Qed.

Lemma to_string_lossy_str l : is_str l → to_string_lossy l = l.
Proof.
  intros [cs Hcs%utf8_decode_iff].
  by destruct (utf8_loops_valid l cs (length l) 0 Hcs (le_n _)).
Qed.

(** Stripping ends of lines: a text whose lines hold neither newline nor
    carriage return is recovered from its lines. *)
Lemma strip_cr_plain s : 0x0D ∉ s → strip_cr s = s.
Proof.
  intros Hs. unfold strip_cr. destruct (ends_with_char _ _) eqn:He; [|done].
  apply ends_with_char_last, last_Some_elem_of in He. done.
Qed.

Lemma lines_of_ended ls :
  Forall (λ l, 0x0D ∉ l) ls → lines_of (ls ++ [[]]) = ls.
Proof.
  induction 1 as [|l ls Hl _ IH]; [done|]. simpl.
  destruct (ls ++ [[]]) as [|k ks] eqn:Hk; [by destruct ls|].
  by rewrite strip_cr_plain, IH.
Qed.

Lemma lines_ended ls :
  Forall (λ l, (0x0A ∉ l) ∧ (0x0D ∉ l)) ls →
  lines (ls ≫= (λ l, l ++ [0x0A])) = ls.
Proof.
  intros Hls. unfold lines.
  replace (split_on 0x0A (ls ≫= (λ l, l ++ [0x0A]))) with (ls ++ [[]]).
  { apply lines_of_ended. eapply Forall_impl; [done|]. naive_solver. }
  induction Hls as [|l ls [Hl _] _ IH]; [done|]. csimpl.
  rewrite <-app_assoc. simpl. rewrite split_on_app by done. by f_equal.
Qed.
