(* ===== verification/XtaskRegistry.v ===== *)
(** The registry of the build tool, [tools/xtask/src/main.rs]: board and
    firmware metadata found in Cargo packages, its validation, the selectors
    of firmware images, the lookups, and the translation of legacy
    subcommands.

    A package's metadata is a [serde_json::Value]; reading it and the derived
    deserializers are the class [Serde].  Errors are values of [Error], whose
    text is [error_text].  [BTreeMap]s are [gmap]s iterated in key order. *)
From stdpp Require Import prelude list numbers option strings gmap sorting.
From Stdlib Require Import ZArith.
From S2P Require Import Prelude.
From S2P Require Import Text.
From S2P Require Import HostStd.
Local Open Scope Z_scope.
#[local] Arguments lit _ : simpl never.
#[local] Arguments strip_prefix _ _ : simpl never.

(** * Data *)

Definition METADATA_NAMESPACE : list Z := lit "embedded-sdk".

Inductive Task : Type :=
  | Build (firmware : list Z)
  | BuildAll (board : option (list Z))
  | Check_
  | Doctor (board : option (list Z))
  | List_
  | Run (firmware : list Z)
  | Test_
  | Targets.

Record BoardMetadata : Type := {
  bm_id : list Z;
  bm_target : list Z;
  bm_runner : list (list Z);
}.

Record FirmwareMetadata : Type := {
  fm_board : list Z;
  fm_variant : list Z;
}.

Record Board : Type := {
  board_package : list Z;
  board_metadata : BoardMetadata;
}.

Record Firmware : Type := {
  fw_package : list Z;
  fw_board : list Z;
  fw_variant : list Z;
  fw_selector : list Z;
}.

Record Registry : Type := {
  boards : gmap (list Z) Board;
  firmwares : list Firmware;
  host_exclusions : gset (list Z);
}.

#[export] Instance BoardMetadata_eq_dec : EqDecision BoardMetadata.
Proof. solve_decision. Defined.
#[export] Instance FirmwareMetadata_eq_dec : EqDecision FirmwareMetadata.
Proof. solve_decision. Defined.
#[export] Instance Board_eq_dec : EqDecision Board.
Proof. solve_decision. Defined.
#[export] Instance Firmware_eq_dec : EqDecision Firmware.
Proof. solve_decision. Defined.

(** [serde_json::Value]: [get] by key, [as_bool], and [from_value] at the two
    metadata types, whose errors are given by their text. *)
Class Serde : Type := {
  Value : Type;
  value_get : Value → list Z → option Value;
  value_as_bool : Value → option bool;
  board_from_value : Value → list Z + BoardMetadata;
  firmware_from_value : Value → list Z + FirmwareMetadata;
}.

(** [cargo_metadata::Package]. *)
Record Package `{Serde} : Type := {
  package_name : list Z;
  package_metadata : Value;
}.

(** Errors of the tool, one constructor per [format!]. *)
Inductive Error : Type :=
  | MetadataUnreadable (error : list Z)
  | InvalidMetadata (kind package error : list Z)
  | DuplicateBoard (id existing package : list Z)
  | InvalidBoardId (package id : list Z)
  | EmptyTarget (package : list Z)
  | EmptyRunner (package : list Z)
  | RunnerWhitespace (package : list Z)
  | UnknownFirmwareBoard (package board : list Z)
  | InvalidVariant (package variant : list Z)
  | DuplicateSelector (selector existing package : list Z)
  | UnknownBoard (id_or_package : list Z)
  | UnknownFirmware (selector_or_package : list Z)
  | NoFirmwareMatched
  | NoBoards
  | NoTargets
  | MissingTarget (target : list Z)
  | RunnerUnavailable (tool : list Z)
  | FailedToStart (program error : list Z)
  | ExitedWith (program status : list Z)
  | NonUtf8 (stdout : list Z).

#[export] Instance Error_eq_dec : EqDecision Error.
Proof. solve_decision. Defined.

(** The text of an error; [escaped] is the table [debug_str] needs. *)
Definition error_text (escaped : Z → bool) (e : Error) : list Z :=
  let q := debug_str escaped in
  match e with
  | MetadataUnreadable error =>
    lit "failed to read Cargo workspace metadata: " ++ error
  | InvalidMetadata kind package error =>
    lit "invalid " ++ kind ++ lit " metadata in package " ++ package
    ++ lit ": " ++ error
  | DuplicateBoard id existing package =>
    lit "board id " ++ q id ++ lit " is declared by both " ++ existing
    ++ lit " and " ++ package
  | InvalidBoardId package id =>
    lit "board package " ++ package ++ lit " has invalid id " ++ q id
  | EmptyTarget package =>
    lit "board package " ++ package ++ lit " has an empty target"
  | EmptyRunner package =>
    lit "board package " ++ package
    ++ lit " must declare a non-empty runner command"
  | RunnerWhitespace package =>
    lit "board package " ++ package
    ++ lit " runner components cannot contain whitespace"
  | UnknownFirmwareBoard package board =>
    lit "firmware package " ++ package ++ lit " references unknown board "
    ++ q board
  | InvalidVariant package variant =>
    lit "firmware package " ++ package ++ lit " has invalid variant " ++ q variant
  | DuplicateSelector selector existing package =>
    lit "firmware selector " ++ q selector ++ lit " is declared by both "
    ++ existing ++ lit " and " ++ package
  | UnknownBoard b =>
    lit "unknown board " ++ q b
    ++ lit "; run `cargo xtask list` to see registered boards"
  | UnknownFirmware s =>
    lit "unknown firmware " ++ q s
    ++ lit "; run `cargo xtask list` to see registered firmware"
  | NoFirmwareMatched => lit "no registered firmware matched the requested board"
  | NoBoards => lit "no boards are registered"
  | NoTargets => lit "no board targets are registered"
  | MissingTarget target =>
    lit "missing Rust target " ++ target ++ lit "; run `rustup target add "
    ++ target ++ lit "`"
  | RunnerUnavailable tool => lit "runner " ++ tool ++ lit " is unavailable"
  | FailedToStart program error =>
    lit "failed to start " ++ to_string_lossy program ++ lit ": " ++ error
  | ExitedWith program status =>
    to_string_lossy program ++ lit " exited with status " ++ status
  | NonUtf8 stdout =>
    lit "command returned non-UTF-8: "
    ++ default [] (utf8_error_text <$> utf8_error stdout)
  end.

(** * Discovery *)

Definition parse_metadata `{Serde} {T} (from_value : Value → list Z + T)
    (package : Package) (kind : list Z) (value : Value) : res Error T :=
  match from_value value with
  | inr metadata => Ok metadata
  | inl error => Err (InvalidMetadata kind (package_name package) error)
  end.

Definition validate_board_metadata `{Serde} (package : Package)
    (metadata : BoardMetadata) : res Error () :=
  if bool_decide (bm_id metadata = []) || contains 0x2F (bm_id metadata) then
    Err (InvalidBoardId (package_name package) (bm_id metadata))
  else if bool_decide (bm_target metadata = []) then
    Err (EmptyTarget (package_name package))
  else if bool_decide (bm_runner metadata = [])
       || existsb (λ c, bool_decide (c = [])) (bm_runner metadata) then
    Err (EmptyRunner (package_name package))
  else if existsb (λ c, existsb is_whitespace (chars c)) (bm_runner metadata) then
    Err (RunnerWhitespace (package_name package))
  else Ok ().

Definition firmware_selector (board variant : list Z) : list Z :=
  if bool_decide (variant = lit "default") then board
  else board ++ lit "/" ++ variant.

(** The three collections [from_packages] fills. *)
Record Scan : Type := {
  sc_boards : gmap (list Z) Board;
  sc_firmware : list (list Z * FirmwareMetadata);
  sc_exclusions : gset (list Z);
}.

Definition scan_board `{Serde} (package : Package) (namespace : Value)
    (boards : gmap (list Z) Board) : res Error (gmap (list Z) Board) :=
  match value_get namespace (lit "board") with
  | None => Ok boards
  | Some value =>
    metadata ← parse_metadata board_from_value package (lit "board") value;
    _ ← validate_board_metadata package metadata;
    let board := {| board_package := package_name package;
                    board_metadata := metadata |} in
    match btree_insert (bm_id metadata) board boards with
    | (_, Some existing) =>
      Err (DuplicateBoard (bm_id metadata) (board_package existing)
             (package_name package))
    | (boards, None) => Ok boards
    end
  end.

Definition scan_firmware `{Serde} (package : Package) (namespace : Value)
    (st : Scan) : res Error Scan :=
  match value_get namespace (lit "firmware") with
  | None => Ok st
  | Some value =>
    metadata ← parse_metadata firmware_from_value package (lit "firmware") value;
    Ok {| sc_boards := sc_boards st;
          sc_firmware := sc_firmware st ++ [(package_name package, metadata)];
          sc_exclusions := {[package_name package]} ∪ sc_exclusions st |}
  end.

(** The body of the loop over packages. *)
Definition scan_package `{Serde} (package : Package) (st : Scan) : res Error Scan :=
  match value_get (package_metadata package) METADATA_NAMESPACE with
  | None => Ok st
  | Some namespace =>
    let exclusions :=
      if bool_decide
           (value_get namespace (lit "host-check") ≫= value_as_bool = Some false)
      then {[package_name package]} ∪ sc_exclusions st else sc_exclusions st in
    boards ← scan_board package namespace (sc_boards st);
    scan_firmware package namespace
      {| sc_boards := boards; sc_firmware := sc_firmware st;
         sc_exclusions := exclusions |}
  end.

Fixpoint scan_packages `{Serde} (packages : list Package) (st : Scan) :
  res Error Scan :=
  match packages with
  | [] => Ok st
  | package :: packages =>
    st ← scan_package package st; scan_packages packages st
  end.

(** The loop over firmware metadata: [selectors] and [firmware] grow. *)
Fixpoint register_firmware (boards : gmap (list Z) Board)
    (metadata : list (list Z * FirmwareMetadata))
    (selectors : gmap (list Z) (list Z)) (firmware : list Firmware) :
  res Error (list Firmware) :=
  match metadata with
  | [] => Ok firmware
  | (package, metadata) :: rest =>
    if bool_decide (boards !! fm_board metadata = None) then
      Err (UnknownFirmwareBoard package (fm_board metadata))
    else if bool_decide (fm_variant metadata = [])
         || contains 0x2F (fm_variant metadata) then
      Err (InvalidVariant package (fm_variant metadata))
    else
      let selector := firmware_selector (fm_board metadata) (fm_variant metadata) in
      match btree_insert selector package selectors with
      | (_, Some existing) => Err (DuplicateSelector selector existing package)
      | (selectors, None) =>
        register_firmware boards rest selectors
          (firmware ++ [{| fw_package := package; fw_board := fm_board metadata;
                           fw_variant := fm_variant metadata;
                           fw_selector := selector |}])
      end
  end.

Definition from_packages `{Serde} (packages : list Package) : res Error Registry :=
  st ← scan_packages packages
         {| sc_boards := ∅; sc_firmware := []; sc_exclusions := ∅ |};
  firmware ← register_firmware (sc_boards st) (sc_firmware st) ∅ [];
  Ok {| boards := sc_boards st;
        firmwares := sort_by fw_selector firmware;
        host_exclusions := sc_exclusions st |}.

(** [Registry::discover], given what [MetadataCommand::exec] returns. *)
Definition discover `{Serde} (exec : list Z + list Package) :
  res Error Registry :=
  match exec with
  | inl error => Err (MetadataUnreadable error)
  | inr packages => from_packages packages
  end.

(** * Lookups *)

Definition registry_board (self : Registry) (id_or_package : list Z) :
  res Error Board :=
  ok_or (UnknownBoard id_or_package)
    match boards self !! id_or_package with
    | Some board => Some board
    | None =>
      snd <$> list_find (λ board, board_package board = id_or_package)
                (btree_values (boards self))
    end.

Definition registry_firmware (self : Registry) (selector_or_package : list Z) :
  res Error Firmware :=
  ok_or (UnknownFirmware selector_or_package)
    (snd <$> list_find
       (λ firmware, fw_selector firmware = selector_or_package
                    ∨ fw_package firmware = selector_or_package)
       (firmwares self)).

(** * Legacy subcommands *)

(** [normalize_legacy_args]: an [OsString] is its bytes; [to_str] is [None]
    when they are not UTF-8. *)
Definition legacy_replacement (command : list Z) : option (list Z * list Z) :=
  match (if bool_decide (command ≠ lit "build-all")
         then pair (lit "build") <$> strip_prefix (lit "build-") command
         else None) with
  | Some replacement => Some replacement
  | None => pair (lit "run") <$> strip_prefix (lit "run-") command
  end.

Definition normalize_legacy_args (args : list (list Z)) :
  list (list Z) * option (list Z) :=
  match args !! 1%nat ≫= from_utf8_ok with
  | None => (args, None)
  | Some command =>
    match legacy_replacement command with
    | None => (args, None)
    | Some (subcommand, firmware) =>
      let args := <[1%nat := subcommand]> args in
      (take 2 args ++ firmware :: drop 2 args, Some command)
    end
  end.

Definition cargo_runner_variable (target : list Z) : list Z :=
  lit "CARGO_TARGET_"
  ++ (to_ascii_uppercase <$> replace_char 0x2D 0x5F target) ++ lit "_RUNNER".

(** * Specification: what packages declare *)

Definition valid_board_metadata (m : BoardMetadata) : Prop :=
  bm_id m ≠ [] ∧ (0x2F ∉ bm_id m) ∧ bm_target m ≠ [] ∧ bm_runner m ≠ [] ∧
  Forall (λ c, c ≠ [] ∧ ∀ x, x ∈ chars c → is_whitespace x = false) (bm_runner m).

Definition board_id (b : Board) : list Z := bm_id (board_metadata b).

Definition firmware_of_metadata (f : list Z * FirmwareMetadata) : Firmware :=
  {| fw_package := f.1; fw_board := fm_board f.2; fw_variant := fm_variant f.2;
     fw_selector := firmware_selector (fm_board f.2) (fm_variant f.2) |}.

Section Declarations.
Context `{Serde}.

Definition section (p : Package) (kind : list Z) : option Value :=
  value_get (package_metadata p) METADATA_NAMESPACE ≫= (λ ns, value_get ns kind).

(** The board and the firmware a package declares. *)
Definition declared_board (p : Package) : option Board :=
  match board_from_value <$> section p (lit "board") with
  | Some (inr m) => Some {| board_package := package_name p; board_metadata := m |}
  | _ => None
  end.

Definition declared_firmware (p : Package) : option (list Z * FirmwareMetadata) :=
  match firmware_from_value <$> section p (lit "firmware") with
  | Some (inr m) => Some (package_name p, m)
  | _ => None
  end.

Definition opted_out (p : Package) : Prop :=
  section p (lit "host-check") ≫= value_as_bool = Some false.

Definition excluded (p : Package) : Prop :=
  opted_out p ∨ is_Some (declared_firmware p).

#[global] Instance excluded_dec p : Decision (excluded p).
Proof. unfold excluded, opted_out. apply _. Defined.

(** Every section present parses, and boards are valid. *)
Definition readable (p : Package) : Prop :=
  (∀ v, section p (lit "board") = Some v →
     ∃ m, board_from_value v = inr m ∧ valid_board_metadata m) ∧
  (∀ v, section p (lit "firmware") = Some v → ∃ m, firmware_from_value v = inr m).

Definition board_entries (ps : list Package) : list (list Z * Board) :=
  (λ b, (board_id b, b)) <$> omap declared_board ps.

Definition known_firmware (ids : list (list Z)) (f : list Z * FirmwareMetadata) : Prop :=
  fm_board f.2 ∈ ids ∧ fm_variant f.2 ≠ [] ∧ (0x2F ∉ fm_variant f.2).

(** What a workspace must satisfy, and the registry it then has. *)
Definition well_declared (ps : list Package) : Prop :=
  Forall readable ps ∧ NoDup (board_entries ps).*1 ∧
  Forall (known_firmware (board_entries ps).*1) (omap declared_firmware ps) ∧
  NoDup (fw_selector <$> (firmware_of_metadata <$> omap declared_firmware ps)).

Definition registry_of (ps : list Package) : Registry :=
  {| boards := list_to_map (board_entries ps);
     firmwares :=
       sort_by fw_selector (firmware_of_metadata <$> omap declared_firmware ps);
     host_exclusions := list_to_set (package_name <$> filter excluded ps) |}.

(** * Scanning the packages *)

Lemma validate_board_metadata_Ok p m u :
  validate_board_metadata p m = Ok u ↔ valid_board_metadata m.
Proof.
  unfold validate_board_metadata, valid_board_metadata. destruct u.
  destruct (contains 0x2F (bm_id m)) eqn:Hc.
  { apply contains_true in Hc. rewrite orb_true_r. split; [discriminate|tauto]. }
  apply contains_false in Hc. repeat case_bool_decide; simpl;
    try (split; [discriminate|intros (? & ? & ? & ? & ?); done]).
  destruct (existsb _ (bm_runner m)) eqn:He.
  { split; [discriminate|]. intros (_ & _ & _ & _ & Hall).
    apply existsb_true in He as (c & Hin & Hcn%bool_decide_eq_true).
    rewrite Forall_forall in Hall. by destruct (Hall c Hin). }
  destruct (existsb (λ c, existsb _ _) _) eqn:Hw.
  { split; [discriminate|]. intros (_ & _ & _ & _ & Hall).
    apply existsb_true in Hw as (c & Hin & (x & Hx & Hsp)%existsb_true).
    rewrite Forall_forall in Hall. destruct (Hall c Hin) as [_ Hno].
    by rewrite Hno in Hsp. }
  split; [intros _|done]. repeat split; try done.
  apply existsb_false in He, Hw. rewrite Forall_forall in He, Hw |- *. intros c Hin.
  split; [by eapply bool_decide_eq_false, He|].
  intros x Hx. specialize (Hw c Hin). apply existsb_false in Hw.
  rewrite Forall_forall in Hw. by apply Hw.
Qed.

(** What one package does to the collections, given its sections. *)
Definition scanned (p : Package) (st : Scan) : Scan :=
  {| sc_boards :=
       match declared_board p with
       | Some b => <[board_id b := b]> (sc_boards st)
       | None => sc_boards st
       end;
     sc_firmware := sc_firmware st ++ option_list (declared_firmware p);
     sc_exclusions :=
       if decide (excluded p) then {[package_name p]} ∪ sc_exclusions st
       else sc_exclusions st |}.

Lemma scan_board_Ok p ns bs bs' :
  value_get (package_metadata p) METADATA_NAMESPACE = Some ns →
  scan_board p ns bs = Ok bs' ↔
  (∀ v, section p (lit "board") = Some v →
     ∃ m, board_from_value v = inr m ∧ valid_board_metadata m) ∧
  (∀ b, declared_board p = Some b → bs !! board_id b = None) ∧
  bs' = match declared_board p with
        | Some b => <[board_id b := b]> bs
        | None => bs
        end.
Proof.
  intros Hns. unfold scan_board, declared_board, section. rewrite Hns. simpl.
  destruct (value_get ns (lit "board")) as [v|]; simpl;
    [|naive_solver].
  unfold parse_metadata, board_id. destruct (board_from_value v) as [e|m] eqn:Hv; simpl.
  { split; [done|]. intros (Hr & _). destruct (Hr v eq_refl) as (m & Hm & _). congruence. }
  destruct (validate_board_metadata p m) as [u|e|] eqn:Hval; simpl.
  - apply validate_board_metadata_Ok in Hval.
    destruct (bs !! bm_id m) as [b|] eqn:Hb; simpl; [|naive_solver].
    split; [done|]. intros (_ & Hnone & _). specialize (Hnone _ eq_refl). simpl in Hnone.
    congruence.
  - split; [done|]. intros (Hr & _). destruct (Hr v eq_refl) as (m' & Hm & Hok).
    assert (m' = m) as -> by congruence.
    apply (validate_board_metadata_Ok p m ()) in Hok. congruence.
  - split; [done|]. intros (Hr & _). destruct (Hr v eq_refl) as (m' & Hm & Hok).
    assert (m' = m) as -> by congruence.
    apply (validate_board_metadata_Ok p m ()) in Hok. congruence.
Qed.

Lemma scan_package_Ok p st st' :
  scan_package p st = Ok st' ↔
  readable p ∧ (∀ b, declared_board p = Some b → sc_boards st !! board_id b = None) ∧
  st' = scanned p st.
Proof.
  unfold scan_package, readable.
  destruct (value_get (package_metadata p) METADATA_NAMESPACE) as [ns|] eqn:Hns; cycle 1.
  { assert (∀ k, section p k = None) as Hsec by (intros; unfold section; by rewrite Hns).
    assert (¬ excluded p) as Hex.
    { unfold excluded, opted_out, declared_firmware. rewrite !Hsec. intros [|[]]; done. }
    unfold scanned, declared_board, declared_firmware. rewrite decide_False by done.
    rewrite !Hsec. simpl. rewrite app_nil_r. destruct st. naive_solver. }
  rewrite bind_Ok_iff. setoid_rewrite (scan_board_Ok p ns (sc_boards st) _ Hns).
  assert (∀ k, section p k = value_get ns k) as Hsec
    by (intros; unfold section; by rewrite Hns).
  rewrite !Hsec. assert (excluded p ↔
    value_get ns (lit "host-check") ≫= value_as_bool = Some false ∨
    is_Some (declared_firmware p)) as Hex
    by (unfold excluded, opted_out; by rewrite Hsec).
  unfold scan_firmware, scanned. unfold declared_firmware in *. rewrite Hsec in *.
  rewrite bool_decide_decide.
  destruct (value_get ns (lit "firmware")) as [v|] eqn:Hfw; simpl in *; cycle 1.
  { rewrite app_nil_r. rewrite (decide_ext _ _ _ _ Hex).
    assert (∀ P, P ∨ is_Some (@None (list Z * FirmwareMetadata)) ↔ P) as Hnone
      by (intros P; split; [by intros [|[]]|by left]).
    rewrite (decide_ext _ _ _ _ (Hnone _)). split.
    - intros (bs & (? & ? & ->) & [= <-]). split_and!; [done..|].
      by case_decide.
    - intros ((? & _) & ? & ->). eexists. split; [done|]. by case_decide. }
  unfold parse_metadata. destruct (firmware_from_value v) as [e|m] eqn:Hv; simpl in *.
  { split; [by intros (? & _ & ?)|]. intros ((_ & Hr) & _).
    destruct (Hr v eq_refl) as [m Hm]. congruence. }
  rewrite (decide_True (P := excluded p)) by (apply Hex; eauto). split.
  - intros (bs & (? & ? & ->) & [= <-]). split_and!; try done.
    { intros w [= <-]. by exists m. }
    case_decide; [|done]. by rewrite (assoc_L _), (idemp_L _).
  - intros ((? & _) & ? & ->). eexists. split; [done|].
    case_decide; [|done]. by rewrite (assoc_L _), (idemp_L _).
Qed.

Lemma omap_cons {A B} (f : A → option B) x l :
  omap f (x :: l) = option_list (f x) ++ omap f l.
Proof. csimpl. by destruct (f x). Qed.

Lemma board_entries_cons p ps :
  board_entries (p :: ps) =
  match declared_board p with
  | Some b => (board_id b, b) :: board_entries ps
  | None => board_entries ps
  end.
Proof. unfold board_entries. rewrite omap_cons. by destruct (declared_board p). Qed.

(** The collections after the packages [ps]. *)
Definition scanned_all (ps : list Package) (st : Scan) : Scan :=
  {| sc_boards := list_to_map (board_entries ps) ∪ sc_boards st;
     sc_firmware := sc_firmware st ++ omap declared_firmware ps;
     sc_exclusions :=
       list_to_set (package_name <$> filter excluded ps) ∪ sc_exclusions st |}.

Lemma scanned_all_cons p ps st :
  NoDup (board_entries (p :: ps)).*1 →
  scanned_all ps (scanned p st) = scanned_all (p :: ps) st.
Proof.
  rewrite board_entries_cons. intros Hnd. unfold scanned_all, scanned.
  cbn [sc_boards sc_firmware sc_exclusions].
  rewrite omap_cons, (assoc_L (++)), board_entries_cons, filter_cons. f_equal.
  - destruct (declared_board p) as [b|]; [|done]. csimpl in *.
    apply NoDup_cons in Hnd as [Hid _].
    rewrite <-insert_union_l, insert_union_r; [done|]. by apply not_elem_of_list_to_map_1.
  - case_decide; [|done]. csimpl. set_solver.
Qed.

Lemma scan_packages_Ok ps st st' :
  scan_packages ps st = Ok st' ↔
  Forall readable ps ∧ NoDup (board_entries ps).*1 ∧
  (∀ id, id ∈ (board_entries ps).*1 → sc_boards st !! id = None) ∧
  st' = scanned_all ps st.
Proof.
  revert st. induction ps as [|p ps IH]; intros st.
  { unfold scanned_all. cbn. rewrite (left_id_L ∅ _), app_nil_r, (left_id_L ∅ _).
    destruct st. cbn. split; [intros [= <-]|by intros (_ & _ & _ & ->)].
    split_and!; [done|constructor|by intros ? ?%elem_of_nil|done]. }
  cbn [scan_packages]. rewrite bind_Ok_iff.
  setoid_rewrite scan_package_Ok. setoid_rewrite IH. clear IH. rewrite Forall_cons. split.
  - intros (? & (Hr & Hb & ->) & Hrs & Hnd & Hfresh & ->).
    assert (NoDup (board_entries (p :: ps)).*1) as Hnd'.
    { rewrite board_entries_cons. destruct (declared_board p) as [b|] eqn:Hp; [|done].
      csimpl. constructor; [|done]. intros Hin. apply Hfresh in Hin.
      unfold scanned in Hin. rewrite Hp in Hin. cbn in Hin.
      by rewrite lookup_insert_eq in Hin. }
    split_and!; [done..| |by apply scanned_all_cons].
    intros id. rewrite board_entries_cons. unfold scanned in Hfresh. cbn in Hfresh.
    destruct (declared_board p) as [b|]; [|by apply Hfresh]. csimpl.
    intros [->|Hin]%elem_of_cons; [by apply Hb|].
    apply Hfresh in Hin. by apply lookup_insert_None in Hin as [? _].
  - intros ((Hr & Hrs) & Hnd & Hfresh & ->). exists (scanned p st).
    pose proof (scanned_all_cons p ps st Hnd) as Heq. rewrite board_entries_cons in *.
    split_and!; try done.
    + intros b Hp. rewrite Hp in Hfresh. apply Hfresh. csimpl. left.
    + destruct (declared_board p); [by apply NoDup_cons in Hnd as [_ ?]|done].
    + intros id Hin. unfold scanned. cbn. destruct (declared_board p) as [b|]; [|by apply Hfresh].
      csimpl in *. apply NoDup_cons in Hnd as [Hnin _].
      rewrite lookup_insert_ne by (intros <-; done). apply Hfresh. by right.
Qed.

(** * Registering the firmware *)

Definition registrable (bs : gmap (list Z) Board) (f : list Z * FirmwareMetadata) : Prop :=
  bs !! fm_board f.2 ≠ None ∧ fm_variant f.2 ≠ [] ∧ (0x2F ∉ fm_variant f.2).

Lemma register_firmware_Ok bs ms sel fw out :
  register_firmware bs ms sel fw = Ok out ↔
  Forall (registrable bs) ms ∧
  NoDup (fw_selector <$> (firmware_of_metadata <$> ms)) ∧
  (∀ s, s ∈ fw_selector <$> (firmware_of_metadata <$> ms) → sel !! s = None) ∧
  out = fw ++ (firmware_of_metadata <$> ms).
Proof.
  revert sel fw. induction ms as [|[pkg m] ms IH]; intros sel fw.
  { cbn. rewrite app_nil_r. split; [intros [= <-]|by intros (_ & _ & _ & ->)].
    split_and!; [done|constructor|by intros ? ?%elem_of_nil|done]. }
  cbn [register_firmware]. rewrite Forall_cons. csimpl. unfold registrable at 1. csimpl.
  case_bool_decide as Hb; [split; [done|by intros (((? & _) & _) & _)]|].
  case_bool_decide as Hv; cbn [orb]; [split; [done|by intros (((_ & ? & _) & _) & _)]|].
  destruct (contains 0x2F (fm_variant m)) eqn:Hc; [apply contains_true in Hc
    |apply contains_false in Hc]; [split; [done|by intros (((_ & _ & ?) & _) & _)]|].
  unfold btree_insert. set (s := firmware_selector _ _).
  destruct (sel !! s) as [e|] eqn:Hs.
  { split; [done|]. intros (_ & _ & Hfresh & _).
    rewrite Hfresh in Hs by left. done. }
  rewrite IH, <-(assoc_L (++)), NoDup_cons. setoid_rewrite lookup_insert_None.
  split.
  - intros (? & ? & Hfresh & ->). split_and!; try done.
    + intros Hin. by apply Hfresh in Hin as [_ ?].
    + intros t [->|Hin]%elem_of_cons; [done|]. by apply Hfresh in Hin as [? _].
  - intros ((? & ?) & (Hnin & ?) & Hfresh & ->). split_and!; try done.
    intros t Hin. split; [by apply Hfresh; right|]. intros <-. done.
Qed.

(** * Discovery *)

Lemma board_entries_lookup ps id :
  (list_to_map (board_entries ps) : gmap (list Z) Board) !! id ≠ None ↔
  id ∈ (board_entries ps).*1.
Proof.
  rewrite <-not_elem_of_list_to_map. split; [|naive_solver].
  intros Hn. by apply dec_stable.
Qed.

Lemma from_packages_Ok ps r :
  from_packages ps = Ok r ↔ well_declared ps ∧ r = registry_of ps.
Proof.
  unfold from_packages, well_declared. rewrite bind_Ok_iff.
  setoid_rewrite scan_packages_Ok. setoid_rewrite bind_Ok_iff.
  setoid_rewrite register_firmware_Ok. unfold scanned_all. split.
  - intros (st & (Hr & Hnd & _ & ->) & fw & (Hreg & Hsel & _ & ->) & [= <-]). cbn in *.
    rewrite (right_id_L ∅ (∪)) in *. split_and!; try done.
    + eapply Forall_impl; [done|]. intros f (Hb & Hv). split; [|done].
      by apply board_entries_lookup.
    + unfold registry_of. f_equal. by rewrite (right_id_L ∅ (∪)).
  - intros ((Hr & Hnd & Hk & Hsel) & ->). eexists. split.
    { split_and!; [done..|intros; apply lookup_empty|done]. }
    cbn. eexists. split.
    { split_and!; [|done|intros; apply lookup_empty|done].
      eapply Forall_impl; [done|]. intros f (Hb & Hv). split; [|done].
      rewrite (right_id_L ∅ (∪)). by apply board_entries_lookup. }
    by rewrite !(right_id_L ∅ (∪)).
Qed.
End Declarations.

(** * The well-formed registry *)

Definition plain_variant (f : Firmware) : Prop :=
  fw_variant f ≠ [] ∧ (0x2F ∉ fw_variant f).

(** What every command may rely on. *)
Record registry_wf (r : Registry) : Prop := {
  wf_boards : ∀ id b, boards r !! id = Some b →
    board_id b = id ∧ valid_board_metadata (board_metadata b);
  wf_board : ∀ f, f ∈ firmwares r → is_Some (boards r !! fw_board f);
  wf_selector : ∀ f, f ∈ firmwares r →
    plain_variant f ∧ fw_selector f = firmware_selector (fw_board f) (fw_variant f);
  wf_sorted : StronglySorted (key_le fw_selector) (firmwares r);
  wf_unique : NoDup (fw_selector <$> firmwares r);
  wf_excluded : ∀ f, f ∈ firmwares r → fw_package f ∈ host_exclusions r;
}.

Section WellFormed.
Context `{Serde}.

Lemma declared_board_valid ps b :
  Forall readable ps → b ∈ omap declared_board ps →
  valid_board_metadata (board_metadata b).
Proof.
  intros Hr (p & Hp & Hb)%list_elem_of_omap. rewrite Forall_forall in Hr.
  destruct (Hr p Hp) as [Hv _]. unfold declared_board in Hb.
  destruct (section p (lit "board")) as [v|]; [|done]. csimpl in *.
  destruct (Hv v eq_refl) as (m & Hm & Hok). rewrite Hm in Hb. by simplify_eq/=.
Qed.

Lemma registry_of_wf ps : well_declared ps → registry_wf (registry_of ps).
Proof.
  intros (Hr & Hnd & Hk & Hsel).
  assert (∀ f, f ∈ firmwares (registry_of ps) ↔
    ∃ d, f = firmware_of_metadata d ∧ d ∈ omap declared_firmware ps) as Hfw.
  { intros f. unfold registry_of. cbn. by rewrite sort_by_perm, list_elem_of_fmap. }
  split.
  - intros id b Hid. apply elem_of_list_to_map in Hid; [|done].
    apply list_elem_of_fmap in Hid as (b' & [= -> ->] & Hb). split; [done|].
    by eapply declared_board_valid.
  - intros f (d & -> & Hd)%Hfw. rewrite Forall_forall in Hk.
    destruct (Hk d Hd) as [Hb _]. apply board_entries_lookup in Hb.
    by apply not_eq_None_Some.
  - intros f (d & -> & Hd)%Hfw. rewrite Forall_forall in Hk.
    by destruct (Hk d Hd) as (_ & ? & ?).
  - apply sort_by_sorted.
  - unfold registry_of. cbn. by rewrite sort_by_perm.
  - intros f (d & -> & (p & Hp & Hd)%list_elem_of_omap)%Hfw. cbn.
    apply elem_of_list_to_set, list_elem_of_fmap. exists p. split.
    + unfold declared_firmware in Hd. repeat case_match; by simplify_eq/=.
    + apply list_elem_of_filter. split; [right; eauto|done].
Qed.

Lemma discover_Ok exec r :
  discover exec = Ok r ↔ ∃ ps, exec = inr ps ∧ well_declared ps ∧ r = registry_of ps.
Proof.
  unfold discover. destruct exec as [e|ps].
  - split; [done|]. by intros (ps & ? & _).
  - rewrite from_packages_Ok. split; [intros (? & ->); by exists ps|].
    by intros (? & [= <-] & ? & ->).
Qed.

Lemma discover_wf exec r : discover exec = Ok r → registry_wf r.
Proof. intros (ps & _ & ? & ->)%discover_Ok. by apply registry_of_wf. Qed.

(** Declarations in another order. *)
Lemma board_entries_perm ps qs : ps ≡ₚ qs → board_entries ps ≡ₚ board_entries qs.
Proof. intros Hp. unfold board_entries. by apply fmap_Permutation, omap_Permutation. Qed.

Lemma well_declared_perm ps qs : ps ≡ₚ qs → well_declared ps → well_declared qs.
Proof.
  intros Hp (Hr & Hnd & Hk & Hsel).
  pose proof (fmap_Permutation fst _ _ (board_entries_perm _ _ Hp)) as Hids.
  pose proof (omap_Permutation declared_firmware _ _ Hp) as Hfw.
  split_and!.
  - by apply (Forall_Permutation _ _ (λ p, reflexivity _) _ _ Hp).
  - by apply (NoDup_Permutation_proper _ _ Hids).
  - eapply Forall_Permutation in Hk; [|intros f; reflexivity|exact (symmetry Hfw)].
    eapply Forall_impl; [exact Hk|]. intros f (Hb & Hv). split; [|done].
    by apply (elem_of_Permutation_proper _ _ _ Hids).
  - eapply NoDup_Permutation_proper; [|exact Hsel]. symmetry.
    by apply fmap_Permutation, fmap_Permutation.
Qed.

Lemma registry_of_perm ps qs :
  ps ≡ₚ qs → well_declared ps → registry_of ps = registry_of qs.
Proof.
  intros Hp (_ & Hnd & _ & Hsel). unfold registry_of. f_equal.
  - apply list_to_map_proper; [done|]. by apply board_entries_perm.
  - apply sort_by_unique; [done|]. by apply fmap_Permutation, omap_Permutation.
  - apply list_to_set_perm_L, fmap_Permutation. by rewrite Hp.
Qed.
End WellFormed.

(** * Rejected workspaces *)

Section Rejections.
Context `{Serde}.

Definition declares_board (p : Package) (m : BoardMetadata) : Prop :=
  ∃ v, section p (lit "board") = Some v ∧ board_from_value v = inr m.

Definition declares_firmware (p : Package) (m : FirmwareMetadata) : Prop :=
  ∃ v, section p (lit "firmware") = Some v ∧ firmware_from_value v = inr m.

(** The package declares a board whose metadata satisfies [P]. *)
Definition board_fault (ps : list Package) (package : list Z)
    (P : BoardMetadata → Prop) : Prop :=
  ∃ p m, p ∈ ps ∧ package_name p = package ∧ declares_board p m ∧ P m.

Definition firmware_fault (ps : list Package) (package : list Z)
    (P : FirmwareMetadata → Prop) : Prop :=
  ∃ p m, p ∈ ps ∧ package_name p = package ∧ declares_firmware p m ∧ P m.

(** Two packages in this order with declarations related by [P]. *)
Definition conflict {M} (ps : list Package) (declares : Package → M → Prop)
    (first second : list Z) (P : M → M → Prop) : Prop :=
  ∃ i j p q m n, (i < j)%nat ∧ ps !! i = Some p ∧ ps !! j = Some q ∧
    package_name p = first ∧ package_name q = second ∧
    declares p m ∧ declares q n ∧ P m n.

Definition metadata_selector (m : FirmwareMetadata) : list Z :=
  firmware_selector (fm_board m) (fm_variant m).

(** What an error says about the packages. *)
Definition blames (ps : list Package) (e : Error) : Prop :=
  match e with
  | InvalidMetadata kind package error =>
    ∃ p v, p ∈ ps ∧ package_name p = package ∧ section p kind = Some v ∧
      (kind = lit "board" ∧ board_from_value v = inl error ∨
       kind = lit "firmware" ∧ firmware_from_value v = inl error)
  | InvalidBoardId package id =>
    board_fault ps package (λ m, bm_id m = id ∧ (id = [] ∨ 0x2F ∈ id))
  | EmptyTarget package => board_fault ps package (λ m, bm_target m = [])
  | EmptyRunner package =>
    board_fault ps package (λ m, bm_runner m = [] ∨ [] ∈ bm_runner m)
  | RunnerWhitespace package =>
    board_fault ps package
      (λ m, ∃ c x, c ∈ bm_runner m ∧ x ∈ chars c ∧ is_whitespace x = true)
  | DuplicateBoard id existing package =>
    conflict ps declares_board existing package (λ m n, bm_id m = id ∧ bm_id n = id)
  | UnknownFirmwareBoard package board =>
    firmware_fault ps package (λ m, fm_board m = board) ∧
    ∀ p m, p ∈ ps → declares_board p m → bm_id m ≠ board
  | InvalidVariant package variant =>
    firmware_fault ps package
      (λ m, fm_variant m = variant ∧ (variant = [] ∨ 0x2F ∈ variant))
  | DuplicateSelector selector existing package =>
    conflict ps declares_firmware existing package
      (λ m n, metadata_selector m = selector ∧ metadata_selector n = selector)
  | _ => False
  end.

Lemma validate_board_metadata_Err p m e :
  validate_board_metadata p m = Err e →
  ∀ ps, p ∈ ps → declares_board p m → blames ps e.
Proof.
  unfold validate_board_metadata. intros He ps Hp Hm.
  destruct (bool_decide (bm_id m = []) || contains 0x2F (bm_id m)) eqn:Hid.
  { injection He as <-. exists p, m. split_and!; try done.
    apply orb_true_iff in Hid as [->%bool_decide_eq_true|Hc%contains_true]; auto. }
  case_bool_decide as Ht; [injection He as <-; by exists p, m|].
  destruct (bool_decide (bm_runner m = []) || _) eqn:Hrun.
  { injection He as <-. exists p, m. split_and!; try done.
    apply orb_true_iff in Hrun as [->%bool_decide_eq_true|Hc]; [by left|right].
    by apply existsb_true in Hc as (c & Hin & ->%bool_decide_eq_true). }
  destruct (existsb (λ c, existsb is_whitespace (chars c)) (bm_runner m)) eqn:Hw;
    [injection He as <-|done].
  apply existsb_true in Hw as (c & Hin & (x & Hx & Hsp)%existsb_true).
  exists p, m. split_and!; try done. by exists c, x.
Qed.

Lemma validate_board_metadata_not_Panic p m : validate_board_metadata p m ≠ Panic.
Proof. unfold validate_board_metadata. by repeat case_match. Qed.

Lemma scan_package_Err p st e :
  scan_package p st = Err e →
  (∀ ps, p ∈ ps → blames ps e) ∨
  ∃ m b, declares_board p m ∧ sc_boards st !! bm_id m = Some b ∧
    e = DuplicateBoard (bm_id m) (board_package b) (package_name p).
Proof.
  unfold scan_package.
  destruct (value_get (package_metadata p) METADATA_NAMESPACE) as [ns|] eqn:Hns; [|done].
  assert (∀ k, section p k = value_get ns k) as Hsec
    by (intros; unfold section; by rewrite Hns).
  intros [Hb|(bs & _ & Hf)]%bind_Err_iff.
  - unfold scan_board, parse_metadata in Hb.
    destruct (value_get ns (lit "board")) as [v|] eqn:Hv; [|done].
    destruct (board_from_value v) as [err|m] eqn:Hm; csimpl in *.
    { injection Hb as <-. left. intros ps Hp. exists p, v.
      split_and!; [done..|by rewrite Hsec|by left]. }
    assert (declares_board p m) as Hdecl by (exists v; by rewrite Hsec).
    destruct (validate_board_metadata p m) as [u|err|] eqn:Hval; csimpl in *; [| |done].
    + destruct (sc_boards st !! bm_id m) as [b|] eqn:Hlook; [|done].
      injection Hb as <-. right. by exists m, b.
    + injection Hb as <-. left. intros ps Hp. by eapply validate_board_metadata_Err.
  - left. intros ps Hp. unfold scan_firmware, parse_metadata in Hf.
    destruct (value_get ns (lit "firmware")) as [v|] eqn:Hv; [|done].
    destruct (firmware_from_value v) as [err|m] eqn:Hm; csimpl in *; [|done].
    injection Hf as <-. exists p, v. split_and!; [done..|by rewrite Hsec|by right].
Qed.

Lemma scan_packages_Err ps st e :
  scan_packages ps st = Err e →
  ∃ pre p post st', ps = pre ++ p :: post ∧ scan_packages pre st = Ok st' ∧
    scan_package p st' = Err e.
Proof.
  revert st. induction ps as [|p ps IH]; intros st; [done|]. cbn [scan_packages].
  intros [Hp|(st1 & Hp & Hps)]%bind_Err_iff; [by exists [], p, ps, st|].
  destruct (IH st1 Hps) as (pre & q & post & st' & -> & Hpre & Hq).
  exists (p :: pre), q, post, st'. split_and!; try done. cbn [scan_packages].
  by rewrite Hp.
Qed.

Lemma register_firmware_Err bs ms sel fw e :
  register_firmware bs ms sel fw = Err e →
  ∃ pre pkg m post, ms = pre ++ (pkg, m) :: post ∧
    ((e = UnknownFirmwareBoard pkg (fm_board m) ∧ bs !! fm_board m = None) ∨
     (e = InvalidVariant pkg (fm_variant m) ∧
      (fm_variant m = [] ∨ 0x2F ∈ fm_variant m)) ∨
     ∃ existing, e = DuplicateSelector (metadata_selector m) existing pkg ∧
       (sel !! metadata_selector m = Some existing ∨
        ∃ n, (existing, n) ∈ pre ∧ metadata_selector n = metadata_selector m)).
Proof.
  revert sel fw. induction ms as [|[pkg m] ms IH]; intros sel fw; [done|].
  cbn [register_firmware].
  case_bool_decide as Hb; [intros [= <-]; exists [], pkg, m, ms; by auto|].
  destruct (_ || _) eqn:Hv.
  { intros [= <-]. exists [], pkg, m, ms. split; [done|]. right; left.
    apply orb_true_iff in Hv as [->%bool_decide_eq_true|Hc%contains_true]; auto. }
  unfold btree_insert. fold (metadata_selector m).
  destruct (sel !! metadata_selector m) as [x|] eqn:Hs.
  { intros [= <-]. exists [], pkg, m, ms. split; [done|]. right; right. by exists x; auto. }
  intros (pre & pkg' & m' & post & -> & Hcase)%IH.
  exists ((pkg, m) :: pre), pkg', m', post. split; [done|].
  destruct Hcase as [?|[?|(x & -> & Hx)]]; [by auto|by auto|right; right].
  exists x. split; [done|]. destruct Hx as [Hx|(n & Hn & Heq)].
  - apply lookup_insert_Some in Hx as [[Heq <-]|[_ Hx]]; [right|by left].
    exists m. split; [by left|done].
  - right. exists n. split; [by right|done].
Qed.

Lemma omap_split {A B} (f : A → option B) l pre y post :
  omap f l = pre ++ y :: post →
  ∃ l1 x l2, l = l1 ++ x :: l2 ∧ omap f l1 = pre ∧ f x = Some y.
Proof.
  revert pre. induction l as [|x l IH]; intros pre; [by destruct pre|].
  rewrite omap_cons. destruct (f x) as [z|] eqn:Hx; csimpl.
  - destruct pre as [|w pre]; csimpl; intros [= -> Heq]; [by exists [], x, l|].
    destruct (IH pre Heq) as (l1 & x' & l2 & -> & <- & Hy).
    exists (x :: l1), x', l2. split_and!; [done| |done]. by rewrite omap_cons, Hx.
  - intros (l1 & x' & l2 & -> & <- & Hy)%IH.
    exists (x :: l1), x', l2. split_and!; [done| |done]. by rewrite omap_cons, Hx.
Qed.

Lemma declared_board_Some p b :
  declared_board p = Some b ↔
  package_name p = board_package b ∧ declares_board p (board_metadata b).
Proof.
  unfold declared_board, declares_board.
  destruct (section p (lit "board")) as [v|]; csimpl;
    [|split; [done|by intros (_ & v & ? & _)]].
  destruct (board_from_value v) as [e|m] eqn:Hm.
  - split; [done|]. intros (_ & w & [= ->] & Hw). congruence.
  - split; [intros [= <-]; split; [done|by exists v]|].
    intros (Hname & w & [= ->] & Hw). destruct b. simplify_eq/=. congruence.
Qed.

Lemma declared_firmware_Some p f :
  declared_firmware p = Some f ↔ package_name p = f.1 ∧ declares_firmware p f.2.
Proof.
  unfold declared_firmware, declares_firmware. destruct f as [pkg m].
  destruct (section p (lit "firmware")) as [v|]; csimpl;
    [|split; [done|by intros (_ & v & ? & _)]].
  destruct (firmware_from_value v) as [e|n] eqn:Hm.
  - split; [done|]. intros (_ & w & [= ->] & Hw). congruence.
  - split; [intros [= <- <-]; split; [done|by exists v]|].
    intros (<- & w & [= ->] & Hw). congruence.
Qed.

Lemma board_entries_elem ps id b :
  (id, b) ∈ board_entries ps ↔ id = board_id b ∧ ∃ p, p ∈ ps ∧ declared_board p = Some b.
Proof.
  unfold board_entries. rewrite list_elem_of_fmap. setoid_rewrite list_elem_of_omap.
  split; [intros (b' & [= -> ->] & ?)|intros (-> & ?)]; eauto.
Qed.

Lemma conflict_app {M} (declares : Package → M → Prop) pre q p post m n (P : M → M → Prop) :
  q ∈ pre → declares q m → declares p n → P m n →
  conflict (pre ++ p :: post) declares (package_name q) (package_name p) P.
Proof.
  intros (i & Hi)%list_elem_of_lookup Hm Hn HP.
  exists i, (length pre), q, p, m, n. pose proof (lookup_lt_Some _ _ _ Hi).
  split_and!; try done; [by rewrite lookup_app_l|by apply list_lookup_middle].
Qed.

Lemma scan_rejection ps st e :
  sc_boards st = ∅ → scan_packages ps st = Err e → blames ps e.
Proof.
  intros Hst (pre & p & post & st' & -> & Hpre & Hp)%scan_packages_Err.
  apply scan_packages_Ok in Hpre as (_ & Hnd & _ & ->).
  apply scan_package_Err in Hp as [Hb|(m & b & Hm & Hb & ->)]; [apply Hb; set_solver|].
  cbn in Hb. rewrite Hst, (right_id_L ∅ (∪)) in Hb.
  apply elem_of_list_to_map, board_entries_elem in Hb as (Hid & q & Hq & Hqb); [|done].
  apply declared_board_Some in Hqb as [Hname Hqb]. cbn. rewrite <-Hname.
  by apply (conflict_app declares_board _ _ _ _ (board_metadata b) m).
Qed.

Lemma register_rejection ps e :
  register_firmware (list_to_map (board_entries ps)) (omap declared_firmware ps) ∅ []
    = Err e → blames ps e.
Proof.
  intros (pre & pkg & m & post & Hsplit & Hcase)%register_firmware_Err.
  apply omap_split in Hsplit as (l1 & p & l2 & -> & <- & Hp).
  apply declared_firmware_Some in Hp as [Hname Hp]. cbn in Hname, Hp.
  assert (p ∈ l1 ++ p :: l2) as Hin by set_solver.
  destruct Hcase as [[-> Hb]|[[-> Hv]|(x & -> & [Hx|(n & Hn & Heq)])]].
  - split; [by exists p, m|]. intros q n Hq Hn Heq.
    apply not_elem_of_list_to_map in Hb. apply Hb, list_elem_of_fmap.
    exists (bm_id n, {| board_package := package_name q; board_metadata := n |}).
    split; [done|]. apply board_entries_elem. split; [done|]. exists q.
    split; [done|]. by apply declared_board_Some.
  - by exists p, m.
  - by rewrite lookup_empty in Hx.
  - apply list_elem_of_omap in Hn as (q & Hq & [Hqn Hqd]%declared_firmware_Some).
    cbn in Hqn, Hqd. cbn. rewrite <-Hname, <-Hqn.
    by apply (conflict_app declares_firmware _ _ _ _ n m).
Qed.

Lemma from_packages_Err ps e : from_packages ps = Err e → blames ps e.
Proof.
  unfold from_packages. intros [He|(st & Hst & He)]%bind_Err_iff.
  { by apply scan_rejection in He. }
  apply scan_packages_Ok in Hst as (_ & _ & _ & ->).
  apply bind_Err_iff in He as [He|(fw & _ & He)]; [|done]. cbn in He.
  rewrite (right_id_L ∅ (∪)) in He. by apply register_rejection.
Qed.

Lemma scan_packages_not_Panic ps st : scan_packages ps st ≠ Panic.
Proof.
  revert st. induction ps as [|p ps IH]; intros st; [done|]. cbn [scan_packages].
  apply bind_not_Panic; [|intros st' _; apply IH]. unfold scan_package.
  destruct (value_get _ _) as [ns|]; [|done]. apply bind_not_Panic.
  - unfold scan_board, parse_metadata. case_match; [|done].
    apply bind_not_Panic; [by case_match|]. intros m _.
    apply bind_not_Panic; [apply validate_board_metadata_not_Panic|]. by cases.
  - intros bs _. unfold scan_firmware, parse_metadata. case_match; [|done].
    apply bind_not_Panic; [by case_match|done].
Qed.

Lemma from_packages_not_Panic ps : from_packages ps ≠ Panic.
Proof.
  unfold from_packages. apply bind_not_Panic; [apply scan_packages_not_Panic|].
  intros st _. apply bind_not_Panic; [|done].
  generalize (∅ : gmap (list Z) (list Z)), (@nil Firmware).
  induction (sc_firmware st) as [|[pkg m] ms IH]; intros sel fw; [done|].
  cbn [register_firmware]. by repeat case_match.
Qed.
End Rejections.

(** * Selectors and lookups *)

Lemma firmware_selector_inj b v b' v' :
  (0x2F ∉ b) → (0x2F ∉ b') → (0x2F ∉ v) → (0x2F ∉ v') →
  firmware_selector b v = firmware_selector b' v' → b = b' ∧ v = v'.
Proof.
  intros Hb Hb' Hv Hv'. unfold firmware_selector. pose proof (split_on_app 0x2F) as Hsplit.
  repeat case_bool_decide; subst; intros Heq.
  - done.
  - destruct Hb. rewrite Heq. set_solver.
  - destruct Hb'. rewrite <-Heq. set_solver.
  - change (lit "/" ++ v) with (0x2F :: v) in Heq.
    change (lit "/" ++ v') with (0x2F :: v') in Heq.
    apply (f_equal (split_on 0x2F)) in Heq.
    rewrite !Hsplit, !split_on_no_sep in Heq by done. by simplify_eq.
Qed.

Definition selected_by (s : list Z) (f : Firmware) : Prop :=
  fw_selector f = s ∨ fw_package f = s.

Lemma StronglySorted_lookup {A} (R : A → A → Prop) l i j x y :
  StronglySorted R l → (i < j)%nat → l !! i = Some x → l !! j = Some y → R x y.
Proof.
  intros Hl. revert i j. induction Hl as [|z l Hl IH Hz]; intros i j Hij; [done|].
  destruct i as [|i], j as [|j]; try lia; csimpl.
  - intros [= ->] Hy. rewrite Forall_forall in Hz. by eapply Hz, list_elem_of_lookup_2.
  - apply IH. lia.
Qed.

(** A lookup finds the first match in selector order. *)
Lemma registry_firmware_Ok r s f :
  registry_wf r →
  registry_firmware r s = Ok f ↔
  f ∈ firmwares r ∧ selected_by s f ∧
  ∀ g, g ∈ firmwares r → selected_by s g → key_le fw_selector f g.
Proof.
  intros Hwf. unfold registry_firmware. rewrite ok_or_Ok_iff, fmap_Some. split.
  - intros ([i f'] & (Hi & Hf & Hmin)%list_find_Some & ->). cbn. split_and!.
    + by eapply list_elem_of_lookup_2.
    + done.
    + intros g (j & Hj)%list_elem_of_lookup Hg.
      destruct (decide (j < i)%nat); [by destruct (Hmin j g)|].
      destruct (decide (i = j)) as [->|]; [|by eapply (StronglySorted_lookup _ _ i j),
        Hj; [apply wf_sorted|lia|]].
      assert (f' = g) as -> by congruence. apply str_le_refl.
  - intros (Hin & Hf & Hmin).
    destruct (list_find (λ g, fw_selector g = s ∨ fw_package g = s) (firmwares r))
      as [[i g]|] eqn:Hfind.
    + exists (i, g). split; [done|]. cbn. apply list_find_Some in Hfind as (Hi & Hg & Hfirst).
      assert (g ∈ firmwares r) as Hgin by (by eapply list_elem_of_lookup_2).
      apply list_elem_of_lookup in Hin as (j & Hj).
      assert (j = i) as ->; [|congruence].
      pose proof (NoDup_lookup _ i j (fw_selector f) (wf_unique r Hwf)) as Hnd.
      rewrite !list_lookup_fmap, Hi, Hj in Hnd. symmetry. apply Hnd; [|done].
      csimpl. f_equal. apply str_le_antisym; [|by apply Hmin].
      destruct (decide (j < i)%nat); [by destruct (Hfirst j f)|].
      destruct (decide (i = j)) as [->|].
      { assert (g = f) as -> by congruence. apply str_le_refl. }
      apply (StronglySorted_lookup (key_le fw_selector) (firmwares r) i j); try done;
        [by apply wf_sorted|lia].
    + apply list_find_None in Hfind. rewrite Forall_forall in Hfind.
      by destruct (Hfind f Hin).
Qed.

Lemma registry_firmware_Err r s e :
  registry_firmware r s = Err e ↔
  e = UnknownFirmware s ∧ ∀ f, f ∈ firmwares r → ¬ selected_by s f.
Proof.
  unfold registry_firmware.
  destruct (list_find (λ f, fw_selector f = s ∨ fw_package f = s) (firmwares r))
    as [[i f]|] eqn:Hf; csimpl.
  - apply list_find_Some in Hf as (Hi & Hf & _). split; [done|].
    intros (_ & Hno). destruct (Hno f); [by eapply list_elem_of_lookup_2|done].
  - apply list_find_None in Hf. rewrite Forall_forall in Hf.
    split; [intros [= <-]|intros [-> _]]; auto.
Qed.

(** The board of a registered firmware is found by its id. *)
Lemma registry_board_id r id b :
  boards r !! id = Some b → registry_board r id = Ok b.
Proof. unfold registry_board. by intros ->. Qed.

Lemma registry_board_firmware r f :
  registry_wf r → f ∈ firmwares r →
  ∃ b, registry_board r (fw_board f) = Ok b ∧ boards r !! fw_board f = Some b ∧
    valid_board_metadata (board_metadata b).
Proof.
  intros Hwf Hf. destruct (wf_board r Hwf f Hf) as [b Hb]. exists b.
  split_and!; [by apply registry_board_id|done|]. by apply (wf_boards r Hwf _ _ Hb).
Qed.

Lemma registry_board_not_Panic r s : registry_board r s ≠ Panic.
Proof. unfold registry_board, ok_or. by repeat case_match. Qed.

Lemma registry_firmware_not_Panic r s : registry_firmware r s ≠ Panic.
Proof. unfold registry_firmware, ok_or. by repeat case_match. Qed.

Lemma registry_board_Ok_elem r s b :
  registry_board r s = Ok b → ∃ id, boards r !! id = Some b.
Proof.
  unfold registry_board. rewrite ok_or_Ok_iff.
  destruct (boards r !! s) as [b'|] eqn:Hs; [intros [= <-]; eauto|].
  intros ([i b'] & (Hi & _)%list_find_Some & ->)%fmap_Some. cbn.
  apply elem_of_btree_values. by eapply list_elem_of_lookup_2.
Qed.

(** * Legacy subcommands *)

(** [legacy_form c sub f]: the subcommand [c] is an old spelling of [sub f]. *)
Inductive legacy_form : list Z → list Z → list Z → Prop :=
  | legacy_build f : f ≠ lit "all" → legacy_form (lit "build-" ++ f) (lit "build") f
  | legacy_run f : legacy_form (lit "run-" ++ f) (lit "run") f.

Lemma legacy_replacement_Some c sub f :
  legacy_replacement c = Some (sub, f) ↔ legacy_form c sub f.
Proof.
  unfold legacy_replacement. split.
  - case_bool_decide as Hall.
    + destruct (strip_prefix (lit "build-") c) as [g|] eqn:Hb; csimpl.
      * intros [= <- <-]. apply strip_prefix_Some in Hb as ->. constructor.
        intros ->. by apply Hall.
      * intros (g & Hr%strip_prefix_Some & [= -> ->])%fmap_Some. rewrite Hr. constructor.
    + intros (g & Hr%strip_prefix_Some & [= -> ->])%fmap_Some. rewrite Hr. constructor.
  - intros [g Hg|g].
    + rewrite bool_decide_true by (intros Heq; by apply (app_inv_head (lit "build-")) in Heq).
      by rewrite (proj2 (strip_prefix_Some (lit "build-") _ g)).
    + rewrite bool_decide_true by done.
      replace (strip_prefix (lit "build-") _) with (@None (list Z)) by done.
      cbn [fmap option_fmap option_map]. by rewrite (proj2 (strip_prefix_Some (lit "run-") _ g)).
Qed.

(** * A concrete metadata format *)

(** A JSON fragment with the derived deserializers' behaviour: required
    fields, unknown ones ignored.  Objects are chains of fields. *)
Inductive Json : Type :=
  | JBool (b : bool)
  | JText (s : list Z)
  | JTexts (items : list (list Z))
  | JEmpty
  | JField (key : list Z) (value rest : Json).

Fixpoint json_get (v : Json) (key : list Z) : option Json :=
  match v with
  | JField k value rest =>
    if bool_decide (k = key) then Some value else json_get rest key
  | _ => None
  end.

Definition json_bool (v : Json) : option bool :=
  match v with JBool b => Some b | _ => None end.

Definition json_text (v : Json) : option (list Z) :=
  match v with JText s => Some s | _ => None end.

Definition json_field (v : Json) (key : list Z) : list Z + list Z :=
  match json_get v key with
  | None => inl (lit "missing field `" ++ key ++ lit "`")
  | Some v =>
    match json_text v with
    | Some s => inr s
    | None => inl (lit "invalid type, expected a string")
    end
  end.

Definition json_board (v : Json) : list Z + BoardMetadata :=
  match json_field v (lit "id"), json_field v (lit "target"),
        json_get v (lit "runner") with
  | inr id, inr target, Some (JTexts runner) =>
    inr {| bm_id := id; bm_target := target; bm_runner := runner |}
  | inl e, _, _ | _, inl e, _ => inl e
  | _, _, None => inl (lit "missing field `runner`")
  | _, _, Some _ => inl (lit "invalid type, expected a sequence of strings")
  end.

Definition json_firmware (v : Json) : list Z + FirmwareMetadata :=
  match json_field v (lit "board"), json_field v (lit "variant") with
  | inr board, inr variant => inr {| fm_board := board; fm_variant := variant |}
  | inl e, _ | _, inl e => inl e
  end.

#[export] Instance fixture_serde : Serde := {|
  Value := Json;
  value_get := json_get;
  value_as_bool := json_bool;
  board_from_value := json_board;
  firmware_from_value := json_firmware;
|}.

Definition json_object (fields : list (list Z * Json)) : Json :=
  foldr (λ f, JField f.1 f.2) JEmpty fields.

Definition fixture_package (name : list Z) (sections : list (list Z * Json)) : Package :=
  {| package_name := name;
     package_metadata := json_object [(METADATA_NAMESPACE, json_object sections)] |}.

Definition fixture_board (name id target : list Z) : Package :=
  fixture_package name
    [(lit "board",
      json_object
        [(lit "id", JText id); (lit "target", JText target);
         (lit "runner", JTexts [lit "espflash"; lit "flash"; lit "--monitor"])])].

Definition fixture_firmware (name board variant : list Z) : Package :=
  fixture_package name
    [(lit "firmware",
      json_object [(lit "board", JText board); (lit "variant", JText variant)])].

(** The packages of this workspace that carry metadata, and one that does
    not. *)
Definition workspace : list Package := [
  fixture_board (lit "embedded-sdk-board-xiao-esp32c6") (lit "xiao-esp32c6")
    (lit "riscv32imac-unknown-none-elf");
  {| package_name := lit "embedded-sdk-core"; package_metadata := JEmpty |};
  fixture_firmware (lit "xiao-esp32c6-firmware") (lit "xiao-esp32c6") (lit "default");
  fixture_firmware (lit "xiao-esp32c6-beacon-scanner") (lit "xiao-esp32c6")
    (lit "beacon-scanner");
  fixture_firmware (lit "xiao-esp32c6-beacon") (lit "xiao-esp32c6") (lit "beacon");
  fixture_package (lit "embedded-sdk-platform-esp32c6")
    [(lit "host-check", JBool false)]].

Definition workspace_registry : Registry :=
  match discover (inr workspace) with
  | Ok r => r
  | _ => {| boards := ∅; firmwares := []; host_exclusions := ∅ |}
  end.

Example workspace_discovered : discover (inr workspace) = Ok workspace_registry.
Proof. vm_compute. reflexivity. Qed.

Example workspace_selectors :
  fw_selector <$> firmwares workspace_registry =
  [lit "xiao-esp32c6"; lit "xiao-esp32c6/beacon"; lit "xiao-esp32c6/beacon-scanner"].
Proof. vm_compute. reflexivity. Qed.

(** * Properties *)

(** C9: discovery succeeds exactly on a readable package list whose sections
    parse, whose board ids are valid and distinct, whose firmware name a
    declared board and a plain variant, and whose selectors are distinct; the
    registry then holds every declared board under its id, every declared
    firmware in selector order, and excludes from host commands every package
    that opts out or is a firmware. *)
Theorem registry_exact `{Serde} exec r :
  discover exec = Ok r ↔
  ∃ ps, exec = inr ps ∧ well_declared ps ∧ r = registry_of ps.
Proof. apply discover_Ok. Qed.

(** C27: the registry does not depend on the order in which Cargo lists the
    packages. *)
Theorem registry_order_irrelevant `{Serde} ps qs r :
  ps ≡ₚ qs → discover (inr ps) = Ok r → discover (inr qs) = Ok r.
Proof.
  intros Hp (? & [= <-] & Hwd & ->)%discover_Ok. apply discover_Ok.
  exists qs. split_and!; [done|by eapply well_declared_perm|by apply registry_of_perm].
Qed.

Lemma registry_order_irrelevant_witness :
  workspace ≡ₚ reverse workspace ∧
  discover (inr (reverse workspace)) = Ok workspace_registry.
Proof.
  split; [symmetry; apply reverse_Permutation|].
  apply (registry_order_irrelevant workspace (reverse workspace)).
  - symmetry. apply reverse_Permutation.
  - vm_compute. reflexivity.
Defined.

(** C32: every discovered registry is well formed: boards are valid and stored
    under their id, every firmware's board is registered, its variant is
    plain, its selector is the one its board and variant give, selectors are
    distinct and sorted, and every firmware is excluded from host commands. *)
Theorem discovery_well_formed `{Serde} exec r :
  discover exec = Ok r → registry_wf r.
Proof. apply discover_wf. Qed.

Lemma discovery_well_formed_witness :
  discover (inr workspace) = Ok workspace_registry ∧ registry_wf workspace_registry.
Proof.
  split; [vm_compute; reflexivity|].
  apply (discovery_well_formed (inr workspace)). vm_compute. reflexivity.
Defined.

(** C19: discovery never panics, and when it rejects the workspace the error is
    true of it: it names a package whose section does not parse (with the
    parser's message), a declaration that breaks the rule it cites, or two
    packages, in the order of the workspace, that declare the same board id
    or selector. *)
Theorem rejection_justified `{Serde} ps :
  discover (inr ps) ≠ Panic ∧ ∀ e, discover (inr ps) = Err e → blames ps e.
Proof.
  split; [apply from_packages_not_Panic|]. intros e. apply from_packages_Err.
Qed.

(** C40: in a well-formed registry whose packages have distinct names without a
    slash, the selector of a firmware that is not a board's default finds that
    firmware; so does a default's selector (the board id) and a package name,
    unless it is also another firmware's package name or default selector. *)
Theorem selectors_address_firmware r f :
  registry_wf r → f ∈ firmwares r →
  NoDup (fw_package <$> firmwares r) →
  (∀ g, g ∈ firmwares r → 0x2F ∉ fw_package g) →
  (fw_variant f ≠ lit "default" → registry_firmware r (fw_selector f) = Ok f) ∧
  ((∀ g, g ∈ firmwares r → fw_package g = fw_selector f → g = f) →
   registry_firmware r (fw_selector f) = Ok f) ∧
  ((∀ g, g ∈ firmwares r → fw_selector g = fw_package f → g = f) →
   registry_firmware r (fw_package f) = Ok f).
Proof.
  intros Hwf Hf Hnd Hslash.
  assert (∀ A (h : Firmware → A) g, NoDup (h <$> firmwares r) → g ∈ firmwares r →
    h g = h f → g = f) as Hinj.
  { intros A h g Hd (i & Hi)%list_elem_of_lookup Hh.
    apply list_elem_of_lookup in Hf as (j & Hj).
    assert (i = j) as <-; [|congruence]. apply (NoDup_lookup _ _ _ (h f) Hd);
      rewrite list_lookup_fmap, ?Hi, ?Hj; csimpl; by rewrite ?Hh. }
  assert ((∀ g, g ∈ firmwares r → fw_package g = fw_selector f → g = f) →
    registry_firmware r (fw_selector f) = Ok f) as Hsel.
  { intros Hpkg. apply registry_firmware_Ok; [done|]. split_and!; [done|by left|].
    intros g Hg [Heq|Heq]; [rewrite (Hinj _ _ g (wf_unique r Hwf) Hg Heq)
      |rewrite (Hpkg g Hg Heq)]; apply str_le_refl. }
  split_and!; [|done|].
  - intros Hv. apply Hsel. intros g Hg Heq. destruct (Hslash g Hg). rewrite Heq.
    rewrite (proj2 (wf_selector r Hwf f Hf)). unfold firmware_selector.
    rewrite bool_decide_false by done. change (lit "/") with [0x2F]. set_solver.
  - intros Hpkg. apply registry_firmware_Ok; [done|]. split_and!; [done|by right|].
    intros g Hg [Heq|Heq]; [rewrite (Hpkg g Hg Heq)
      |rewrite (Hinj _ _ g Hnd Hg Heq)]; apply str_le_refl.
Qed.

Lemma selectors_address_firmware_witness :
  ∃ f, fw_package f = lit "xiao-esp32c6-beacon" ∧
    registry_firmware workspace_registry (lit "xiao-esp32c6/beacon") = Ok f ∧
    registry_firmware workspace_registry (fw_selector f) = Ok f.
Proof.
  destruct (firmwares workspace_registry !! 1%nat) as [f|] eqn:Hf; [|by vm_compute in Hf].
  exists f. pose proof Hf as Hc. vm_compute in Hc. injection Hc as Hc.
  split; [by rewrite <-Hc|]. split; [rewrite <-Hc; by vm_compute|].
  destruct (selectors_address_firmware workspace_registry f) as (Hdefault & _ & _).
  - apply (discover_wf (inr workspace)). vm_compute. reflexivity.
  - by eapply list_elem_of_lookup_2.
  - refine (bool_decide_unpack _ _). vm_compute. exact I.
  - apply Forall_forall. refine (bool_decide_unpack _ _). vm_compute. exact I.
  - apply Hdefault. intros Hv%(f_equal length). rewrite <-Hc in Hv. vm_compute in Hv. discriminate Hv.
Defined.

(** A board id that is also the package name of an earlier firmware does not
    select the board's default firmware. *)
Example default_selector_shadowed :
  ∃ r f, discover (inr [
      fixture_board (lit "board-alpha") (lit "alpha") (lit "t");
      fixture_board (lit "board-zeta") (lit "zeta") (lit "t");
      fixture_firmware (lit "zeta") (lit "alpha") (lit "default");
      fixture_firmware (lit "zeta-firmware") (lit "zeta") (lit "default")]) = Ok r ∧
    registry_firmware r (lit "zeta") = Ok f ∧ fw_board f = lit "alpha".
Proof. eexists _, _. split_and!; vm_compute; reflexivity. Qed.

(** The legacy subcommands [build-FIRMWARE] (except [build-all]) and
    [run-FIRMWARE] become [build FIRMWARE] and [run FIRMWARE], whatever
    follows them is kept, and the old spelling is reported; every other
    command line, also one whose subcommand is not UTF-8, is left alone.
    Normalising twice changes nothing. *)
Theorem legacy_args_exact args :
  ((∃ program command rest subcommand firmware,
      args = program :: command :: rest ∧ is_str command ∧
      legacy_form command subcommand firmware ∧
      normalize_legacy_args args =
        (program :: subcommand :: firmware :: rest, Some command)) ∨
   (normalize_legacy_args args = (args, None) ∧
    ∀ program command rest, args = program :: command :: rest → is_str command →
      ∀ subcommand firmware, ¬ legacy_form command subcommand firmware)) ∧
  normalize_legacy_args (normalize_legacy_args args).1 =
    ((normalize_legacy_args args).1, None).
Proof.
  assert (∀ p sub f rest c, legacy_form c sub f →
    normalize_legacy_args (p :: sub :: f :: rest) = (p :: sub :: f :: rest, None)) as Hidem.
  { intros p sub f rest c [g Hg|g]; reflexivity. }
  destruct args as [|p [|c rest]]; [by split; [right|]..|].
  unfold normalize_legacy_args at 1 2 4 5. csimpl. unfold from_utf8_ok.
  case_decide as Hc; csimpl; cycle 1.
  { assert (normalize_legacy_args (p :: c :: rest) = (p :: c :: rest, None)) as Hn.
    { unfold normalize_legacy_args, from_utf8_ok. csimpl. by rewrite decide_False. }
    split; [|done]. right. split; [done|]. by intros ? ? ? [= <- <- <-]. }
  destruct (legacy_replacement c) as [[sub f]|] eqn:Hl; csimpl.
  - apply legacy_replacement_Some in Hl. split; [left|by eapply Hidem].
    by exists p, c, rest, sub, f.
  - assert (normalize_legacy_args (p :: c :: rest) = (p :: c :: rest, None)) as Hn.
    { unfold normalize_legacy_args, from_utf8_ok. csimpl.
      rewrite decide_True by done. csimpl. by rewrite Hl. }
    split; [|done]. right. split; [done|]. intros ? ? ? [= <- <- <-] _ sub f Hf.
    apply legacy_replacement_Some in Hf. congruence.
Qed.
