(* ===== verification/XtaskCommands.v ===== *)
(** The commands of the build tool, [tools/xtask/src/main.rs]: building,
    running, checking, listing and diagnosing, over a registry.

    A command is a function of the log so far to its result and the longer
    log ([Io]).  The log records every process with its outcome and every
    line printed.  What a process does and whether a line can be written is the
    class [Host]: any function of the log, so outcomes may change over time.
    [println!] and [eprintln!] panic when they cannot write. *)
From stdpp Require Import prelude list numbers option strings gmap sorting.
From Stdlib Require Import ZArith.
From S2P Require Import Prelude.
From S2P Require Import Text.
From S2P Require Import HostStd.
From S2P Require Import XtaskRegistry.
Local Open Scope Z_scope.
#[local] Arguments lit _ : simpl never.

(** * Processes and output *)

Record Invocation : Type := {
  inv_program : list Z;
  inv_args : list (list Z);
  inv_env : list (list Z * list Z);
}.

(** [status()] or [output()]: the process could not be started, or it exited
    with a status (its [success()] and its text) and some standard output. *)
Inductive Outcome : Type :=
  | NotStarted (error : list Z)
  | Exited (success : bool) (status stdout : list Z).

Inductive Event : Type :=
  | Spawned (i : Invocation) (o : Outcome)
  | Printed (line : list Z)
  | Warned (line : list Z).

(** The operating system, [env::var_os("CARGO")], and [cargo metadata]; [writes]
    says whether standard output or error takes the line of an event. *)
Class Host `{Serde} : Type := {
  spawn : list Event → Invocation → Outcome;
  writes : list Event → Event → bool;
  cargo_variable : option (list Z);
  cargo_metadata : list Event → list Z + list Package;
}.

Definition Io (A : Type) : Type := list Event → res Error A * list Event.

#[export] Instance io_ret : MRet Io := λ A a log, (Ok a, log).
#[export] Instance io_bind : MBind Io := λ A B f m log,
  match m log with
  | (Ok a, log) => f a log
  | (Err e, log) => (Err e, log)
  | (Panic, log) => (Panic, log)
  end.

Definition lift {A} (r : res Error A) : Io A := λ log, (r, log).

Definition write_line `{Host} (e : Event) : Io () := λ log,
  if writes log e then (Ok (), log ++ [e]) else (Panic, log).
Definition println `{Host} (line : list Z) : Io () := write_line (Printed line).
Definition eprintln `{Host} (line : list Z) : Io () := write_line (Warned line).

(** The result as a value, for [match result]. *)
Definition attempt {A} (m : Io A) : Io (Error + A) := λ log,
  match m log with
  | (Ok a, log) => (Ok (inr a), log)
  | (Err e, log) => (Ok (inl e), log)
  | (Panic, log) => (Panic, log)
  end.

(** [result.is_err()] *)
Definition is_err {A} (m : Io A) : Io bool := λ log,
  match m log with
  | (Ok _, log) => (Ok false, log)
  | (Err _, log) => (Ok true, log)
  | (Panic, log) => (Panic, log)
  end.

(** [for x in l { f(x)?; }] *)
Fixpoint for_each {A} (f : A → Io ()) (l : list A) : Io () :=
  match l with
  | [] => mret ()
  | x :: l => f x ≫= λ _, for_each f l
  end.

(** * Running processes *)

Section Commands.
Context `{Host}.

Definition status_result (program : list Z) (o : Outcome) : res Error () :=
  match o with
  | NotStarted error => Err (FailedToStart program error)
  | Exited true _ _ => Ok ()
  | Exited false status _ => Err (ExitedWith program status)
  end.

Definition command_with_env (program : list Z) (args : list (list Z))
    (environment : list (list Z * list Z)) : Io () := λ log,
  let i := {| inv_program := program; inv_args := args; inv_env := environment |} in
  let o := spawn log i in
  (status_result program o, log ++ [Spawned i o]).

Definition command (program : list Z) (args : list (list Z)) : Io () :=
  command_with_env program args [].

Definition cargo_program : list Z := default (lit "cargo") cargo_variable.

Definition cargo (args : list (list Z)) : Io () := command cargo_program args.

Definition output (program : list Z) (args : list (list Z)) : Io (list Z) := λ log,
  let i := {| inv_program := program; inv_args := args; inv_env := [] |} in
  let o := spawn log i in
  (match o with
   | NotStarted error => Err (FailedToStart program error)
   | Exited false status _ => Err (ExitedWith program status)
   | Exited true _ stdout => ok_or (NonUtf8 stdout) (from_utf8_ok stdout)
   end, log ++ [Spawned i o]).

(** * Building and running firmware *)

Definition build_args (firmware : Firmware) (board : Board) : list (list Z) :=
  [lit "build"; lit "-p"; fw_package firmware; lit "--target";
   bm_target (board_metadata board); lit "--release"].

Definition build_firmware (firmware : Firmware) (board : Board) : Io () :=
  cargo (build_args firmware board).

Definition build (registry : Registry) (selector : list Z) : Io () :=
  firmware ← lift (registry_firmware registry selector);
  board ← lift (registry_board registry (fw_board firmware));
  build_firmware firmware board.

(** [Option::is_none_or] *)
Definition is_none_or {A} (p : A → bool) (o : option A) : bool :=
  match o with None => true | Some x => p x end.

Definition selected_firmware (registry : Registry) (board_filter : option (list Z)) :
  res Error (list Firmware) :=
  board_filter ←
    match board_filter with
    | None => Ok None
    | Some board => Some ∘ board_id <$> registry_board registry board
    end;
  Ok (filter (λ firmware, is_none_or (λ board, bool_decide (fw_board firmware = board))
                board_filter) (firmwares registry)).

Definition build_all (registry : Registry) (board_filter : option (list Z)) : Io () :=
  selected ← lift (selected_firmware registry board_filter);
  if bool_decide (selected = []) then lift (Err NoFirmwareMatched)
  else
    for_each (λ firmware,
      board ← lift (registry_board registry (fw_board firmware));
      println (lit "Building " ++ fw_selector firmware ++ lit " ("
               ++ fw_package firmware ++ lit ")") ≫= λ _,
      build_firmware firmware board) selected.

Definition run (registry : Registry) (selector : list Z) : Io () :=
  firmware ← lift (registry_firmware registry selector);
  board ← lift (registry_board registry (fw_board firmware));
  let runner_variable := cargo_runner_variable (bm_target (board_metadata board)) in
  let runner := join_with 0x20 (bm_runner (board_metadata board)) in
  command_with_env cargo_program
    [lit "run"; lit "-p"; fw_package firmware; lit "--target";
     bm_target (board_metadata board); lit "--release"]
    [(runner_variable, runner)].

(** * Host checks *)

Definition add_exclusions (args : list (list Z)) (exclusions : gset (list Z)) :
  list (list Z) :=
  args ++ (btree_elements exclusions ≫= λ package, [lit "--exclude"; package]).

Definition host_tests (registry : Registry) : Io () :=
  cargo (add_exclusions [lit "test"; lit "--workspace"] (host_exclusions registry)).

Definition check (registry : Registry) : Io () :=
  cargo [lit "fmt"; lit "--all"; lit "--check"] ≫= λ _,
  cargo (add_exclusions [lit "clippy"; lit "--workspace"] (host_exclusions registry)
         ++ [lit "--all-targets"; lit "--"; lit "-D"; lit "warnings"]) ≫= λ _,
  host_tests registry.

(** * Diagnosis and listings *)

Definition board_line (board : Board) : list Z :=
  bm_id (board_metadata board) ++ lit ": target=" ++ bm_target (board_metadata board)
  ++ lit ", runner=" ++ join_with 0x20 (bm_runner (board_metadata board)).

Fixpoint doctor_boards (installed : list Z) (checked_targets checked_tools : gset (list Z))
    (selected : list Board) : Io () :=
  match selected with
  | [] => println (lit "Development environment is ready")
  | board :: selected =>
    let target := bm_target (board_metadata board) in
    let '(checked_targets, new_target) := btree_set_insert target checked_targets in
    if new_target && negb (existsb (λ line, bool_decide (line = target)) (lines installed))
    then lift (Err (MissingTarget target))
    else
      tool ← lift (index (bm_runner (board_metadata board)) 0);
      let '(checked_tools, new_tool) := btree_set_insert tool checked_tools in
      unavailable ←
        (if new_tool then is_err (command tool [lit "--version"]) else mret false);
      if (unavailable : bool) then lift (Err (RunnerUnavailable tool))
      else
        println (board_line board) ≫= λ _,
        doctor_boards installed checked_targets checked_tools selected
  end.

Definition doctor_selection (registry : Registry) (board_filter : option (list Z)) :
  res Error (list Board) :=
  match board_filter with
  | Some board => (λ b, [b]) <$> registry_board registry board
  | None => Ok (btree_values (boards registry))
  end.

Definition doctor (registry : Registry) (board_filter : option (list Z)) : Io () :=
  selected ← lift (doctor_selection registry board_filter);
  if bool_decide (selected = []) then lift (Err NoBoards)
  else
    installed ← output (lit "rustup") [lit "target"; lit "list"; lit "--installed"];
    doctor_boards installed ∅ ∅ selected.

Definition list_registry (registry : Registry) : Io () :=
  if bool_decide (boards registry = ∅) then println (lit "No boards are registered.")
  else
    println (lit "Boards:") ≫= λ _,
    for_each (λ board,
      println (lit "  " ++ pad_right 24 (bm_id (board_metadata board)) ++ lit " "
               ++ pad_right 32 (bm_target (board_metadata board)) ++ lit " "
               ++ board_package board)) (btree_values (boards registry)) ≫= λ _,
    println [] ≫= λ _,
    println (lit "Firmware:") ≫= λ _,
    for_each (λ firmware,
      println (lit "  " ++ pad_right 32 (fw_selector firmware) ++ lit " "
               ++ pad_right 20 (fw_variant firmware) ++ lit " "
               ++ fw_package firmware)) (firmwares registry).

Definition targets (registry : Registry) : Io () :=
  let targets : gset (list Z) :=
    list_to_set ((λ board, bm_target (board_metadata board))
                   <$> btree_values (boards registry)) in
  if bool_decide (targets = ∅) then lift (Err NoTargets)
  else for_each println (btree_elements targets).

(** * The tool *)

Definition discover_registry : Io Registry := λ log,
  (discover (cargo_metadata log), log).

Definition execute (task : Task) : Io () :=
  registry ← discover_registry;
  match task with
  | Check_ => check registry
  | Test_ => host_tests registry
  | List_ => list_registry registry
  | Build firmware => build registry firmware
  | BuildAll board => build_all registry board
  | Doctor board => doctor registry board
  | Run firmware => run registry firmware
  | Targets => targets registry
  end.

Inductive ExitCode : Type := ExitSuccess | ExitFailure | ClapExit (code : Z).

(** [main] once [Cli::parse_from] returned. *)
Definition main_parsed (escaped : Z → bool) (legacy_command : option (list Z)) (task : Task) :
    Io ExitCode :=
  _ ← match legacy_command with
      | Some command =>
        eprintln (lit "warning: `cargo xtask " ++ command
          ++ lit "` is deprecated; use the generic subcommand form")
      | None => mret ()
      end;
  result ← attempt (execute task);
  match result with
  | inr _ => mret ExitSuccess
  | inl error => eprintln (lit "error: " ++ error_text escaped error) ≫= λ _, mret ExitFailure
  end.

(** [main], given [Cli::parse_from], which exits by itself on [--help] and on
    arguments it refuses.  [None] is a panic. *)
Definition main (escaped : Z → bool) (parse_from : list (list Z) → Z + Task)
    (args_os : list (list Z)) (log : list Event) : option ExitCode * list Event :=
  let '(args, legacy_command) := normalize_legacy_args args_os in
  match parse_from args with
  | inl code => (Some (ClapExit code), log)
  | inr task =>
    let '(r, log) := main_parsed escaped legacy_command task log in (ok_opt r, log)
  end.
End Commands.

(** * Specification *)

(** The processes of a log, with their outcomes. *)
Definition spawned (log : list Event) : list (Invocation * Outcome) :=
  omap (λ e, match e with Spawned i o => Some (i, o) | _ => None end) log.

Definition succeeded (o : Outcome) : Prop :=
  match o with Exited true _ _ => True | _ => False end.

#[export] Instance succeeded_dec o : Decision (succeeded o).
Proof. destruct o as [|[]]; apply _. Defined.

(** [out] is what comes of running one process per element of [l], described
    by [R], in order, up to and including the first that fails. *)
Definition stops_at_failure {A} (R : A → Invocation → Prop) (l : list A)
    (before : list (Invocation * Outcome)) (out : res Error () * list Event) : Prop :=
  ∃ done rest runs, l = done ++ rest ∧ spawned out.2 = before ++ runs ∧
    Forall2 (λ x run, R x run.1) done runs ∧
    (out.1 = Ok () ∧ rest = [] ∧ Forall succeeded runs.*2 ∨
     ∃ runs' i o, runs = runs' ++ [(i, o)] ∧ Forall succeeded runs'.*2 ∧
       ¬ succeeded o ∧ out.1 = status_result (inv_program i) o).

(** The status the process exits with. *)
Definition exit_status (c : ExitCode) : Z :=
  match c with ExitSuccess => 0 | ExitFailure => 1 | ClapExit code => code end.

(** A line that cannot be written now. *)
Definition refused `{Host} (log : list Event) : Prop :=
  ∃ line, writes log (Printed line) = false ∨ writes log (Warned line) = false.

(** The computation panics only because a line cannot be written. *)
Definition blames_terminal `{Host} {A} (m : Io A) : Prop :=
  ∀ log out, m log = (Panic, out) → refused out.

(** [out] is what comes of running one process per element of [l] in order, all
    of them successful, until a line about the next cannot be written. *)
Definition stops_at_write `{Host} {A} (R : A → Invocation → Prop) (l : list A)
    (before : list (Invocation * Outcome)) (out : res Error () * list Event) : Prop :=
  ∃ done x rest runs, l = done ++ x :: rest ∧ spawned out.2 = before ++ runs ∧
    Forall2 (λ x run, R x run.1) done runs ∧ Forall succeeded runs.*2 ∧
    out.1 = Panic ∧ refused out.2.

(** What cargo sees: the packages excluded by an argument list. *)
Fixpoint exclude_flags (args : list (list Z)) : list (list Z) :=
  match args with
  | [] => []
  | a :: rest =>
    if bool_decide (a = lit "--") then []
    else if bool_decide (a = lit "--exclude") then
      match rest with
      | [] => []
      | package :: rest => package :: exclude_flags rest
      end
    else exclude_flags rest
  end.

Section Specification.
Context `{Host}.

Definition cargo_invocation (args : list (list Z)) : Invocation :=
  {| inv_program := cargo_program; inv_args := args; inv_env := [] |}.

(** The invocation that builds a firmware for its own board. *)
Definition builds (r : Registry) (f : Firmware) (i : Invocation) : Prop :=
  ∃ b, boards r !! fw_board f = Some b ∧
    i = cargo_invocation [lit "build"; lit "-p"; fw_package f; lit "--target";
                          bm_target (board_metadata b); lit "--release"].

Definition fmt_invocation : Invocation :=
  cargo_invocation [lit "fmt"; lit "--all"; lit "--check"].
Definition clippy_invocation (r : Registry) : Invocation :=
  cargo_invocation (add_exclusions [lit "clippy"; lit "--workspace"] (host_exclusions r)
                    ++ [lit "--all-targets"; lit "--"; lit "-D"; lit "warnings"]).
Definition test_invocation (r : Registry) : Invocation :=
  cargo_invocation (add_exclusions [lit "test"; lit "--workspace"] (host_exclusions r)).

Definition rustup_invocation : Invocation :=
  {| inv_program := lit "rustup";
     inv_args := [lit "target"; lit "list"; lit "--installed"]; inv_env := [] |}.
Definition version_invocation (tool : list Z) : Invocation :=
  {| inv_program := tool; inv_args := [lit "--version"]; inv_env := [] |}.

Definition board_target (b : Board) : list Z := bm_target (board_metadata b).
Definition board_tool (b : Board) : list Z := default [] (head (bm_runner (board_metadata b))).

(** * Sequences of processes *)

Lemma lift_Ok {A B} (a : A) (f : A → Io B) log : (lift (Ok a) ≫= f) log = f a log.
Proof. done. Qed.

Lemma spawned_app l k : spawned (l ++ k) = spawned l ++ spawned k.
Proof. apply omap_app. Qed.

Lemma refused_printed log line : writes log (Printed line) = false → refused log.
Proof. intros. exists line. by left. Qed.

Lemma refused_warned log line : writes log (Warned line) = false → refused log.
Proof. intros. exists line. by right. Qed.

Lemma status_result_succeeded program o :
  status_result program o = Ok () ↔ succeeded o.
Proof. by destruct o as [|[]]. Qed.

Lemma output_bind {A} program args (f : list Z → Io A) log :
  (output program args ≫= f) log =
  let i := {| inv_program := program; inv_args := args; inv_env := [] |} in
  let log' := log ++ [Spawned i (spawn log i)] in
  match spawn log i with
  | NotStarted error => (Err (FailedToStart program error), log')
  | Exited false status _ => (Err (ExitedWith program status), log')
  | Exited true _ stdout =>
    if decide (is_str stdout) then f stdout log' else (Err (NonUtf8 stdout), log')
  end.
Proof.
  unfold mbind, io_bind, output, from_utf8_ok. cbn zeta.
  destruct (spawn _ _) as [|[]]; [done| |done]. by case_decide.
Qed.

Lemma stops_at_failure_done {A} (R : A → Invocation → Prop) x l before i o out :
  R x i → succeeded o → stops_at_failure R l (before ++ [(i, o)]) out →
  stops_at_failure R (x :: l) before out.
Proof.
  intros HR Ho (done & rest & runs & -> & Hs & HRs & Hend).
  exists (x :: done), rest, ((i, o) :: runs). split_and!; [done| |by constructor|].
  { by rewrite Hs, <-(assoc_L (++)). }
  destruct Hend as [(Hok & -> & Hall)|(runs' & j & p & -> & Hall & Hp & Hres)].
  - left. split_and!; [done..|]. by constructor.
  - right. exists ((i, o) :: runs'), j, p. split_and!; try done. by constructor.
Qed.

Lemma stops_at_failure_failed {A} (R : A → Invocation → Prop) x l before i o out :
  R x i → ¬ succeeded o → out.1 = status_result (inv_program i) o →
  spawned out.2 = before ++ [(i, o)] → stops_at_failure R (x :: l) before out.
Proof.
  intros HR Ho Hout Hs. exists [x], l, [(i, o)]. split_and!; [done|done|by constructor|].
  right. exists [], i, o. by split_and!; [|constructor|..].
Qed.

Lemma stops_at_write_done {A} (R : A → Invocation → Prop) x l before i o out :
  R x i → succeeded o → stops_at_write R l (before ++ [(i, o)]) out →
  stops_at_write R (x :: l) before out.
Proof.
  intros HR Ho (done & y & rest & runs & -> & Hs & HRs & Hall & Hend).
  exists (x :: done), y, rest, ((i, o) :: runs).
  split_and!; [done| |by constructor|by constructor|apply Hend..].
  by rewrite Hs, <-(assoc_L (++)).
Qed.

(** A body that runs one process, unless a line cannot be written. *)
Definition runs_one {A} (f : A → Io ()) (R : A → Invocation → Prop) (x : A)
    (log : list Event) : Prop :=
  ∃ i o log', f x log = (status_result (inv_program i) o, log') ∧
    spawned log' = spawned log ++ [(i, o)] ∧ R x i.

Lemma for_each_done {A} (f : A → Io ()) R x l log :
  runs_one f R x log →
  (stops_at_failure R (x :: l) (spawned log) (for_each f (x :: l) log)) ∨
  ∃ i o log', f x log = (Ok (), log') ∧ spawned log' = spawned log ++ [(i, o)] ∧
    R x i ∧ succeeded o ∧ for_each f (x :: l) log = for_each f l log'.
Proof.
  intros (i & o & log' & Hx & Hlog & HR). cbn [for_each]. unfold mbind, io_bind. rewrite Hx.
  destruct (decide (succeeded o)) as [Ho|Ho].
  - right. exists i, o, log'. by rewrite (proj2 (status_result_succeeded _ o) Ho).
  - left. eapply stops_at_failure_failed; [done|exact Ho|..];
      by destruct (status_result (inv_program i) o) as [[]| |] eqn:Hr;
        [apply status_result_succeeded in Hr|..].
Qed.

Lemma for_each_runs {A} (f : A → Io ()) (R : A → Invocation → Prop) l log :
  (∀ x log, x ∈ l → runs_one f R x log) →
  stops_at_failure R l (spawned log) (for_each f l log).
Proof.
  revert log. induction l as [|x l IH]; intros log Hf.
  { exists [], [], []. split_and!; [done|cbn; by rewrite app_nil_r|constructor|by left]. }
  destruct (for_each_done f R x l log (Hf x log ltac:(left)))
    as [Hstop|(i & o & log' & Hx & Hlog & HR & Ho & ->)]; [done|].
  eapply stops_at_failure_done; [done..|]. rewrite <-Hlog. apply IH.
  intros y k Hy. apply Hf. by right.
Qed.

Lemma for_each_runs_or_breaks {A} (f : A → Io ()) (R : A → Invocation → Prop) l log :
  (∀ x log, x ∈ l → runs_one f R x log ∨
     ∃ log', f x log = (Panic, log') ∧ spawned log' = spawned log ∧ refused log') →
  stops_at_failure R l (spawned log) (for_each f l log) ∨
  stops_at_write R l (spawned log) (for_each f l log).
Proof.
  revert log. induction l as [|x l IH]; intros log Hf; [left; by apply for_each_runs; set_solver|].
  destruct (Hf x log ltac:(left)) as [Hrun|(log' & Hx & Hs & Href)].
  - destruct (for_each_done f R x l log Hrun)
      as [Hstop|(i & o & log' & Hx & Hlog & HR & Ho & ->)]; [by left|].
    destruct (IH log') as [Hl|Hl]; [intros y k Hy; apply Hf; by right|..]; rewrite Hlog in Hl.
    + left. by eapply stops_at_failure_done.
    + right. by eapply stops_at_write_done.
  - right. cbn [for_each]. unfold mbind, io_bind. rewrite Hx. exists [], x, l, [].
    cbn. rewrite app_nil_r. by split_and!; [..|constructor|constructor| |].
Qed.

(** A result is [Ok] exactly when every step ran and succeeded. *)
Lemma stops_at_failure_Ok {A} (R : A → Invocation → Prop) l before out :
  stops_at_failure R l before out → out.1 = Ok () →
  ∃ runs, spawned out.2 = before ++ runs ∧ Forall2 (λ x run, R x run.1) l runs ∧
    Forall succeeded runs.*2.
Proof.
  intros (done & rest & runs & -> & Hs & HR & Hend) Hok.
  destruct Hend as [(_ & -> & Hall)|(_ & i & o & _ & _ & Hno & Hres)].
  - exists runs. by rewrite app_nil_r.
  - rewrite Hok in Hres. symmetry in Hres. by apply status_result_succeeded in Hres.
Qed.

(** * Building *)

(** The line, then one build. *)
Lemma build_body_runs r f log :
  registry_wf r → f ∈ firmwares r →
  let body f :=
    board ← lift (registry_board r (fw_board f));
    println (lit "Building " ++ fw_selector f ++ lit " (" ++ fw_package f ++ lit ")")
      ≫= λ _, build_firmware f board in
  runs_one body (builds r) f log ∨
  ∃ log', body f log = (Panic, log') ∧ spawned log' = spawned log ∧ refused log'.
Proof.
  intros Hwf Hf body. destruct (registry_board_firmware r f Hwf Hf) as (b & Hb & Hlook & _).
  unfold runs_one, body, mbind, io_bind, lift, println, write_line. rewrite Hb.
  destruct (writes log _) eqn:Hw; [left|right; exists log; by eauto using refused_printed].
  unfold build_firmware, cargo, command, command_with_env.
  eexists (cargo_invocation (build_args f b)), _, _. split; [reflexivity|].
  split; [|by exists b]. by rewrite !spawned_app, app_nil_r.
Qed.

Lemma selected_firmware_Ok r filter_ fs :
  selected_firmware r filter_ = Ok fs → ∀ f, f ∈ fs → f ∈ firmwares r.
Proof.
  unfold selected_firmware. intros (bf & _ & [= <-])%bind_Ok_iff f Hf.
  by apply list_elem_of_filter in Hf as [_ ?].
Qed.

(** * Host checks *)

Lemma exclude_flags_exclusions args exclusions rest :
  Forall (λ a, a ≠ lit "--" ∧ a ≠ lit "--exclude") args →
  exclude_flags (add_exclusions args exclusions ++ rest) =
  btree_elements exclusions ++ exclude_flags rest.
Proof.
  intros Hargs. unfold add_exclusions. rewrite <-(assoc_L (++)).
  induction Hargs as [|a args [Ha Ha'] _ IH]; cbn [app exclude_flags].
  - induction (btree_elements exclusions) as [|p ps IH]; [done|].
    csimpl. by rewrite IH.
  - by rewrite !bool_decide_false by done.
Qed.

Lemma check_for_each r log :
  check r log =
  for_each (λ i, command_with_env (inv_program i) (inv_args i) (inv_env i))
    [fmt_invocation; clippy_invocation r; test_invocation r] log.
Proof.
  unfold check, host_tests, cargo, command. cbn [for_each].
  unfold mbind, io_bind, mret, io_ret, command_with_env.
  cbn [fmt_invocation clippy_invocation test_invocation cargo_invocation
       inv_program inv_args inv_env].
  repeat match goal with
  | |- context [status_result ?p ?o] => destruct (status_result p o) as [[]|e|]
  end; reflexivity.
Qed.

(** * Panics *)

Lemma bind_blames {A B} (m : Io A) (f : A → Io B) :
  blames_terminal m → (∀ a, blames_terminal (f a)) → blames_terminal (m ≫= f).
Proof.
  unfold blames_terminal, mbind, io_bind. intros Hm Hf log out.
  destruct (m log) as [[a|e|] log'] eqn:Hlog; [apply Hf|done|].
  intros [= <-]. by eapply Hm.
Qed.

Lemma ret_blames {A} (a : A) : blames_terminal (mret a : Io A).
Proof. by intros log out [=]. Qed.

Lemma lift_blames {A} (r : res Error A) : r ≠ Panic → blames_terminal (lift r).
Proof. by intros Hr log out [= ->]. Qed.

Lemma println_blames line : blames_terminal (println line).
Proof.
  intros log out. unfold println, write_line. destruct (writes _ _) eqn:Hw; [done|].
  intros [= <-]. by eapply refused_printed.
Qed.

Lemma eprintln_blames line : blames_terminal (eprintln line).
Proof.
  intros log out. unfold eprintln, write_line. destruct (writes _ _) eqn:Hw; [done|].
  intros [= <-]. by eapply refused_warned.
Qed.

Lemma attempt_blames {A} (m : Io A) : blames_terminal m → blames_terminal (attempt m).
Proof.
  unfold blames_terminal, attempt. intros Hm log out.
  destruct (m log) as [[a|e|] log'] eqn:Hlog; [done..|]. intros [= <-]. by eapply Hm.
Qed.

Lemma for_each_blames {A} (f : A → Io ()) l :
  (∀ x, blames_terminal (f x)) → blames_terminal (for_each f l).
Proof.
  intros Hf. induction l as [|x l IH]; [apply ret_blames|].
  by apply bind_blames; [|intros _].
Qed.

Lemma command_blames program args env : blames_terminal (command_with_env program args env).
Proof. intros log out. unfold command_with_env. by destruct (spawn _ _) as [|[]]. Qed.

(** * Runner variables *)

Lemma runner_variable_plain target c :
  c ∈ cargo_runner_variable target → c ≠ 0x2D ∧ ¬ 0x61 ≤ c ≤ 0x7A.
Proof.
  assert (∀ s, forallb (λ c, negb (c =? 0x2D) && negb (between 0x61 c 0x7A)) s = true →
    c ∈ s → c ≠ 0x2D ∧ ¬ 0x61 ≤ c ≤ 0x7A) as Hfixed.
  { intros s Hs Hc. rewrite forallb_forall in Hs. apply list_elem_of_In in Hc.
    specialize (Hs c Hc). unfold between in Hs. lia. }
  unfold cargo_runner_variable. rewrite !elem_of_app.
  intros [Hc|[Hc|Hc]]; [by eapply Hfixed in Hc| |by eapply Hfixed in Hc].
  apply list_elem_of_fmap in Hc as (d & -> & Hd).
  pose proof (replace_char_fresh 0x2D 0x5F target ltac:(done)) as Hfresh.
  unfold to_ascii_uppercase, between. case_match; [blia|].
  split; [by intros ->|blia].
Qed.

(** * Doctor *)

(** What a run of [doctor_boards] over [bs] did and concluded: it asked each
    new tool for its version once; it succeeded when every target is
    installed and every tool answered, and otherwise says what is missing, or
    panicked on a line that cannot be written, all tools so far having
    answered. *)
Definition diagnosis (installed : list Z) (ct ck : gset (list Z)) (bs : list Board)
    (before : list (Invocation * Outcome)) (out : res Error () * list Event) : Prop :=
  ∃ tools outcomes,
    length tools = length outcomes ∧
    spawned out.2 = before ++ zip (version_invocation <$> tools) outcomes ∧
    NoDup tools ∧ (∀ t, t ∈ tools → t ∉ ck) ∧
    match out.1 with
    | Ok _ =>
      (∀ b, b ∈ bs → board_target b ∈ ct ∨ board_target b ∈ lines installed) ∧
      (∀ b, b ∈ bs → board_tool b ∈ ck ∨ board_tool b ∈ tools) ∧
      Forall succeeded outcomes
    | Err (MissingTarget t) =>
      (t ∉ lines installed) ∧ ∃ b, b ∈ bs ∧ board_target b = t
    | Err (RunnerUnavailable t) =>
      (∃ b, b ∈ bs ∧ board_tool b = t) ∧ last tools = Some t ∧
      ∃ o, last outcomes = Some o ∧ ¬ succeeded o
    | Panic => refused out.2 ∧ Forall succeeded outcomes
    | _ => False
    end.

(** One more tool was asked before. *)
Lemma diagnosis_ask installed ct ck b bs before out o :
  board_tool b ∉ ck → succeeded o →
  (board_target b ∈ ct ∨ board_target b ∈ lines installed) →
  diagnosis installed ({[board_target b]} ∪ ct) ({[board_tool b]} ∪ ck) bs
    (before ++ [(version_invocation (board_tool b), o)]) out →
  diagnosis installed ct ck (b :: bs) before out.
Proof.
  intros Hnew Ho Htarget (tools & outs & Hlen & Hs & Hnd & Hck & Hout).
  exists (board_tool b :: tools), (o :: outs). split_and!.
  - cbn. by rewrite Hlen.
  - rewrite Hs, <-(assoc_L (++)). done.
  - constructor; [|done]. intros Hin. apply Hck in Hin. set_solver.
  - intros t [->|Ht]%elem_of_cons; [done|]. apply Hck in Ht. set_solver.
  - destruct out as [[[]|e|] log']; cbn in *; [|destruct e; try done|].
    + destruct Hout as (Ht & Hk & Hall). split_and!; [| |by constructor].
      * intros c [->|Hc]%elem_of_cons; [done|]. destruct (Ht c Hc) as [Hin|]; [|by right].
        apply elem_of_union in Hin as [Heq%elem_of_singleton|]; [|by left].
        by rewrite Heq.
      * intros c [->|Hc]%elem_of_cons; [right; left|]. destruct (Hk c Hc) as [Hin|Hin].
        -- apply elem_of_union in Hin as [Heq%elem_of_singleton|]; [right|by left].
           rewrite Heq. left.
        -- right. by right.
    + destruct Hout as (? & c & ? & ?). split; [done|]. exists c. split; [by right|done].
    + destruct Hout as ((c & ? & ?) & Hl & p & Hp & ?). split_and!.
      * exists c. split; [by right|done].
      * destruct tools; [done|]. done.
      * exists p. by destruct outs.
    + destruct Hout as [? ?]. split; [done|by constructor].
Qed.

(** The tool was asked before. *)
Lemma diagnosis_skip installed ct ck b bs before out :
  board_tool b ∈ ck → (board_target b ∈ ct ∨ board_target b ∈ lines installed) →
  diagnosis installed ({[board_target b]} ∪ ct) ({[board_tool b]} ∪ ck) bs before out →
  diagnosis installed ct ck (b :: bs) before out.
Proof.
  intros Hold Htarget (tools & outs & Hlen & Hs & Hnd & Hck & Hout).
  assert ({[board_tool b]} ∪ ck = ck) as Heq by set_solver. rewrite Heq in *.
  exists tools, outs. split_and!; try done.
  destruct out as [[[]|e|] log']; cbn in *; [|destruct e; try done|done].
  - destruct Hout as (Ht & Hk & Hall). split_and!; [| |done].
    + intros c [->|Hc]%elem_of_cons; [done|]. destruct (Ht c Hc) as [Hin|]; [|by right].
      apply elem_of_union in Hin as [Heq'%elem_of_singleton|]; [by rewrite Heq'|by left].
    + intros c [->|Hc]%elem_of_cons; [by left|by apply Hk].
  - destruct Hout as (? & c & ? & ?). split; [done|]. exists c. split; [by right|done].
  - destruct Hout as ((c & ? & ?) & ? & ?). split_and!; try done.
    exists c. split; [by right|done].
Qed.

(** The board's line, then the rest. *)
Lemma diagnosis_println installed ct ck bs line log :
  (∀ log, diagnosis installed ct ck bs (spawned log) (doctor_boards installed ct ck bs log)) →
  diagnosis installed ct ck bs (spawned log)
    ((println line ≫= λ _, doctor_boards installed ct ck bs) log).
Proof.
  intros IH. unfold mbind, io_bind, println, write_line.
  destruct (writes log _) eqn:Hw.
  - specialize (IH (log ++ [Printed line])). rewrite spawned_app, app_nil_r in IH. exact IH.
  - exists [], []. cbn. rewrite app_nil_r.
    split_and!; [done|done|apply NoDup_nil_2|by intros ? ?%elem_of_nil| |done].
    by eapply refused_printed.
Qed.

Lemma doctor_boards_diagnosis installed ct ck bs log :
  Forall (λ b, bm_runner (board_metadata b) ≠ []) bs →
  diagnosis installed ct ck bs (spawned log) (doctor_boards installed ct ck bs log).
Proof.
  intros Hbs. revert ct ck log. induction Hbs as [|b bs Hb _ IH]; intros ct ck log.
  { exists [], []. cbn [doctor_boards zip]. unfold println, write_line.
    destruct (writes log _) eqn:Hw; cbn; rewrite ?spawned_app, !app_nil_r;
      (split_and!; [done|done|apply NoDup_nil_2|..]); try by intros ? ?%elem_of_nil.
    - by constructor.
    - by eapply refused_printed.
    - by constructor. }
  cbn [doctor_boards]. unfold btree_set_insert. fold (board_target b).
  unfold lift, mbind, io_bind, index.
  destruct (bm_runner (board_metadata b)) as [|tool runner] eqn:Hrun; [done|]. clear Hb.
  assert (board_tool b = tool) as Htool by (unfold board_tool; by rewrite Hrun).
  destruct (bool_decide (board_target b ∉ ct) && _) eqn:Hmissing.
  { apply andb_true_iff in Hmissing as [_ Hm%negb_true_iff].
    apply existsb_false in Hm. rewrite Forall_forall in Hm.
    exists [], []. cbn. rewrite app_nil_r.
    split_and!; [done|done|apply NoDup_nil_2|by intros ? ?%elem_of_nil|..].
    - intros Hin. by apply Hm, bool_decide_eq_false in Hin.
    - exists b. split; [left|done]. }
  assert (board_target b ∈ ct ∨ board_target b ∈ lines installed) as Htarget.
  { apply andb_false_iff in Hmissing as [Hct%bool_decide_eq_false|Hl%negb_false_iff].
    - left. by apply dec_stable.
    - right. by apply existsb_true in Hl as (x & Hx & <-%bool_decide_eq_true). }
  cbn [lookup list_lookup]. rewrite <-Htool.
  destruct (decide (board_tool b ∉ ck)) as [Hck|Hck];
    [rewrite (bool_decide_true _ Hck)|rewrite (bool_decide_false _ Hck)].
  - unfold is_err, command, command_with_env. set (o := spawn _ _).
    destruct (decide (succeeded o)) as [Hs|Hs].
    + rewrite (proj2 (status_result_succeeded _ o) Hs).
      eapply diagnosis_ask; [done|exact Hs|done|].
      pose proof (diagnosis_println installed ({[board_target b]} ∪ ct)
        ({[board_tool b]} ∪ ck) bs (board_line b)
        (log ++ [Spawned (version_invocation (board_tool b)) o]) (IH _ _)) as Hd.
      rewrite spawned_app in Hd. exact Hd.
    + assert (∃ e, status_result (board_tool b) o = Err e) as [e He].
      { destruct o as [|[]]; eauto. by destruct Hs. }
      rewrite He. exists [board_tool b], [o]. cbn. rewrite spawned_app.
      split_and!; try done; [apply NoDup_singleton|by intros ? ->%list_elem_of_singleton| |].
      * exists b. split; [left|done].
      * by exists o.
  - apply dec_stable in Hck. apply diagnosis_skip; [done..|].
    by apply diagnosis_println.
Qed.

Lemma doctor_selection_runners r board_filter bs :
  registry_wf r → doctor_selection r board_filter = Ok bs →
  Forall (λ b, bm_runner (board_metadata b) ≠ []) bs.
Proof.
  intros Hwf Hbs. apply Forall_forall. intros b Hb.
  assert (∃ id, boards r !! id = Some b) as [id Hid].
  { destruct board_filter as [s|]; cbn in Hbs.
    - destruct (registry_board r s) as [c|e|] eqn:Hc; simplify_eq/=.
      apply list_elem_of_singleton in Hb as ->. by eapply registry_board_Ok_elem.
    - simplify_eq. by apply elem_of_btree_values. }
  by destruct (wf_boards r Hwf id b Hid) as (_ & _ & _ & _ & ? & _).
Qed.

Lemma doctor_selection_not_Panic r board_filter : doctor_selection r board_filter ≠ Panic.
Proof.
  destruct board_filter as [s|]; [|done]. pose proof (registry_board_not_Panic r s). cbn.
  by destruct (registry_board r s).
Qed.

Lemma doctor_blames r board_filter : registry_wf r → blames_terminal (doctor r board_filter).
Proof.
  intros Hwf log out. unfold doctor.
  destruct (doctor_selection r board_filter) as [bs|e|] eqn:Hsel;
    [|done|by destruct (doctor_selection_not_Panic r board_filter)].
  rewrite lift_Ok. case_bool_decide; [done|]. rewrite output_bind. cbn zeta.
  destruct (spawn _ _) as [|[] status installed]; [done| |done].
  case_decide; [|done]. intros Hout.
  match type of Hout with doctor_boards _ _ _ _ ?log' = _ =>
    destruct (doctor_boards_diagnosis installed ∅ ∅ bs log')
      as (? & ? & _ & _ & _ & _ & Hend); [by eapply doctor_selection_runners|] end.
  rewrite Hout in Hend. apply Hend.
Qed.

Lemma build_blames r s : blames_terminal (build r s).
Proof.
  apply bind_blames; [apply lift_blames, registry_firmware_not_Panic|]. intros f.
  apply bind_blames; [apply lift_blames, registry_board_not_Panic|]. intros b.
  apply command_blames.
Qed.

Lemma run_blames r s : blames_terminal (run r s).
Proof.
  apply bind_blames; [apply lift_blames, registry_firmware_not_Panic|]. intros f.
  apply bind_blames; [apply lift_blames, registry_board_not_Panic|]. intros b.
  apply command_blames.
Qed.

Lemma selected_firmware_not_Panic r bf : selected_firmware r bf ≠ Panic.
Proof.
  unfold selected_firmware. destruct bf as [s|]; [|done].
  pose proof (registry_board_not_Panic r s). by destruct (registry_board r s).
Qed.

Lemma build_all_blames r bf : blames_terminal (build_all r bf).
Proof.
  apply bind_blames; [apply lift_blames, selected_firmware_not_Panic|]. intros fs.
  case_bool_decide; [by apply lift_blames|]. apply for_each_blames. intros f.
  apply bind_blames; [apply lift_blames, registry_board_not_Panic|]. intros b.
  apply bind_blames; [apply println_blames|]. intros _. apply command_blames.
Qed.

Lemma check_blames r : blames_terminal (check r).
Proof. repeat (apply bind_blames; [apply command_blames|intros _]). apply command_blames. Qed.

Lemma list_registry_blames r : blames_terminal (list_registry r).
Proof.
  unfold list_registry. case_bool_decide; [apply println_blames|].
  repeat (apply bind_blames; [apply println_blames || (apply for_each_blames; intros;
    apply println_blames)|intros _]).
  apply for_each_blames. intros. apply println_blames.
Qed.

Lemma execute_blames task : blames_terminal (execute task).
Proof.
  intros log out. unfold execute, discover_registry. unfold mbind at 1. unfold io_bind at 1.
  destruct (discover (cargo_metadata log)) as [r|e|] eqn:Hr; [|done|].
  - apply discover_wf in Hr. revert out. generalize log.
    destruct task as [s|bf| |bf| |s| |].
    + apply build_blames.
    + apply build_all_blames.
    + apply check_blames.
    + by apply doctor_blames.
    + apply list_registry_blames.
    + apply run_blames.
    + apply command_blames.
    + unfold targets. case_bool_decide; [by apply lift_blames|].
      apply for_each_blames. intros. apply println_blames.
  - unfold discover in Hr. destruct (cargo_metadata log); [done|].
    by apply from_packages_not_Panic in Hr.
Qed.

Lemma main_parsed_blames escaped legacy task :
  blames_terminal (main_parsed escaped legacy task).
Proof.
  apply bind_blames; [destruct legacy; [apply eprintln_blames|apply ret_blames]|intros _].
  apply bind_blames; [apply attempt_blames, execute_blames|]. intros [e|[]]; [|apply ret_blames].
  apply bind_blames; [apply eprintln_blames|intros _; apply ret_blames].
Qed.

Definition legacy_warning (legacy : option (list Z)) : list Event :=
  match legacy with
  | Some command =>
    [Warned (lit "warning: `cargo xtask " ++ command
       ++ lit "` is deprecated; use the generic subcommand form")]
  | None => []
  end.

(** The warning cannot be written, or the command runs behind it. *)
Lemma main_parsed_cases escaped legacy task log :
  (∃ out, main_parsed escaped legacy task log = (Panic, out)) ∨
  match execute task (log ++ legacy_warning legacy) with
  | (Ok _, out) => main_parsed escaped legacy task log = (Ok ExitSuccess, out)
  | (Err e, out) => main_parsed escaped legacy task log =
      (Ok ExitFailure, out ++ [Warned (lit "error: " ++ error_text escaped e)])
  | (Panic, _) => False
  end.
Proof.
  unfold main_parsed, mbind, io_bind, attempt, eprintln, write_line, mret, io_ret.
  destruct legacy; cbn [legacy_warning]; [destruct (writes log _); [|by eauto]
    |rewrite app_nil_r]; (destruct (execute _ _) as [[?|?|] ?]; [by right| |by eauto]);
    destruct (writes _ _); eauto.
Qed.
End Specification.

(** * Concrete hosts *)

(** Every process succeeds but those [fails] selects; [rustup] lists the
    target of the XIAO board. *)
Definition fixture_host (fails : Invocation → bool) : Host := {|
  spawn := λ _ i,
    if fails i then Exited false (lit "exit status: 101") []
    else Exited true (lit "exit status: 0")
           (if bool_decide (inv_program i = lit "rustup")
            then lit "riscv32imac-unknown-none-elf" ++ [0x0A] else []);
  writes := λ _ _, true;
  cargo_variable := None;
  cargo_metadata := λ _, inr workspace;
|}.

Definition healthy : Host := fixture_host (λ _, false).

(** The build of the beacon firmware fails. *)
Definition broken_beacon : Host :=
  fixture_host (λ i, bool_decide (lit "xiao-esp32c6-beacon" ∈ inv_args i)).

(** Standard output is a pipe whose reader closes it after one line. *)
Definition closed_pipe : Host := {|
  spawn := spawn (Host := healthy);
  writes := λ log e, match e with Printed _ => bool_decide (log = []) | _ => true end;
  cargo_variable := None;
  cargo_metadata := λ _, inr workspace;
|}.

Example list_into_closed_pipe :
  execute (H0 := closed_pipe) List_ [] = (Panic, [Printed (lit "Boards:")]).
Proof. vm_compute. reflexivity. Qed.

(** Evaluates [execute] on a fixture. *)
Example list_output :
  execute (H0 := healthy) List_ [] = (Ok (), Printed <$> [
    lit "Boards:";
    lit "  xiao-esp32c6             riscv32imac-unknown-none-elf     embedded-sdk-board-xiao-esp32c6";
    [];
    lit "Firmware:";
    lit "  xiao-esp32c6                     default              xiao-esp32c6-firmware";
    lit "  xiao-esp32c6/beacon              beacon               xiao-esp32c6-beacon";
    lit "  xiao-esp32c6/beacon-scanner      beacon-scanner       xiao-esp32c6-beacon-scanner"]).
Proof. vm_compute. reflexivity. Qed.

Example build_all_stops :
  (execute (H0 := broken_beacon) (BuildAll None) []).1 =
    Err (ExitedWith (lit "cargo") (lit "exit status: 101")) ∧
  length (spawned (execute (H0 := broken_beacon) (BuildAll None) []).2) = 2%nat.
Proof. vm_compute. done. Qed.

(** * Properties *)

Section Properties.
Context `{Host}.

(** C11: over a well-formed registry, [build] runs exactly [cargo build] of the
    selected firmware for its own board's target, and [build-all] does so for
    every selected firmware in selector order, up to and including the first
    failure, whose error it returns (it also stops, by a panic and after
    successful builds only, when the line that announces a build cannot be
    written); without a filter every firmware is
    selected, with a board's id exactly that board's; an unknown selector or
    board, or an empty selection, is an error and starts no process. *)
Theorem builds_exact r :
  registry_wf r →
  (∀ s log,
     match registry_firmware r s with
     | Ok f => stops_at_failure (builds r) [f] (spawned log) (build r s log)
     | Err e => build r s log = (Err e, log)
     | Panic => False
     end) ∧
  (∀ board_filter log,
     match selected_firmware r board_filter with
     | Ok [] => build_all r board_filter log = (Err NoFirmwareMatched, log)
     | Ok fs =>
       stops_at_failure (builds r) fs (spawned log) (build_all r board_filter log) ∨
       stops_at_write (builds r) fs (spawned log) (build_all r board_filter log)
     | Err e => build_all r board_filter log = (Err e, log)
     | Panic => False
     end) ∧
  selected_firmware r None = Ok (firmwares r) ∧
  (∀ id b, boards r !! id = Some b →
     selected_firmware r (Some id) = Ok (filter (λ f, fw_board f = id) (firmwares r))).
Proof.
  intros Hwf. split_and!.
  - intros s log. destruct (registry_firmware r s) as [f|e|] eqn:Hf.
    + pose proof (proj1 (registry_firmware_Ok r s f Hwf) Hf) as (Hin & _ & _).
      destruct (registry_board_firmware r f Hwf Hin) as (b & Hb & Hlook & _).
      replace (build r s log) with (for_each (λ f, build_firmware f b) [f] log).
      2: { unfold build, lift. cbn [for_each]. unfold mbind, io_bind, mret, io_ret.
           rewrite Hf, Hb. by destruct (build_firmware f b log) as [[[]|?|] ?]. }
      apply for_each_runs. intros g k ->%list_elem_of_singleton.
      eexists (cargo_invocation (build_args f b)), _, _. split; [reflexivity|].
      split; [by rewrite spawned_app|by exists b].
    + unfold build, lift, mbind, io_bind. by rewrite Hf.
    + by apply registry_firmware_not_Panic in Hf.
  - intros bf log. unfold build_all.
    destruct (selected_firmware r bf) as [[|f fs]|e|] eqn:Hsel; [done| |done|].
    + rewrite lift_Ok, bool_decide_false by done. apply for_each_runs_or_breaks.
      intros g k Hg. apply build_body_runs; [done|].
      by eapply selected_firmware_Ok.
    + unfold selected_firmware in Hsel. destruct bf as [s|]; [|done].
      pose proof (registry_board_not_Panic r s). by destruct (registry_board r s).
  - unfold selected_firmware. cbn. f_equal. induction (firmwares r) as [|f fs IH]; [done|].
    by rewrite filter_cons_True, IH.
  - intros id b Hb. unfold selected_firmware. rewrite (registry_board_id _ _ _ Hb). cbn.
    f_equal. destruct (wf_boards r Hwf id b Hb) as [-> _].
    apply list_filter_iff. intros f. by rewrite bool_decide_spec.
Qed.

(** C33: over a well-formed registry, [run] starts [cargo run] of the selected
    firmware for its board's target with one variable set, the runner of that
    target; splitting its value at spaces gives the board's runner back, and
    the variable's name holds no hyphen and no lower-case letter. *)
Theorem run_passes_runner r s f :
  registry_wf r → registry_firmware r s = Ok f →
  (∀ id b, boards r !! id = Some b → Forall is_str (bm_runner (board_metadata b))) →
  ∃ b variable value,
    boards r !! fw_board f = Some b ∧
    (∀ log, run r s log =
       command_with_env cargo_program
         [lit "run"; lit "-p"; fw_package f; lit "--target"; board_target b;
          lit "--release"]
         [(variable, value)] log) ∧
    variable = cargo_runner_variable (board_target b) ∧
    (∀ c, c ∈ variable → c ≠ 0x2D ∧ ¬ 0x61 ≤ c ≤ 0x7A) ∧
    split_on 0x20 value = bm_runner (board_metadata b).
Proof.
  intros Hwf Hf Hstr.
  pose proof (proj1 (registry_firmware_Ok r s f Hwf) Hf) as (Hin & _ & _).
  destruct (registry_board_firmware r f Hwf Hin) as (b & Hb & Hlook & Hvalid).
  exists b, (cargo_runner_variable (board_target b)),
    (join_with 0x20 (bm_runner (board_metadata b))). split_and!; [done| |done| |].
  - intros log. unfold run, lift, mbind, io_bind. by rewrite Hf, Hb.
  - apply runner_variable_plain.
  - destruct Hvalid as (_ & _ & _ & Hne & Hall). apply split_on_join; [done|].
    specialize (Hstr _ _ Hlook). rewrite Forall_forall in Hall, Hstr |- *.
    intros c Hc Hsp. destruct (Hall c Hc) as [_ Hno].
    apply (chars_ascii c 0x20) in Hsp; [|by apply Hstr|done].
    by specialize (Hno _ Hsp).
Qed.

(** C20: [check] formats, lints and tests, in this order and up to the first
    failure; the packages cargo is told to exclude from the lint and the
    tests are exactly the registry's host exclusions, each once, so that no
    firmware of a well-formed registry is ever compiled for the host. *)
Theorem host_checks_exact r log :
  stops_at_failure eq [fmt_invocation; clippy_invocation r; test_invocation r]
    (spawned log) (check r log) ∧
  stops_at_failure eq [test_invocation r] (spawned log) (host_tests r log) ∧
  (∀ i, i = clippy_invocation r ∨ i = test_invocation r →
     NoDup (exclude_flags (inv_args i)) ∧
     (∀ p, p ∈ exclude_flags (inv_args i) ↔ p ∈ host_exclusions r) ∧
     (registry_wf r → ∀ f, f ∈ firmwares r →
        fw_package f ∈ exclude_flags (inv_args i))).
Proof.
  split_and!.
  - rewrite check_for_each. apply for_each_runs. intros i k _.
    eexists i, _, _. split; [reflexivity|]. rewrite spawned_app. by destruct i.
  - replace (host_tests r log) with
      (for_each (λ i, command_with_env (inv_program i) (inv_args i) (inv_env i))
         [test_invocation r] log)
      by (unfold host_tests, cargo, command; cbn [for_each];
          unfold mbind, io_bind, mret, io_ret, command_with_env;
          cbn [test_invocation cargo_invocation inv_program inv_args inv_env];
          by destruct (status_result _ _) as [[]|?|]).
    apply for_each_runs. intros i k _.
    eexists i, _, _. split; [reflexivity|]. rewrite spawned_app. by destruct i.
  - intros i Hi.
    assert (exclude_flags (inv_args i) = btree_elements (host_exclusions r)) as ->.
    { destruct Hi as [->| ->]; cbn [clippy_invocation test_invocation cargo_invocation inv_args].
      - rewrite exclude_flags_exclusions; [by rewrite app_nil_r|].
        refine (bool_decide_unpack _ _). vm_compute. exact I.
      - rewrite <-(app_nil_r (add_exclusions _ _)).
        rewrite exclude_flags_exclusions; [by rewrite app_nil_r|].
        refine (bool_decide_unpack _ _). vm_compute. exact I. }
    split_and!; [apply btree_elements_NoDup|apply elem_of_btree_elements|].
    intros Hwf f Hf. by apply elem_of_btree_elements, wf_excluded.
Qed.

(** C23: [doctor] over a well-formed registry asks [rustup] for the installed
    targets and then each distinct tool, once, for its version.  It succeeds
    only if every selected board's target is a line of that output and every
    tool answered; otherwise it names a target that is not installed or the
    tool that just failed, or passes on why [rustup] gave no list.  It never
    fails for another reason (and panics only when its own output cannot be
    written), and an unknown board starts no process. *)
Theorem doctor_exact r board_filter log :
  registry_wf r →
  match doctor_selection r board_filter with
  | Ok [] => doctor r board_filter log = (Err NoBoards, log)
  | Ok bs =>
    let o := spawn log rustup_invocation in
    let before := spawned log ++ [(rustup_invocation, o)] in
    let out := doctor r board_filter log in
    match o with
    | Exited true _ stdout =>
      if decide (is_str stdout) then diagnosis stdout ∅ ∅ bs before out
      else out.1 = Err (NonUtf8 stdout) ∧ spawned out.2 = before
    | _ =>
      out.1 = (_ ← status_result (lit "rustup") o; Ok ()) ∧ out.1 ≠ Ok () ∧
      spawned out.2 = before
    end
  | Err e => doctor r board_filter log = (Err e, log)
  | Panic => False
  end.
Proof.
  intros Hwf. unfold doctor.
  destruct (doctor_selection r board_filter) as [bs|e|] eqn:Hsel; [|done|].
  2: { destruct board_filter as [s|]; [|done]. pose proof (registry_board_not_Panic r s).
       cbn in Hsel. by destruct (registry_board r s). }
  rewrite lift_Ok. destruct bs as [|b bs]; [done|]. rewrite bool_decide_false by done.
  assert (spawned (log ++ [Spawned rustup_invocation (spawn log rustup_invocation)])
    = spawned log ++ [(rustup_invocation, spawn log rustup_invocation)]) as Hbefore by apply spawned_app.
  rewrite output_bind. cbv zeta. fold rustup_invocation.
  destruct (spawn log rustup_invocation) as [error|[] status stdout] eqn:Ho;
    [by split_and!; [..|exact Hbefore]| |by split_and!; [..|exact Hbefore]].
  case_decide; [|by split]. rewrite <-Hbefore. apply doctor_boards_diagnosis.
  by eapply doctor_selection_runners.
Qed.

(** C29: how the tool ends, whatever the command line, the workspace and the
    processes do.  It panics only when one of its own lines cannot be written;
    what clap decides to exit with is passed on, without a line or a process;
    otherwise the command runs once, after the warning about a deprecated form,
    and the exit status is 0 when it succeeds and 1 when it fails, its error
    being the last line.  So the status is 0 exactly when clap exits with 0
    ([--help]) or the selected command succeeds. *)
Theorem tool_exit_exact escaped parse_from args log :
  let parsed := parse_from (normalize_legacy_args args).1 in
  let warned := log ++ match (normalize_legacy_args args).2 with
                       | Some command =>
                         [Warned (lit "warning: `cargo xtask " ++ command
                            ++ lit "` is deprecated; use the generic subcommand form")]
                       | None => []
                       end in
  let '(result, out) := main escaped parse_from args log in
  match result with
  | None => refused out
  | Some (ClapExit code) => parsed = inl code ∧ out = log
  | Some ExitSuccess =>
    ∃ task, parsed = inr task ∧ execute task warned = (Ok (), out)
  | Some ExitFailure =>
    ∃ task error log', parsed = inr task ∧ execute task warned = (Err error, log') ∧
      out = log' ++ [Warned (lit "error: " ++ error_text escaped error)]
  end ∧
  (∀ code, result = Some code →
     exit_status code = 0 ↔
       parsed = inl 0 ∨ ∃ task, parsed = inr task ∧ (execute task warned).1 = Ok ()).
Proof.
  unfold main. destruct (normalize_legacy_args args) as [args' legacy]. cbn [fst snd].
  destruct (parse_from args') as [code|task].
  { split; [done|]. intros ? [= <-]. cbn. naive_solver. }
  pose proof (main_parsed_blames escaped legacy task log) as Hblame.
  fold (legacy_warning legacy).
  destruct (main_parsed_cases escaped legacy task log) as [[log' Hm]|Hm].
  { rewrite Hm in *. cbn. split; [by eapply Hblame|done]. }
  destruct (execute task _) as [[[]|e|] log'] eqn:Hex; [..|done]; rewrite Hm; cbn.
  - split; [by exists task|]. intros ? [= <-].
    split; [intros _; right; exists task; by rewrite Hex|done].
  - split; [by exists task, e, log'|]. intros ? [= <-]. split; [done|].
    intros [?|(? & [= <-] & Hok)]; [done|]. by rewrite Hex in Hok.
Qed.
End Properties.

(** * Witnesses on this workspace *)

#[local] Opaque workspace_registry.

Lemma workspace_wf : registry_wf workspace_registry.
Proof. apply (discover_wf (inr workspace)), workspace_discovered. Qed.

Lemma builds_exact_witness :
  ∃ f, registry_firmware workspace_registry (lit "xiao-esp32c6/beacon") = Ok f ∧
    stops_at_failure (builds (H0 := broken_beacon) workspace_registry) [f] []
      (build (H0 := broken_beacon) workspace_registry (lit "xiao-esp32c6/beacon") []).
Proof.
  pose proof (proj1 (builds_exact (H0 := broken_beacon) workspace_registry workspace_wf)
    (lit "xiao-esp32c6/beacon") []) as Hb.
  assert (∃ f, registry_firmware workspace_registry (lit "xiao-esp32c6/beacon") = Ok f)
    as [f Hf] by (eexists; vm_compute; reflexivity).
  rewrite Hf in Hb. exists f. split; [exact Hf|exact Hb].
Defined.

Lemma run_passes_runner_witness :
  ∃ f b variable value,
    registry_firmware workspace_registry (lit "xiao-esp32c6") = Ok f ∧
    variable = cargo_runner_variable (board_target b) ∧
    split_on 0x20 value = bm_runner (board_metadata b).
Proof.
  assert (∃ f, registry_firmware workspace_registry (lit "xiao-esp32c6") = Ok f)
    as [f Hf] by (eexists; vm_compute; reflexivity).
  destruct (run_passes_runner (H0 := healthy) workspace_registry (lit "xiao-esp32c6") f)
    as (b & variable & value & _ & _ & Hv & _ & Hs); [apply workspace_wf|exact Hf| |].
  - change (map_Forall (λ _ b, Forall is_str (bm_runner (board_metadata b)))
      (boards workspace_registry)).
    refine (bool_decide_unpack _ _). vm_compute. exact I.
  - exists f, b, variable, value. split; [exact Hf|]. split; [exact Hv|exact Hs].
Defined.

Lemma host_checks_exact_witness :
  lit "xiao-esp32c6-beacon" ∈
    exclude_flags (inv_args (test_invocation (H0 := healthy) workspace_registry)).
Proof.
  destruct (host_checks_exact (H0 := healthy) workspace_registry []) as (_ & _ & Hall).
  destruct (Hall (test_invocation (H0 := healthy) workspace_registry) (or_intror eq_refl))
    as (_ & Hiff & _).
  apply Hiff. refine (bool_decide_unpack _ _). vm_compute. exact I.
Defined.

Lemma doctor_exact_witness :
  (doctor (H0 := healthy) workspace_registry None []).1 = Ok () ∧
  ∃ bs stdout, diagnosis (H0 := healthy) stdout ∅ ∅ bs
    [(rustup_invocation, Exited true (lit "exit status: 0") stdout)]
    (doctor (H0 := healthy) workspace_registry None []).
Proof.
  split; [vm_compute; reflexivity|].
  pose proof (doctor_exact (H0 := healthy) workspace_registry None [] workspace_wf) as Hd.
  assert (∃ b bs, doctor_selection workspace_registry None = Ok (b :: bs))
    as (b & bs & Hb) by (eexists _, _; vm_compute; reflexivity).
  rewrite Hb in Hd. exists (b :: bs), (lit "riscv32imac-unknown-none-elf" ++ [0x0A]).
  exact Hd.
Defined.
