(* ===== verification/Peripheral.v ===== *)
(** [firmware/seeed/xiao-esp32c6/src/main.rs], the Bluetooth peripheral:
    advertising the device name, GATT sessions with the status notifications,
    and the loop of [bluetooth_task].

    A session races two futures, [bluetooth_gatt_events] and
    [bluetooth_status_notifications]; their interleaving is the sequence of
    [SessionStep]s at which one of them is resumed.  The radio, the host stack
    and the GATT server's tables are [trouble-host]'s: what they answer is in
    the steps and turns. *)
From stdpp Require Import prelude list numbers option strings.
From Stdlib Require Import ZArith.
From S2P Require Import Prelude Text Bluetooth Advertisement Beacon Firmware.
Local Open Scope Z_scope.

(** * A GATT session *)

(** [GattEvent], of which the firmware distinguishes reads and their handle. *)
Inductive GattEvent : Type := GattRead (handle : Z) | GattOther.

(** [GattConnectionEvent]; of a GATT event also whether [accept] gave a
    reply. *)
Inductive GattConnectionEvent : Type :=
  | Disconnected
  | Gatt (event : GattEvent) (accepted : bool)
  | ConnectionOther.

(** What resumes the session: [connection.next()] resolves, or a pending
    [status.notify] does; between two notifications the loop's timer runs out. *)
Inductive SessionStep : Type :=
  | Next (event : GattConnectionEvent)
  | Notified (ok : bool).

Inductive SessionOutput : Type :=
  | StatusRead
  | ReplySent
  | ReplyFailed
  | StatusNotified (value : Z)
  | NotifyPause (millis : Z).   (** the notification loop's timer starts *)

(** The [Timer]s of the notification loop and of the task's loop. *)
Definition NOTIFY_PAUSE_MS : Z := 5000.
Definition ADVERTISE_RETRY_MS : Z := 1000.

(** One turn of [bluetooth_gatt_events]' loop; [None] when it returns. *)
Definition gatt_event (status_handle : Z) (event : GattConnectionEvent) :
    option (list SessionOutput) :=
  match event with
  | Disconnected => None
  | Gatt event accepted =>
    Some (match event with
          | GattRead handle => if handle =? status_handle then [StatusRead] else []
          | GattOther => []
          end ++ [if accepted then ReplySent else ReplyFailed])
  | ConnectionOther => Some []
  end.

(** [select(bluetooth_gatt_events, bluetooth_status_notifications)]: whether
    the session ended, and what it did.  [value] is the notification loop's;
    each notification carries the incremented value. *)
Fixpoint gatt_session (status_handle : Z) (steps : list SessionStep) (value : Z) :
    bool * list SessionOutput :=
  match steps with
  | [] => (false, [])
  | Next event :: steps =>
    match gatt_event status_handle event with
    | None => (true, [])
    | Some out =>
      let '(ended, outs) := gatt_session status_handle steps value in
      (ended, out ++ outs)
    end
  | Notified ok :: steps =>
    let value := wrapping_add_u 8 value 1 in
    if ok then
      let '(ended, outs) := gatt_session status_handle steps value in
      (ended, StatusNotified value :: NotifyPause NOTIFY_PAUSE_MS :: outs)
    else (true, [])
  end.

(** * Advertising *)

Inductive PeripheralOutput : Type :=
  | ServerConfigurationFailed
  | BluetoothReady (name : list Z)
  | AdvertisingData (adv_data : list Z)   (** [peripheral.advertise] is called *)
  | OutAdvertising
  | OutConnected
  | InSession (output : SessionOutput)
  | OutDisconnected
  | OutAdvertisingFailed
  | OutPause (millis : Z).

(** What the host does in one turn of the loop: whether [advertise] succeeds,
    whether [accept] and [with_attribute_server] do, and the session. *)
Record PeripheralTurn : Type := {
  turn_advertise : bool;
  turn_accept : bool;
  turn_session : list SessionStep
}.

Section Peripheral.
Context `{AdEncoder}.

(** [advertise_bluetooth]: whether it returns a connection. *)
Definition advertise_bluetooth (name : list Z) (turn : PeripheralTurn) :
    bool * list PeripheralOutput :=
  match ad_encode [AdFlags AD_FLAGS; CompleteLocalName name] 31 with
  | None => (false, [])
  | Some advertising_data =>
    if turn_advertise turn then
      (turn_accept turn, [AdvertisingData advertising_data; OutAdvertising])
    else (false, [AdvertisingData advertising_data])
  end.

(** The loop of [bluetooth_task]; it ends only inside a session that is still
    up. *)
Fixpoint peripheral_loop (name : list Z) (status_handle : Z) (turns : list PeripheralTurn) :
    list PeripheralOutput :=
  match turns with
  | [] => []
  | turn :: turns =>
    let '(connected, outs) := advertise_bluetooth name turn in
    outs ++
    if connected then
      let '(ended, session) := gatt_session status_handle (turn_session turn) 0 in
      [OutConnected] ++ (InSession <$> session) ++
      (if ended then [OutDisconnected] ++ peripheral_loop name status_handle turns else [])
    else [OutAdvertisingFailed; OutPause ADVERTISE_RETRY_MS]
           ++ peripheral_loop name status_handle turns
  end.

(** [server]: the status characteristic's handle, unless the GATT server's
    configuration is refused. *)
Definition bluetooth_task (config : Bluetooth.PeripheralConfig) (server : option Z)
    (turns : list PeripheralTurn) : res unit (list PeripheralOutput) :=
  name ← device_name_as_str (peripheral_name config);
  match server with
  | None => Ok [ServerConfigurationFailed]
  | Some status_handle =>
    Ok ([BluetoothReady name] ++ peripheral_loop name status_handle turns)
  end.
End Peripheral.

(** * Specification *)

(** The step ends the session: the client is gone or cannot be notified. *)
Definition ends_session (s : SessionStep) : bool :=
  match s with Next Disconnected | Notified false => true | _ => false end.

(** The steps before the first that ends the session. *)
Fixpoint before_end (steps : list SessionStep) : list SessionStep :=
  match steps with
  | [] => []
  | s :: steps => if ends_session s then [] else s :: before_end steps
  end.

Definition is_request (s : SessionStep) : bool :=
  match s with Next (Gatt _ _) => true | _ => false end.
Definition is_notified (s : SessionStep) : bool :=
  match s with Notified _ => true | _ => false end.

Definition is_reply (o : SessionOutput) : bool :=
  match o with ReplySent | ReplyFailed => true | _ => false end.

(** The values notified, in order. *)
Definition notified (outs : list SessionOutput) : list Z :=
  omap (λ o, match o with StatusNotified v => Some v | _ => None end) outs.

(** The data of each advertising call. *)
Definition advertised (outs : list PeripheralOutput) : list (list Z) :=
  omap (λ o, match o with AdvertisingData d => Some d | _ => None end) outs.

(** The pauses before the next attempt. *)
Definition retry_pauses (outs : list PeripheralOutput) : list Z :=
  omap (λ o, match o with OutPause ms => Some ms | _ => None end) outs.

(** No connection came of the turn. *)
Definition turn_fails (turn : PeripheralTurn) : bool :=
  negb (turn_advertise turn && turn_accept turn).

(** The turn comes to an end: no connection, or one whose session ends. *)
Definition turn_ends (turn : PeripheralTurn) : bool :=
  turn_fails turn || existsb ends_session (turn_session turn).

(** * Lemmas *)

Lemma count_app {A} (p : A → bool) l k :
  length (List.filter p (l ++ k)) =
  (length (List.filter p l) + length (List.filter p k))%nat.
Proof. by rewrite List.filter_app, length_app. Qed.

Lemma notified_app l k : notified (l ++ k) = notified l ++ notified k.
Proof. apply omap_app. Qed.

Lemma status_values_lookup n value i :
  is_u 8 value → (i < n)%nat →
  status_values n value !! i = Some ((value + Z.of_nat i + 1) mod 256).
Proof.
  revert value i. induction n as [|n IH]; intros value i Hv Hi; [lia|].
  cbn [status_values]. unfold wrapping_add_u, wrap_u. change (2 ^ 8) with 256.
  destruct i as [|i]; [by rewrite Z.add_0_r|]. cbn [lookup list_lookup].
  fold (lookup (M := list Z) (A := Z)). rewrite IH; [|unfold is_u; change (2 ^ 8) with 256;
    apply Z.mod_pos_bound; lia|lia].
  f_equal. rewrite <-Z.add_assoc, Z.add_mod_idemp_l by lia. f_equal. lia.
Qed.

Lemma gatt_session_spec handle steps value :
  let '(ended, outs) := gatt_session handle steps value in
  ended = existsb ends_session steps ∧
  notified outs = status_values (length (List.filter is_notified (before_end steps))) value ∧
  length (List.filter is_reply outs) = length (List.filter is_request (before_end steps)).
Proof.
  revert value. induction steps as [|s steps IH]; intros value; [done|].
  destruct s as [[|event accepted|]|[]]; cbn [gatt_session gatt_event ends_session existsb before_end].
  - done.
  - specialize (IH value). destruct (gatt_session handle steps value) as [ended outs].
    destruct IH as (-> & Hn & Hr). split; [done|]. rewrite !notified_app, count_app.
    cbn [List.filter is_notified is_request length]. rewrite Hn, Hr.
    destruct event as [h|]; [case_match|]; by destruct accepted.
  - specialize (IH value). by destruct (gatt_session handle steps value).
  - specialize (IH (wrapping_add_u 8 value 1)).
    destruct (gatt_session handle steps _) as [ended outs].
    destruct IH as (-> & Hn & Hr). split; [done|].
    cbn [List.filter is_notified is_request length status_values is_reply].
    split; [|done]. rewrite <-Hn. done.
  - done.
Qed.

(** What follows the step that ends a session has no effect. *)
Lemma gatt_session_end handle pre s post value :
  ends_session s = true → Forall (λ x, ends_session x = false) pre →
  gatt_session handle (pre ++ s :: post) value = gatt_session handle (pre ++ [s]) value.
Proof.
  intros Hs. revert value. induction pre as [|x pre IH]; intros value Hpre.
  - by destruct s as [[]|[]].
  - apply Forall_cons in Hpre as [Hx Hpre]. cbn [app gatt_session].
    destruct x as [event|[]]; [destruct (gatt_event _ _); [by rewrite IH|done]
      |by rewrite IH|done].
Qed.

Section PeripheralLemmas.
Context `{AdEncoderLaws}.

(** The advertisement is built for every name that fits and shows it. *)
Lemma name_packet v :
  v ≠ [] → (length v ≤ MAX_DEVICE_NAME_LEN)%nat → is_str v →
  ∃ data m n, ad_encode [AdFlags AD_FLAGS; CompleteLocalName v] 31 = Some data ∧
    ad_metadata_parse data = Ok m ∧ ad_name m = Some n ∧ local_name_as_str n = Ok v.
Proof.
  unfold MAX_DEVICE_NAME_LEN. intros Hne Hl Hs. set (ss := [_; _]).
  assert (Forall ad_writable ss) as Hw.
  { unfold ss. rewrite !Forall_cons, Forall_nil. split_and!; [apply ad_flags_byte| |done].
    cbn [ad_writable]. lia. }
  destruct (ad_encode_fits ss 31 Hw) as [data Hd].
  { simpl. rewrite length_app. simpl. lia. }
  pose proof (ad_decode_encode ss 31 data Hw Hd) as Hdec.
  destruct (ad_metadata_loop_spec (omap id (Some <$> ss)) ad_metadata_new)
    as (m & Hm & Hn & _). cbn in Hn. unfold name_of, LOCAL_NAME_CAPACITY in Hn.
  rewrite decide_True in Hn by (split_and!; [done|lia|done]). destruct Hn as (n & Hn & Hh).
  exists data, m, n. unfold ad_metadata_parse. rewrite Hdec. split_and!; [done..|].
  unfold local_name_as_str. rewrite (inline_view_holds _ _ _ _ _ Hh). cbn [mbind res_bind].
  by rewrite from_utf8_or_empty_str.
Qed.

(** A session makes none of the outputs that [f] selects. *)
Lemma omap_in_session {A} (f : PeripheralOutput → option A) outs rest :
  (∀ o, f (InSession o) = None) → omap f ((InSession <$> outs) ++ rest) = omap f rest.
Proof. intros Hf. induction outs as [|o outs IH]; [done|]. csimpl. by rewrite Hf. Qed.

Lemma peripheral_loop_advertises name handle data turns :
  ad_encode [AdFlags AD_FLAGS; CompleteLocalName name] 31 = Some data →
  Forall (λ turn, turn_ends turn = true) turns →
  advertised (peripheral_loop name handle turns) = replicate (length turns) data ∧
  retry_pauses (peripheral_loop name handle turns)
  = replicate (length (List.filter turn_fails turns)) ADVERTISE_RETRY_MS.
Proof.
  intros Hd. induction 1 as [|turn turns Hturn _ [IHa IHp]]; [done|].
  cbn [peripheral_loop length replicate List.filter]. unfold advertise_bluetooth. rewrite Hd.
  unfold turn_ends, turn_fails in *. unfold advertised, retry_pauses in *.
  destruct (turn_advertise turn), (turn_accept turn); cbn [andb negb orb] in *;
    [|cbn; rewrite IHa, IHp; done..].
  pose proof (gatt_session_spec handle (turn_session turn) 0) as Hsession.
  destruct (gatt_session handle (turn_session turn) 0) as [ended outs].
  destruct Hsession as (-> & _). rewrite Hturn. cbn [app].
  split; cbn [omap list_omap]; fold (omap (M := list) (A := PeripheralOutput) (B := list Z));
    fold (omap (M := list) (A := PeripheralOutput) (B := Z));
    rewrite omap_in_session by done; cbn; [by rewrite IHa|by rewrite IHp].
Qed.
End PeripheralLemmas.

(** * Properties *)

(** C25: a GATT session ends exactly when the client disconnects or a
    notification fails, at the first such step and whatever would follow.  Up
    to then every GATT request is answered once (or its reply reported as
    failed), and the notifications carry 1, 2, 3, ... modulo 256, one per
    notification that went out. *)
Theorem gatt_session_terminates handle steps :
  let '(ended, outs) := gatt_session handle steps 0 in
  (ended = true ↔ ∃ s, s ∈ steps ∧ ends_session s = true) ∧
  (∀ pre s post, steps = pre ++ s :: post → ends_session s = true →
     Forall (λ x, ends_session x = false) pre →
     before_end steps = pre ∧ (ended, outs) = gatt_session handle (pre ++ [s]) 0) ∧
  length (List.filter is_reply outs) = length (List.filter is_request (before_end steps)) ∧
  length (notified outs) = length (List.filter is_notified (before_end steps)) ∧
  ∀ i, (i < length (notified outs))%nat →
    notified outs !! i = Some ((Z.of_nat i + 1) mod 256).
Proof.
  pose proof (gatt_session_spec handle steps 0) as Hspec.
  destruct (gatt_session handle steps 0) as [ended outs] eqn:Hrun.
  destruct Hspec as (-> & Hn & Hr). split_and!; [| |done| |].
  - rewrite existsb_exists. by setoid_rewrite list_elem_of_In.
  - intros pre s post -> Hs Hpre. split.
    + clear Hrun Hn Hr. induction Hpre as [|x pre Hx _ IH]; cbn [app before_end].
      * by rewrite Hs.
      * by rewrite Hx, IH.
    + by rewrite <-(gatt_session_end handle pre s post) by done.
  - rewrite Hn. generalize (length (List.filter is_notified (before_end steps))) 0.
    induction n as [|n IH]; intros v; [done|]. cbn. by rewrite IH.
  - intros i Hi. rewrite Hn in *. rewrite status_values_lookup; [done|done|].
    assert (∀ n v, length (status_values n v) = n) as Hlen
      by (induction n as [|n IH]; intros v; [done|]; cbn; by rewrite IH).
    by rewrite Hlen in Hi.
Qed.

Lemma gatt_session_terminates_witness :
  let steps := [Notified true; Next (Gatt (GattRead 7) true); Notified true;
                Next Disconnected; Notified true] in
  before_end steps = take 3 steps ∧
  gatt_session 7 steps 0 =
    (true, [StatusNotified 1; NotifyPause 5000; StatusRead; ReplySent; StatusNotified 2;
            NotifyPause 5000]).
Proof.
  intros steps. pose proof (gatt_session_terminates 7 steps) as Ht.
  destruct (gatt_session 7 steps 0) as [ended outs] eqn:Hrun.
  destruct Ht as (_ & Hfirst & _).
  destruct (Hfirst (take 3 steps) (Next Disconnected) [Notified true]) as [Hb _];
    [reflexivity|reflexivity|repeat constructor|].
  split; [exact Hb|]. rewrite <-Hrun. reflexivity.
Defined.

(** C17: the peripheral is always found again under its name.  With a valid
    device name, an accepted GATT configuration and any encoder of advertising
    structures that keeps its contract, [bluetooth_task] calls [advertise]
    once per turn, as long as sessions end, whether the radio, the accept or
    the session before failed or not, waiting one second after each turn that
    gave no connection and only then; and what it advertises each time is read
    by the scanner firmware as exactly the device name. *)
Theorem peripheral_found_again `{AdEncoderLaws} v n a handle turns :
  is_str v → device_name_new v = Ok n →
  Forall (λ turn, turn_ends turn = true) turns →
  ∃ outs, bluetooth_task (peripheral_new n a) (Some handle) turns = Ok outs ∧
    length (advertised outs) = length turns ∧
    retry_pauses outs
    = replicate (length (List.filter turn_fails turns)) ADVERTISE_RETRY_MS ∧
    ∀ data, data ∈ advertised outs →
      ∃ m name, ad_metadata_parse data = Ok m ∧ ad_name m = Some name ∧
        local_name_as_str name = Ok v.
Proof.
  intros Hstr Hn Hturns.
  assert (v ≠ [] ∧ (length v ≤ MAX_DEVICE_NAME_LEN)%nat) as [Hne Hl].
  { unfold device_name_new in Hn. do 2 (case_decide; [done|]). split; [done|lia]. }
  destruct (device_name_new_Ok v Hne Hl) as (n' & Hn' & Hh).
  assert (n' = n) as -> by congruence.
  destruct (name_packet v Hne Hl Hstr) as (data & m & name & Hd & Hm & Hname & Htext).
  unfold bluetooth_task, device_name_as_str. cbn [peripheral_new peripheral_name].
  rewrite (inline_view_holds _ _ _ _ _ Hh). cbn [mbind res_bind].
  rewrite from_utf8_or_empty_str by done. eexists. split; [reflexivity|].
  destruct (peripheral_loop_advertises v handle data turns Hd Hturns) as [Hadv Hpause].
  change (advertised ([BluetoothReady v] ++ peripheral_loop v handle turns))
    with (advertised (peripheral_loop v handle turns)).
  change (retry_pauses ([BluetoothReady v] ++ peripheral_loop v handle turns))
    with (retry_pauses (peripheral_loop v handle turns)).
  rewrite Hadv. split; [apply length_replicate|]. split; [exact Hpause|].
  intros d [-> _]%elem_of_replicate. by exists m, name.
Qed.

Lemma peripheral_found_again_witness :
  ∃ n outs, device_name_new (lit "XIAO ESP32C6 SDK") = Ok n ∧
    bluetooth_task (peripheral_new n [0xC0; 1; 2; 3; 4; 5]) (Some 7)
      [{| turn_advertise := false; turn_accept := false; turn_session := [] |};
       {| turn_advertise := true; turn_accept := true;
          turn_session := [Notified true; Next Disconnected] |}] = Ok outs ∧
    length (advertised outs) = 2%nat.
Proof.
  destruct (device_name_new (lit "XIAO ESP32C6 SDK")) as [n|e|] eqn:Hn;
    [|by vm_compute in Hn..].
  destruct (peripheral_found_again (lit "XIAO ESP32C6 SDK") n [0xC0; 1; 2; 3; 4; 5] 7
    [{| turn_advertise := false; turn_accept := false; turn_session := [] |};
     {| turn_advertise := true; turn_accept := true;
        turn_session := [Notified true; Next Disconnected] |}]) as (outs & Ho & Hl & _);
    [by vm_compute; eexists|exact Hn|by repeat constructor|].
  exists n, outs. split; [done|]. split; [exact Ho|exact Hl].
Defined.
