(* ===== verification/Boot.v ===== *)
(** [firmware/seeed/xiao-esp32c6/src/main.rs], [main], [start_networking] and
    [run_network_probe]: which tasks the reference firmware starts, with what,
    and what it reports when it does not.

    Peripherals, heap and scheduler set-up are device I/O; what they and the
    drivers answer is the environment [BootEnv].  A task is a value of
    [FirmwareTask] with the arguments it is spawned with. *)
From stdpp Require Import prelude list numbers option strings.
From Stdlib Require Import ZArith.
From S2P Require Import Prelude Text Bluetooth Foundation Wifi Networking Mqtt MqttClient Port.
From S2P Require Import FirmwareConfig Firmware.
Local Open Scope Z_scope.

(** * The network probe *)

Inductive ProbeOutput : Type :=
  | ProbeDnsFailed (error : ResolveError)
  | ProbeDnsTimedOut
  | ProbeConnecting (address : Ipv4Addr) (port : Z)   (** [socket.connect] is called *)
  | ProbeSucceeded (resolved_addresses : nat)
  | ProbeTcpFailed
  | ProbeTcpTimedOut.

(** [dns] and [tcp] are the resolver and the socket under their timeouts. *)
Definition run_network_probe (dns : timed (list Z → res DnsError (list IpAddress)))
    (tcp : Ipv4Addr → Z → timed bool) (probe : NetworkProbe) :
    res unit (list ProbeOutput) :=
  match dns with
  | Elapsed => Ok [ProbeDnsTimedOut]
  | InTime query =>
    match resolve_ipv4 query (probe_host probe) (replicate 4 IPV4_UNSPECIFIED) with
    | (Err error, _) => Ok [ProbeDnsFailed error]
    | (Panic, _) => Panic
    | (Ok address_count, addresses) =>
      address ← index addresses 0;
      Ok [ProbeConnecting address (probe_port probe);
          match tcp address (probe_port probe) with
          | InTime true => ProbeSucceeded address_count
          | InTime false => ProbeTcpFailed
          | Elapsed => ProbeTcpTimedOut
          end]
    end
  end.

(** * Boot *)

Section Boot.
Context {D W B : Type} `{WifiDriver D W}.

Inductive FirmwareTask : Type :=
  | HeartbeatTask
  | BluetoothTask (config : Bluetooth.PeripheralConfig)
  | NetworkRunnerTask (random_seed : Z)
  | WifiStationTask (controller : Esp32c6StationController D)
  | NetworkMonitorTask (probe : option NetworkProbe)
  | MqttTask (config : MqttDevelopmentConfig)
  | MqttTelemetryProducerTask.

Inductive BootOutput : Type :=
  | BootBanner (board chip : list Z)
  | Spawned (task : FirmwareTask)
  | AllocationFailed (task : FirmwareTask)
  | BluetoothConfigurationFailed (error : Bluetooth.ConfigError)
  | BluetoothInitFailed (error : BluetoothError B)
  | WifiInitFailed (error : Port.Error W)
  | WifiScan (summary : ScanSummary)
  | WifiScanFailed (error : Port.Error W)
  | WifiConfigurationFailed (error : Port.Error W)
  | ProbeConfigurationFailed (error : list Z)
  | MqttConfigurationFailed (error : list Z)
  | MqttDisabled
  | ScanOnlyMode
  | WifiCredentialError (error : Wifi.ConfigError).

(** What the chip, the drivers, the task pools and the build say. *)
Record BootEnv : Type := {
  boot_build : BuildEnv;
  boot_mac : list Z;                    (** the Bluetooth MAC *)
  boot_bluetooth : unit → res B unit;   (** [BleConnector::new] *)
  boot_wifi : res W D;                  (** [esp_radio::wifi::new] *)
  boot_random : Z * Z;                  (** two words of the generator *)
  boot_allocates : FirmwareTask → bool  (** the task's pool has a slot *)
}.

Definition spawn (env : BootEnv) (task : FirmwareTask) : list BootOutput :=
  [if boot_allocates env task then Spawned task else AllocationFailed task].

Definition random_seed (words : Z * Z) : Z := Z.lor (Z.shiftl words.1 32) words.2.

Definition start_networking (env : BootEnv) (controller : Esp32c6StationController D)
    (probe : option NetworkProbe) (mqtt : option MqttDevelopmentConfig) :
    list BootOutput :=
  let runner := NetworkRunnerTask (random_seed (boot_random env)) in
  if negb (boot_allocates env runner) then [AllocationFailed runner] else
  Spawned runner ::
  if negb (boot_allocates env (WifiStationTask controller))
  then [AllocationFailed (WifiStationTask controller)] else
  [Spawned (WifiStationTask controller)] ++
  spawn env (NetworkMonitorTask probe) ++
  match mqtt with
  | Some config => spawn env (MqttTask config) ++ spawn env MqttTelemetryProducerTask
  | None => [MqttDisabled]
  end.

(** A build-time setting whose error is reported and turned into [None]. *)
Definition reported {A} (failed : list Z → BootOutput) (setting : res (list Z) (option A)) :
    res unit (option A * list BootOutput) :=
  match setting with
  | Ok value => Ok (value, [])
  | Err error => Ok (None, [failed error])
  | Panic => Panic
  end.

Definition configure_and_start (env : BootEnv) (wifi : Esp32c6Wifi D) :
    res unit (list BootOutput) :=
  match development_station_config (boot_build env) with
  | Ok (Some station) =>
    match configure_station station wifi with
    | (Err error, _) => Ok [WifiConfigurationFailed error]
    | (Panic, _) => Panic
    | (Ok _, wifi) =>
      let controller := into_station_parts wifi in
      '(network_probe, out1) ←
        reported ProbeConfigurationFailed (development_network_probe (boot_build env));
      '(mqtt, out2) ←
        reported MqttConfigurationFailed (development_mqtt_config (boot_build env));
      Ok (out1 ++ out2 ++ start_networking env controller network_probe mqtt)
    end
  | Ok None => Ok [ScanOnlyMode]
  | Err error => Ok [WifiCredentialError error]
  | Panic => Panic
  end.

Definition start_wifi (env : BootEnv) : res unit (list BootOutput) :=
  match esp32c6_wifi_new (boot_wifi env) with
  | Err error => Ok [WifiInitFailed error]
  | Panic => Panic
  | Ok wifi =>
    let '(scanned, wifi) := wifi_scan 20 wifi in
    scan_output ←
      match scanned with
      | Ok access_points => Ok (WifiScan (scan_summary access_points))
      | Err error => Ok (WifiScanFailed error)
      | Panic => Panic
      end;
    out ← configure_and_start env wifi;
    Ok (scan_output :: out)
  end.

Definition start_bluetooth (env : BootEnv) (name : DeviceName) : res unit (list BootOutput) :=
  let config := peripheral_new name (static_random_address (boot_mac env)) in
  match bluetooth_new_with_config (boot_bluetooth env) tt with
  | Ok _ => Ok (spawn env (BluetoothTask config))
  | Err error => Ok [BluetoothInitFailed error]
  | Panic => Panic
  end.

(** [main], up to the idle loop every path ends in. *)
Definition main (env : BootEnv) : res unit (list BootOutput) :=
  let head := BootBanner (hw_board HARDWARE) (hw_chip HARDWARE) :: spawn env HeartbeatTask in
  match device_name_new BLUETOOTH_DEVICE_NAME with
  | Err error => Ok (head ++ [BluetoothConfigurationFailed error])
  | Panic => Panic
  | Ok bluetooth_name =>
    bluetooth ← start_bluetooth env bluetooth_name;
    wifi ← start_wifi env;
    Ok (head ++ bluetooth ++ wifi)
  end.

(** * Specification *)

Definition started (out : list BootOutput) : list FirmwareTask :=
  omap (λ o, match o with Spawned t => Some t | _ => None end) out.

(** The tasks of networking, in spawn order, as far as slots go. *)
Definition network_tasks (env : BootEnv) (c : Esp32c6StationController D)
    (probe : option NetworkProbe) (mqtt : option MqttDevelopmentConfig) :
    list FirmwareTask :=
  let runner := NetworkRunnerTask (random_seed (boot_random env)) in
  let has t := boot_allocates env t in
  if negb (has runner) then [] else
  runner ::
  if negb (has (WifiStationTask c)) then [] else
  WifiStationTask c ::
  List.filter has
    (NetworkMonitorTask probe ::
     match mqtt with Some m => [MqttTask m; MqttTelemetryProducerTask] | None => [] end).

(** The setting if it is valid, none otherwise. *)
Definition valid_setting {E A} (setting : res E (option A)) : option A :=
  match setting with Ok value => value | _ => None end.

(** The drivers return. *)
Definition boot_total (env : BootEnv) : Prop :=
  boot_bluetooth env tt ≠ Panic ∧ boot_wifi env ≠ Panic ∧
  (∀ d c, (drv_set_config (W := W) d c).1 ≠ Panic).
End Boot.

(** * Lemmas *)

(** The driver configuration the build-time credentials come to. *)
Definition environment_config (env : BuildEnv) (ssid : list Z) : EspStationConfig :=
  {| esp_ssid := ssid;
     esp_auth_method := match WIFI_PASSWORD env with
                        | Some _ => MethodWpa2Wpa3Personal | None => MethodNone end;
     esp_password := WIFI_PASSWORD env |}.

Lemma station_environment {W} env station :
  (∀ s, WIFI_SSID env = Some s → is_str s) →
  (∀ p, WIFI_PASSWORD env = Some p → is_str p) →
  development_station_config env = Ok (Some station) →
  ∃ ssid, WIFI_SSID env = Some ssid ∧ ssid ≠ [] ∧
    esp_config (W := W) station = Ok (environment_config env ssid).
Proof.
  intros Hs Hp. unfold development_station_config, ssid_try_from, environment_config.
  destruct (WIFI_SSID env) as [ssid|]; [|by destruct (WIFI_PASSWORD env)].
  specialize (Hs ssid eq_refl).
  assert (∀ s, ssid_new ssid = Ok s → ssid_is_empty s = bool_decide (ssid = []) ∧
    ssid_as_str (E := Error W) s = Ok (Some ssid)) as Hssid.
  { intros s Hh%ssid_holds_new. split; [by apply ssid_holds_empty|].
    unfold ssid_as_str. rewrite (ssid_holds_bytes _ _ Hh). cbn.
    by rewrite from_utf8_ok_str. }
  destruct (ssid_new ssid) as [s|e|] eqn:Hnew; cbn [mbind res_bind];
    [|by destruct (WIFI_PASSWORD env)..].
  destruct (Hssid s eq_refl) as [Hempty Htext].
  unfold station_open, station_personal, validate_ssid, esp_config. rewrite Hempty.
  destruct (WIFI_PASSWORD env) as [pw|].
  - specialize (Hp pw eq_refl). destruct (passphrase_valid pw) eqn:Hv;
      [|unfold passphrase_new; by rewrite Hv].
    destruct (passphrase_new_Ok pw Hv) as (p & -> & Hh). cbn [mbind res_bind].
    case_bool_decide; [done|]. cbn. intros [= <-]. exists ssid. split_and!; [done..|].
    cbn. rewrite Htext. cbn. unfold passphrase_as_str.
    rewrite (inline_view_holds _ _ _ _ _ Hh). cbn. by rewrite from_utf8_or_empty_str.
  - case_bool_decide; [done|]. cbn. intros [= <-]. exists ssid. split_and!; [done..|].
    cbn. by rewrite Htext.
Qed.

Section BootLemmas.
Context {D W B : Type} `{WifiDriver D W}.

Lemma started_app (l k : list (BootOutput (D := D) (W := W) (B := B))) :
  started (l ++ k) = started l ++ started k.
Proof. apply omap_app. Qed.

Lemma started_spawn (env : BootEnv (D := D) (W := W) (B := B)) t :
  started (spawn env t) = List.filter (boot_allocates env) [t].
Proof. unfold spawn. cbn. by destruct (boot_allocates env t). Qed.

Lemma start_networking_started (env : BootEnv (D := D) (W := W) (B := B)) c probe mqtt :
  started (start_networking env c probe mqtt) = network_tasks env c probe mqtt.
Proof.
  unfold start_networking, network_tasks.
  destruct (boot_allocates env (NetworkRunnerTask _)); [|done]. cbn [negb].
  change (started (Spawned ?t :: ?l)) with (t :: started l). f_equal.
  destruct (boot_allocates env (WifiStationTask c)); [|done]. cbn [negb].
  rewrite !started_app, started_spawn. cbn [app]. f_equal.
  destruct mqtt as [m|]; [rewrite started_app, !started_spawn|]; cbn;
    by repeat case_match.
Qed.

(** What the station's configuration leads to, on a given adapter. *)
Lemma configure_and_start_started (env : BootEnv (D := D) (W := W) (B := B)) w :
  (∀ d c, (drv_set_config (W := W) d c).1 ≠ Panic) →
  (∀ s, WIFI_SSID (boot_build env) = Some s → is_str s) →
  (∀ p, WIFI_PASSWORD (boot_build env) = Some p → is_str p) →
  development_mqtt_config (boot_build env) ≠ Panic →
  ∃ out, configure_and_start env w = Ok out ∧
    started out =
      match development_station_config (boot_build env) with
      | Ok (Some station) =>
        match configure_station (W := W) station w with
        | (Ok _, w) =>
          network_tasks env (into_station_parts w)
            (valid_setting (development_network_probe (boot_build env)))
            (valid_setting (development_mqtt_config (boot_build env)))
        | _ => []
        end
      | _ => []
      end.
Proof.
  intros Hset Hssid Hpass Hmqtt. unfold configure_and_start.
  pose proof (development_station_config_not_Panic (boot_build env)) as Hsta.
  destruct (development_station_config (boot_build env)) as [[station|]|e|] eqn:Hcfg;
    [|by eexists|by eexists|done].
  destruct (station_environment (W := W) _ _ Hssid Hpass Hcfg) as (ssid & _ & _ & Hesp).
  unfold configure_station. rewrite Hesp.
  specialize (Hset (wifi_controller w) (environment_config (boot_build env) ssid)).
  destruct (drv_set_config _ _) as [[[]|e|] d]; [|by eexists|done].
  pose proof (development_network_probe_not_Panic (boot_build env)) as Hprobe.
  destruct (development_network_probe _) as [probe|e1|]; [| |done];
    (destruct (development_mqtt_config _) as [mqtt|e2|]; [| |done]); cbn [reported mbind res_bind];
    (eexists; split; [reflexivity|]); rewrite !started_app, start_networking_started; done.
Qed.

Lemma wifi_scan_not_Panic `{!WifiDriverLaws D W} n (w : Esp32c6Wifi D) :
  (wifi_scan n w).1 ≠ Panic ∧ wifi_controller (wifi_scan n w).2 =
    (drv_scan (wifi_controller w) n).2.
Proof.
  unfold wifi_scan. pose proof (drv_scan_ok (wifi_controller w) n) as Hok.
  destruct (drv_scan (wifi_controller w) n) as [[ds|e|] d]; cbn in *; [|done|done].
  destruct Hok as [_ Hall]. by destruct (convert_discovered_Ok (W := W) ds Hall) as (aps & -> & _).
Qed.

(** What the boot starts, read off the environment. *)
Definition boot_tasks (env : BootEnv (D := D) (W := W) (B := B)) (name : DeviceName) :
    list FirmwareTask :=
  List.filter (boot_allocates env) [HeartbeatTask] ++
  match boot_bluetooth env tt with
  | Ok _ =>
    List.filter (boot_allocates env)
      [BluetoothTask (peripheral_new name (static_random_address (boot_mac env)))]
  | _ => []
  end ++
  match boot_wifi env, development_station_config (boot_build env) with
  | Ok driver, Ok (Some station) =>
    match configure_station (W := W) station
            (wifi_scan (W := W) 20
               {| wifi_controller := driver; wifi_state := WifiReady |}).2 with
    | (Ok _, w) =>
      network_tasks env (into_station_parts w)
        (valid_setting (development_network_probe (boot_build env)))
        (valid_setting (development_mqtt_config (boot_build env)))
    | _ => []
    end
  | _, _ => []
  end.

Lemma network_tasks_station (env : BootEnv (D := D) (W := W) (B := B)) c c' probe mqtt :
  WifiStationTask c ∈ network_tasks env c' probe mqtt → c = c'.
Proof.
  unfold network_tasks. case_match; [by intros ?%elem_of_nil|].
  intros [?|Hc]%elem_of_cons; [done|]. case_match; [by apply elem_of_nil in Hc|].
  apply elem_of_cons in Hc as [[= ->]|Hc]; [done|].
  apply list_elem_of_In, filter_In in Hc as [Hc _]. apply list_elem_of_In in Hc.
  apply elem_of_cons in Hc as [?|Hc]; [done|]. destruct mqtt; [|by apply elem_of_nil in Hc].
  apply elem_of_cons in Hc as [?|Hc]; [done|]. by apply list_elem_of_singleton in Hc.
Qed.

Definition string_variables (env : BuildEnv) : Prop :=
  (∀ s, WIFI_SSID env = Some s → is_str s) ∧
  (∀ p, WIFI_PASSWORD env = Some p → is_str p) ∧
  (∀ id, MQTT_CLIENT_ID env = Some id → is_str id).

Lemma main_started `{!WifiDriverLaws D W} (env : BootEnv (D := D) (W := W) (B := B)) :
  boot_total env → string_variables (boot_build env) →
  ∃ name out, device_name_new BLUETOOTH_DEVICE_NAME = Ok name ∧ main env = Ok out ∧
    started out = boot_tasks env name.
Proof.
  intros (Hbt & Hwifi & Hset) (Hssid & Hpass & Hid).
  destruct (device_name_new BLUETOOTH_DEVICE_NAME) as [name|e|] eqn:Hname;
    [|by vm_compute in Hname..].
  assert (∃ out, start_bluetooth env name = Ok out ∧ started out =
    match boot_bluetooth env tt with
    | Ok _ => List.filter (boot_allocates env)
                [BluetoothTask (peripheral_new name (static_random_address (boot_mac env)))]
    | _ => []
    end) as (out1 & Hout1 & Hs1).
  { unfold start_bluetooth, bluetooth_new_with_config.
    destruct (boot_bluetooth env tt); cbn [map_err mbind res_bind]; [|by eexists|done].
    eexists. split; [done|]. apply started_spawn. }
  assert (∃ out, start_wifi env = Ok out ∧ started out =
    match boot_wifi env, development_station_config (boot_build env) with
    | Ok driver, Ok (Some station) =>
      match configure_station (W := W) station
              (wifi_scan (W := W) 20
                 {| wifi_controller := driver; wifi_state := WifiReady |}).2 with
      | (Ok _, w) => network_tasks env (into_station_parts w)
          (valid_setting (development_network_probe (boot_build env)))
          (valid_setting (development_mqtt_config (boot_build env)))
      | _ => []
      end
    | _, _ => []
    end) as (out2 & Hout2 & Hs2).
  { unfold start_wifi, esp32c6_wifi_new.
    destruct (boot_wifi env) as [driver|e|]; cbn [map_err mbind res_bind]; [|by eexists|done].
    match goal with |- context [wifi_scan 20 ?w] =>
      destruct (wifi_scan_not_Panic 20 w) as [Hscan _];
      destruct (wifi_scan 20 w) as [scanned w'] end.
    destruct (configure_and_start_started env w' Hset Hssid Hpass
      (development_mqtt_config_not_Panic _ Hid)) as (out & Hout & Hs).
    cbn in Hscan |- *. destruct scanned; cbn; [| |done]; rewrite Hout; cbn;
      (eexists; split; [done|]); exact Hs. }
  exists name. unfold main. rewrite Hname, Hout1. cbn [mbind res_bind]. rewrite Hout2.
  eexists. split_and!; [done|reflexivity|].
  rewrite !started_app, Hs1, Hs2. unfold boot_tasks. f_equal. apply started_spawn.
Qed.
End BootLemmas.

(** * Properties *)

(** C24: the reference firmware starts exactly the tasks its build and hardware
    allow.  Whatever the drivers answer, [main] reaches its idle loop; of the
    tasks that find a slot it has then started the heartbeat, the peripheral
    under the board's name and the chip's address if the controller came up,
    and, only if Wi-Fi came up with valid credentials the driver accepted,
    the network runner, the station, and behind both the monitor and the MQTT
    pair, the latter only for a valid fixture configuration. *)
Theorem boot_exact {D W B} `{WifiDriverLaws D W} (env : BootEnv (D := D) (W := W) (B := B)) :
  boot_total env → string_variables (boot_build env) →
  ∃ name out, device_name_new BLUETOOTH_DEVICE_NAME = Ok name ∧ main env = Ok out ∧
    started out = boot_tasks env name.
Proof. apply main_started. Qed.

(** C10: station credentials survive the whole way from the build to the radio.
    If the boot starts the station task, the Wi-Fi driver has, after the
    initial scan, accepted exactly the SSID and password of the build's
    variables, with WPA2/WPA3 whenever a password is set and an open network
    only without one, and the controller the task gets is ready. *)
Theorem station_never_downgraded {D W B} `{WifiDriverLaws D W}
    (env : BootEnv (D := D) (W := W) (B := B)) out c :
  boot_total env → string_variables (boot_build env) →
  main env = Ok out → WifiStationTask c ∈ started out →
  ∃ driver ssid, boot_wifi env = Ok driver ∧ WIFI_SSID (boot_build env) = Some ssid ∧
    ssid ≠ [] ∧ sta_state c = WifiReady ∧
    drv_set_config (drv_scan driver 20).2
      {| esp_ssid := ssid;
         esp_auth_method := match WIFI_PASSWORD (boot_build env) with
                            | Some _ => MethodWpa2Wpa3Personal
                            | None => MethodNone
                            end;
         esp_password := WIFI_PASSWORD (boot_build env) |}
    = (Ok tt, sta_controller c).
Proof.
  intros Ht Hs Hmain Hc. destruct (main_started env Ht Hs) as (name & out' & _ & Hmain' & Hstarted).
  rewrite Hmain in Hmain'. injection Hmain' as <-. rewrite Hstarted in Hc. clear Hstarted Hmain.
  destruct Hs as (Hssid & Hpass & _). unfold boot_tasks in Hc.
  rewrite !elem_of_app in Hc. destruct Hc as [Hc|[Hc|Hc]].
  { cbn in Hc. case_match; [by apply list_elem_of_singleton in Hc|by apply elem_of_nil in Hc]. }
  { case_match; [|by apply elem_of_nil in Hc..]. cbn in Hc.
    case_match; [by apply list_elem_of_singleton in Hc|by apply elem_of_nil in Hc]. }
  destruct (boot_wifi env) as [driver|e|]; [|by apply elem_of_nil in Hc..].
  destruct (development_station_config _) as [[station|]|e|] eqn:Hcfg;
    [|by apply elem_of_nil in Hc..].
  destruct (station_environment (W := W) _ _ Hssid Hpass Hcfg) as (ssid & Hset & Hne & Hesp).
  match type of Hc with context [wifi_scan 20 ?w] =>
    destruct (wifi_scan_not_Panic 20 w) as [_ Hscan];
    destruct (wifi_scan 20 w) as [scanned w'] end.
  cbn in Hscan, Hc. unfold configure_station in Hc. rewrite Hesp, Hscan in Hc.
  exists driver, ssid. fold (environment_config (boot_build env) ssid).
  destruct (drv_set_config _ _) as [[[]|e|] d]; [|by apply elem_of_nil in Hc..].
  apply network_tasks_station in Hc as ->. by split_and!.
Qed.

(** A boot of the reference firmware on the toggling driver with complete
    variables. *)
Definition fixture_boot : BootEnv (D := nat) (W := unit) (B := unit) :=
  {| boot_build := fixture_env; boot_mac := [0x10; 2; 3; 4; 5; 6];
     boot_bluetooth := λ _, Ok tt; boot_wifi := Ok 0%nat; boot_random := (1, 2);
     boot_allocates := λ _, true |}.

Lemma fixture_boot_total : boot_total fixture_boot ∧ string_variables (boot_build fixture_boot).
Proof.
  split; [by split_and!|].
  split_and!; intros s [= <-]; vm_compute; by eexists.
Qed.

Lemma boot_exact_witness :
  ∃ out, main fixture_boot = Ok out ∧ length (started out) = 7%nat.
Proof.
  destruct fixture_boot_total as [Ht Hs].
  destruct (boot_exact fixture_boot Ht Hs) as (name & out & _ & Hmain & Hstarted).
  exists out. split; [exact Hmain|]. rewrite Hstarted. vm_compute. reflexivity.
Defined.

Lemma station_never_downgraded_witness :
  ∃ out c, main fixture_boot = Ok out ∧ WifiStationTask c ∈ started out ∧
    drv_set_config 1%nat (environment_config fixture_env (lit "lab")) =
      (Ok tt, sta_controller c).
Proof.
  destruct fixture_boot_total as [Ht Hs].
  destruct (main fixture_boot) as [out|e|] eqn:Hmain; [|by vm_compute in Hmain..].
  set (c := {| sta_controller := 2%nat; sta_state := WifiReady |}).
  assert (WifiStationTask c ∈ started out) as Hc.
  { vm_compute in Hmain. injection Hmain as <-. cbn. do 3 right. left. }
  destruct (station_never_downgraded fixture_boot out c Ht Hs Hmain Hc)
    as (driver & ssid & [= <-] & [= <-] & _ & _ & Hset).
  exists out, c. split; [done|]. split; [exact Hc|exact Hset].
Defined.

(** The probe's report, whatever the resolver and the socket answer: it
    opens one connection at most, to the first address of a DNS answer of one
    to four addresses and to the configured port, and the count it reports is
    that of the answer. *)
Theorem network_probe_exact dns tcp probe :
  run_network_probe dns tcp probe =
  match dns with
  | Elapsed => Ok [ProbeDnsTimedOut]
  | InTime query =>
    match query (probe_host probe) with
    | Ok [] => Ok [ProbeDnsFailed ResolveFailed]
    | Ok (IpV4 address :: rest) =>
      if decide (length rest ≤ 3)%nat then
        Ok [ProbeConnecting address (probe_port probe);
            match tcp address (probe_port probe) with
            | InTime true => ProbeSucceeded (S (length rest))
            | InTime false => ProbeTcpFailed
            | Elapsed => ProbeTcpTimedOut
            end]
      else Ok [ProbeDnsFailed (OutputTooSmall (S (length rest)))]
    | Err e => Ok [ProbeDnsFailed (resolve_error_from e)]
    | Panic => Panic
    end
  end.
Proof.
  unfold run_network_probe. destruct dns as [query|]; [|done].
  unfold resolve_ipv4. destruct (query (probe_host probe)) as [answer|e|]; cbn [map_err]; [|done..].
  rewrite copy_ipv4_addresses_eq. destruct answer as [|[address] rest]; [done|].
  rewrite (decide_False (P := IpV4 address :: rest = [])) by done.
  rewrite length_replicate. cbn [length].
  destruct (decide (length rest ≤ 3)%nat) as [Hl|Hl];
    [by rewrite decide_True by lia|by rewrite decide_False by lia].
Qed.
