(* ===== verification/BeaconFirmware.v ===== *)
(** [firmware/seeed/xiao-esp32c6-beacon/src/main.rs] and
    [firmware/seeed/xiao-esp32c6-beacon-scanner/src/main.rs], the two [main]
    functions: from build-time variables to what is on the air, and from power
    on to the scanner's loop.

    Heap and scheduler set-up are device I/O.  What the firmware does is a list
    of [BeaconOutput]: pins driven, calls into the controller and the host stack
    with their arguments, timers, and printed lines. *)
From stdpp Require Import prelude list numbers option strings gmap.
From Stdlib Require Import ZArith.
From S2P Require Import Prelude Text Bluetooth Foundation Port Advertisement Scanner Beacon.
Local Open Scope Z_scope.

(** * The beacon *)

Inductive BeaconOutput : Type :=
  | Pin (gpio : Z) (high : bool)
  | Line (text : list Z)
  | WaitMs (millis : Z)
  | ConfigureController (max_connections : Z) (tx_power : option ControllerTxPower)
  | SetRandomAddress (hci_bytes : list Z)
  | Advertise (interval_min_ms interval_max_ms : Z) (adv_data scan_data : list Z)
  | StartScan (active : bool) (interval_ms window_ms : Z).

Definition BLUETOOTH_RECOVERY_RETRY_MS : Z := 100.

(** LED off, RF switch on, on-board antenna selected. *)
Definition output_pins : list BeaconOutput := [Pin 15 true; Pin 3 false; Pin 14 false].

(** What the chip, the controller driver, the task pool and the host stack
    answer; [advertise] succeeds or fails at each turn of the loop, until the
    controller stops the advertisement. *)
Record BeaconHost (B : Type) : Type := {
  host_bluetooth_mac : list Z;
  host_station_mac_text : list Z;       (** [Display] of the two MACs *)
  host_bluetooth_mac_text : list Z;
  host_controller : res B unit;
  host_controller_error : B → list Z;   (** [Display] of the driver's error *)
  host_allocates : bool;
  host_turns : list bool
}.
Arguments host_bluetooth_mac {B} _.
Arguments host_station_mac_text {B} _.
Arguments host_bluetooth_mac_text {B} _.
Arguments host_controller {B} _.
Arguments host_controller_error {B} _.
Arguments host_allocates {B} _.
Arguments host_turns {B} _.

Section BeaconMain.
Context {B : Type} `{AdEncoder}.

(** The four lines printed behind the first advertisement. *)
Definition configuration_report (host : BeaconHost B) (address : StaticRandomAddress)
    (settings : BeaconSettings) : res unit (list BeaconOutput) :=
  name ← beacon_name_as_str (set_name settings);
  let frame := set_frame settings in
  Ok (Line <$> [
    lit "embedded-sdk beacon boot: board=" ++ hw_board HARDWARE
      ++ lit ", chip=" ++ hw_chip HARDWARE;
    lit "embedded-sdk beacon mac: station=" ++ host_station_mac_text host
      ++ lit ", bluetooth=" ++ host_bluetooth_mac_text host
      ++ lit ", advertising=" ++ address_display address;
    lit "embedded-sdk beacon identity: name=" ++ name
      ++ lit ", uuid=" ++ uuid_display (beacon_uuid frame)
      ++ lit ", major=" ++ dec (beacon_major frame)
      ++ lit ", minor=" ++ dec (beacon_minor frame);
    lit "embedded-sdk beacon radio: interval_ms="
      ++ dec (interval_millis (set_interval settings))
      ++ lit ", measured_power_dbm=" ++ dec (beacon_measured_power frame)
      ++ lit ", tx_power_dbm=" ++ dec (set_radio_tx_power_dbm settings)]).

(** The loop of [advertise_forever]. *)
Fixpoint broadcast_loop (host : BeaconHost B) (address : StaticRandomAddress)
    (settings : BeaconSettings) (adv_data scan_data : list Z) (turns : list bool)
    (report_configuration : bool) : res unit (list BeaconOutput) :=
  let interval := interval_millis (set_interval settings) in
  match turns with
  | [] => Ok []
  | advertised :: turns =>
    if advertised : bool then
      report ←
        (if report_configuration then configuration_report host address settings
         else Ok []);
      rest ← broadcast_loop host address settings adv_data scan_data turns false;
      Ok ([Advertise interval interval adv_data scan_data;
           Line (lit "embedded-sdk beacon broadcasting")]
          ++ report
          ++ [Line (lit "embedded-sdk beacon advertising stopped; retrying");
              WaitMs BLUETOOTH_RECOVERY_RETRY_MS] ++ rest)
    else
      rest ← broadcast_loop host address settings adv_data scan_data turns
               report_configuration;
      Ok ([Advertise interval interval adv_data scan_data;
           Line (lit "embedded-sdk beacon advertising failed; retrying");
           WaitMs BLUETOOTH_RECOVERY_RETRY_MS] ++ rest)
  end.

Definition advertise_forever (host : BeaconHost B) (address : StaticRandomAddress)
    (settings : BeaconSettings) : res unit (list BeaconOutput) :=
  packets ← advertise_packets settings;
  match packets with
  | PayloadFailed => Ok [Line (lit "embedded-sdk beacon payload encoding failed")]
  | ScanResponseFailed =>
    Ok [Line (lit "embedded-sdk beacon scan response encoding failed")]
  | Advertising adv_data scan_data =>
    broadcast_loop host address settings adv_data scan_data (host_turns host) true
  end.

Definition beacon_task (host : BeaconHost B) (address : StaticRandomAddress)
    (settings : BeaconSettings) : res unit (list BeaconOutput) :=
  out ← advertise_forever host address settings;
  Ok (SetRandomAddress (address_to_hci_bytes address) :: out).

(** [main], with the task it spawns; every path ends in an idle loop. *)
Definition beacon_main (env : BeaconEnv) (host : BeaconHost B) :
    res unit (list BeaconOutput) :=
  let address := static_random_address (host_bluetooth_mac host) in
  match beacon_settings env address with
  | Err error =>
    Ok (output_pins ++
        [Line (lit "embedded-sdk beacon configuration failed: "
               ++ settings_error_display error)])
  | Panic => Panic
  | Ok settings =>
    let configure := ConfigureController 1 (Some (set_radio_tx_power settings)) in
    match bluetooth_new_with_config (λ _ : unit, host_controller host) tt with
    | Ok _ =>
      if host_allocates host then
        out ← beacon_task host address settings; Ok (output_pins ++ configure :: out)
      else Ok (output_pins ++
               [configure; Line (lit "embedded-sdk beacon task allocation failed")])
    | Err (Controller error) =>
      Ok (output_pins ++
          [configure;
           Line (lit "embedded-sdk beacon controller init failed: "
                 ++ lit "ESP BLE controller init failed: "
                 ++ host_controller_error host error)])
    | Panic => Panic
    end
  end.
End BeaconMain.

(** * The scanner *)

Definition SCAN_WINDOW : Z := 5000.
Definition SCAN_INTERVAL : Z := 100.

Section ScannerMain.
Context `{TroubleHost} `{SortUnstable}.

(** The loop of [scanner_task] with its radio calls and timers; a turn is a
    scan that fails to start, or the reports of its window and the clock at the
    report. *)
Fixpoint scan_forever (turns : list (option (list (Z * option AdvReport) * Z)))
    (r : DeviceRegistry) : res unit (list BeaconOutput) :=
  let start := StartScan true SCAN_INTERVAL SCAN_INTERVAL in
  match turns with
  | [] => Ok []
  | None :: turns =>
    rest ← scan_forever turns r;
    Ok ([start; Line (lit "embedded-sdk beacon scanner scan start failed; retrying");
         WaitMs 1000] ++ rest)
  | Some (reports, now_ms) :: turns =>
    '(lines, r) ← scan_window reports now_ms r;
    rest ← scan_forever turns r;
    Ok ([start; Line (lit "Scanning for " ++ dec (SCAN_WINDOW / 1000) ++ lit "s...");
         WaitMs SCAN_WINDOW] ++ (Line <$> lines) ++ rest)
  end.

(** [main] of the scanner with [scanner_task]. *)
Definition scanner_main {B} (host : BeaconHost B)
    (turns : list (option (list (Z * option AdvReport) * Z))) : res unit (list BeaconOutput) :=
  let head := output_pins ++ [
    Line (lit "embedded-sdk beacon scanner boot: board=" ++ hw_board HARDWARE
          ++ lit ", chip=" ++ hw_chip HARDWARE);
    Line (lit "embedded-sdk beacon scanner output: scan_window_ms=" ++ dec SCAN_WINDOW
          ++ lit ", stale_after_ms=" ++ dec DEVICE_STALE_AFTER_MS
          ++ lit ", capacity=" ++ dec (Z.of_nat DEVICE_CAPACITY)
          ++ lit ", remembered=" ++ dec (Z.of_nat REMEMBERED_DEVICE_CAPACITY)
          ++ lit ", displayed=" ++ dec (Z.of_nat SNAPSHOT_DISPLAY_LIMIT));
    ConfigureController 1 None] in
  match bluetooth_new_with_config (λ _ : unit, host_controller host) tt with
  | Ok _ =>
    rest ← scan_forever turns registry_new;
    Ok (head ++ SetRandomAddress
          (address_to_hci_bytes (static_random_address (host_bluetooth_mac host))) :: rest)
  | Err (Controller error) =>
    Ok (head ++ [Line (lit "embedded-sdk beacon scanner controller init failed: "
                       ++ lit "ESP BLE controller init failed: "
                       ++ host_controller_error host error)])
  | Panic => Panic
  end.
End ScannerMain.

(** * Specification *)

(** The advertising calls, and the lines. *)
Definition broadcasts (out : list BeaconOutput) : list (Z * Z * list Z * list Z) :=
  omap (λ o, match o with Advertise lo hi adv scan => Some (lo, hi, adv, scan) | _ => None end)
    out.

Definition printed (out : list BeaconOutput) : list (list Z) :=
  omap (λ o, match o with Line l => Some l | _ => None end) out.

(** The scans started. *)
Definition scans (out : list BeaconOutput) : nat :=
  length (omap (λ o, match o with StartScan _ _ _ => Some tt | _ => None end) out).

(** The identity line for a name and settings. *)
Definition identity_line (name : list Z) (s : BeaconSettings) : list Z :=
  lit "embedded-sdk beacon identity: name=" ++ name
  ++ lit ", uuid=" ++ uuid_display (beacon_uuid (set_frame s))
  ++ lit ", major=" ++ dec (beacon_major (set_frame s))
  ++ lit ", minor=" ++ dec (beacon_minor (set_frame s)).

Definition is_identity (line : list Z) : bool :=
  starts_with (lit "embedded-sdk beacon identity") line.

(** * Concrete instances *)

Definition fixture_beacon_host (turns : list bool) : BeaconHost unit :=
  {| host_bluetooth_mac := [0xC0; 1; 2; 3; 0xA1; 0xB2];
     host_station_mac_text := lit "C0:01:02:03:A1:B0";
     host_bluetooth_mac_text := lit "C0:01:02:03:A1:B2"; host_controller := Ok tt;
     host_controller_error := λ _, lit "init"; host_allocates := true; host_turns := turns |}.

(** * Lemmas *)

Lemma broadcasts_app l k : broadcasts (l ++ k) = broadcasts l ++ broadcasts k.
Proof. apply omap_app. Qed.

Lemma printed_app l k : printed (l ++ k) = printed l ++ printed k.
Proof. apply omap_app. Qed.

Lemma scans_app l k : scans (l ++ k) = (scans l + scans k)%nat.
Proof. unfold scans. by rewrite omap_app, length_app. Qed.

Lemma printed_lines ls : printed (Line <$> ls) = ls.
Proof. induction ls as [|l ls IH]; [done|]. simpl in *. by f_equal. Qed.

Lemma scans_lines ls : scans (Line <$> ls) = 0%nat.
Proof. by induction ls. Qed.

Section BroadcastLemmas.
Context {B : Type} `{AdEncoder}.

Lemma configuration_report_spec (host : BeaconHost B) a s name :
  beacon_name_as_str (E := unit) (set_name s) = Ok name →
  ∃ out, configuration_report host a s = Ok out ∧ broadcasts out = [] ∧
    List.filter is_identity (printed out) = [identity_line name s].
Proof.
  intros Hname. unfold configuration_report. rewrite Hname. cbn [mbind res_bind].
  eexists. split; [reflexivity|]. split; reflexivity.
Qed.

Lemma broadcast_loop_spec (host : BeaconHost B) a s adv scan name turns report :
  beacon_name_as_str (E := unit) (set_name s) = Ok name →
  let i := interval_millis (set_interval s) in
  ∃ out, broadcast_loop host a s adv scan turns report = Ok out ∧
    broadcasts out = replicate (length turns) (i, i, adv, scan) ∧
    List.filter is_identity (printed out) =
      if report && existsb id turns then [identity_line name s] else [].
Proof.
  intros Hname i. revert report.
  induction turns as [|[] turns IH]; intros report.
  { exists []. by destruct report. }
  - cbn [broadcast_loop existsb id orb]. rewrite andb_true_r.
    destruct (IH false) as (rest & -> & Hb & Hp). cbn [andb] in Hp. destruct report.
    + destruct (configuration_report_spec host a s name Hname) as (rep & -> & Hrb & Hrp).
      cbn [mbind res_bind]. eexists. split; [reflexivity|].
      rewrite !broadcasts_app, !printed_app, !List.filter_app, Hb, Hrb, Hp, Hrp. done.
    + cbn [mbind res_bind]. eexists. split; [reflexivity|].
      rewrite !broadcasts_app, !printed_app, !List.filter_app, Hb, Hp. done.
  - cbn [broadcast_loop existsb id orb].
    destruct (IH report) as (rest & -> & Hb & Hp). cbn [mbind res_bind].
    eexists. split; [reflexivity|].
    rewrite !broadcasts_app, !printed_app, !List.filter_app, Hb, Hp. done.
Qed.
End BroadcastLemmas.

Lemma static_random_address_wf mac : address_wf mac → address_wf (static_random_address mac).
Proof.
  intros (s0 & s1 & s2 & s3 & s4 & s5 & -> & H0 & H1 & H2 & H3 & H4 & H5)%address_wf_cases.
  pose proof (seed_type_bits s0 H0) as (Hr & _). pose proof (flip_low_bit s5 H5) as (Hf & _).
  unfold static_random_address. rewrite address_from_seed_cases by done.
  split; [done|]. unfold is_bytes. rewrite !Forall_cons.
  split_and!; try done. by case_decide.
Qed.

Lemma hci_bytes_reverse a : address_wf a → address_to_hci_bytes a = reverse a.
Proof. by intros (a0 & a1 & a2 & a3 & a4 & a5 & -> & _)%address_wf_cases. Qed.

Lemma interval_bounds env a s : settings_for env a s →
  20 ≤ interval_millis (set_interval s) ≤ 10240.
Proof.
  intros (_ & _ & _ & _ & _ & Hi & _). unfold chosen, interval_value in Hi.
  destruct (BEACON_INTERVAL_MS env) as [v|]; [|by rewrite Hi].
  apply bind_Some in Hi as (n & _ & Hn). case_match eqn:Hb; [|done].
  injection Hn as <-. unfold between in Hb; lia.
Qed.

(** The detailed loop prints what [scanner_task] does, in order, and starts one
    scan per turn. *)
Lemma scan_forever_spec `{TroubleHost} `{SortUnstable} turns r log r' :
  scanner_task turns r = Ok (log, r') →
  ∃ out, scan_forever turns r = Ok out ∧ scans out = length turns ∧
    mjoin log `sublist_of` printed out.
Proof.
  revert r log r'. induction turns as [|[[reports now_ms]|] turns IH]; intros r log r'; cbn [scanner_task scan_forever].
  - intros [= <- <-]. by exists [].
  - destruct (scan_window reports now_ms r) as [[lines r1]|e|]; [|done..]. cbn [mbind res_bind].
    destruct (scanner_task turns r1) as [[log1 r2]|e|] eqn:Hrest; [|done..].
    cbn [mbind res_bind]. intros [= <- <-]. destruct (IH _ _ _ Hrest) as (out & -> & Hn & Hs).
    eexists. split; [reflexivity|]. split.
    + by rewrite !scans_app, scans_lines, Hn.
    + rewrite !printed_app, printed_lines. cbn [mjoin list_join].
      apply (sublist_app [] _); [apply sublist_nil_l|by apply sublist_app].
  - intros (out & -> & Hn & Hs)%IH. eexists. split; [reflexivity|].
    rewrite scans_app, printed_app, Hn. split; [done|].
    by apply (sublist_app [] _); [apply sublist_nil_l|].
Qed.

(** * Properties *)

(** C18: what a flashed beacon puts on the air. For every set of variables and
    every chip address, with a working controller and task pool: valid settings
    give a firmware that configures the controller with their radio power, sets
    the derived random address, and at every turn of its loop broadcasts the
    same two packets at the configured interval (20 to 10240 ms), in which the
    scanner firmware reads exactly the label iBeacon and the beacon's name; the
    identity line is printed once, when the first advertisement started, however
    many turns follow. A refused variable leaves the radio untouched and prints
    the error that names it. *)
Theorem beacon_firmware_broadcasts {B} `{AdEncoderLaws} (env : BeaconEnv) (host : BeaconHost B) :
  address_wf (host_bluetooth_mac host) →
  (∀ v, BEACON_NAME env = Some v → is_str v) →
  host_controller host = Ok tt → host_allocates host = true →
  let a := static_random_address (host_bluetooth_mac host) in
  match beacon_settings env a with
  | Ok s =>
    ∃ out i adv scan m1 m2 name n,
      beacon_main env host = Ok (output_pins ++ ConfigureController 1 (Some (set_radio_tx_power s))
        :: SetRandomAddress (reverse a) :: out) ∧
      settings_for env a s ∧ i = interval_millis (set_interval s) ∧ 20 ≤ i ≤ 10240 ∧
      broadcasts out = replicate (length (host_turns host)) (i, i, adv, scan) ∧
      ad_metadata_parse adv = Ok m1 ∧ beacon_label_display (ad_beacon m1) = lit "iBeacon" ∧
      ad_metadata_parse scan = Ok m2 ∧ ad_name m2 = Some n ∧ local_name_as_str n = Ok name ∧
      beacon_name_as_str (E := unit) (set_name s) = Ok name ∧
      List.filter is_identity (printed out) =
        if existsb id (host_turns host) then [identity_line name s] else []
  | Err e =>
    beacon_main env host = Ok (output_pins ++
      [Line (lit "embedded-sdk beacon configuration failed: " ++ settings_error_display e)]) ∧
    blames env e
  | Panic => False
  end.
Proof.
  intros Hmac Hstr Hc Hal a. pose proof (static_random_address_wf _ Hmac : address_wf a) as Ha.
  pose proof (beacon_settings_spec env a Ha) as Hspec. unfold beacon_main.
  fold a. destruct (beacon_settings env a) as [s|e|]; [|done..].
  destruct (settings_name env a s Ha Hstr Hspec) as (v & Hh & Hne & Hl & Hv).
  destruct (adv_packet s (frame_wf env a s Ha Hspec)) as (adv & m1 & He1 & Hm1 & _ & Hb & _).
  destruct (scan_packet v Hne Hl Hv) as (scan & m2 & n & He2 & Hm2 & Hn & Hstrn & _).
  assert (beacon_name_as_str (E := unit) (set_name s) = Ok v) as Hname.
  { unfold beacon_name_as_str, beacon_name_as_bytes. rewrite (inline_view_holds _ _ _ _ _ Hh).
    cbn [mbind res_bind]. by rewrite from_utf8_or_empty_str. }
  destruct (broadcast_loop_spec host a s adv scan v (host_turns host) true Hname)
    as (out & Hout & Hbr & Hid).
  exists out, (interval_millis (set_interval s)), adv, scan, m1, m2, v, n.
  unfold bluetooth_new_with_config. rewrite Hc, Hal. cbn [map_err mbind res_bind].
  unfold beacon_task, advertise_forever, advertise_packets, beacon_name_as_bytes.
  rewrite He1, (inline_view_holds _ _ _ _ _ Hh). cbn [mbind res_bind].
  rewrite He2. cbn [mbind res_bind]. rewrite Hout, Hb. cbn [mbind res_bind].
  rewrite (hci_bytes_reverse a Ha).
  pose proof (interval_bounds env a s Hspec) as [? ?].
  cbn [andb] in Hid. split_and!; try done.
Qed.

Lemma beacon_firmware_broadcasts_witness :
  ∃ s out, beacon_settings default_env [0xC0; 1; 2; 3; 0xA1; 0xB2] = Ok s ∧
    beacon_main default_env (fixture_beacon_host [false; true; true]) = Ok out ∧
    length (broadcasts out) = 3%nat ∧
    List.filter is_identity (printed out) = [identity_line (lit "Beacon A1B2") s].
Proof.
  pose proof (beacon_firmware_broadcasts default_env (fixture_beacon_host [false; true; true])) as Hb.
  cbv zeta in Hb. change (static_random_address _) with [0xC0; 1; 2; 3; 0xA1; 0xB2] in Hb.
  assert (match beacon_settings default_env [0xC0; 1; 2; 3; 0xA1; 0xB2] with
          | Ok s => beacon_name_as_str (E := unit) (set_name s) = Ok (lit "Beacon A1B2")
          | _ => False end) as Hv by by vm_compute.
  destruct (beacon_settings _ _) as [s|e|] eqn:He; [|done..].
  destruct Hb as (out & i & adv & scan & m1 & m2 & name & n & Hm & _ & _ & _ & Hbr & _ & _ & Hs2
    & Hn & _ & Hname & Hid); [split; [done|by repeat constructor]|done..|].
  exists s. eexists. split; [done|]. split; [exact Hm|]. split.
  - rewrite !broadcasts_app. simpl. by rewrite Hbr.
  - rewrite !printed_app, !List.filter_app. simpl. rewrite Hid.
    rewrite Hv in Hname. by simplify_eq.
Defined.

(** C30: the scanner firmware from power on. With a working controller, over any
    turns of its loop with well-typed reports, [main] never panics: it starts
    one active scan per turn, prints every line of every window's report in
    order, and leaves the registry well formed with empty windows; when the
    controller fails, one line says so and nothing is scanned. *)
Theorem scanner_firmware_reports {B} `{TroubleHost} `{SortUnstable} (host : BeaconHost B)
    (turns : list (option (list (Z * option AdvReport) * Z))) :
  host_controller host ≠ Panic → Forall turn_ok turns →
  ∃ out, scanner_main host turns = Ok out ∧
    match host_controller host with
    | Ok _ =>
      scans out = length turns ∧
      ∃ log r, scanner_task turns registry_new = Ok (log, r) ∧ registry_ok r ∧
        windows_empty r ∧ length log = length (omap id turns) ∧
        mjoin log `sublist_of` printed out
    | Err e =>
      scans out = 0%nat ∧
      last (printed out) = Some (lit "embedded-sdk beacon scanner controller init failed: "
        ++ lit "ESP BLE controller init failed: " ++ host_controller_error host e)
    | Panic => False
    end.
Proof.
  intros Hnp Hok. unfold scanner_main, bluetooth_new_with_config.
  destruct (host_controller host) as [[]|e|]; [| |done]; cbn [map_err mbind res_bind].
  - destruct (scanner_task_ok turns registry_new) as (log & r & Hlog & Hr & Hw & Hlen);
      [apply registry_new_ok|intros a e; by rewrite registry_map_new, lookup_empty|done|].
    destruct (scan_forever_spec _ _ _ _ Hlog) as (out & -> & Hn & Hs).
    eexists. split; [reflexivity|]. rewrite !scans_app, !printed_app. simpl.
    split; [exact Hn|]. exists log, r. split_and!; try done.
    by do 2 apply sublist_cons.
  - eexists. split; [reflexivity|]. rewrite !scans_app, !printed_app. simpl. done.
Qed.

Lemma scanner_firmware_reports_witness :
  let a := {| addr_kind := 1; addr_bytes := [1; 2; 3; 4; 5; 6] |} in
  let rep := {| rep_address := a; rep_rssi := -60; rep_data := [] |} in
  ∃ out, scanner_main (fixture_beacon_host []) [Some ([(1, Some rep)], 5000); None] = Ok out ∧
    scans out = 2%nat.
Proof.
  intros a rep.
  destruct (scanner_firmware_reports (fixture_beacon_host [])
              [Some ([(1, Some rep)], 5000); None]) as (out & Hout & Hn & _); [done| |by exists out].
  rewrite !Forall_cons, Forall_nil. unfold turn_ok, report_ok, is_u, is_s.
  rewrite !Forall_cons, Forall_nil. simpl. split_and!; try done; intros ? Heq; simplify_eq; simpl; lia.
Defined.
