(* ===== verification/Traffic.v ===== *)
(** Where the traffic of the MQTT task goes: [mqtt_task] of
    [firmware/seeed/xiao-esp32c6/src/main.rs] over any engine.

    What the task does to the engine is stated by invariants: a property of the
    session that survives the calls the task is allowed to make survives the
    task.  What it asks of the network is stated by comparing two environments
    that differ in every answer it must not look at. *)
From stdpp Require Import prelude list numbers option strings.
From Stdlib Require Import ZArith.
From S2P Require Import Prelude Text Backoff Networking Mqtt MqttClient FirmwareConfig Firmware.
Local Open Scope Z_scope.

(** * Specification *)

Section Allowed.
Context `{M : Minimq}.

(** [P] survives the calls that are allowed: connecting, receiving, publishing
    the heartbeat on [topic] and subscribing to [filter], at QoS 1. *)
Record allowed_calls_keep (topic filter : list Z) (P : mq_Session → Prop) : Prop := {
  keep_connect s : P s → P (mq_connect s).2;
  keep_recv s : P s → P (mq_recv s).2;
  keep_publish s : P s → P (mq_publish s topic telemetry_payload MqAtLeastOnce).2;
  keep_subscribe s : P s → P (mq_subscribe s filter MqAtLeastOnce).2
}.

(** A call the environment cuts short leaves the session within [P]. *)
Definition event_within (P : mq_Session → Prop) (e : session_event) : Prop :=
  match e with EvPending s | EvPublishCut s => P s | _ => True end.

Definition env_within (P : mq_Session → Prop) (env : RoundEnv) : Prop :=
  (∀ s, re_connect_cut env = Some s → P s) ∧ (∀ s, re_subscribe_cut env = Some s → P s) ∧
  Forall (event_within P) (re_events env).

(** The session is within [P] and only heartbeats are queued. *)
Definition within (P : mq_Session → Prop) (st : FwState) : Prop :=
  P (client_session (fw_client st)) ∧ Forall (λ m, m = telemetry) (fw_queue st).

(** The two environments agree on the DNS answer for [host], on the TCP
    connection to the first address of that answer at [port], and on all that
    is not a network answer. *)
Definition same_answers (host : list Z) (port : Z) (env env' : RoundEnv) : Prop :=
  re_produced env = re_produced env' ∧ re_network env = re_network env' ∧
  re_connect_cut env = re_connect_cut env' ∧ re_subscribe_cut env = re_subscribe_cut env' ∧
  re_events env = re_events env' ∧ re_entropy env = re_entropy env' ∧
  match re_dns env, re_dns env' with
  | Elapsed, Elapsed => True
  | InTime query, InTime query' =>
    query host = query' host ∧
    ∀ address rest, query host = Ok (IpV4 address :: rest) →
      re_tcp env address port = re_tcp env' address port
  | _, _ => False
  end.
End Allowed.

(** * The engine's session *)

Section Within.
Context `{M : Minimq} (P : mq_Session → Prop) (topic filter : list Z).
Context (Hkeep : allowed_calls_keep topic filter P).

Lemma produce_within st : within P st → within P (produce st).
Proof.
  intros [HP Hq]. unfold produce. case_match; [|done]. split; [done|].
  apply Forall_app. by split; [|constructor].
Qed.

Lemma produce_iter_within n st : within P st → within P (Nat.iter n produce st).
Proof. intros Hst. induction n as [|n IH]; [done|]. by apply produce_within. Qed.

Lemma produce_rest_within es st : within P st → within P (produce_rest es st).
Proof.
  unfold produce_rest. revert st. induction es as [|e es IH]; intros st Hst; [done|].
  apply IH. by apply produce_iter_within.
Qed.

Lemma receive_within c :
  P (client_session c) → P (client_session (connection_receive c).2).
Proof.
  intros Hc%(keep_recv _ _ _ Hkeep). unfold connection_receive, deliver, settle.
  by destruct (mq_recv _) as [[]].
Qed.

Lemma publish_within t c :
  text_as_str (E := unit) t = Ok topic → P (client_session c) →
  P (client_session (connection_publish t (out_payload telemetry) (out_qos telemetry) c).2).
Proof.
  intros Ht Hc%(keep_publish _ _ _ Hkeep). unfold connection_publish, settle. rewrite Ht.
  cbn in *. by destruct (mq_publish _ _ _ _) as [[|[]|]].
Qed.

Lemma subscribe_within f c :
  text_as_str (E := unit) f = Ok filter → P (client_session c) →
  P (client_session (connection_subscribe f AtLeastOnce c).2).
Proof.
  intros Hf Hc%(keep_subscribe _ _ _ Hkeep). unfold connection_subscribe, settle. rewrite Hf.
  cbn in *. by destruct (mq_subscribe _ _ _).
Qed.

Lemma session_loop_within t events st :
  text_as_str (E := unit) t = Ok topic → Forall (event_within P) events → within P st →
  within P (session_loop t events st).2.
Proof.
  intros Ht Hev. revert st. induction Hev as [|e events He _ IH]; intros st Hst; [done|].
  destruct Hst as [HP Hq] eqn:Heq; clear Heq.
  destruct e as [|s| |during|s|]; cbn [session_loop].
  - by apply IH, produce_within.
  - by apply IH.
  - pose proof (receive_within (fw_client st) HP) as Hr.
    destruct (connection_receive _) as [[m|e|] c]; [by apply IH| |done].
    by apply produce_rest_within.
  - destruct (fw_queue st) as [|m queue] eqn:Hqueue; [by apply IH, produce_iter_within|].
    apply Forall_cons in Hq as [-> Hq].
    destruct (produce_iter_within during (with_queue queue st)) as [HP' Hq']; [done|].
    pose proof (publish_within t _ Ht HP') as Hr.
    destruct (connection_publish _ _ _ _) as [[u|e|] c]; [by apply IH| |done].
    by apply produce_rest_within.
  - destruct (fw_queue st) as [|m queue] eqn:Hqueue; [by apply IH|].
    apply Forall_cons in Hq as [_ Hq]. by apply produce_rest_within.
  - by apply produce_rest_within.
Qed.

Lemma run_mqtt_connection_within resumed t f cut events st :
  text_as_str (E := unit) t = Ok topic → text_as_str (E := unit) f = Ok filter →
  (∀ s, cut = Some s → P s) → Forall (event_within P) events → within P st →
  within P (run_mqtt_connection resumed t f cut events st).2.
Proof.
  intros Ht Hf Hcut Hev [HP Hq]. unfold run_mqtt_connection. destruct resumed.
  { by apply session_loop_within. }
  destruct cut as [s|]; [apply produce_rest_within; split; [by apply Hcut|done]|].
  pose proof (subscribe_within f _ Hf HP) as Hr.
  destruct (connection_subscribe _ _ _) as [[u|e|] c]; [by apply session_loop_within| |done].
  by apply produce_rest_within.
Qed.

Lemma task_backoff_within cause entropy st :
  within P st → within P (task_backoff cause entropy st).2.
Proof. done. Qed.

Lemma finish_session_within entropy e st :
  within P st → within P (finish_session entropy e st).2.
Proof. by destruct e. Qed.

Lemma session_round_within config env st :
  text_as_str (E := unit) (dev_telemetry_topic config) = Ok topic →
  text_as_str (E := unit) (dev_command_filter config) = Ok filter →
  env_within P env → within P st → within P (session_round config env st).2.
Proof.
  intros Ht Hf (Hcc & Hsc & Hev) [HP Hq]. unfold session_round.
  destruct (re_connect_cut env) as [s|]; [split; [by apply Hcc|done]|].
  unfold client_connect. pose proof (keep_connect _ _ _ Hkeep _ HP) as Hc.
  destruct (mq_connect _) as [[event|e|] s]; [|done..].
  destruct event; cbv beta iota zeta;
    (match goal with |- context [run_mqtt_connection ?re ?t ?f ?cu ?ev ?s] =>
       pose proof (run_mqtt_connection_within re t f cu ev s Ht Hf Hsc Hev) as Hr;
       destruct (run_mqtt_connection re t f cu ev s) as [e st'] end);
    apply finish_session_within, Hr; done.
Qed.

Lemma mqtt_round_within config env st :
  text_as_str (E := unit) (dev_telemetry_topic config) = Ok topic →
  text_as_str (E := unit) (dev_command_filter config) = Ok filter →
  env_within P env → within P st → within P (mqtt_round config env st).2.
Proof.
  intros Ht Hf Henv Hst%(produce_iter_within (re_produced env)).
  unfold mqtt_round. destruct (re_network env) as [snapshot|e|]; [|done..].
  destruct (negb _); [done|]. unfold resolve_round.
  destruct (text_as_str (config_hostname _)) as [h| |]; [|done..].
  destruct (re_dns env) as [query|]; [|done].
  destruct (resolve_ipv4 _ _ _) as [[n|e|] addresses]; [|done..].
  unfold transport_round. destruct (index addresses 0) as [address| |]; [|done..].
  destruct (re_tcp env _ _) as [[]|]; [|done..]. by apply session_round_within.
Qed.

Lemma mqtt_task_within config envs st :
  text_as_str (E := unit) (dev_telemetry_topic config) = Ok topic →
  text_as_str (E := unit) (dev_command_filter config) = Ok filter →
  Forall (env_within P) envs → within P st → within P (mqtt_task config envs st).2.
Proof.
  intros Ht Hf Henvs. revert st. induction Henvs as [|env envs Henv _ IH]; intros st Hst; [done|].
  cbn [mqtt_task]. pose proof (mqtt_round_within config env st Ht Hf Henv Hst) as Hr.
  destruct (mqtt_round config env st) as [r st1]. cbn in Hr. specialize (IH st1 Hr).
  destruct r; try done; by destruct (mqtt_task config envs st1).
Qed.
End Within.

(** * The network's answers *)

Section Answers.
Context `{M : Minimq}.

Lemma mqtt_round_answers config env env' host st :
  text_as_str (E := unit) (config_hostname (dev_session config)) = Ok host →
  same_answers host (port_get (config_port (dev_session config))) env env' →
  mqtt_round config env st = mqtt_round config env' st.
Proof.
  intros Hh (Hp & Hn & Hcc & Hsc & Hev & He & Hdns). unfold mqtt_round. rewrite Hp, Hn.
  destruct (re_network env') as [snapshot|e|]; [|done..]. destruct (negb _); [done|].
  unfold resolve_round, transport_round, session_round. rewrite Hh, He, Hcc, Hsc, Hev.
  destruct (re_dns env) as [query|], (re_dns env') as [query'|]; try done.
  destruct Hdns as [Hq Htcp]. rewrite !resolve_ipv4_complete, <-Hq.
  destruct (query host) as [[|[address] rest]|e|]; [done| |done..].
  case_decide; [|done]. cbn. by rewrite (Htcp address rest eq_refl).
Qed.

Lemma mqtt_task_answers config envs envs' host st :
  text_as_str (E := unit) (config_hostname (dev_session config)) = Ok host →
  Forall2 (same_answers host (port_get (config_port (dev_session config)))) envs envs' →
  mqtt_task config envs st = mqtt_task config envs' st.
Proof.
  intros Hh Hsame. revert st. induction Hsame as [|env env' envs envs' He _ IH]; intros st; [done|].
  cbn [mqtt_task]. rewrite (mqtt_round_answers config env env' host st Hh He).
  destruct (mqtt_round config env' st) as [r st1]. by rewrite IH.
Qed.
End Answers.

(** * Properties *)

(** C12: the MQTT task talks to its broker, on its topics, and to nobody else.
    For every valid build, over any engine and any number of rounds: whatever
    property of the engine's session survives connecting, receiving, publishing
    the heartbeat on [embedded-sdk/test/ID/telemetry] and subscribing to
    [embedded-sdk/test/ID/commands] (both at QoS 1) survives the task, and only
    heartbeats are ever queued; and two networks that agree on the address of
    the configured host and on the connection to that address at the configured
    port cannot be told apart, so nothing else is asked of them. *)
Theorem mqtt_traffic_confined `{M : Minimq} (build : BuildEnv) (config : MqttDevelopmentConfig)
    (host port id : list Z) (P : mq_Session → Prop) (envs : list RoundEnv) (session : mq_Session) :
  development_mqtt_config build = Ok (Some config) →
  MQTT_HOST build = Some host → is_str host →
  MQTT_PORT build = Some port → MQTT_CLIENT_ID build = Some id → is_str id →
  allowed_calls_keep (topic_prefix ++ id ++ lit "/telemetry") (topic_prefix ++ id ++ lit "/commands") P →
  Forall (env_within P) envs → P session →
  let st := fw_init {| client_session := session; client_snapshot := mqtt_snapshot_default |} in
  let '(rs, st') := mqtt_task config envs st in
  P (client_session (fw_client st')) ∧ Forall (λ m, m = telemetry) (fw_queue st') ∧
  ∃ p, parse_u 16 port = Some p ∧
    ∀ envs', Forall2 (same_answers host p) envs envs' → mqtt_task config envs' st = (rs, st').
Proof.
  intros Hcfg Hhost Hhs Hport Hid Hids Hkeep Henvs HP st.
  apply development_mqtt_config_inv in Hcfg as
    (h & po & i & p & ? & ? & ? & _ & _ & _ & _ & Hh & _ & Hp & _ & Hcp & _ & Ht & Hf);
    [|intros ? ?; by simplify_eq]. simplify_eq.
  assert (∀ suffix, is_str suffix → is_str (fixture_topic i suffix)) as Hts.
  { intros suffix Hs. apply is_str_app; [vm_compute; by eexists|by apply is_str_app]. }
  assert (text_as_str (E := unit) (dev_telemetry_topic config) = Ok (fixture_topic i (lit "/telemetry"))
    ∧ text_as_str (E := unit) (dev_command_filter config) = Ok (fixture_topic i (lit "/commands")))
    as [Htt Hft].
  { split; (apply text_holds_str; [apply Hts; vm_compute; by eexists|by apply text_new_holds]). }
  assert (text_as_str (E := unit) (config_hostname (dev_session config)) = Ok h) as Hht
    by (apply text_holds_str; [done|by apply text_new_holds]).
  pose proof (mqtt_task_within P _ _ Hkeep config envs st Htt Hft Henvs) as Hw.
  destruct (mqtt_task config envs st) as [rs st'] eqn:Htask.
  destruct Hw as [Hw1 Hw2]; [split; [done|constructor]|]. split_and!; [done..|].
  exists p. split; [done|]. intros envs' Hsame. rewrite <-Htask. symmetry.
  apply (mqtt_task_answers config envs envs' h st Hht). by rewrite Hcp.
Qed.

(** On the loopback engine: every publication in the broker's queue is on the
    telemetry topic. *)
Lemma mqtt_traffic_confined_witness :
  ∃ config id, development_mqtt_config fixture_env = Ok (Some config) ∧
    MQTT_CLIENT_ID fixture_env = Some id ∧
    let '(rs, st) := mqtt_task config
      [fixture_round [EvProduce; EvOutbound 0; EvOutbound 0; EvIpDown]] (fw_init fixture_client) in
    length (client_session (fw_client st)) = 2%nat ∧
    Forall (λ m, mp_topic m = topic_prefix ++ id ++ lit "/telemetry") (client_session (fw_client st)).
Proof.
  destruct (development_mqtt_config fixture_env) as [[config|]|e|] eqn:Hcfg;
    [|by vm_compute in Hcfg..].
  exists config, (lit "xiao-1"). split; [done|]. split; [reflexivity|].
  set (topic := topic_prefix ++ lit "xiao-1" ++ lit "/telemetry").
  set (envs := [_]). set (P := Forall (λ m, mp_topic m = topic)).
  assert (allowed_calls_keep (M := loopback) topic (topic_prefix ++ lit "xiao-1" ++ lit "/commands") P)
    as Hkeep.
  { split; [done| | |done].
    - intros [|m s] Hs; [done|]. by apply Forall_cons in Hs as [_ Hs].
    - intros s Hs. apply Forall_app. split; [done|]. by constructor. }
  assert (length (client_session (fw_client (mqtt_task config envs (fw_init fixture_client)).2)) = 2%nat)
    as Hl by (vm_compute in Hcfg; injection Hcfg as <-; by vm_compute).
  pose proof (mqtt_traffic_confined (M := loopback) fixture_env config (lit "broker.lan") (lit "1883")
    (lit "xiao-1") P envs [] Hcfg eq_refl ltac:(vm_compute; by eexists) eq_refl eq_refl
    ltac:(vm_compute; by eexists) Hkeep ltac:(by repeat constructor) ltac:(constructor)) as Ht.
  cbv zeta in Ht. change (fw_init _) with (fw_init fixture_client) in Ht.
  destruct (mqtt_task config envs (fw_init fixture_client)) as [rs st].
  split; [exact Hl|apply Ht].
Defined.
