(* ===== verification/Sighting.v ===== *)
(** The beacon firmware and the scanner firmware together: what
    [beacon_main] puts on the air, received in any order, among any other
    traffic and any number of times, is the line [print_snapshot] shows.

    The radio link is the hypothesis of the theorem: what the scanner receives
    from the beacon's address is what the beacon broadcasts. *)
From stdpp Require Import prelude list numbers option strings gmap.
From Stdlib Require Import ZArith.
From S2P Require Import Prelude Text Bluetooth Port Advertisement Scanner Beacon BeaconFirmware.
Local Open Scope Z_scope.

(** * Specification *)




(** * Lemmas *)



Section OnAir.
Context {B : Type} `{AdEncoderLaws}.

End OnAir.


(** * The report *)


Section Report.
Context `{TroubleHost} `{SortUnstable}.

End Report.

(** * The registry *)

Section Entry.
Context `{TroubleHost}.




End Entry.

(** * Properties *)


