(* ===== verification/SerialLog.v ===== *)
(** The serial log of the reference firmware: the text every outcome of
    [main], [start_networking] and [supervise_station] prints
    ([firmware/seeed/xiao-esp32c6/src/main.rs]), [ports/espressif/esp32c6]'s
    Bluetooth error, and the [Debug] and [Display] texts of the portable
    crates' bounded strings.

    The last part compares two runs: builds that differ in the Wi-Fi password
    print the same log. *)
From stdpp Require Import prelude list numbers option strings.
From Stdlib Require Import ZArith.
From S2P Require Import Prelude Text Bluetooth Foundation Wifi Networking Mqtt MqttClient Port.
From S2P Require Import FirmwareConfig Firmware HostStd Boot.
Local Open Scope Z_scope.

(** * Debug texts *)

(** [{:?}] of an [Option] of an integer and of [Security]. *)
Definition debug_option (n : option Z) : list Z :=
  match n with Some n => lit "Some(" ++ dec n ++ lit ")" | None => lit "None" end.

Definition security_debug (s : Security) : list Z :=
  match s with
  | SecOpen => lit "Open"
  | SecWep => lit "Wep"
  | SecWpa => lit "Wpa"
  | SecWpa2Personal => lit "Wpa2Personal"
  | SecWpa3Personal => lit "Wpa3Personal"
  | SecEnterprise => lit "Enterprise"
  | SecUnknown => lit "Unknown"
  end.

(** [debug_tuple(name).field(&text).finish()]; [escaped] is the table
    [debug_str] needs. *)
Definition debug_tuple (escaped : Z → bool) (name text : list Z) : list Z :=
  name ++ lit "(" ++ debug_str escaped text ++ lit ")".

(** [impl Debug for Ssid]: text, or the length of one that is not. *)
Definition ssid_debug {E} (escaped : Z → bool) (s : Ssid) : res E (list Z) :=
  text ← ssid_as_str s;
  Ok (match text with
      | Some text => debug_tuple escaped (lit "Ssid") text
      | None => lit "Ssid { len: " ++ dec (ssid_len s) ++ lit ", encoding: "
                ++ debug_str escaped (lit "non-UTF-8") ++ lit " }"
      end).

(** [impl Debug for DeviceName] *)
Definition device_name_debug {E} (escaped : Z → bool) (n : DeviceName) : res E (list Z) :=
  text ← device_name_as_str n; Ok (debug_tuple escaped (lit "DeviceName") text).

(** [bounded_text!]: [Debug] under the type's name, and [Display]. *)
Definition text_debug {E} (escaped : Z → bool) (name : list Z) {S} (t : BoundedText S) :
    res E (list Z) :=
  text ← text_as_str t; Ok (debug_tuple escaped name text).

(** * The log of [main] *)

(** [impl Display for bluetooth::Error]; [display] is the driver error's. *)
Definition bluetooth_port_error_text {B} (display : B → list Z) (e : BluetoothError B) : list Z :=
  match e with Controller error => lit "ESP BLE controller init failed: " ++ display error end.

Section Log.
Context {D W B : Type} `{WifiDriver D W}.

(** [Debug] of the Wi-Fi driver's errors, [Display] of the controller's. *)
Context (wifi_debug : W → list Z) (ble_display : B → list Z).

Definition task_name (t : FirmwareTask (D := D)) : list Z :=
  match t with
  | HeartbeatTask => lit "heartbeat"
  | BluetoothTask _ => lit "bluetooth"
  | NetworkRunnerTask _ => lit "network runner"
  | WifiStationTask _ => lit "wifi station"
  | NetworkMonitorTask _ => lit "network monitor"
  | MqttTask _ => lit "MQTT"
  | MqttTelemetryProducerTask => lit "MQTT producer"
  end.

(** The line each outcome prints; a spawned task prints none. *)
Definition boot_line (o : BootOutput (D := D) (W := W) (B := B)) : option (list Z) :=
  match o with
  | BootBanner board chip =>
    Some (lit "embedded-sdk boot: board=" ++ board ++ lit ", chip=" ++ chip)
  | Spawned _ => None
  | AllocationFailed task =>
    Some (lit "embedded-sdk " ++ task_name task ++ lit " task allocation failed")
  | BluetoothConfigurationFailed error =>
    Some (lit "embedded-sdk bluetooth configuration failed: " ++ bluetooth_error_text error)
  | BluetoothInitFailed error =>
    Some (lit "embedded-sdk bluetooth init failed: " ++ bluetooth_port_error_text ble_display error)
  | WifiInitFailed error =>
    Some (lit "embedded-sdk wifi init failed: " ++ port_error_text wifi_debug error)
  | WifiScan summary =>
    Some (lit "embedded-sdk wifi scan: access_points=" ++ dec (access_points summary)
          ++ lit ", strongest_signal_dbm=" ++ debug_option (strongest_signal_dbm summary))
  | WifiScanFailed error =>
    Some (lit "embedded-sdk wifi scan failed: " ++ port_error_text wifi_debug error)
  | WifiConfigurationFailed error =>
    Some (lit "embedded-sdk wifi configuration failed: " ++ port_error_text wifi_debug error)
  | ProbeConfigurationFailed error =>
    Some (lit "embedded-sdk network probe configuration failed: " ++ error)
  | MqttConfigurationFailed error =>
    Some (lit "embedded-sdk MQTT configuration failed: " ++ error)
  | MqttDisabled => Some (lit "embedded-sdk MQTT disabled")
  | ScanOnlyMode =>
    Some (lit "embedded-sdk wifi station: credentials not configured; scan-only mode")
  | WifiCredentialError error =>
    Some (lit "embedded-sdk wifi credential error: " ++ wifi_error_text error)
  end.

Definition boot_log (out : list BootOutput) : list (list Z) := omap boot_line out.

(** * The log of [supervise_station] *)

(** [supervise_turn] with what it prints. *)
Definition supervise_turn_log (entropy : Z)
    (s : Esp32c6StationController D * Wifi.ReconnectBackoff) :
    res unit (list (list Z) * (Esp32c6StationController D * Wifi.ReconnectBackoff)) :=
  let '(controller, backoff) := s in
  let '(r, controller) := station_connect controller in
  '(lines, controller, backoff) ←
    match r with
    | Ok connected =>
      let backoff := wifi_backoff_reset backoff in
      let '(r, controller) := wait_for_disconnect controller in
      let line := lit "embedded-sdk wifi associated: channel=" ++ dec (cs_channel connected)
                  ++ lit ", security=" ++ security_debug (cs_security connected) in
      match r with
      | Ok _ => Ok ([line; lit "embedded-sdk wifi link lost"], controller, backoff)
      | Err error =>
        Ok ([line; lit "embedded-sdk wifi disconnect wait failed: "
                   ++ port_error_text wifi_debug error], controller, backoff)
      | Panic => Panic
      end
    | Err error =>
      Ok ([lit "embedded-sdk wifi association failed: " ++ port_error_text wifi_debug error],
          controller, backoff)
    | Panic => Panic
    end;
  '(delay, backoff) ← wifi_next_delay_ms backoff entropy;
  Ok (lines ++ [lit "embedded-sdk wifi retry: attempt=" ++ dec (wb_attempts backoff)
                ++ lit ", delay_ms=" ++ dec delay], (controller, backoff)).

Fixpoint supervise_station_log (entropies : list Z)
    (s : Esp32c6StationController D * Wifi.ReconnectBackoff) : res unit (list (list Z)) :=
  match entropies with
  | [] => Ok []
  | e :: entropies =>
    '(lines, s) ← supervise_turn_log e s;
    rest ← supervise_station_log entropies s;
    Ok (lines ++ rest)
  end.

(** The station tasks a boot started. *)
Definition stations (out : list (BootOutput (D := D) (W := W) (B := B))) :
    list (Esp32c6StationController D) :=
  omap (λ o, match o with Spawned (WifiStationTask c) => Some c | _ => None end) out.

(** The log of a boot and of the first turns of its station task. *)
Definition serial_log (entropies : list Z) (env : BootEnv (D := D) (W := W) (B := B)) :
    res unit (list (list Z)) :=
  out ← main env;
  supervised ← mapM (λ c, supervise_station_log entropies (c, wifi_backoff_default)) (stations out);
  Ok (boot_log out ++ concat supervised).
End Log.

(** * Specification *)

(** Two builds that differ in a valid Wi-Fi password only. *)
Definition same_but_password (build1 build2 : BuildEnv) : Prop :=
  (∃ p1 p2, WIFI_PASSWORD build1 = Some p1 ∧ WIFI_PASSWORD build2 = Some p2 ∧
     passphrase_valid p1 = true ∧ passphrase_valid p2 = true) ∧
  WIFI_SSID build1 = WIFI_SSID build2 ∧
  NETWORK_TEST_HOST build1 = NETWORK_TEST_HOST build2 ∧
  NETWORK_TEST_PORT build1 = NETWORK_TEST_PORT build2 ∧
  MQTT_HOST build1 = MQTT_HOST build2 ∧ MQTT_PORT build1 = MQTT_PORT build2 ∧
  MQTT_CLIENT_ID build1 = MQTT_CLIENT_ID build2 ∧
  MQTT_PLAINTEXT_FIXTURE build1 = MQTT_PLAINTEXT_FIXTURE build2 ∧
  MQTT_USERNAME build1 = MQTT_USERNAME build2 ∧ MQTT_PASSWORD build1 = MQTT_PASSWORD build2.

Section Blind.
Context {D W B : Type} `{WifiDriver D W} (R : D → D → Prop).

(** A call of the driver gives the same answer in related states and leaves
    related states. *)
Definition same_call {A} (call1 call2 : res W A * D) : Prop :=
  call1.1 = call2.1 ∧ R call1.2 call2.2.

(** The driver's answers do not show the password it was given. *)
Record driver_blind : Prop := {
  blind_scan d1 d2 n : R d1 d2 → same_call (drv_scan d1 n) (drv_scan d2 n);
  blind_set_config d1 d2 c1 c2 :
    R d1 d2 → esp_ssid c1 = esp_ssid c2 → esp_auth_method c1 = esp_auth_method c2 →
    is_Some (esp_password c1) → is_Some (esp_password c2) →
    same_call (drv_set_config d1 c1) (drv_set_config d2 c2);
  blind_connect d1 d2 : R d1 d2 → same_call (drv_connect d1) (drv_connect d2);
  blind_wait d1 d2 :
    R d1 d2 → same_call (drv_wait_for_disconnect d1) (drv_wait_for_disconnect d2)
}.

Definition station_rel (c1 c2 : Esp32c6StationController D) : Prop :=
  R (sta_controller c1) (sta_controller c2) ∧ sta_state c1 = sta_state c2.

Definition task_rel (t1 t2 : FirmwareTask (D := D)) : Prop :=
  match t1, t2 with
  | WifiStationTask c1, WifiStationTask c2 => station_rel c1 c2
  | _, _ => t1 = t2
  end.

(** Boots that differ in the password and in what the driver made of it. *)
Record boot_rel (env1 env2 : BootEnv (D := D) (W := W) (B := B)) : Prop := {
  rel_build : same_but_password (boot_build env1) (boot_build env2);
  rel_mac : boot_mac env1 = boot_mac env2;
  rel_bluetooth : boot_bluetooth env1 tt = boot_bluetooth env2 tt;
  rel_wifi : res_rel R (boot_wifi env1) (boot_wifi env2);
  rel_random : boot_random env1 = boot_random env2;
  rel_allocates t1 t2 : task_rel t1 t2 → boot_allocates env1 t1 = boot_allocates env2 t2
}.

Definition output_rel (o1 o2 : BootOutput (D := D) (W := W) (B := B)) : Prop :=
  match o1, o2 with
  | Spawned t1, Spawned t2 | AllocationFailed t1, AllocationFailed t2 => task_rel t1 t2
  | _, _ => o1 = o2
  end.
End Blind.

(** * Lemmas *)

(** The logging loop runs the same turns as [supervise_turn]. *)
Lemma supervise_turn_log_state {D W} `{WifiDriver D W} (debug : W → list Z) entropy
    (s : Esp32c6StationController D * Wifi.ReconnectBackoff) :
  snd <$> supervise_turn_log debug entropy s = snd <$> supervise_turn entropy s.
Proof.
  destruct s as [c b]. unfold supervise_turn_log, supervise_turn.
  destruct (station_connect c) as [[st|e|] c1]; [| |done].
  - destruct (wait_for_disconnect c1) as [[u|e|] c2]; [| |done]; cbn [mbind res_bind];
      by destruct (wifi_next_delay_ms _ _) as [[d b']|e'|].
  - cbn [mbind res_bind]. by destruct (wifi_next_delay_ms _ _) as [[d b']|e'|].
Qed.

(** The station settings of two such builds: alike but for the passphrase. *)
Lemma station_config_rel build1 build2 :
  same_but_password build1 build2 →
  res_rel (λ o1 o2, ∃ s1 s2 p1 p2 w1 w2, o1 = Some s1 ∧ o2 = Some s2 ∧
      station_ssid s1 = station_ssid s2 ∧ station_authentication s1 = station_authentication s2 ∧
      station_passphrase s1 = Some p1 ∧ station_passphrase s2 = Some p2 ∧
      passphrase_holds p1 w1 ∧ passphrase_holds p2 w2)
    (development_station_config build1) (development_station_config build2).
Proof.
  intros ((w1 & w2 & Hw1 & Hw2 & Hv1 & Hv2) & Hssid & _).
  unfold development_station_config. rewrite Hw1, Hw2, Hssid.
  destruct (WIFI_SSID build2) as [ssid|]; [|done].
  destruct (passphrase_new_Ok w1 Hv1) as (p1 & -> & Hp1).
  destruct (passphrase_new_Ok w2 Hv2) as (p2 & -> & Hp2).
  destruct (ssid_try_from ssid) as [s|e|]; cbn [mbind res_bind]; [|done..].
  unfold station_personal, validate_ssid. destruct (ssid_is_empty s); cbn; [done|].
  eexists _, _, p1, p2, w1, w2. by split_and!.
Qed.

Section Secret.
Context {D W B : Type} `{WifiDriver D W} (R : D → D → Prop).
Context (Hblind : driver_blind R).

Definition wifi_rel (w1 w2 : Esp32c6Wifi D) : Prop :=
  R (wifi_controller w1) (wifi_controller w2) ∧ wifi_state w1 = wifi_state w2.

Lemma wifi_scan_rel n w1 w2 :
  wifi_rel w1 w2 →
  (wifi_scan n w1).1 = (wifi_scan n w2).1 ∧ wifi_rel (wifi_scan n w1).2 (wifi_scan n w2).2.
Proof.
  intros [Hd _]. destruct (blind_scan _ Hblind _ _ n Hd) as [Hr Hd']. unfold wifi_scan.
  destruct (drv_scan (wifi_controller w1) n) as [r1 d1], (drv_scan (wifi_controller w2) n) as [r2 d2].
  cbn in Hr, Hd'. subst r2. destruct r1 as [ds|e|]; [|done..]. by destruct (convert_discovered ds).
Qed.

Lemma configure_station_rel s1 s2 p1 p2 w1 w2 v1 v2 :
  station_ssid s1 = station_ssid s2 → station_authentication s1 = station_authentication s2 →
  station_passphrase s1 = Some p1 → station_passphrase s2 = Some p2 →
  passphrase_holds p1 v1 → passphrase_holds p2 v2 → wifi_rel w1 w2 →
  (configure_station s1 w1).1 = (configure_station s2 w2).1 ∧
  wifi_rel (configure_station s1 w1).2 (configure_station s2 w2).2.
Proof.
  intros Hssid Hauth Hp1 Hp2 Hv1 Hv2 [Hd Hst]. unfold configure_station, esp_config.
  rewrite Hssid, Hauth, Hp1, Hp2. unfold passphrase_as_str.
  rewrite (inline_view_holds _ _ _ _ _ Hv1), (inline_view_holds _ _ _ _ _ Hv2).
  destruct (ssid_as_str (station_ssid s2)) as [[ssid|]|e|]; cbn; [|done..].
  destruct (map_authentication (station_authentication s2)) as [auth|e|]; cbn; [|done..].
  edestruct (blind_set_config R Hblind _ _
    {| esp_ssid := ssid; esp_auth_method := auth; esp_password := Some (from_utf8_or_empty v1) |}
    {| esp_ssid := ssid; esp_auth_method := auth; esp_password := Some (from_utf8_or_empty v2) |}
    Hd) as [Hr Hd']; [done..|by eexists|by eexists|].
  destruct (drv_set_config (wifi_controller w1) _) as [r1 d1],
    (drv_set_config (wifi_controller w2) _) as [r2 d2].
  cbn in Hr, Hd'. subst r2. by destruct r1 as [[]|e|].
Qed.

Abbreviation outputs_rel := (Forall2 (output_rel R (W := W) (B := B))).

Context (env1 env2 : BootEnv (D := D) (W := W) (B := B)) (Henv : boot_rel R env1 env2).

Lemma spawn_rel t1 t2 : task_rel R t1 t2 → outputs_rel (spawn env1 t1) (spawn env2 t2).
Proof.
  intros Ht. unfold spawn. rewrite (rel_allocates _ _ _ Henv _ _ Ht).
  constructor; [|constructor]. by destruct (boot_allocates env2 t2).
Qed.

Lemma start_networking_rel c1 c2 probe mqtt :
  station_rel R c1 c2 →
  outputs_rel (start_networking env1 c1 probe mqtt) (start_networking env2 c2 probe mqtt).
Proof.
  intros Hc. unfold start_networking. rewrite (rel_random _ _ _ Henv).
  set (runner := NetworkRunnerTask _).
  rewrite (rel_allocates _ _ _ Henv runner runner eq_refl).
  destruct (boot_allocates env2 runner); cbn [negb]; [|by constructor].
  rewrite (rel_allocates _ _ _ Henv (WifiStationTask c1) (WifiStationTask c2) Hc).
  constructor; [done|].
  destruct (boot_allocates env2 (WifiStationTask c2)); cbn [negb]; [|by constructor].
  apply Forall2_app; [by constructor|]. apply Forall2_app; [by apply spawn_rel|].
  destruct mqtt; [apply Forall2_app; by apply spawn_rel|by constructor].
Qed.

Lemma configure_and_start_rel w1 w2 :
  wifi_rel w1 w2 →
  res_rel outputs_rel (configure_and_start env1 w1) (configure_and_start env2 w2).
Proof.
  intros Hw. pose proof (station_config_rel _ _ (rel_build _ _ _ Henv)) as Hcfg.
  destruct (rel_build _ _ _ Henv) as (_ & _ & Hh & Hp & Hmh & Hmp & Hid & Hf & Hu & Hmpw).
  assert (development_network_probe (boot_build env1) = development_network_probe (boot_build env2))
    as Hprobe by (unfold development_network_probe; by rewrite Hh, Hp).
  assert (development_mqtt_config (boot_build env1) = development_mqtt_config (boot_build env2))
    as Hmqtt by (unfold development_mqtt_config; by rewrite Hmh, Hmp, Hid, Hf, Hu, Hmpw).
  unfold configure_and_start. rewrite Hprobe, Hmqtt.
  destruct (development_station_config (boot_build env1)) as [o1|e1|],
    (development_station_config (boot_build env2)) as [o2|e2|]; cbn in Hcfg; try done;
    [|subst e2; by repeat constructor].
  destruct Hcfg as (s1 & s2 & p1 & p2 & v1 & v2 & -> & -> & Hs & Ha & Hp1 & Hp2 & Hv1 & Hv2).
  destruct (configure_station_rel s1 s2 p1 p2 w1 w2 v1 v2) as [Hr Hw']; [done..|].
  destruct (configure_station s1 w1) as [r1 w1'], (configure_station s2 w2) as [r2 w2'].
  cbn [fst snd] in Hr, Hw'. subst r2. destruct r1 as [[]|e|]; [|by repeat constructor|done].
  destruct (development_network_probe (boot_build env2)) as [probe|e|]; [| |exact I];
    (destruct (development_mqtt_config (boot_build env2)) as [mqtt|e'|]; [| |exact I]); cbn [reported mbind res_bind res_rel app];
    repeat (constructor; [done|]); by apply start_networking_rel.
Qed.

Lemma start_wifi_rel : res_rel outputs_rel (start_wifi env1) (start_wifi env2).
Proof.
  unfold start_wifi, esp32c6_wifi_new. pose proof (rel_wifi _ _ _ Henv) as Hwifi.
  destruct (boot_wifi env1) as [d1|e1|], (boot_wifi env2) as [d2|e2|]; cbn in Hwifi; try done;
    cbn [map_err mbind res_bind]; [|subst e2; by repeat constructor].
  set (w1 := {| wifi_controller := d1; wifi_state := WifiReady |}).
  set (w2 := {| wifi_controller := d2; wifi_state := WifiReady |}).
  destruct (wifi_scan_rel 20 w1 w2) as [Hr Hw]; [done|].
  destruct (wifi_scan 20 w1) as [r1 w1'], (wifi_scan 20 w2) as [r2 w2'].
  cbn [fst snd] in Hr, Hw. subst r2.
  destruct r1 as [aps|e|]; [..|done]; cbn [mbind res_bind];
    (eapply res_rel_bind; [by apply configure_and_start_rel|]);
    intros o1 o2 Ho; by constructor.
Qed.

Lemma main_rel : res_rel outputs_rel (main env1) (main env2).
Proof.
  unfold main. destruct (device_name_new BLUETOOTH_DEVICE_NAME) as [name|e|]; [| |done].
  - apply (res_rel_bind outputs_rel).
    { unfold start_bluetooth, bluetooth_new_with_config.
      rewrite (rel_mac _ _ _ Henv), (rel_bluetooth _ _ _ Henv).
      destruct (boot_bluetooth env2 tt); cbn; [by apply spawn_rel|by repeat constructor|done]. }
    intros b1 b2 Hb. apply (res_rel_bind outputs_rel); [apply start_wifi_rel|].
    intros o1 o2 Ho. cbn [res_rel]. constructor; [done|].
    apply Forall2_app; [by apply spawn_rel|]. by apply Forall2_app.
  - cbn [res_rel app]. constructor; [done|]. apply Forall2_app; [by apply spawn_rel|].
    by repeat constructor.
Qed.

(** The station tasks behave alike. *)
Context (wifi_debug : W → list Z) (ble_display : B → list Z).

Lemma station_connect_rel c1 c2 :
  station_rel R c1 c2 →
  (station_connect c1).1 = (station_connect c2).1 ∧
  station_rel R (station_connect c1).2 (station_connect c2).2.
Proof.
  intros [Hd _]. destruct (blind_connect _ Hblind _ _ Hd) as [Hr Hd']. unfold station_connect.
  destruct (drv_connect (sta_controller c1)) as [r1 d1], (drv_connect (sta_controller c2)) as [r2 d2].
  cbn in Hr, Hd'. subst r2. by destruct r1.
Qed.

Lemma wait_for_disconnect_rel c1 c2 :
  station_rel R c1 c2 →
  (wait_for_disconnect c1).1 = (wait_for_disconnect c2).1 ∧
  station_rel R (wait_for_disconnect c1).2 (wait_for_disconnect c2).2.
Proof.
  intros [Hd Hs]. destruct (blind_wait _ Hblind _ _ Hd) as [Hr Hd']. unfold wait_for_disconnect.
  destruct (drv_wait_for_disconnect (sta_controller c1)) as [r1 d1],
    (drv_wait_for_disconnect (sta_controller c2)) as [r2 d2].
  cbn in Hr, Hd'. subst r2. by destruct r1.
Qed.

Definition supervised_rel (x1 x2 : list (list Z) * (Esp32c6StationController D * Wifi.ReconnectBackoff)) :
    Prop := x1.1 = x2.1 ∧ station_rel R x1.2.1 x2.2.1 ∧ x1.2.2 = x2.2.2.

Lemma supervise_turn_log_rel entropy c1 c2 b :
  station_rel R c1 c2 →
  res_rel supervised_rel (supervise_turn_log wifi_debug entropy (c1, b))
    (supervise_turn_log wifi_debug entropy (c2, b)).
Proof.
  intros Hc. unfold supervise_turn_log. destruct (station_connect_rel c1 c2 Hc) as [Hr Hc'].
  destruct (station_connect c1) as [r1 c1'], (station_connect c2) as [r2 c2'].
  cbn [fst snd] in Hr, Hc'. subst r2. destruct r1 as [st|e|]; [| |done].
  - destruct (wait_for_disconnect_rel c1' c2' Hc') as [Hr Hc''].
    destruct (wait_for_disconnect c1') as [r1 d1], (wait_for_disconnect c2') as [r2 d2].
    cbn [fst snd] in Hr, Hc''. subst r2. destruct r1 as [u|e|]; [| |done]; cbn [mbind res_bind];
      destruct (wifi_next_delay_ms _ entropy) as [[d b']|e'|]; by cbn.
  - cbn [mbind res_bind]. destruct (wifi_next_delay_ms _ entropy) as [[d b']|e'|]; by cbn.
Qed.

Lemma supervise_station_log_rel entropies c1 c2 b :
  station_rel R c1 c2 →
  supervise_station_log wifi_debug entropies (c1, b) =
  supervise_station_log wifi_debug entropies (c2, b).
Proof.
  revert c1 c2 b. induction entropies as [|e entropies IH]; intros c1 c2 b Hc; [done|].
  cbn [supervise_station_log]. apply res_rel_eq.
  apply (res_rel_bind supervised_rel); [by apply supervise_turn_log_rel|].
  intros [l1 [c1' b1]] [l2 [c2' b2]] (Hl & Hc' & Hb). cbn in Hl, Hc', Hb. subst l2 b2.
  apply res_rel_eq. by rewrite (IH c1' c2' b1 Hc').
Qed.

Lemma boot_line_rel o1 o2 :
  output_rel R (W := W) (B := B) o1 o2 →
  boot_line wifi_debug ble_display o1 = boot_line wifi_debug ble_display o2.
Proof.
  destruct o1, o2; cbn; try done; try (intros Heq; by simplify_eq).
  destruct task, task0; cbn; intros Heq; by simplify_eq.
Qed.

Lemma boot_log_rel out1 out2 :
  outputs_rel out1 out2 → boot_log wifi_debug ble_display out1 = boot_log wifi_debug ble_display out2.
Proof.
  unfold boot_log. induction 1 as [|o1 o2 out1 out2 Ho _ IH]; [done|]. csimpl.
  rewrite (boot_line_rel o1 o2 Ho). by destruct (boot_line _ _ o2); rewrite ?IH.
Qed.

Lemma stations_rel out1 out2 :
  outputs_rel out1 out2 → Forall2 (station_rel R) (stations out1) (stations out2).
Proof.
  unfold stations. induction 1 as [|o1 o2 out1 out2 Ho _ IH]; [done|]. csimpl.
  destruct o1 as [| [] | [] | | | | | | | | | | |], o2 as [| [] | [] | | | | | | | | | | |];
    cbn in Ho; try done. by constructor.
Qed.
End Secret.

(** * Properties *)

(** C8: the serial log does not show the Wi-Fi password. Take two builds that
    differ in a valid password only, on boards whose chip, task pools and random
    words are the same, over any driver whose own answers do not show the
    password it was given: booting them and running their station tasks for any
    number of turns prints the same lines, error reports and retry delays
    included. *)
Theorem serial_log_keeps_password {D W B} `{WifiDriver D W} (R : D → D → Prop)
    (wifi_debug : W → list Z) (ble_display : B → list Z) (entropies : list Z)
    (env1 env2 : BootEnv (D := D) (W := W) (B := B)) :
  driver_blind R → boot_rel R env1 env2 →
  serial_log wifi_debug ble_display entropies env1 = serial_log wifi_debug ble_display entropies env2.
Proof.
  intros Hblind Henv. unfold serial_log. apply res_rel_eq.
  eapply res_rel_bind; [by apply main_rel|]. intros out1 out2 Hout.
  rewrite (boot_log_rel R wifi_debug ble_display out1 out2 Hout).
  assert (mapM (λ c, supervise_station_log wifi_debug entropies (c, wifi_backoff_default)) (stations out1)
    = mapM (λ c, supervise_station_log wifi_debug entropies (c, wifi_backoff_default)) (stations out2))
    as ->; [|by apply res_rel_eq].
  induction (stations_rel R out1 out2 Hout) as [|c1 c2 l1 l2 Hc _ IH]; [done|].
  cbn. by rewrite (supervise_station_log_rel R Hblind wifi_debug entropies c1 c2 _ Hc), IH.
Qed.

(** A driver that keeps the password it was given, and otherwise counts calls. *)
Definition keeping : WifiDriver (nat * option (list Z)) unit := {|
  drv_scan d n := let '(r, k) := drv_scan (WifiDriver := toggling) d.1 n in (r, (k, d.2));
  drv_set_config d c := (Ok tt, (S d.1, esp_password c));
  drv_connect d := let '(r, k) := drv_connect (WifiDriver := toggling) d.1 in (r, (k, d.2));
  drv_wait_for_disconnect d := (Ok tt, (S d.1, d.2))
|}.

(** A build with another password, booted on that driver. *)
Definition keeping_boot (password : list Z) :
    BootEnv (D := nat * option (list Z)) (W := unit) (B := unit) :=
  {| boot_build :=
       {| WIFI_SSID := WIFI_SSID fixture_env; WIFI_PASSWORD := Some password;
          NETWORK_TEST_HOST := None; NETWORK_TEST_PORT := None; MQTT_HOST := None;
          MQTT_PORT := None; MQTT_CLIENT_ID := None; MQTT_PLAINTEXT_FIXTURE := None;
          MQTT_USERNAME := None; MQTT_PASSWORD := None |};
     boot_mac := [0x10; 2; 3; 4; 5; 6]; boot_bluetooth := λ _, Ok tt;
     boot_wifi := Ok (0%nat, None); boot_random := (1, 2); boot_allocates := λ _, true |}.

Lemma serial_log_keeps_password_witness :
  let log p := serial_log (H := keeping) (λ _, []) (λ _, []) [0; 7; 9] (keeping_boot p) in
  log (lit "correct horse") = log (lit "battery staple") ∧ is_ok (log (lit "correct horse")).
Proof.
  intros log. split.
  - apply (serial_log_keeps_password (H := keeping) (λ d1 d2, d1.1 = d2.1)).
    + split; unfold same_call.
      * intros [k1 p1] [k2 p2] n ?. cbn in *. subst. by destruct (drv_scan k2 n).
      * intros [k1 p1] [k2 p2] c1 c2 ? _ _ _ _. cbn in *. by subst.
      * intros [k1 p1] [k2 p2] ?. cbn in *. subst. by destruct (drv_connect k2).
      * intros [k1 p1] [k2 p2] ?. cbn in *. by subst.
    + split; try done. split; [|done]. by eexists _, _.
  - vm_compute. by eexists.
Defined.
