(* ===== verification/PowerLoss.v ===== *)
(** [crates/storage] across restarts: a firmware opens a [SequentialStore] over
    a range of the flash, calls it, and ends by releasing the flash
    ([into_flash]) or by losing power, or cancelling the future, in the middle
    of a call; then it starts again on what the flash holds.

    [run_lives] is a sequence of such lives.  Its abstract machine is that of
    [Storage] with one more step, [kv_spec_cut]: a call that is cut short. *)
From stdpp Require Import prelude list numbers option gmap.
From Stdlib Require Import ZArith.
From S2P Require Import Prelude Storage.
Local Open Scope Z_scope.

(** * What the engine promises *)

(** The flashes that each call can leave when it is cut short, and the
    documentation of [sequential_storage]: "power-fail safe" storing, reads
    that change no record, and an erase that promises nothing. *)
Class PowerFailSafe (F M E : Type) `{MapEngineLaws F M E} : Type := {
  me_cut_fetch : nat → Z → M → F → Prop;
  me_cut_store : ∀ {V : Type}, (V → list Z → res SerializationError (nat * list Z)) →
    nat → Z → V → M → F → Prop;
  me_cut_erase : M → F → Prop;
  me_cut_fetch_spec : ∀ scratch key m flash, me_cut_fetch scratch key m flash →
    me_capacity flash = me_capacity (me_flash m) ∧
    me_contents flash (me_range m).1 (me_range m).2 = me_view m;
  me_cut_store_spec : ∀ {V} (ser : V → list Z → res SerializationError (nat * list Z))
      scratch key v m flash, me_cut_store ser scratch key v m flash →
    me_capacity flash = me_capacity (me_flash m) ∧
    (me_contents flash (me_range m).1 (me_range m).2 = me_view m ∨
     ∃ bytes, encoded ser scratch v bytes ∧
       me_contents flash (me_range m).1 (me_range m).2 = <[key := bytes]> (me_view m));
  me_cut_erase_spec : ∀ m flash, me_cut_erase m flash →
    me_capacity flash = me_capacity (me_flash m)
}.

(** * Lives of a firmware *)

Inductive life_end (F : Type) : Type :=
  | Released
  | CutDuring (op : kv_op) (flash : F).   (** what the flash then holds *)
Arguments Released {F}.
Arguments CutDuring {F} op flash.

Record life (F : Type) : Type := { life_ops : list kv_op; life_end_of : life_end F }.
Arguments life_ops {F} _.
Arguments life_end_of {F} _.
Arguments Build_life {F} _ _.

Section Lives.
Context {F M E : Type} `{MapEngine F M E} (SCRATCH : nat) (first last : Z).

Definition life_flash (l : life F) (s : SequentialStore M) : F :=
  match life_end_of l with Released => into_flash s | CutDuring _ flash => flash end.

Definition run_life (l : life F) (flash : F) :
    res ConfigError (list (kv_out (Error E)) * F) :=
  s ← sequential_store_new SCRATCH flash first last;
  let '(os, s) := @kv_run _ _ (sequential_kv SCRATCH) (life_ops l) s in
  Ok (os, life_flash l s).

Fixpoint run_lives (ls : list (life F)) (flash : F) :
    res ConfigError (list (list (kv_out (Error E))) * F) :=
  match ls with
  | [] => Ok ([], flash)
  | l :: ls =>
    '(os, flash) ← run_life l flash;
    '(oss, flash) ← run_lives ls flash;
    Ok (os :: oss, flash)
  end.
End Lives.

Section Cuts.
Context {F M E : Type} `{PowerFailSafe F M E} (SCRATCH : nat) (first last : Z).

(** The flashes a call on the store can be cut at; a value that is too large is
    refused before the engine is asked. *)
Definition cut_possible (op : kv_op) (s : SequentialStore M) (flash : F) : Prop :=
  match op with
  | KvGet key _ => me_cut_fetch SCRATCH (key_to_raw key) (store_map s) flash
  | KvPut key value =>
    if (MAX_VALUE_SIZE SCRATCH <? length value)%nat then flash = into_flash s
    else me_cut_store serialize_into SCRATCH (key_to_raw key) (Live value) (store_map s) flash
  | KvDelete key =>
    me_cut_store serialize_into SCRATCH (key_to_raw key) Tombstone (store_map s) flash
  | KvClear => me_cut_erase (store_map s) flash
  end.

Fixpoint lives_possible (ls : list (life F)) (flash : F) : Prop :=
  match ls with
  | [] => True
  | l :: ls =>
    match sequential_store_new SCRATCH flash first last with
    | Ok s =>
      let s' := (@kv_run _ _ (sequential_kv SCRATCH) (life_ops l) s).2 in
      match life_end_of l with
      | Released => True
      | CutDuring op flash => cut_possible op s' flash
      end ∧ lives_possible ls (life_flash l s')
    | _ => True
    end
  end.
End Cuts.

(** * Specification *)

Definition life_wf {F} (l : life F) : Prop :=
  Forall kv_op_wf (life_ops l) ∧
  match life_end_of l with Released => True | CutDuring op _ => kv_op_wf op end.

(** The documentation of the trait: a mutation that is cut short leaves the
    complete old or the complete new value; a [clear] leaves the region
    undefined until the next complete one. *)
Inductive kv_spec_cut (limit : nat) : kv_state → kv_op → kv_state → Prop :=
  | cut_get a key output : kv_spec_cut limit a (KvGet key output) a
  | cut_put_large a key value :
    (limit < length value)%nat → kv_spec_cut limit a (KvPut key value) a
  | cut_put a a' key value :
    (length value ≤ limit)%nat → a' = a ∨ a' = <[key := value]> a →
    kv_spec_cut limit (Some a) (KvPut key value) (Some a')
  | cut_delete a a' key :
    a' = a ∨ a' = delete key a → kv_spec_cut limit (Some a) (KvDelete key) (Some a')
  | cut_clear a : kv_spec_cut limit a KvClear None
  | cut_undefined op : kv_spec_cut limit None op None.

Inductive kv_spec_lives {F E} (limit : nat) :
    kv_state → list (life F) → list (list (kv_out (Error E))) → kv_state → Prop :=
  | spec_lives_nil a : kv_spec_lives limit a [] [] a
  | spec_lives_released a a1 a2 ops ls os oss :
    kv_spec_run limit a ops os a1 → kv_spec_lives limit a1 ls oss a2 →
    kv_spec_lives limit a (Build_life ops Released :: ls) (os :: oss) a2
  | spec_lives_cut a a1 a2 a3 ops op flash ls os oss :
    kv_spec_run limit a ops os a1 → kv_spec_cut limit a1 op a2 →
    kv_spec_lives limit a2 ls oss a3 →
    kv_spec_lives limit a (Build_life ops (CutDuring op flash) :: ls) (os :: oss) a3.

(** The call does not write [key]. *)
Definition leaves (key : Key) (op : kv_op) : Prop :=
  match op with
  | KvGet _ _ => True
  | KvPut key' _ | KvDelete key' => key' ≠ key
  | KvClear => False
  end.

Definition life_leaves {F} (key : Key) (l : life F) : Prop :=
  Forall (leaves key) (life_ops l) ∧
  match life_end_of l with Released => True | CutDuring op _ => leaves key op end.

(** * The engine in memory *)

(** A cut store has happened or not; a cut erase leaves any records. *)
#[export] Instance ram_power_fail_safe : PowerFailSafe ram_flash ram_map unit.
Proof.
  refine {|
    me_cut_fetch _ _ m flash := flash = me_flash m;
    me_cut_store V ser scratch key v m flash :=
      flash = me_flash m ∨ flash = me_flash (me_store_item ser scratch key v m).2;
    me_cut_erase m flash := me_capacity flash = me_capacity (me_flash m) |}.
  - by intros scratch key m flash ->.
  - intros V ser scratch key v m flash [->| ->]; [by auto|].
    pose proof (me_store_spec ser scratch key v m) as Hs.
    pose proof (me_store_region ser scratch key v m) as [Hrange Hcap].
    destruct (me_store_item ser scratch key v m) as [r m']. cbn in Hrange, Hcap |- *.
    split; [done|]. destruct r; naive_solver.
  - done.
Defined.

(** A run on that engine: a value is written, read, and replaced by a write
    that the power loss catches after its record is stored; a second life reads
    the new value and loses power before a write of another key is stored. *)
Definition fresh_flash : ram_flash :=
  {| ram_capacity := 1024; ram_records := ∅; ram_faults := [] |}.

(** What the flash holds after complete calls. *)
Definition after_calls (ops : list kv_op) (flash : ram_flash) : ram_flash :=
  into_flash (E := unit)
    (@kv_run _ _ (sequential_kv (F := ram_flash) 64) ops
       (Build_SequentialStore (me_new (E := unit) flash 0 1024))).2.

Definition interrupted_lives : list (life ram_flash) :=
  let k := key_new 1 2 in
  let first_ops := [KvPut k [7; 8]; KvGet k [0; 0; 0]] in
  let flash := after_calls (first_ops ++ [KvPut k [9]]) fresh_flash in
  [ Build_life first_ops (CutDuring (KvPut k [9]) flash);
    Build_life [KvGet k [0; 0]] (CutDuring (KvPut (key_new 1 3) [1]) flash);
    Build_life [KvGet k []; KvGet (key_new 1 3) [5]] Released ].

(** * Lemmas *)

Section Refinement.
Context {F M E : Type} `{PowerFailSafe F M E} (SCRATCH : nat) (first last : Z).

(** The store owns the range of a flash of the given capacity. *)
Definition owns (capacity : Z) (s : SequentialStore M) : Prop :=
  store_range s = (first, last) ∧ me_capacity (into_flash s) = capacity.

Lemma same_region_owns capacity (m m' : M) :
  same_region m m' → owns capacity (Build_SequentialStore m) →
  owns capacity (Build_SequentialStore m').
Proof. unfold owns, store_range, into_flash. cbn. intros [-> ->]. done. Qed.

Lemma kv_call_owns capacity op (s : SequentialStore M) :
  owns capacity s → owns capacity (@kv_call _ _ (sequential_kv SCRATCH) op s).2.
Proof.
  intros Hs. destruct s as [m]. destruct op as [key output|key value|key|]; cbn.
  - unfold store_get. pose proof (me_fetch_region deserialize_from SCRATCH (key_to_raw key) m) as Hr.
    cbn [store_map]. destruct (me_fetch_item _ _ _ _) as [r m'].
    apply (same_region_owns capacity) in Hr; [|done]. cbn in Hr.
    destruct r as [[[v|]|]|e|]; simpl; [|done..].
    destruct (length output <? length v)%nat; [done|]. by destruct (copy_prefix _ _).
  - unfold store_put. destruct (MAX_VALUE_SIZE SCRATCH <? length value)%nat; [done|].
    pose proof (me_store_region serialize_into SCRATCH (key_to_raw key) (Live value) m) as Hr.
    cbn [store_map]. destruct (me_store_item _ _ _ _ _). by apply (same_region_owns capacity) in Hr.
  - unfold store_delete.
    pose proof (me_store_region serialize_into SCRATCH (key_to_raw key) Tombstone m) as Hr.
    cbn [store_map]. destruct (me_store_item _ _ _ _ _). by apply (same_region_owns capacity) in Hr.
  - unfold store_clear. pose proof (me_erase_region m) as Hr.
    cbn [store_map]. destruct (me_erase_all _). by apply (same_region_owns capacity) in Hr.
Qed.

Lemma kv_run_owns capacity ops (s : SequentialStore M) :
  owns capacity s → owns capacity (@kv_run _ _ (sequential_kv SCRATCH) ops s).2.
Proof.
  revert s. induction ops as [|op ops IH]; intros s Hs; [done|]. cbn.
  pose proof (kv_call_owns capacity op s Hs) as Hc. destruct (kv_call op s) as [o s1].
  specialize (IH s1 Hc). by destruct (kv_run ops s1).
Qed.

(** The range is one that [new] accepts on a flash of this capacity. *)
Definition range_ok (capacity : Z) : Prop :=
  (ENCODING_OVERHEAD ≤ SCRATCH)%nat ∧ first ≤ last ≤ capacity ∧ me_try_config first last = Ok tt.

Lemma sequential_store_new_Ok (flash : F) (s : SequentialStore M) :
  sequential_store_new SCRATCH flash first last = Ok s →
  range_ok (me_capacity flash) ∧ s = Build_SequentialStore (me_new flash first last).
Proof.
  unfold sequential_store_new, range_ok. case_match eqn:Hn; [done|]. apply Nat.ltb_ge in Hn.
  case_match eqn:Hr; [done|]. apply orb_false_iff in Hr as [Hle Hcap].
  apply Z.ltb_ge in Hle, Hcap. intros ([] & Hc%map_err_Ok_iff & [= <-])%bind_Ok_iff. auto.
Qed.

Lemma range_ok_new (flash : F) :
  range_ok (me_capacity flash) →
  sequential_store_new SCRATCH flash first last
  = Ok (Build_SequentialStore (me_new flash first last)).
Proof.
  intros (Hn & Hr & Hc). unfold sequential_store_new.
  destruct (Nat.ltb_spec SCRATCH ENCODING_OVERHEAD); [lia|].
  destruct (Z.ltb_spec last first); [lia|].
  destruct (Z.ltb_spec (me_capacity flash) last); [lia|]. cbn. by rewrite Hc.
Qed.

Lemma represents_flash a (s : SequentialStore M) capacity :
  owns capacity s → represents a s ↔ represented a (me_contents (into_flash s) first last).
Proof. unfold owns, store_range, represents, view_of, into_flash. by intros [-> _]. Qed.

Lemma new_owns (flash : F) :
  range_ok (me_capacity flash) →
  let s := Build_SequentialStore (me_new flash first last) in
  owns (me_capacity flash) s ∧ into_flash s = flash.
Proof.
  intros (_ & _ & Hc). destruct (me_new_spec flash first last Hc) as [Hf Hr].
  unfold owns, store_range, into_flash. cbn. by rewrite Hf, Hr.
Qed.

Lemma cut_store_cases a key v (s : SequentialStore M) flash capacity :
  key_wf key → owns capacity s → represents (Some a) s →
  me_cut_store serialize_into SCRATCH (key_to_raw key) v (store_map s) flash →
  me_capacity flash = capacity ∧
  ∃ a', (a' = a ∨ a' = match v with Live x => <[key := x]> a | Tombstone => delete key a end) ∧
    represented (Some a') (me_contents flash first last).
Proof.
  intros Hk [Hrange Hcap] Ha Hcut. destruct s as [m]. unfold store_range, into_flash in *.
  cbn in *. apply me_cut_store_spec in Hcut as [-> Hcut]. split; [done|].
  rewrite Hrange in Hcut. destruct Hcut as [Hv|(bytes & ->%encoded_value & Hv)].
  - exists a. split; [by left|]. unfold represents in Ha. cbn -[represented] in Ha |- *.
    cbn [fst snd] in Hv. by rewrite Hv.
  - eexists. split; [by right|]. cbn [fst snd] in Hv. rewrite Hv.
    by apply represented_insert.
Qed.

Lemma cut_refines a op (s : SequentialStore M) flash capacity :
  kv_op_wf op → owns capacity s → represents a s → cut_possible SCRATCH op s flash →
  me_capacity flash = capacity ∧
  ∃ a', kv_spec_cut (MAX_VALUE_SIZE SCRATCH) a op a' ∧
    represented a' (me_contents flash first last).
Proof.
  intros Hop Hs Ha Hcut. pose proof Hs as [Hrange Hcap].
  unfold store_range, into_flash in Hrange, Hcap. destruct op as [key output|key value|key|];
    cbn [cut_possible] in Hcut.
  - apply me_cut_fetch_spec in Hcut as [Hc Hv]. rewrite Hc. split; [done|].
    exists a. split; [constructor|]. rewrite Hrange in Hv. cbn [fst snd] in Hv. by rewrite Hv.
  - destruct (Nat.ltb_spec (MAX_VALUE_SIZE SCRATCH) (length value)).
    { subst flash. split; [done|]. exists a. split; [by constructor|].
      by eapply (represents_flash a s). }
    destruct a as [a|].
    + destruct (cut_store_cases a key (Live value) s flash capacity Hop Hs Ha Hcut)
        as (? & a' & ? & ?). split; [done|]. exists (Some a'). by split; [constructor|].
    + apply me_cut_store_spec in Hcut as [Hc _]. rewrite Hc. split; [done|].
      exists None. by split; [constructor|].
  - destruct a as [a|].
    + destruct (cut_store_cases a key Tombstone s flash capacity Hop Hs Ha Hcut)
        as (? & a' & ? & ?). split; [done|]. exists (Some a'). by split; [constructor|].
    + apply me_cut_store_spec in Hcut as [Hc _]. rewrite Hc. split; [done|].
      exists None. by split; [constructor|].
  - apply me_cut_erase_spec in Hcut as Hc. rewrite Hc. split; [done|].
    exists None. by split; [constructor|].
Qed.

(** One life: what the calls answer, how it ends, and that the next one can
    start. *)
Lemma life_refines a (l : life F) (flash : F) :
  range_ok (me_capacity flash) → life_wf l → represented a (me_contents flash first last) →
  lives_possible SCRATCH first last [l] flash →
  ∃ os flash' a', run_life SCRATCH first last l flash = Ok (os, flash') ∧
    me_capacity flash' = me_capacity flash ∧
    represented a' (me_contents flash' first last) ∧
    (∀ ls oss a2, kv_spec_lives (MAX_VALUE_SIZE SCRATCH) a' ls oss a2 →
       kv_spec_lives (MAX_VALUE_SIZE SCRATCH) a (l :: ls) (os :: oss) a2).
Proof.
  intros Hok [Hops Hend] Ha. destruct (new_owns flash Hok) as [Hown Hflash].
  cbn [lives_possible]. unfold run_life. rewrite (range_ok_new flash Hok).
  set (s := Build_SequentialStore _) in *. intros [Hcut _]. cbn [mbind res_bind].
  assert (represents a s) as Has by (rewrite (represents_flash a s _ Hown); by rewrite Hflash).
  pose proof (store_run_refines SCRATCH a (life_ops l) s Hops Has) as Hrun.
  pose proof (kv_run_owns _ (life_ops l) s Hown) as Hown'.
  destruct (kv_run (life_ops l) s) as [os s']. destruct Hrun as (a1 & Hrun & Ha1).
  cbn [snd] in Hcut, Hown'. destruct l as [ops [|op flash']]; cbn in *.
  - exists os, (into_flash s'), a1. split_and!; [done|apply Hown'| |].
    + by eapply represents_flash.
    + intros. by econstructor.
  - destruct (cut_refines a1 op s' flash' _ Hend Hown' Ha1 Hcut) as (Hc & a2 & Hs & Ha2).
    exists os, flash', a2. split_and!; [done..|]. intros. by econstructor.
Qed.

Lemma lives_possible_cons (l : life F) ls flash :
  lives_possible SCRATCH first last (l :: ls) flash →
  lives_possible SCRATCH first last [l] flash ∧
  ∀ os flash', run_life SCRATCH first last l flash = Ok (os, flash') →
    lives_possible SCRATCH first last ls flash'.
Proof.
  cbn [lives_possible]. unfold run_life. destruct (sequential_store_new _ _ _ _) as [s|e|]; [|done..].
  cbn [mbind res_bind]. destruct (kv_run (life_ops l) s) as [os s']. cbn [snd].
  intros [Hcut Hls]. split; [done|]. by intros os' flash' [= _ <-].
Qed.

Lemma lives_refine ls : ∀ a (flash : F),
  range_ok (me_capacity flash) → Forall life_wf ls →
  represented a (me_contents flash first last) → lives_possible SCRATCH first last ls flash →
  ∃ oss flash' a', run_lives SCRATCH first last ls flash = Ok (oss, flash') ∧
    kv_spec_lives (MAX_VALUE_SIZE SCRATCH) a ls oss a' ∧
    me_capacity flash' = me_capacity flash ∧ represented a' (me_contents flash' first last).
Proof.
  induction ls as [|l ls IH]; intros a flash Hok Hwf Ha Hp.
  { exists [], flash, a. split_and!; [done|constructor|done..]. }
  apply Forall_cons in Hwf as [Hl Hls]. apply lives_possible_cons in Hp as [Hp1 Hp].
  destruct (life_refines a l flash Hok Hl Ha Hp1) as (os & flash1 & a1 & Hrun & Hc & Ha1 & Hspec).
  cbn [run_lives]. rewrite Hrun. cbn [mbind res_bind].
  destruct (IH a1 flash1) as (oss & flash2 & a2 & -> & Hs2 & Hc2 & Ha2);
    [by rewrite Hc|done|done|by eapply Hp|].
  exists (os :: oss), flash2, a2. cbn. split_and!; [done|by apply Hspec|by rewrite Hc2|done].
Qed.
End Refinement.

(** ** A key nobody writes *)

Lemma kv_spec_step_leaves {E} limit key a op (o : kv_out (Error E)) a' :
  kv_spec_step limit (Some a) op o a' → leaves key op →
  ∃ a1, a' = Some a1 ∧ a1 !! key = a !! key.
Proof.
  intros Hstep Hl. inversion Hstep; subst; cbn in Hl; try done; try by eexists.
  all: repeat match goal with H : _ ∨ _ |- _ => destruct H as [->| ->] end;
    eexists; (split; [done|]); by rewrite ?lookup_insert_ne, ?lookup_delete_ne by done.
Qed.

Lemma kv_spec_run_leaves {E} limit key a ops (os : list (kv_out (Error E))) a' :
  kv_spec_run limit (Some a) ops os a' → Forall (leaves key) ops →
  ∃ a1, a' = Some a1 ∧ a1 !! key = a !! key.
Proof.
  remember (Some a) as sa eqn:Hsa. intros Hrun. revert a Hsa.
  induction Hrun as [|s1 s2 s3 op o ops os Hstep Hrun IH]; intros a -> Hl; [by eexists|].
  apply Forall_cons in Hl as [Hop Hl].
  destruct (kv_spec_step_leaves _ _ _ _ _ _ Hstep Hop) as (a1 & -> & <-). by apply IH.
Qed.

Lemma kv_spec_cut_leaves limit key a op a' :
  kv_spec_cut limit (Some a) op a' → leaves key op → ∃ a1, a' = Some a1 ∧ a1 !! key = a !! key.
Proof.
  intros Hstep Hl. inversion Hstep; subst; cbn in Hl; try done; try by eexists.
  all: repeat match goal with H : _ ∨ _ |- _ => destruct H as [->| ->] end;
    eexists; (split; [done|]); by rewrite ?lookup_insert_ne, ?lookup_delete_ne by done.
Qed.

Lemma kv_spec_lives_leaves {F E} limit key a (ls : list (life F)) (oss : list (list (kv_out (Error E)))) a' :
  kv_spec_lives limit (Some a) ls oss a' → Forall (life_leaves key) ls →
  ∃ a1, a' = Some a1 ∧ a1 !! key = a !! key.
Proof.
  remember (Some a) as sa eqn:Hsa. intros Hrun. revert a Hsa.
  induction Hrun as [|? a1 ? ? ? ? ? Hrun _ IH|? a1 a2 ? ? ? ? ? ? ? Hrun Hcut _ IH];
    intros c -> Hl; [by eexists|..]; apply Forall_cons in Hl as [[Hops Hend] Hl]; cbn in *.
  - destruct (kv_spec_run_leaves _ _ _ _ _ _ Hrun Hops) as (a1' & -> & <-). by apply IH.
  - destruct (kv_spec_run_leaves _ _ _ _ _ _ Hrun Hops) as (a1' & -> & <-).
    destruct (kv_spec_cut_leaves _ _ _ _ _ Hcut Hend) as (a2' & -> & <-). by apply IH.
Qed.

(** What a call that succeeds writes, and what a later [get] may show of it. *)
Definition written (op : kv_op) : option (Key * option (list Z)) :=
  match op with
  | KvPut key value => Some (key, Some value)
  | KvDelete key => Some (key, None)
  | _ => None
  end.

Definition get_shows {E} (w : option (list Z)) (output : list Z) (r : res (Error E) Fetch)
    (output' : list Z) : Prop :=
  match r with
  | Ok (Found n) => ∃ value, w = Some value ∧ n = length value ∧ output' = value ++ drop n output
  | Ok NotFound => w = None ∧ output' = output
  | Err (BufferTooSmall n) =>
    ∃ value, w = Some value ∧ n = length value ∧ (length output < n)%nat ∧ output' = output
  | Err _ => output' = output
  | Panic => False
  end.

Lemma kv_spec_step_get {E} limit a key output (r : res (Error E) Fetch) output' a' :
  kv_spec_step limit (Some a) (KvGet key output) (OutGet r output') a' →
  get_shows (a !! key) output r output'.
Proof.
  intros Hstep. inversion Hstep as [| | |? ? ? e Hne| | | | | | | |]; subst; cbn; eauto.
  destruct e; try done. by destruct (Hne required).
Qed.

Lemma kv_spec_step_written {E} limit a op key w a' :
  kv_spec_step limit (Some a) op (OutDone (E := Error E) (Ok tt)) a' → written op = Some (key, w) →
  ∃ a1, a' = Some a1 ∧ a1 !! key = w.
Proof.
  intros Hstep Hw. inversion Hstep; subst; cbn in Hw; simplify_eq; eexists; (split; [done|]).
  - by rewrite lookup_insert_eq.
  - by rewrite lookup_delete_eq.
Qed.

(** * Properties *)

(** C1: the store survives power loss. Over every engine that obeys its
    documentation, however many times the firmware restarts on the flash, having
    released it or having lost power in the middle of any call, every start
    opens the store again, and every answer of every life is one the abstract
    key-value machine allows: a write that was cut short is there as a whole or
    not at all, all other keys are untouched, and only an interrupted [clear]
    gives up the contents, until the next complete one. No call panics. *)
Theorem store_survives_power_loss {F M E} `{PowerFailSafe F M E} (SCRATCH : nat)
    (first last : Z) (a : kv_state) (ls : list (life F)) (flash : F) (s : SequentialStore M) :
  sequential_store_new SCRATCH flash first last = Ok s →
  represented a (me_contents flash first last) →
  Forall life_wf ls → lives_possible SCRATCH first last ls flash →
  ∃ oss flash' a' s', run_lives SCRATCH first last ls flash = Ok (oss, flash') ∧
    kv_spec_lives (MAX_VALUE_SIZE SCRATCH) a ls oss a' ∧
    sequential_store_new SCRATCH flash' first last = Ok s' ∧ represents a' s'.
Proof.
  intros [Hok _]%sequential_store_new_Ok Ha Hls Hp.
  destruct (lives_refine SCRATCH first last ls a flash Hok Hls Ha Hp)
    as (oss & flash' & a' & Hrun & Hspec & Hc & Ha').
  rewrite <-Hc in Hok. destruct (new_owns SCRATCH first last flash' Hok) as [Hown Hf].
  eexists oss, flash', a', _. split_and!; [done..|by apply range_ok_new|].
  rewrite (represents_flash first last a' _ _ Hown). by rewrite Hf.
Qed.

Lemma store_survives_power_loss_witness :
  let run := run_lives (E := unit) 64 0 1024 interrupted_lives fresh_flash in
  fst <$> run =
    Ok [[OutDone (Ok tt); OutGet (Ok (Found 2)) [7; 8; 0]]; [OutGet (Ok (Found 1)) [9; 0]];
        [OutGet (Err (BufferTooSmall 1)) []; OutGet (Ok NotFound) [5]]] ∧
  ∃ oss flash' a' s', run = Ok (oss, flash') ∧
    kv_spec_lives (MAX_VALUE_SIZE 64) (Some ∅) interrupted_lives oss a' ∧
    sequential_store_new (E := unit) 64 flash' 0 1024 = Ok s' ∧ represents a' s'.
Proof.
  split; [vm_compute; reflexivity|].
  apply (store_survives_power_loss (E := unit) 64 0 1024 (Some ∅) interrupted_lives fresh_flash
    (Build_SequentialStore (me_new (E := unit) fresh_flash 0 1024))).
  - vm_compute. reflexivity.
  - intros key _. by rewrite !lookup_empty.
  - repeat constructor; vm_compute; done.
  - vm_compute. split_and!; auto.
Defined.

(** C2: an acknowledged write is durable. Once a [put] or a [delete] has
    succeeded, then through any number of restarts and power losses in which
    nothing else writes its key, even those that cut a write of another key,
    the store opens again and [get] shows the value written, or nothing after a
    [delete]; if it fails the caller's buffer is untouched, and a buffer that
    is too small is told the exact size. *)
Theorem acknowledged_write_survives {F M E} `{PowerFailSafe F M E} (SCRATCH : nat)
    (first last : Z) a op key w (s s1 : SequentialStore M) (flash : F) (ls : list (life F)) :
  sequential_store_new SCRATCH flash first last = Ok s →
  represents (Some a) s → kv_op_wf op → written op = Some (key, w) →
  @kv_call _ _ (sequential_kv SCRATCH) op s = (OutDone (Ok tt), s1) →
  Forall life_wf ls → Forall (life_leaves key) ls →
  lives_possible SCRATCH first last ls (into_flash s1) →
  ∃ oss flash' s2, run_lives SCRATCH first last ls (into_flash s1) = Ok (oss, flash') ∧
    sequential_store_new SCRATCH flash' first last = Ok s2 ∧
    ∀ output, let '(r, output', _) := store_get SCRATCH key output s2 in
      get_shows w output r output'.
Proof.
  intros [Hok ->]%sequential_store_new_Ok Ha Hop Hw Hcall Hls Hleave Hp.
  destruct (new_owns SCRATCH first last flash Hok) as [Hown _].
  pose proof (kv_call_owns SCRATCH first last _ op _ Hown) as Hown1.
  pose proof (store_call_refines SCRATCH (Some a) op _ Hop Ha) as Hstep.
  rewrite Hcall in Hown1, Hstep. destruct Hstep as (a' & Hstep & Ha1). cbn [snd] in Hown1.
  destruct (kv_spec_step_written _ _ _ _ _ _ Hstep Hw) as (a1 & -> & Hkey).
  pose proof Hown1 as [_ Hcap]. rewrite <-Hcap in Hok.
  rewrite (represents_flash first last _ _ _ Hown1) in Ha1.
  destruct (lives_refine SCRATCH first last ls _ _ Hok Hls Ha1 Hp)
    as (oss & flash' & a2 & Hrun & Hspec & Hc & Ha2).
  destruct (kv_spec_lives_leaves _ _ _ _ _ _ Hspec Hleave) as (a3 & -> & Hkey3).
  rewrite <-Hc in Hok. destruct (new_owns SCRATCH first last flash' Hok) as [Hown2 Hf].
  eexists oss, flash', _. split_and!; [done|by apply range_ok_new|]. intros output.
  assert (key_wf key) as Hk by (destruct op; cbn in Hw; by simplify_eq).
  pose proof (store_get_refines SCRATCH a3 key output _ Hk
    ltac:(rewrite (represents_flash first last _ _ _ Hown2), Hf; exact Ha2)) as Hget.
  destruct (store_get _ _ _ _) as [[r output'] s3].
  rewrite <-Hkey, <-Hkey3. by eapply kv_spec_step_get, Hget.
Qed.

Lemma acknowledged_write_survives_witness :
  let k := key_new 1 2 in
  let s := Build_SequentialStore (me_new (E := unit) fresh_flash 0 1024) in
  let s1 := (@kv_call _ _ (sequential_kv (F := ram_flash) 64) (KvPut k [7; 8]) s).2 in
  let flash := into_flash (E := unit) s1 in
  let ls := [Build_life [KvGet k []] (CutDuring (KvPut (key_new 1 3) [1]) flash);
             Build_life [KvPut (key_new 1 3) [2]] Released] in
  ∃ oss flash' s2, run_lives (E := unit) 64 0 1024 ls flash = Ok (oss, flash') ∧
    sequential_store_new (E := unit) 64 flash' 0 1024 = Ok s2 ∧
    ∀ output, let '(r, output', _) := store_get (E := unit) 64 k output s2 in
      get_shows (Some [7; 8]) output r output'.
Proof.
  intros k s s1 flash ls.
  apply (acknowledged_write_survives (E := unit) 64 0 1024 ∅ (KvPut k [7; 8]) k (Some [7; 8]) s s1
    fresh_flash ls).
  - vm_compute. reflexivity.
  - intros key _. by rewrite !lookup_empty.
  - vm_compute. done.
  - reflexivity.
  - vm_compute. reflexivity.
  - repeat constructor; vm_compute; done.
  - repeat constructor; vm_compute; done.
  - vm_compute. split_and!; auto.
Defined.
