(* ===== verification/HostRunner.v ===== *)
(** The [bluetooth_runner] of the three firmwares
    ([firmware/seeed/xiao-esp32c6], [-beacon], [-beacon-scanner]), the future
    that each task joins to its own loop: it polls the host stack, and when that
    fails prints a line and waits before it polls again.

    [join] polls both futures, so what a task does is an [interleaving] of the
    two lists of outputs.  The last part shows that the runner changes nothing
    about what the loop does. *)
From stdpp Require Import prelude list numbers option strings.
From Stdlib Require Import ZArith.
From S2P Require Import Prelude Text BeaconFirmware.
Local Open Scope Z_scope.

(** One turn of a runner's loop: whether [run] returned [Ok]. *)
Definition runner_turn (failed : list Z) (retry_ms : Z) (ok : bool) : list BeaconOutput :=
  if ok then [] else [Line failed; WaitMs retry_ms].

Definition peripheral_runner (runs : list bool) : list BeaconOutput :=
  runs ≫= runner_turn (lit "embedded-sdk bluetooth host runner failed; retrying") 1000.

Definition beacon_runner (runs : list bool) : list BeaconOutput :=
  runs ≫= runner_turn (lit "embedded-sdk beacon host runner failed; retrying")
            BLUETOOTH_RECOVERY_RETRY_MS.

Definition scanner_runner (runs : list bool) : list BeaconOutput :=
  runs ≫= runner_turn (lit "embedded-sdk beacon scanner host runner failed; retrying") 1000.

(** * Joining *)

(** [join(left, right)]: the outputs of both, each in its order. *)
Inductive interleaving {A : Type} : list A → list A → list A → Prop :=
  | interleaving_nil : interleaving [] [] []
  | interleaving_left x left right out :
    interleaving left right out → interleaving (x :: left) right (x :: out)
  | interleaving_right x left right out :
    interleaving left right out → interleaving left (x :: right) (x :: out).

(** A call into the radio, the pins or the controller. *)
Definition is_call (o : BeaconOutput) : bool :=
  match o with Line _ | WaitMs _ => false | _ => true end.

(** A runner only prints and waits, and waits after each line. *)
Definition quiet (outs : list BeaconOutput) : Prop := Forall (λ o, is_call o = false) outs.

(** * Lemmas *)

Lemma interleaving_permutation {A} (left right out : list A) :
  interleaving left right out → out ≡ₚ left ++ right.
Proof.
  induction 1 as [|x left right out _ IH|x left right out _ IH]; [done|by rewrite IH|].
  by rewrite IH, Permutation_middle.
Qed.

Lemma interleaving_filter {A} (p : A → bool) (left right out : list A) :
  interleaving left right out → Forall (λ x, p x = false) left →
  List.filter p out = List.filter p right.
Proof.
  induction 1 as [|x left right out _ IH|x left right out _ IH]; intros Hleft; [done| |].
  - apply Forall_cons in Hleft as [Hx Hleft]. cbn. by rewrite Hx, IH.
  - cbn. by rewrite IH.
Qed.

Lemma runner_quiet failed retry_ms runs : quiet (runs ≫= runner_turn failed retry_ms).
Proof.
  unfold quiet. induction runs as [|[] runs IH]; cbn; [done|done|].
  by repeat constructor.
Qed.

(** A failed run is followed by one line and one pause; a run that returns is
    started again at once. *)
Lemma runner_paced failed retry_ms runs :
  runs ≫= runner_turn failed retry_ms
  = concat (replicate (length (List.filter negb runs)) [Line failed; WaitMs retry_ms]).
Proof. induction runs as [|[] runs IH]; csimpl; [done|exact IH|by rewrite IH]. Qed.

(** Joined to its runner, a task makes the calls of its loop, in its order, and
    no others; all its lines and pauses are those of the two. *)
Theorem join_runner_transparent failed retry_ms runs task out :
  interleaving (runs ≫= runner_turn failed retry_ms) task out →
  List.filter is_call out = List.filter is_call task ∧
  (∀ o, o ∈ out ↔ o ∈ task ∨ (false ∈ runs ∧ (o = Line failed ∨ o = WaitMs retry_ms))).
Proof.
  intros Hjoin. split.
  - by eapply interleaving_filter; [|apply runner_quiet].
  - intros o. rewrite (interleaving_permutation _ _ _ Hjoin), elem_of_app, list_elem_of_bind.
    unfold runner_turn. split.
    + intros [([] & Ho & Hr)|Ho]; [by rewrite elem_of_nil in Ho| |by left].
      right. split; [done|]. by rewrite !elem_of_cons, elem_of_nil in Ho; naive_solver.
    + intros [Ho|[Hr Ho]]; [by right|left]. exists false. split; [|done].
      rewrite !elem_of_cons. naive_solver.
Qed.
