(* ===== verification/RamFlash.v ===== *)
(** The NOR flash in memory of the storage crate's tests
    ([crates/storage/src/lib.rs], [tests]): programming only clears bits,
    erasing works on whole pages, and a budget of bytes makes a write or an
    erase stop half-way, as a power loss does.

    A write that is cut short leaves exactly its first bytes; one that is not
    is read back; neither touches a byte outside its range. *)
From stdpp Require Import prelude list numbers option.
From Stdlib Require Import ZArith.
From S2P Require Import Prelude Storage.
Local Open Scope Z_scope.

Definition CAPACITY : nat := 1024.
Definition PAGE_SIZE : nat := 256.

Inductive FlashError : Type := OutOfBounds | NotAligned | NotErased | Interrupted.

Inductive NorFlashErrorKind : Type := NorNotAligned | NorOutOfBounds | NorOther.

Definition flash_error_kind (e : FlashError) : NorFlashErrorKind :=
  match e with
  | OutOfBounds => NorOutOfBounds
  | NotAligned => NorNotAligned
  | NotErased | Interrupted => NorOther
  end.

Record RamFlash : Type := { ram_bytes : list Z; bytes_until_failure : option nat }.

Definition ram_erased : RamFlash :=
  {| ram_bytes := replicate CAPACITY 0xFF; bytes_until_failure := None |}.

Definition interrupt_after (bytes : nat) (f : RamFlash) : RamFlash :=
  {| ram_bytes := ram_bytes f; bytes_until_failure := Some bytes |}.

Definition ram_store (address : nat) (value : Z) (f : RamFlash) : RamFlash :=
  {| ram_bytes := <[address := value]> (ram_bytes f);
     bytes_until_failure := bytes_until_failure f |}.

(** One byte of the budget; a spent budget is forgotten. *)
Definition spend (f : RamFlash) : res FlashError unit * RamFlash :=
  match bytes_until_failure f with
  | Some O => (Err Interrupted, {| ram_bytes := ram_bytes f; bytes_until_failure := None |})
  | Some (S remaining) =>
    (Ok tt, {| ram_bytes := ram_bytes f; bytes_until_failure := Some remaining |})
  | None => (Ok tt, f)
  end.

Definition write_byte (address : nat) (value : Z) (f : RamFlash) :
    res FlashError unit * RamFlash :=
  match spend f with
  | (Ok _, f) =>
    match ram_bytes f !! address with
    | None => (Panic, f)
    | Some byte =>
      if decide (Z.land byte value = value)
      then (Ok tt, ram_store address (Z.land byte value) f)
      else (Err NotErased, f)
    end
  | r => r
  end.

Fixpoint write_loop (address : nat) (values : list Z) (f : RamFlash) :
    res FlashError unit * RamFlash :=
  match values with
  | [] => (Ok tt, f)
  | value :: values =>
    match write_byte address value f with
    | (Ok _, f) => write_loop (S address) values f
    | r => r
    end
  end.

Definition erase_byte (address : nat) (f : RamFlash) : res FlashError unit * RamFlash :=
  match spend f with
  | (Ok _, f) =>
    match ram_bytes f !! address with
    | None => (Panic, f)
    | Some _ => (Ok tt, ram_store address 0xFF f)
    end
  | r => r
  end.

(** [for address in from..from + count] *)
Fixpoint erase_loop (address count : nat) (f : RamFlash) : res FlashError unit * RamFlash :=
  match count with
  | O => (Ok tt, f)
  | S count =>
    match erase_byte address f with
    | (Ok _, f) => erase_loop (S address) count f
    | r => r
    end
  end.

Definition ram_read (f : RamFlash) (offset : Z) (bytes : list Z) :
    res FlashError (list Z) * RamFlash :=
  let start := Z.to_nat offset in
  if (length (ram_bytes f) <? start + length bytes)%nat
  then (Err OutOfBounds, f)
  else (Ok (take (length bytes) (drop start (ram_bytes f))), f).

Definition ram_erase (f : RamFlash) (from to : Z) : res FlashError unit * RamFlash :=
  let '(first, last) := (Z.to_nat from, Z.to_nat to) in
  if (last <? first)%nat || (length (ram_bytes f) <? last)%nat
  then (Err OutOfBounds, f) else
  if negb (first mod PAGE_SIZE =? 0)%nat || negb (last mod PAGE_SIZE =? 0)%nat
  then (Err NotAligned, f)
  else erase_loop first (last - first) f.

Definition ram_write (f : RamFlash) (offset : Z) (bytes : list Z) :
    res FlashError unit * RamFlash :=
  let start := Z.to_nat offset in
  if (length (ram_bytes f) <? start + length bytes)%nat
  then (Err OutOfBounds, f)
  else write_loop start bytes f.

#[export] Instance ram_nor_flash : NorFlash RamFlash FlashError := {|
  anor_read_size := 1;
  anor_write_size := 1;
  anor_erase_size := PAGE_SIZE;
  anor_read := ram_read;
  anor_write := ram_write;
  anor_erase := ram_erase;
  anor_capacity f := Z.of_nat (length (ram_bytes f))
|}.

(** * Specification *)

(** The bytes after [values] were written over them at [start]. *)
Definition patch (start : nat) (values bytes : list Z) : list Z :=
  take start bytes ++ values ++ drop (start + length values) bytes.

(** Every value only clears bits of the byte it replaces. *)
Definition programmable (start : nat) (values bytes : list Z) : Prop :=
  Forall2 (λ byte value, Z.land byte value = value)
    (take (length values) (drop start bytes)) values.

(** How far a call of [count] bytes gets, and what is left of the budget. *)
Definition progress (f : RamFlash) (count : nat) : nat :=
  match bytes_until_failure f with None => count | Some k => k `min` count end.

Definition budget_after (f : RamFlash) (count : nat) : option nat :=
  match bytes_until_failure f with
  | Some k => if decide (k < count)%nat then None else Some (k - count)%nat
  | None => None
  end.

(** A call that would put [values] at [start]: it succeeds when the budget
    covers them, and otherwise stops with exactly the paid ones in place. *)
Definition stored (start : nat) (values : list Z) (f : RamFlash) :
    res FlashError unit * RamFlash :=
  let n := progress f (length values) in
  (if decide (n = length values) then Ok tt else Err Interrupted,
   {| ram_bytes := patch start (take n values) (ram_bytes f);
      bytes_until_failure := budget_after f (length values) |}).

(** * Lemmas *)

Lemma patch_nil start bytes : patch start [] bytes = bytes.
Proof. unfold patch. cbn. rewrite Nat.add_0_r. apply take_drop. Qed.

Lemma patch_length start values bytes :
  (start + length values ≤ length bytes)%nat → length (patch start values bytes) = length bytes.
Proof. intros. unfold patch. rewrite !length_app, length_take, length_drop. lia. Qed.

Lemma patch_cons start value values bytes :
  (start < length bytes)%nat →
  patch (S start) values (<[start := value]> bytes) = patch start (value :: values) bytes.
Proof.
  intros Hlt. unfold patch. cbn [length].
  rewrite drop_insert_lt by lia.
  erewrite take_S_r by (apply list_lookup_insert_eq; lia).
  rewrite take_insert_ge by lia. rewrite <-app_assoc. cbn.
  by rewrite Nat.add_succ_r.
Qed.

Lemma patch_read start values bytes :
  (start + length values ≤ length bytes)%nat →
  take (length values) (drop start (patch start values bytes)) = values.
Proof.
  intros. unfold patch. rewrite drop_app_length' by (rewrite length_take; lia).
  by rewrite take_app_length.
Qed.

Lemma patch_outside start values bytes i :
  (start + length values ≤ length bytes)%nat →
  (i < start ∨ start + length values ≤ i)%nat → patch start values bytes !! i = bytes !! i.
Proof.
  intros Hlen [Hi|Hi]; unfold patch.
  - rewrite lookup_app_l by (rewrite length_take; lia). by apply lookup_take_lt.
  - rewrite lookup_app_r, lookup_app_r by (rewrite length_take; lia).
    rewrite lookup_drop, length_take. f_equal. lia.
Qed.

Lemma programmable_cons start value values bytes byte :
  bytes !! start = Some byte →
  programmable start (value :: values) bytes ↔
  Z.land byte value = value ∧ programmable (S start) values bytes.
Proof.
  intros Hb. unfold programmable. rewrite (drop_S _ _ _ Hb). cbn.
  split; [by inversion 1 | intros []; by constructor].
Qed.

Lemma programmable_insert start value values bytes :
  programmable (S start) values (<[start := value]> bytes) ↔ programmable (S start) values bytes.
Proof. unfold programmable. by rewrite drop_insert_lt by lia. Qed.

Lemma programmable_erased start values bytes :
  Forall (λ value, 0 ≤ value < 256) values →
  take (length values) (drop start bytes) = replicate (length values) 0xFF →
  programmable start values bytes.
Proof.
  unfold programmable. intros Hv ->. induction Hv; cbn; constructor; [|done].
  change 0xFF with (Z.ones 8). rewrite Z.land_comm, Z.land_ones by lia.
  by apply Z.mod_small.
Qed.

(** The step all loops share: a paid byte moves into place. *)
Lemma stored_cons start value values f f' :
  spend f = (Ok tt, f') → (start < length (ram_bytes f))%nat →
  stored (S start) values (ram_store start value f') = stored start (value :: values) f.
Proof.
  unfold spend, stored, progress, budget_after, ram_store. intros Hs Hlt.
  destruct (bytes_until_failure f) as [[|k]|] eqn:Hb; simplify_eq; cbn -[patch decide].
  - rewrite patch_cons by done. repeat case_decide; simpl; try lia; done.
  - rewrite Hb. cbn -[patch decide]. rewrite patch_cons by done.
    repeat case_decide; simpl; try lia; done.
Qed.

Lemma stored_nil start f : stored start [] f = (Ok tt, f).
Proof.
  unfold stored, progress, budget_after. destruct f as [bytes [k|]]; cbn -[patch decide];
    rewrite ?Nat.min_0_r, patch_nil, decide_True by done; [|done].
  by rewrite decide_False, Nat.sub_0_r by lia.
Qed.

Lemma stored_spent start value values f :
  bytes_until_failure f = Some 0%nat →
  stored start (value :: values) f = (Err Interrupted, (spend f).2).
Proof.
  intros Hb. unfold stored, progress, budget_after, spend. rewrite Hb. cbn -[patch].
  by rewrite patch_nil.
Qed.

Lemma spend_cases f :
  (bytes_until_failure f = Some 0%nat ∧ (spend f).1 = Err Interrupted) ∨
  ∃ f', spend f = (Ok tt, f') ∧ ram_bytes f' = ram_bytes f.
Proof. unfold spend. destruct f as [bytes [[|k]|]]; cbn; eauto. Qed.

Lemma write_loop_stored values : ∀ start f,
  (start + length values ≤ length (ram_bytes f))%nat →
  programmable start values (ram_bytes f) →
  write_loop start values f = stored start values f.
Proof.
  induction values as [|value values IH]; intros start f Hlen Hp; [by rewrite stored_nil|].
  cbn in Hlen |- *. destruct (lookup_lt_is_Some_2 (ram_bytes f) start) as [byte Hb]; [lia|].
  destruct (proj1 (programmable_cons _ _ _ _ _ Hb) Hp) as [Hbyte Hrest].
  unfold write_byte. destruct (spend_cases f) as [[Hs Hr]|(f' & Hs & Hf)].
  - rewrite stored_spent by done. destruct (spend f) as [r f'']. cbn in Hr. by subst r.
  - rewrite Hs, Hf, Hb, decide_True by done. rewrite Hbyte, <-(stored_cons _ _ _ _ f') by (done || lia).
    apply IH; cbn; rewrite Hf; [rewrite length_insert; lia | by apply programmable_insert].
Qed.

Lemma erase_loop_stored count : ∀ start f,
  (start + count ≤ length (ram_bytes f))%nat →
  erase_loop start count f = stored start (replicate count 0xFF) f.
Proof.
  induction count as [|count IH]; intros start f Hlen; [by rewrite stored_nil|].
  cbn [erase_loop replicate].
  destruct (lookup_lt_is_Some_2 (ram_bytes f) start) as [byte Hb]; [lia|].
  unfold erase_byte. destruct (spend_cases f) as [[Hs Hr]|(f' & Hs & Hf)].
  - rewrite stored_spent by done. destruct (spend f) as [r f'']. cbn in Hr. by subst r.
  - rewrite Hs, Hf, Hb, <-(stored_cons _ _ _ _ f') by (done || lia).
    apply IH. cbn. rewrite Hf, length_insert. lia.
Qed.

(** Writing inside the device over bytes it may still clear stops exactly where
    the power fails: the bytes paid for are in place, no other byte changed. *)
Theorem ram_write_exact f offset bytes :
  (Z.to_nat offset + length bytes ≤ length (ram_bytes f))%nat →
  programmable (Z.to_nat offset) bytes (ram_bytes f) →
  ram_write f offset bytes = stored (Z.to_nat offset) bytes f.
Proof.
  intros Hlen Hp. unfold ram_write. destruct (Nat.ltb_spec (length (ram_bytes f))
    (Z.to_nat offset + length bytes)); [lia|]. by apply write_loop_stored.
Qed.

Theorem ram_erase_exact f from to :
  0 ≤ from ≤ to → to ≤ Z.of_nat (length (ram_bytes f)) →
  (Z.to_nat from mod PAGE_SIZE = 0)%nat → (Z.to_nat to mod PAGE_SIZE = 0)%nat →
  ram_erase f from to =
  stored (Z.to_nat from) (replicate (Z.to_nat to - Z.to_nat from) 0xFF) f.
Proof.
  intros Hr Hlen Hf Ht. unfold ram_erase.
  destruct (Nat.ltb_spec (Z.to_nat to) (Z.to_nat from)); [lia|].
  destruct (Nat.ltb_spec (length (ram_bytes f)) (Z.to_nat to)); [lia|].
  rewrite Hf, Ht. apply erase_loop_stored. lia.
Qed.

(** Nothing written after an erase of its pages is lost. *)
Theorem ram_erase_write_read f from to offset bytes buffer :
  bytes_until_failure f = None → 0 ≤ from ≤ offset →
  offset + Z.of_nat (length bytes) ≤ to → to ≤ Z.of_nat (length (ram_bytes f)) →
  (Z.to_nat from mod PAGE_SIZE = 0)%nat → (Z.to_nat to mod PAGE_SIZE = 0)%nat →
  Forall (λ byte, 0 ≤ byte < 256) bytes → length buffer = length bytes →
  ∃ erased written, ram_erase f from to = (Ok tt, erased) ∧
    ram_write erased offset bytes = (Ok tt, written) ∧
    ram_read written offset buffer = (Ok bytes, written) ∧
    ∀ i, (i < Z.to_nat from ∨ Z.to_nat to ≤ i)%nat → ram_bytes written !! i = ram_bytes f !! i.
Proof.
  intros Hb Hfrom Hto Hlen Hfa Hta Hbytes Hbuf.
  rewrite ram_erase_exact by (done || lia). unfold stored, progress. rewrite Hb.
  rewrite decide_True, firstn_all by done.
  set (page := replicate (Z.to_nat to - Z.to_nat from) 0xFF).
  assert (length page = Z.to_nat to - Z.to_nat from)%nat as Hpage by apply length_replicate.
  set (erased := {| ram_bytes := patch (Z.to_nat from) page (ram_bytes f);
                    bytes_until_failure := budget_after f (length page) |}).
  assert (length (ram_bytes erased) = length (ram_bytes f)) as Herased
    by (apply patch_length; lia).
  exists erased, (stored (Z.to_nat offset) bytes erased).2.
  assert (bytes_until_failure erased = None) as Hbe by (cbn; unfold budget_after; by rewrite Hb).
  split; [done|]. rewrite ram_write_exact.
  - unfold stored, progress. rewrite Hbe, decide_True, firstn_all by done. cbn -[patch erased].
    split; [done|]. split.
    + unfold ram_read. rewrite Hbuf. cbn -[patch erased Nat.ltb].
      rewrite patch_length by lia. case_match eqn:Hl; [apply Nat.ltb_lt in Hl; lia|].
      by rewrite patch_read by lia.
    + intros i Hi. rewrite patch_outside by lia. cbn. by apply patch_outside; lia.
  - lia.
  - apply programmable_erased; [done|]. cbn. unfold patch, page.
    rewrite drop_app_ge by (rewrite length_take; lia). rewrite length_take.
    rewrite drop_app_le by (rewrite length_replicate; lia).
    rewrite take_app_le by (rewrite length_drop, length_replicate; lia).
    rewrite drop_replicate, take_replicate. f_equal. lia.
Qed.
