(* ===== verification/HostTests.v ===== *)
(** The repository's own tests, run on the model: [tests/host/src/lib.rs] and
    the [tests] modules of the portable crates, the board and the build tool.

    A test is a computation that panics when an assertion or an [unwrap] fails;
    that each of them [passes] is checked by evaluation.  The tests of
    [mqtt-minimq] and [storage] that go through a third-party engine are
    computations over any such engine, evaluated on one that reads the tests'
    packets ([wire_engine]) and on the flash map in memory ([ram_engine]). *)
From stdpp Require Import prelude list numbers option strings.
From Stdlib Require Import ZArith.
From S2P Require Import Prelude Text Wifi Bluetooth Foundation Networking Mqtt MqttClient.
From S2P Require Import Storage PowerLoss RamFlash HostStd XtaskRegistry.
Local Open Scope Z_scope.

(** * Tests *)

(** A test returns or panics; it has no errors of its own. *)
Abbreviation Test := (res Empty_set).

Definition unwrap {E A} (r : res E A) : Test A :=
  match r with Ok a => Ok a | _ => Panic end.

Definition unwrap_err {E A} (r : res E A) : Test E :=
  match r with Err e => Ok e | _ => Panic end.

Definition some_or_panic {A} (o : option A) : Test A :=
  match o with Some a => Ok a | None => Panic end.

(** [assert!] and [assert_eq!] *)
Definition assert (b : bool) : Test unit := if b then Ok tt else Panic.
Definition assert_eq {A} `{EqDecision A} (a b : A) : Test unit := assert (bool_decide (a = b)).

Definition is_ok_b {E A} (r : res E A) : bool := match r with Ok _ => true | _ => false end.

(** [assert_eq!(r, Err(e))] *)
Definition assert_err {E A} `{EqDecision E} (r : res E A) (e : E) : Test unit :=
  found ← unwrap_err r; assert_eq found e.

Definition passes (t : Test unit) : bool := is_ok_b t.

(** Runs every test of a module. *)
Definition all_pass (ts : list (Test unit)) : bool := forallb passes ts.

(** [str::contains] for a text. *)
Fixpoint contains_text (needle l : list Z) : bool :=
  starts_with needle l || match l with [] => false | _ :: l => contains_text needle l end.

Lemma passes_bind {A} (t : Test A) (k : A → Test unit) :
  passes (t ≫= k) = true ↔ ∃ a, t = Ok a ∧ passes (k a) = true.
Proof. destruct t; cbn; naive_solver. Qed.

(** * Wi-Fi *)

#[export] Instance ScanSummary_eq_dec : EqDecision ScanSummary.
Proof. solve_decision. Defined.

Definition validates_station_identity_and_secret_lengths : Test unit :=
  ssid ← unwrap (ssid_try_from (lit "factory-network"));
  passphrase ← unwrap (passphrase_new (lit "commission-me"));
  station ← unwrap (station_personal ssid passphrase AuthWpa2Wpa3Personal);
  name ← ssid_as_str (station_ssid station);
  _ ← assert_eq name (Some (lit "factory-network"));
  _ ← assert_eq (passphrase_size <$> station_passphrase station) (Some 13);
  _ ← assert_err (passphrase_new (lit "short")) InvalidPassphrase;
  empty ← unwrap (ssid_try_from (lit ""));
  e ← unwrap_err (station_open empty);
  assert_eq e EmptySsid.

Definition secrets_are_redacted_from_debug_output : Test unit :=
  passphrase ← unwrap (passphrase_new (lit "do-not-log-this"));
  let rendered := passphrase_debug passphrase in
  _ ← assert_eq rendered (lit "Passphrase(**REDACTED**)");
  assert (negb (contains_text (lit "do-not-log-this") rendered)).

Definition summarizes_scan_without_network_identity : Test unit :=
  one ← unwrap (ssid_try_from (lit "one"));
  two ← unwrap (ssid_try_from (lit "two"));
  let access_points := [
    {| ap_ssid := one; ap_bssid := replicate 6 0; ap_channel := 1;
       ap_signal_strength_dbm := -72; ap_security := SecWpa2Personal |};
    {| ap_ssid := two; ap_bssid := replicate 6 1; ap_channel := 6;
       ap_signal_strength_dbm := -48; ap_security := SecWpa3Personal |} ] in
  assert_eq (scan_summary access_points)
    {| access_points := 2; strongest_signal_dbm := Some (-48) |}.

Definition reconnect_backoff_is_exponential_bounded_and_resettable : Test unit :=
  policy ← unwrap (wifi_policy_new 1000 5000 500);
  let backoff := wifi_backoff_new policy in
  '(delay, backoff) ← wifi_next_delay_ms backoff 250;
  _ ← assert_eq delay 1250;
  '(delay, backoff) ← wifi_next_delay_ms backoff 0;
  _ ← assert_eq delay 2000;
  '(delay, backoff) ← wifi_next_delay_ms backoff 500;
  _ ← assert_eq delay 4500;
  '(delay, backoff) ← wifi_next_delay_ms backoff 500;
  _ ← assert_eq delay 5000;
  _ ← assert_eq (wb_attempts backoff) 4;
  let backoff := wifi_backoff_reset backoff in
  _ ← assert_eq (wb_attempts backoff) 0;
  '(delay, _) ← wifi_next_delay_ms backoff 0;
  assert_eq delay 1000.

Definition reconnect_policy_rejects_invalid_bounds : Test unit :=
  _ ← assert_err (wifi_policy_new 0 1000 0) Wifi.InvalidReconnectPolicy;
  _ ← assert_err (wifi_policy_new 2000 1000 0) Wifi.InvalidReconnectPolicy;
  assert_err (wifi_policy_new 1000 1000 1000) Wifi.InvalidReconnectPolicy.

Example wifi_tests_pass : all_pass [
  validates_station_identity_and_secret_lengths; secrets_are_redacted_from_debug_output;
  summarizes_scan_without_network_identity;
  reconnect_backoff_is_exponential_bounded_and_resettable;
  reconnect_policy_rejects_invalid_bounds] = true.
Proof. vm_compute. reflexivity. Qed.

(** * Bluetooth *)

#[export] Instance DeviceName_eq_dec : EqDecision DeviceName.
Proof. solve_decision. Defined.

Definition device_name_is_bounded : Test unit :=
  _ ← assert_err (device_name_new (lit "")) EmptyDeviceName;
  _ ← assert_err (device_name_new (lit "12345678901234567890123")) DeviceNameTooLong;
  name ← unwrap (device_name_new (lit "XIAO ESP32C6 SDK"));
  text ← device_name_as_str name;
  _ ← assert_eq text (lit "XIAO ESP32C6 SDK");
  assert (device_name_size name <=? Z.of_nat MAX_DEVICE_NAME_LEN).

Definition static_random_address_sets_type_bits_and_hci_order : Test unit :=
  let address := address_from_seed [0x10; 0x20; 0x30; 0x40; 0x50; 0x60] in
  _ ← assert_eq address [0xD0; 0x20; 0x30; 0x40; 0x50; 0x60];
  assert_eq (address_to_hci_bytes address) [0x60; 0x50; 0x40; 0x30; 0x20; 0xD0].

Definition degenerate_static_random_addresses_are_avoided : Test unit :=
  let zeroes := address_from_seed (replicate 6 0) in
  let ones := address_from_seed (replicate 6 0xFF) in
  _ ← assert_eq zeroes [0xC0; 0; 0; 0; 0; 1];
  assert_eq ones [0xFF; 0xFF; 0xFF; 0xFF; 0xFF; 0xFE].

Definition beacon_uuid_parses_and_formats_canonical_text : Test unit :=
  uuid ← unwrap (uuid_parse (lit "7A1E1000-4C2A-4F66-A1D4-3F55B55A1000"));
  _ ← assert_eq (uuid_as_bytes uuid)
        [0x7A; 0x1E; 0x10; 0x00; 0x4C; 0x2A; 0x4F; 0x66; 0xA1; 0xD4; 0x3F; 0x55; 0xB5; 0x5A;
         0x10; 0x00];
  _ ← assert_eq (uuid_display uuid) (lit "7a1e1000-4c2a-4f66-a1d4-3f55b55a1000");
  assert_err (uuid_parse (lit "7a1e10004c2a4f66a1d43f55b55a1000")) InvalidBeaconUuid.

Definition ibeacon_payload_uses_network_byte_order : Test unit :=
  let uuid := uuid_from_bytes [0; 1; 2; 3; 4; 5; 6; 7; 8; 9; 10; 11; 12; 13; 14; 15] in
  let payload := manufacturer_payload (ibeacon_new uuid 0x1234 0xABCD (-59)) in
  _ ← assert_eq (take 2 payload) [0x02; 0x15];
  _ ← assert_eq (take 16 (drop 2 payload)) (uuid_as_bytes uuid);
  _ ← assert_eq (take 4 (drop 18 payload)) [0x12; 0x34; 0xAB; 0xCD];
  assert_eq (payload !! 22%nat) (Some 0xC5).

Definition advertising_interval_enforces_legacy_bounds : Test unit :=
  least ← unwrap (interval_from_millis 20);
  _ ← assert_eq (interval_millis least) 20;
  greatest ← unwrap (interval_from_millis 10240);
  _ ← assert_eq (interval_millis greatest) 10240;
  _ ← assert_err (interval_from_millis 19) AdvertisingIntervalOutOfRange;
  assert_err (interval_from_millis 10241) AdvertisingIntervalOutOfRange.

Example bluetooth_tests_pass : all_pass [
  device_name_is_bounded; static_random_address_sets_type_bits_and_hci_order;
  degenerate_static_random_addresses_are_avoided;
  beacon_uuid_parses_and_formats_canonical_text; ibeacon_payload_uses_network_byte_order;
  advertising_interval_enforces_legacy_bounds] = true.
Proof. vm_compute. reflexivity. Qed.

(** * Identities, schema versions and the board *)

Definition capability_sets_are_additive : Test unit :=
  let radio := cap_union CAP_WIFI CAP_BLE in
  _ ← assert (cap_contains radio CAP_WIFI);
  _ ← assert (cap_contains radio CAP_BLE);
  assert (negb (cap_contains radio CAP_THREAD)).

Definition compatibility_requires_same_major_version : Test unit :=
  let reader := schema_new 2 3 in
  _ ← assert (is_compatible_with reader (schema_new 2 1));
  _ ← assert (negb (is_compatible_with reader (schema_new 1 9)));
  assert (negb (is_compatible_with reader (schema_new 2 4))).

Definition board_exposes_esp32c6_radios : Test unit :=
  let capabilities := hw_capabilities (HARDWARE (B := XiaoEsp32c6)) in
  _ ← assert (cap_contains capabilities CAP_WIFI);
  _ ← assert (cap_contains capabilities CAP_BLE);
  assert (cap_contains capabilities CAP_IEEE_802_15_4).

Definition board_pin_contract_matches_xiao : Test unit :=
  _ ← assert_eq USER_LED_GPIO 15;
  assert_eq (I2C_SDA_GPIO, I2C_SCL_GPIO) (22, 23).

Definition board_bluetooth_name_fits_legacy_gap_data : Test unit :=
  assert (length BLUETOOTH_DEVICE_NAME <=? MAX_DEVICE_NAME_LEN)%nat.

Example foundation_tests_pass : all_pass [
  capability_sets_are_additive; compatibility_requires_same_major_version;
  board_exposes_esp32c6_radios; board_pin_contract_matches_xiao;
  board_bluetooth_name_fits_legacy_gap_data] = true.
Proof. vm_compute. reflexivity. Qed.

(** * Network state *)

Definition dns_servers_are_bounded : Test unit :=
  let addresses := [[1; 1; 1; 1]; [8; 8; 8; 8]; [9; 9; 9; 9]] in
  servers ← unwrap (dns_servers_new addresses);
  slice ← dns_as_slice servers;
  _ ← assert_eq slice addresses;
  _ ← assert_eq (dns_len servers) 3;
  assert_err (dns_servers_new (replicate 4 [127; 0; 0; 1])) TooManyDnsServers.

Definition ipv4_prefix_length_is_validated : Test unit :=
  let servers := dns_default in
  _ ← assert (is_ok_b (ipv4_configuration_new [192; 0; 2; 10] 24 None servers));
  assert_err (ipv4_configuration_new [127; 0; 0; 1] 33 None servers) InvalidIpv4PrefixLength.

Definition readiness_keeps_link_ip_and_dns_separate : Test unit :=
  no_dns ← unwrap (ipv4_configuration_new [192; 0; 2; 10] 24 (Some [192; 0; 2; 1]) dns_default);
  dns ← unwrap (dns_servers_new [[192; 0; 2; 53]]);
  with_dns ← unwrap (ipv4_configuration_new (ipv4_address no_dns) (ipv4_prefix_len no_dns)
                       (ipv4_gateway no_dns) dns);
  let link_only := network_snapshot_new LinkUp None in
  _ ← assert (negb (is_ip_ready link_only));
  let stale_configuration := network_snapshot_new LinkDown (Some with_dns) in
  _ ← assert (negb (is_ip_ready stale_configuration));
  _ ← assert (negb (is_dns_ready stale_configuration));
  let ip_only := network_snapshot_new LinkUp (Some no_dns) in
  _ ← assert (is_ip_ready ip_only);
  _ ← assert (negb (is_dns_ready ip_only));
  let ready := network_snapshot_new LinkUp (Some with_dns) in
  _ ← assert (is_ip_ready ready);
  assert (is_dns_ready ready).

Definition maps_link_configuration_and_dns_independently : Test unit :=
  link_only ← unwrap (snapshot_from_parts true None);
  _ ← assert (negb (is_ip_ready link_only));
  let configuration := {| static_address := [192; 0; 2; 10]; static_prefix_len := 24;
                          static_gateway := Some [192; 0; 2; 1];
                          static_dns_servers := [[192; 0; 2; 53]] |} in
  configured ← unwrap (snapshot_from_parts true (Some configuration));
  _ ← assert (is_ip_ready configured);
  _ ← assert (is_dns_ready configured);
  ipv4 ← some_or_panic (snapshot_ipv4 configured);
  _ ← assert_eq (ipv4_address ipv4) [192; 0; 2; 10];
  stale ← unwrap (snapshot_from_parts false (Some configuration));
  _ ← assert (negb (is_ip_ready stale));
  assert (negb (is_dns_ready stale)).

#[export] Instance ResolveError_eq_dec : EqDecision ResolveError.
Proof. solve_decision. Defined.

Definition dns_copy_is_complete_or_an_error : Test unit :=
  let addresses := [IpV4 [192; 0; 2; 1]; IpV4 [192; 0; 2; 2]] in
  let '(r, one) := copy_ipv4_addresses addresses [IPV4_UNSPECIFIED] in
  _ ← assert_err r (OutputTooSmall 2);
  _ ← assert_eq one [IPV4_UNSPECIFIED];
  let '(r, two) := copy_ipv4_addresses addresses (replicate 2 IPV4_UNSPECIFIED) in
  _ ← assert_eq r (Ok 2%nat);
  assert_eq two [[192; 0; 2; 1]; [192; 0; 2; 2]].

Definition empty_dns_result_is_a_failure : Test unit :=
  assert_err (copy_ipv4_addresses [] [IPV4_UNSPECIFIED]).1 ResolveFailed.

Example networking_tests_pass : all_pass [
  dns_servers_are_bounded; ipv4_prefix_length_is_validated;
  readiness_keeps_link_ip_and_dns_separate; maps_link_configuration_and_dns_independently;
  dns_copy_is_complete_or_an_error; empty_dns_result_is_a_failure] = true.
Proof. vm_compute. reflexivity. Qed.

(** * MQTT *)

Definition topic_name (value : list Z) : res Mqtt.ConfigError TopicName :=
  text_new TopicName_spec value.
Definition topic_filter (value : list Z) : res Mqtt.ConfigError TopicFilter :=
  text_new TopicFilter_spec value.
Definition broker_hostname (value : list Z) : res Mqtt.ConfigError BrokerHostname :=
  text_new BrokerHostname_spec value.
Definition client_id (value : list Z) : res Mqtt.ConfigError ClientId :=
  text_new ClientId_spec value.

Definition validates_topics_and_filters : Test unit :=
  _ ← assert (is_ok_b (topic_name (lit "devices/a/telemetry")));
  _ ← assert_err (topic_name (lit "devices/+/telemetry")) InvalidTopicName;
  _ ← assert (is_ok_b (topic_filter (lit "devices/+/commands/#")));
  _ ← assert_err (topic_filter (lit "devices/a#")) InvalidTopicFilter;
  assert_err (topic_filter (lit "devices/#/bad")) InvalidTopicFilter.

Definition validates_host_and_bounded_values : Test unit :=
  _ ← assert (is_ok_b (broker_hostname (lit "broker.example.test")));
  _ ← assert_err (broker_hostname (lit "-broker.test")) InvalidHostname;
  _ ← assert_err (client_id (lit "")) TextEmpty;
  assert_err (broker_port_new 0) InvalidPort.

Definition reconnect_delay_is_exponential_bounded_and_resettable : Test unit :=
  policy ← unwrap (mqtt_policy_new 100 450 25);
  let backoff := policy_backoff policy in
  let '(delay, backoff) := mqtt_next_delay_ms backoff 7 in
  _ ← assert_eq delay 107;
  let '(delay, backoff) := mqtt_next_delay_ms backoff 100 in
  _ ← assert_eq delay 222;
  let '(delay, backoff) := mqtt_next_delay_ms backoff 0 in
  _ ← assert_eq delay 400;
  let '(delay, backoff) := mqtt_next_delay_ms backoff 25 in
  _ ← assert_eq delay 450;
  let backoff := mqtt_backoff_reset backoff in
  assert_eq (mqtt_next_delay_ms backoff 0).1 100.

Definition lifecycle_counters_saturate_and_clear_success_error : Test unit :=
  let snapshot := record_failure KindTransport mqtt_snapshot_default in
  let snapshot := record_connected snapshot in
  let snapshot := record_publish snapshot in
  let snapshot := record_receive snapshot in
  _ ← assert_eq (mq_state snapshot) MqttConnected;
  _ ← assert_eq (last_error snapshot) None;
  assert_eq (failures snapshot, connections snapshot, publishes snapshot, received snapshot)
    (1, 1, 1, 1).

Example mqtt_tests_pass : all_pass [
  validates_topics_and_filters; validates_host_and_bounded_values;
  reconnect_delay_is_exponential_bounded_and_resettable;
  lifecycle_counters_saturate_and_clear_success_error] = true.
Proof. vm_compute. reflexivity. Qed.

(** * The MQTT adapter *)

(** What these tests check is decided before the engine is asked. *)
Section MqttAdapter.
Context `{M : Minimq}.

Definition test_config (maximum_packet_size : Z) : Test Config :=
  host ← unwrap (broker_hostname (lit "broker.example.test"));
  port ← unwrap (broker_port_new 1883);
  id ← unwrap (client_id (lit "adapter-test"));
  unwrap (mqtt_config_new host port id 30 60 maximum_packet_size).

Definition rejects_credentials_on_plaintext_fixture : Test unit :=
  let rx := replicate 64 0 in
  let tx := replicate 128 0 in
  credentials ← unwrap (credentials_new (B := mq_ConfigError) (lit "user") (lit "secret"));
  config ← test_config 64;
  e ← unwrap_err (client_new config rx tx PlaintextFixture (Some credentials));
  _ ← assert (match e with CredentialsRequireEncryption => true | _ => false end);
  assert_eq (credentials_debug credentials) (lit "Credentials(**REDACTED**)").

Definition rejects_an_rx_buffer_below_the_advertised_limit : Test unit :=
  let rx := replicate 63 0 in
  let tx := replicate 128 0 in
  config ← test_config 64;
  e ← unwrap_err (client_new config rx tx PlaintextFixture None);
  match e with
  | RxBufferTooSmall required available => assert_eq (required, available) (64, 63)
  | _ => Panic
  end.

Lemma mqtt_adapter_tests_pass : all_pass [
  rejects_credentials_on_plaintext_fixture;
  rejects_an_rx_buffer_below_the_advertised_limit] = true.
Proof. vm_compute. reflexivity. Qed.

(** [client.connect(io)], then [connection.resumed()]. *)
Definition connect_unwrap (client : Client) : Test (bool * Client) :=
  let '(r, client) := client_connect client in resumed ← unwrap r; Ok (resumed, client).

Definition connects_publishes_and_receives_over_fragmented_io : Test unit :=
  config ← test_config 64;
  client ← unwrap (client_new config (replicate 64 0) (replicate 256 0) PlaintextFixture None);
  '(resumed, connection) ← connect_unwrap client;
  _ ← assert (negb resumed);
  _ ← assert_eq (mq_state (client_snapshot connection)) MqttConnected;
  topic ← unwrap (topic_name (lit "out"));
  let '(r, connection) := connection_publish topic (lit "value") AtLeastOnce connection in
  _ ← unwrap r;
  inbound ← unwrap (connection_receive connection).1;
  _ ← assert_eq (inbound_topic inbound) (lit "a");
  _ ← assert_eq (inbound_payload inbound) (lit "x");
  assert (match inbound_qos inbound with AtMostOnce => true | AtLeastOnce => false end).

Definition normalizes_broker_rejection_and_retains_diagnostic_state : Test unit :=
  config ← test_config 64;
  client ← unwrap (client_new config (replicate 64 0) (replicate 128 0) PlaintextFixture None);
  let '(r, client) := client_connect client in
  error ← unwrap_err r;
  _ ← assert_eq (mqtt_error_kind error) KindProtocol;
  _ ← assert_eq (mq_state (client_snapshot client)) BackingOff;
  assert_eq (failures (client_snapshot client)) 1.

Definition reports_broker_session_resumption_across_transports : Test unit :=
  config ← test_config 64;
  client ← unwrap (client_new config (replicate 64 0) (replicate 128 0) PlaintextFixture None);
  '(resumed, client) ← connect_unwrap client;
  _ ← assert (negb resumed);
  '(resumed, client) ← connect_unwrap client;
  _ ← assert resumed;
  assert_eq (resumptions (client_snapshot client)) 1.
End MqttAdapter.

(** The transport of these tests: it reads one byte at a time and writes at
    most two; a read with nothing left is pending forever ([None]). *)
Record FragmentedIo : Type := { fragmented_rx : list Z; fragmented_tx : list Z }.

Definition fragmented_new (rx : list Z) : FragmentedIo :=
  {| fragmented_rx := rx; fragmented_tx := [] |}.

(** The number of bytes read, and the buffer afterwards. *)
Definition fragmented_read (buffer : list Z) (io : FragmentedIo) :
    option (nat * list Z) * FragmentedIo :=
  if bool_decide (buffer = []) then (Some (0%nat, buffer), io) else
  match fragmented_rx io with
  | byte :: rx => (Some (1%nat, <[0%nat := byte]> buffer),
                   {| fragmented_rx := rx; fragmented_tx := fragmented_tx io |})
  | [] => (None, io)
  end.

Definition fragmented_write (buffer : list Z) (io : FragmentedIo) : nat * FragmentedIo :=
  let len := (length buffer `min` 2)%nat in
  (len, {| fragmented_rx := fragmented_rx io;
           fragmented_tx := fragmented_tx io ++ take len buffer |}).

(** An engine's [read_exact] and [write_all] over it: every byte arrives, in
    order. *)
Fixpoint read_exact (count : nat) (io : FragmentedIo) : option (list Z) * FragmentedIo :=
  match count with
  | O => (Some [], io)
  | S count =>
    match fragmented_read [0] io with
    | (Some (_, buffer), io) =>
      let '(rest, io) := read_exact count io in (app buffer <$> rest, io)
    | (None, io) => (None, io)
    end
  end.

Fixpoint write_all (fuel : nat) (buffer : list Z) (io : FragmentedIo) : FragmentedIo :=
  match fuel, buffer with
  | S fuel, _ :: _ =>
    let '(len, io) := fragmented_write buffer io in write_all fuel (drop len buffer) io
  | _, _ => io
  end.

Lemma read_exact_all bytes rest tx :
  read_exact (length bytes) {| fragmented_rx := bytes ++ rest; fragmented_tx := tx |}
  = (Some bytes, {| fragmented_rx := rest; fragmented_tx := tx |}).
Proof. induction bytes as [|byte bytes IH]; [done|]. cbn -[fragmented_read]. cbn. by rewrite IH. Qed.

Lemma write_all_sent fuel buffer io :
  (length buffer ≤ fuel)%nat →
  fragmented_tx (write_all fuel buffer io) = fragmented_tx io ++ buffer.
Proof.
  revert buffer io. induction fuel as [|fuel IH]; intros buffer io Hlen.
  { destruct buffer; [cbn; by rewrite app_nil_r|cbn in Hlen; lia]. }
  destruct buffer as [|b buffer]; [cbn; by rewrite app_nil_r|].
  cbn [write_all]. unfold fragmented_write. rewrite IH by (rewrite length_drop; cbn in *; lia).
  cbn [fragmented_tx]. by rewrite <-app_assoc, take_drop.
Qed.

(** An engine for these tests' packets, the CONNACK and QoS 0 PUBLISH of MQTT 5
    without properties, over the transports it is given in turn. *)
Record wire_session : Type := { wire_next : list FragmentedIo; wire_io : FragmentedIo }.

Definition wire_connect (s : wire_session) :
    res (MqError unit unit unit) ConnectEvent * wire_session :=
  match wire_next s with
  | [] => (Err MqDisconnected, s)
  | io :: next =>
    let '(packet, io) := read_exact 5 io in
    (match packet with
     | Some [0x20; 3; flags; reason; 0] =>
       if reason =? 0 then Ok (if flags =? 0 then EventConnected else EventReconnected)
       else Err (MqPeer tt)
     | _ => Err (MqPeer tt)
     end, {| wire_next := next; wire_io := io |})
  end.

Definition wire_receive (s : wire_session) :
    res (MqError unit unit unit) MqPublish * wire_session :=
  let '(header, io) := read_exact 4 (wire_io s) in
  match header with
  | Some [0x30; remaining; high; low] =>
    let topic_len := Z.to_nat (high * 256 + low) in
    let '(body, io) := read_exact (Z.to_nat remaining - 2) io in
    (match body with
     | Some body =>
       Ok {| mp_topic := take topic_len body; mp_payload := drop (S topic_len) body;
             mp_qos := MqAtMostOnce; mp_retained := false |}
     | None => Err MqDisconnected
     end, {| wire_next := wire_next s; wire_io := io |})
  | _ => (Err (MqPeer tt), {| wire_next := wire_next s; wire_io := io |})
  end.

Definition wire_send (bytes : list Z) (s : wire_session) : wire_session :=
  {| wire_next := wire_next s; wire_io := write_all (length bytes) bytes (wire_io s) |}.

Definition wire_engine (transports : list (list Z)) : Minimq := {|
  mq_Builder := unit;
  mq_Session := wire_session;
  mq_ConfigError := unit;
  mq_IoError := unit;
  mq_PeerError := unit;
  mq_ResourceError := unit;
  mq_InvalidPacket := tt;
  mq_builder _ _ := tt;
  mq_client_id b _ := Ok b;
  mq_keepalive b _ := b;
  mq_session_expiry b _ := b;
  mq_auth b _ _ := Ok b;
  mq_session _ :=
    {| wire_next := fragmented_new <$> transports; wire_io := fragmented_new [] |};
  mq_max_rx _ := 64;
  mq_max_tx _ := 256;
  mq_is_connected _ := true;
  mq_connect := wire_connect;
  mq_publish s topic payload _ := (Ok tt, wire_send (topic ++ payload) s);
  mq_subscribe s filter _ := (Ok tt, wire_send filter s);
  mq_unsubscribe s filter := (Ok tt, wire_send filter s);
  mq_drive s := let '(r, s) := wire_receive s in (Some <$> r, s);
  mq_recv := wire_receive;
  mq_disconnect s := (Ok tt, s)
|}.

Example mqtt_connection_tests_pass : all_pass [
  connects_publishes_and_receives_over_fragmented_io
    (M := wire_engine [[0x20; 0x03; 0x00; 0x00; 0x00;
                        0x30; 0x05; 0; 1; 0x61; 0; 0x78]]);
  normalizes_broker_rejection_and_retains_diagnostic_state
    (M := wire_engine [[0x20; 0x03; 0x00; 0x87; 0x00]]);
  reports_broker_session_resumption_across_transports
    (M := wire_engine [[0x20; 0x03; 0x00; 0x00; 0x00]; [0x20; 0x03; 0x01; 0x00; 0x00]])] = true.
Proof. vm_compute. reflexivity. Qed.

(** * Storage *)

#[export] Instance Fetch_eq_dec : EqDecision Fetch.
Proof. solve_decision. Defined.

#[export] Instance storage_ConfigError_eq_dec : EqDecision Storage.ConfigError.
Proof. solve_decision. Defined.

Definition keys_have_stable_namespaced_representation : Test unit :=
  let key := key_new 0x1234 0xABCD in
  _ ← assert_eq (key_to_raw key) 0x1234ABCD;
  _ ← assert_eq (key_from_raw (key_to_raw key)) key;
  _ ← assert_eq (key_namespace key) 0x1234;
  assert_eq (key_record key) 0xABCD.

(** The tests over any flash map engine: [erased] and [interrupt_after] are those
    of the flash it keeps its records in. *)
Section StorageTests.
Context {F M E : Type} `{MapEngine F M E} (erased : F) (interrupt_after : nat → F → F).

Definition test_store (flash : F) (first last : Z) :
    res Storage.ConfigError (SequentialStore M) :=
  sequential_store_new (E := E) 64 flash first last.

Definition open_store (flash : F) : Test (SequentialStore M) :=
  unwrap (test_store flash 0 (Z.of_nat CAPACITY)).

(** [store.put(key, value).await.unwrap()] *)
Definition put_unwrap (key : Key) (value : list Z) (store : SequentialStore M) :
    Test (SequentialStore M) :=
  let '(r, store) := store_put (E := E) 64 key value store in _ ← unwrap r; Ok store.

Definition get_unwrap (key : Key) (output : list Z) (store : SequentialStore M) :
    Test (Fetch * list Z * SequentialStore M) :=
  let '(r, output, store) := store_get (E := E) 64 key output store in
  found ← unwrap r; Ok (found, output, store).

Definition values_survive_reopen_update_delete_and_clear : Test unit :=
  let first := key_new 1 1 in
  let second := key_new 2 1 in
  store ← open_store erased;
  store ← put_unwrap first (lit "old") store;
  store ← put_unwrap second (lit "other namespace") store;
  store ← put_unwrap first (lit "new value") store;
  let flash := into_flash (E := E) store in
  reopened ← open_store flash;
  '(found, output, reopened) ← get_unwrap first (replicate 32 0) reopened;
  _ ← assert_eq found (Found 9);
  len ← some_or_panic (found_len found);
  _ ← assert_eq (take len output) (lit "new value");
  let '(r, reopened) := store_delete (E := E) 64 first reopened in
  _ ← unwrap r;
  '(found, output, reopened) ← get_unwrap first output reopened;
  _ ← assert_eq found NotFound;
  '(found, output, reopened) ← get_unwrap second output reopened;
  _ ← assert_eq (found_len found) (Some 15%nat);
  let '(r, reopened) := store_clear (E := E) reopened in
  _ ← unwrap r;
  '(found, _, _) ← get_unwrap second output reopened;
  assert_eq found NotFound.

Definition fetch_never_returns_a_partial_value : Test unit :=
  let key := key_new 7 9 in
  store ← open_store erased;
  store ← put_unwrap key (lit "complete") store;
  let '(r, short, store) := store_get (E := E) 64 key (replicate 3 0xCC) store in
  error ← unwrap_err r;
  _ ← assert (match error with BufferTooSmall 8 => true | _ => false end);
  assert_eq short (replicate 3 0xCC).

Definition rejects_invalid_ranges_and_oversized_values : Test unit :=
  _ ← assert_err (sequential_store_new (E := E) 4 erased 0 (Z.of_nat CAPACITY)) ScratchTooSmall;
  _ ← assert_err (test_store erased 0 (Z.of_nat CAPACITY + Z.of_nat PAGE_SIZE)) RangeOutOfBounds;
  _ ← assert_err (test_store erased 512 256) RangeOutOfBounds;
  _ ← assert_err (test_store erased 1 513) UnalignedStart;
  _ ← assert_err (test_store erased 0 256) RangeTooSmall;
  store ← open_store erased;
  let oversized := replicate (S (MAX_VALUE_SIZE 64)) 0 in
  e ← unwrap_err (store_put (E := E) 64 (key_new 1 1) oversized store).1;
  assert (match e with ValueTooLarge => true | _ => false end).

Definition interrupted_update_recovers_to_one_complete_version : Test unit :=
  let key := key_new 4 2 in
  store ← open_store erased;
  store ← put_unwrap key (lit "before") store;
  let store := flash_mut (E := E) (interrupt_after 7) store in
  let '(r, store) := store_put (E := E) 64 key (lit "after power loss") store in
  e ← unwrap_err r;
  _ ← assert (match e with Backend _ => true | _ => false end);
  let flash := into_flash (E := E) store in
  reopened ← open_store flash;
  '(found, output, _) ← get_unwrap key (replicate 32 0) reopened;
  len ← some_or_panic (found_len found);
  let value := take len output in
  assert (bool_decide (value = lit "before") || bool_decide (value = lit "after power loss")).

(** [u32::to_le_bytes] *)
Definition to_le_bytes (n : Z) : list Z :=
  [n mod 256; n / 256 mod 256; n / 65536 mod 256; n / 16777216 mod 256].

Definition repeated_updates_compact_pages_without_losing_the_live_value : Test unit :=
  let key := key_new 9 1 in
  store ← open_store erased;
  store ← foldl (λ store generation, store ← store; put_unwrap key (to_le_bytes generation) store)
            (Ok store) (seqZ 0 100);
  let flash := into_flash (E := E) store in
  reopened ← open_store flash;
  '(found, output, _) ← get_unwrap key (replicate 4 0) reopened;
  _ ← assert_eq found (Found 4);
  assert_eq output (to_le_bytes 99).

Definition storage_tests : list (Test unit) := [
  keys_have_stable_namespaced_representation;
  values_survive_reopen_update_delete_and_clear; fetch_never_returns_a_partial_value;
  rejects_invalid_ranges_and_oversized_values;
  interrupted_update_recovers_to_one_complete_version;
  repeated_updates_compact_pages_without_losing_the_live_value].
End StorageTests.

(** The engine in memory passes them whether the interrupted write was lost or
    not. *)
Example storage_tests_pass :
  Forall (λ fault, all_pass (storage_tests (E := unit) fresh_flash
      (λ _ flash, {| ram_capacity := ram_capacity flash; ram_records := ram_records flash;
                     ram_faults := [fault] |})) = true) [FaultLost; FaultTorn].
Proof. repeat constructor; vm_compute; reflexivity. Qed.

(** * The build tool *)

Definition default_firmware_uses_the_board_as_its_selector : Test unit :=
  _ ← assert_eq (firmware_selector (lit "xiao-esp32c6") (lit "default")) (lit "xiao-esp32c6");
  assert_eq (firmware_selector (lit "xiao-esp32c6") (lit "beacon")) (lit "xiao-esp32c6/beacon").

Definition legacy_firmware_commands_are_translated_generically : Test unit :=
  let '(args, legacy) :=
    normalize_legacy_args [lit "xtask"; lit "build-xiao-esp32c6-beacon"] in
  _ ← assert_eq args [lit "xtask"; lit "build"; lit "xiao-esp32c6-beacon"];
  assert_eq legacy (Some (lit "build-xiao-esp32c6-beacon")).

Definition build_all_is_not_treated_as_a_legacy_firmware_command : Test unit :=
  let '(args, legacy) := normalize_legacy_args [lit "xtask"; lit "build-all"] in
  _ ← assert_eq args [lit "xtask"; lit "build-all"];
  assert_eq legacy None.

Definition cargo_runner_environment_variable_is_derived_from_target : Test unit :=
  assert_eq (cargo_runner_variable (lit "riscv32imac-unknown-none-elf"))
    (lit "CARGO_TARGET_RISCV32IMAC_UNKNOWN_NONE_ELF_RUNNER").

Example xtask_tests_pass : all_pass [
  default_firmware_uses_the_board_as_its_selector;
  legacy_firmware_commands_are_translated_generically;
  build_all_is_not_treated_as_a_legacy_firmware_command;
  cargo_runner_environment_variable_is_derived_from_target] = true.
Proof. vm_compute. reflexivity. Qed.

(** * The integration tests *)

Definition xiao_esp32c6_descriptor_is_available_without_cross_compiling : Test unit :=
  let hardware := HARDWARE (B := XiaoEsp32c6) in
  _ ← assert_eq (hw_board hardware) (lit "xiao-esp32c6");
  _ ← assert_eq (hw_chip hardware) (lit "esp32c6");
  _ ← assert (cap_contains (hw_capabilities hardware) CAP_WIFI);
  assert (cap_contains (hw_capabilities hardware) CAP_BLE).

Definition persistent_schema_policy_is_backwards_compatible_within_major_version : Test unit :=
  let current := schema_new 1 2 in
  _ ← assert (is_compatible_with current (schema_new 1 0));
  assert (negb (is_compatible_with current (schema_new 2 0))).

Definition facade_exposes_portable_wifi_configuration : Test unit :=
  ssid ← unwrap (ssid_try_from (lit "test-network"));
  passphrase ← unwrap (passphrase_new (lit "test-password"));
  station ← unwrap (station_personal ssid passphrase AuthWpa2Wpa3Personal);
  name ← ssid_as_str (station_ssid station);
  assert_eq name (Some (lit "test-network")).

Definition facade_exposes_portable_bluetooth_configuration : Test unit :=
  name ← unwrap (device_name_new (lit "test-device"));
  let address := address_from_seed [1; 2; 3; 4; 5; 6] in
  text ← device_name_as_str name;
  _ ← assert_eq text (lit "test-device");
  first ← some_or_panic (address !! 0%nat);
  assert_eq (Z.land first 0xC0) 0xC0.

Definition facade_exposes_portable_ibeacon_configuration : Test unit :=
  uuid ← unwrap (uuid_parse (lit "7a1e1000-4c2a-4f66-a1d4-3f55b55a1000"));
  let beacon := ibeacon_new uuid 1 2 (-59) in
  _ ← assert_eq (interval_millis interval_default) 250;
  _ ← assert_eq (beacon_uuid beacon) uuid;
  assert_eq (take 4 (drop 18 (manufacturer_payload beacon))) [0; 1; 0; 2].

Definition facade_exposes_stable_namespaced_storage_keys : Test unit :=
  let key := key_new 0x0100 0x0002 in
  _ ← assert_eq (key_to_raw key) 0x01000002;
  assert_eq (key_from_raw (key_to_raw key)) key.

Definition facade_exposes_portable_network_readiness : Test unit :=
  dns ← unwrap (dns_servers_new [[192; 0; 2; 53]]);
  configuration ← unwrap (ipv4_configuration_new [192; 0; 2; 10] 24 (Some [192; 0; 2; 1]) dns);
  let snapshot := network_snapshot_new LinkUp (Some configuration) in
  _ ← assert (is_ip_ready snapshot);
  assert (is_dns_ready snapshot).

Definition facade_exposes_bounded_mqtt_configuration : Test unit :=
  host ← unwrap (broker_hostname (lit "broker.example.test"));
  port ← unwrap (broker_port_new 8883);
  id ← unwrap (client_id (lit "host-test-client"));
  config ← unwrap (mqtt_config_new host port id 30 300 1024);
  _ ← assert_eq (port_get (config_port config)) 8883;
  _ ← assert (is_ok_b (topic_name (lit "devices/test/telemetry")));
  _ ← assert (is_ok_b (topic_filter (lit "devices/+/commands")));
  assert (negb (is_ok_b (topic_name (lit "devices/+/commands")))).

Example host_tests_pass : all_pass [
  xiao_esp32c6_descriptor_is_available_without_cross_compiling;
  persistent_schema_policy_is_backwards_compatible_within_major_version;
  facade_exposes_portable_wifi_configuration; facade_exposes_portable_bluetooth_configuration;
  facade_exposes_portable_ibeacon_configuration; facade_exposes_stable_namespaced_storage_keys;
  facade_exposes_portable_network_readiness; facade_exposes_bounded_mqtt_configuration] = true.
Proof. vm_compute. reflexivity. Qed.
